(** * Brickell-Research/perf: the benchmark comparator and the corpus generator

    A shallow embedding of [compare.py] and [generate_corpus.py].

    - [Py] holds the few pieces of the Python runtime both programs use:
      string methods, decimal printing, exceptions.
    - [Compare] embeds [compare.py] over IEEE binary64 ([spec_float]).
    - [GenerateCorpus] embeds [generate_corpus.py]; the [random] module is a
      type class of draws with their documented ranges.
    - [Tape] is a source of scripted draws, to run the generator.
    - [Types] holds the type descriptors, their value domains and the
      reader of literals.

    The facts follow: the comparator ([CompareFacts]), expectations and
    blueprints ([GenerateCorpusFacts], [BlueprintFacts]), the synthesizer
    ([Returns] to [SynthesizerFacts], with the reading back of its literals
    in [Reading]), the small profile ([SmallCorpus], [SmallProfile]) and the
    determinism of a generation pass ([Determinism]); then the reports
    of the comparator ([ReportFacts], [ReportOrder]), the type generators
    ([RefinementTypes]), the aliases and the extendables ([Aliases],
    [Extendables]), the blueprint file ([BlueprintFile], [BlueprintItem]),
    a generation pass for every profile ([Teams], [Scale], [Disk]), the
    expectation scaling ([Scaling]) and the program ([Program]). *)

From Stdlib Require Import ZArith NArith QArith Qround Bool List Lia.
From Stdlib Require Import Strings.String Strings.Ascii.
From Stdlib Require Import Numbers.DecimalString Numbers.DecimalN Numbers.DecimalFacts.
From Stdlib Require Import Floats.SpecFloat.
From Stdlib Require Import Sorting.Sorted.
From stdpp Require Import base option gmap strings.

Local Open Scope string_scope.
Local Open Scope Z_scope.
Local Open Scope list_scope.

(** [simpl] may unfold string concatenation on a literal prefix. *)
Arguments String.append !s1 s2 : simpl nomatch.

(** ** The Python runtime, as far as the two programs use it *)
Module Py.

(** Exceptions the programs can raise or catch. *)
Inductive exn : Type :=
| FileNotFoundError (msg : string)
| JSONDecodeError (msg : string)
| KeyError (key : string)
| ZeroDivisionError
| ValueError (msg : string)
| IndexError
| RecursionError.

(** A computation that returns or raises. *)
Inductive result (A : Type) : Type :=
| Return (a : A)
| Raise (e : exn).
Arguments Return {A} a.
Arguments Raise {A} e.

Definition bind {A B} (r : result A) (k : A -> result B) : result B :=
  match r with
  | Return a => k a
  | Raise e => Raise e
  end.

Definition returns {A} (r : result A) : Prop := exists a, r = Return a.

(** [sep.join(parts)] *)
Fixpoint join (sep : string) (parts : list string) : string :=
  match parts with
  | nil => ""
  | p :: nil => p
  | p :: rest => p +:+ sep +:+ join sep rest
  end.

(** [c * n] for a one-character string [c] *)
Fixpoint repeat_char (c : ascii) (n : nat) : string :=
  match n with
  | O => ""
  | S k => String c (repeat_char c k)
  end.

(** [f"{s:<{w}}"] and [f"{s:>{w}}"]: pad with spaces up to width [w]. *)
Definition ljust (w : nat) (s : string) : string :=
  s +:+ repeat_char " " (w - String.length s).
Definition rjust (w : nat) (s : string) : string :=
  repeat_char " " (w - String.length s) +:+ s.

(** [str(n)] for a natural number: its decimal digits. *)
Definition str_N (n : N) : string := NilEmpty.string_of_uint (N.to_uint n).

(** [str(z)] for an integer. *)
Definition str_Z (z : Z) : string :=
  match z with
  | Zneg p => "-" +:+ str_N (Npos p)
  | _ => str_N (Z.to_N z)
  end.

(** *** Characters. A [str] is modelled with code points below 256. *)

Definition code (c : ascii) : N := N_of_ascii c.

(** [c.isspace()], also the class [\s] of [re]. *)
Definition is_space (c : ascii) : bool :=
  let n := code c in
  ((9 <=? n) && (n <=? 13) || (28 <=? n) && (n <=? 32) || (n =? 133) || (n =? 160))%N.

(** The class [\d] of [re]. *)
Definition is_digit (c : ascii) : bool :=
  let n := code c in ((48 <=? n) && (n <=? 57))%N.

(** The class [\w] of [re]. *)
Definition is_word (c : ascii) : bool :=
  let n := code c in
  (is_digit c || (65 <=? n) && (n <=? 90) || (97 <=? n) && (n <=? 122) || (n =? 95)
   || (n =? 170) || (n =? 178) || (n =? 179) || (n =? 181) || (n =? 185) || (n =? 186)
   || (188 <=? n) && (n <=? 190) || (192 <=? n) && (n <=? 214)
   || (216 <=? n) && (n <=? 246) || (248 <=? n))%N.

(** *** String methods *)

(** [s.startswith(p)] *)
Definition startswith (p s : string) : bool := String.prefix p s.

(** [sub in s] *)
Fixpoint contains (sub s : string) : bool :=
  String.prefix sub s ||
  match s with
  | "" => false
  | String _ s' => contains sub s'
  end.

(** [s.lstrip(chars)], [s.rstrip(chars)], [s.strip(chars)], the character
    set given as a predicate. *)
Fixpoint lstrip_with (p : ascii -> bool) (s : string) : string :=
  match s with
  | "" => ""
  | String a s' => if p a then lstrip_with p s' else s
  end.

Fixpoint rstrip_with (p : ascii -> bool) (s : string) : string :=
  match s with
  | "" => ""
  | String a s' =>
      match rstrip_with p s' with
      | "" => if p a then "" else String a ""
      | r => String a r
      end
  end.

Definition strip_with (p : ascii -> bool) (s : string) : string :=
  lstrip_with p (rstrip_with p s).

(** [s.strip()] *)
Definition strip (s : string) : string := strip_with is_space s.

(** [s.split(c)] for a one-character separator. *)
Fixpoint split_char (c : ascii) (s : string) : list string :=
  match s with
  | "" => "" :: nil
  | String a s' =>
      if Ascii.eqb a c then "" :: split_char c s'
      else match split_char c s' with
           | nil => String a "" :: nil
           | piece :: pieces => String a piece :: pieces
           end
  end.

(** [s.split(sep, 1)]: cut at the first occurrence of [sep], if any. *)
Fixpoint split_once (sep s : string) : list string :=
  if String.prefix sep s then "" :: substring (String.length sep) (String.length s) s :: nil
  else match s with
       | "" => "" :: nil
       | String a s' =>
           match split_once sep s' with
           | piece :: pieces => String a piece :: pieces
           | nil => String a "" :: nil
           end
       end.

(** [l[-1]] and [l[0]] of a list of strings that is never empty. *)
Definition last_item (l : list string) : string := List.last l "".
Definition first_item (l : list string) : string := List.hd "" l.

Fixpoint drop (n : nat) (s : string) : string :=
  match n, s with
  | O, _ => s
  | S k, String _ s' => drop k s'
  | S _, "" => ""
  end.

Fixpoint drop_last (s : string) : string :=
  match s with
  | "" => ""
  | String a "" => ""
  | String a s' => String a (drop_last s')
  end.

(** [s[n:-1]] *)
Definition slice_inner (n : nat) (s : string) : string := drop_last (drop n s).

(** The longest prefix of characters in a class, and the rest. *)
Fixpoint span (p : ascii -> bool) (s : string) : string * string :=
  match s with
  | "" => ("", "")
  | String a s' =>
      if p a then let '(run, rest) := span p s' in (String a run, rest)
      else ("", s)
  end.

(** [f'"{s}"'] *)
Definition dquote : ascii := "034"%char.
Definition quoted (s : string) : string := String dquote s +:+ String dquote "".

(** *** Floats of the corpus generator

    A float of [generate_corpus.py] is kept as the rational number it
    denotes. [round_binary64] is IEEE round-to-nearest-even at 53 bits on an
    unbounded exponent range: the generator only reads short decimal
    numerals, far from the subnormal and overflow ranges of binary64. *)

(** [2^z] for an integer exponent. *)
Definition pow2 (z : Z) : Q :=
  if 0 <=? z then inject_Z (2 ^ z) else 1 # Z.to_pos (2 ^ (- z)).

(** Round-half-even of a rational to an integer. *)
Definition round_half_even (x : Q) : Z :=
  let f := Qfloor x in
  match Qcompare (x - inject_Z f) (1 # 2) with
  | Lt => f
  | Gt => f + 1
  | Eq => if Z.even f then f else f + 1
  end.

(** The binade of a positive rational: the [e] with [2^e <= x < 2^(e+1)]. *)
Definition binade (x : Q) : Z :=
  let e := Z.log2 (Qnum x) - Z.log2 (Zpos (Qden x)) in
  if Qle_bool (pow2 e) x then e else e - 1.

Definition round_binary64_pos (x : Q) : Q :=
  let e := binade x in
  inject_Z (round_half_even (x * pow2 (52 - e))) * pow2 (e - 52).

Definition round_binary64 (x : Q) : Q :=
  match Qnum x with
  | Z0 => 0
  | Zpos _ => round_binary64_pos x
  | Zneg _ => - round_binary64_pos (- x)
  end.

Definition Qltb (x y : Q) : bool := negb (Qle_bool y x).

(** [float(s)] for a string of digits and dots, which is all the generator
    passes: a numeral has digits and at most one dot. The result is the
    nearest double as an exact rational, with no bound on the exponent: a
    numeral beyond the largest double, of 309 digits or more, is [inf] in
    Python and is not modelled. *)
Definition float_of_string (s : string) : result Q :=
  let bad := Raise (ValueError ("could not convert string to float: '" +:+ s +:+ "'")) in
  let '(int_part, rest) := span is_digit s in
  let '(frac_part, valid) :=
    match rest with
    | "" => ("", true)
    | String dot rest' =>
        if Ascii.eqb dot "." then
          let '(frac, rest'') := span is_digit rest' in
          (frac, match rest'' with "" => true | _ => false end)
        else ("", false)
    end in
  if negb valid || ((String.length int_part + String.length frac_part)%nat =? 0)%nat then bad
  else
    match NilEmpty.uint_of_string (int_part +:+ frac_part) with
    | Some digits =>
        Return (round_binary64
                  (inject_Z (Z.of_N (N.of_uint digits))
                   / inject_Z (10 ^ Z.of_nat (String.length frac_part))))
    | None => bad
    end.

(** [int(x)] of a finite float: truncation towards zero. ([int(inf)] raises
    [OverflowError]; no infinite value arises here, see [float_of_string].) *)
Definition int_of_float (x : Q) : Z :=
  if Qle_bool 0 x then Qfloor x else - Qfloor (- x).

(** [str(round(x, ndigits))] for [ndigits] 1 or 2 and [0 <= x < 10^15]:
    [round] rounds the exact value half to even at that digit, and [str]
    prints the shortest decimal that reads back, which is that decimal with
    trailing zeros dropped down to one digit after the point. Beyond that
    range the text is not Python's: from [1e16] on [str] prints an exponent.
    The generator writes bounds up to 1000 only. *)
Definition rounded (ndigits : Z) (x : Q) : Z :=
  round_half_even (x * inject_Z (10 ^ ndigits)).

Definition str_decimal (ndigits : Z) (n : Z) : string :=
  if ndigits =? 1 then str_Z (n / 10) +:+ "." +:+ str_Z (n mod 10)
  else if n mod 10 =? 0 then str_Z (n / 100) +:+ "." +:+ str_Z (n mod 100 / 10)
  else str_Z (n / 100) +:+ "." +:+ str_Z (n mod 100 / 10) +:+ str_Z (n mod 10).

Definition str_round (ndigits : Z) (x : Q) : string :=
  str_decimal ndigits (rounded ndigits x).

(** *** The two regular expressions of the generator *)

Definition is_numeral_char (c : ascii) : bool := is_digit c || Ascii.eqb c ".".

Definition skip_spaces (s : string) : string := lstrip_with is_space s.

(** What follows the first group of the range pattern:
    [\s*\.\.\s*([\d.]+)\s*\)]. A greedy [\s*] or [[\d.]+] that gave back
    characters would leave one the next item rejects, so every item takes
    its longest match. Returns the second group. *)
Definition range_tail (s : string) : option string :=
  match skip_spaces s with
  | String a (String b rest) =>
      if Ascii.eqb a "." && Ascii.eqb b "." then
        let '(high, after) := span is_numeral_char (skip_spaces rest) in
        match high, skip_spaces after with
        | String _ _, String c _ => if Ascii.eqb c ")" then Some high else None
        | _, _ => None
        end
      else None
  | _ => None
  end.

(** The first group [([\d.]+)] is greedy: of the characters of [run] it takes
    as many as possible, giving back one at a time until the rest of the
    pattern matches [the given back characters, then rest]. *)
Fixpoint range_groups (run rest : string) : option (string * string) :=
  match run with
  | "" => None
  | String a run' =>
      match range_groups run' rest with
      | Some (low, high) => Some (String a low, high)
      | None =>
          match range_tail (run' +:+ rest) with
          | Some high => Some (String a "", high)
          | None => None
          end
      end
  end.

(** The pattern anchored at the start of [s]. *)
Definition range_match_here (s : string) : option (string * string) :=
  match s with
  | String a s' =>
      if Ascii.eqb a "(" then
        let '(run, rest) := span is_numeral_char (skip_spaces s') in
        range_groups run rest
      else None
  | "" => None
  end.

(** [re.search(r'\(\s*([\d.]+)\s*\.\.\s*([\d.]+)\s*\)', s)]: the groups of
    the leftmost match. *)
Fixpoint search_range (s : string) : option (string * string) :=
  match range_match_here s with
  | Some groups => Some groups
  | None =>
      match s with
      | "" => None
      | String _ s' => search_range s'
      end
  end.

(** [re.findall(r'(\w+): (\w+)', s)]. Both groups are greedy runs of word
    characters; a run that gave back characters would be followed by a word
    character, not by the colon or by the end of the match, so each group is
    a longest run. The scan resumes after a match, or one character on. The
    positions to try are the suffixes of [s]; [skip] counts the characters
    still covered by the last match. *)
Definition field_match_here (s : string) : option (string * string * nat) :=
  let '(name, rest) := span is_word s in
  match name, rest with
  | String _ _, String a (String b rest') =>
      if Ascii.eqb a ":" && Ascii.eqb b " " then
        let '(type, _) := span is_word rest' in
        match type with
        | String _ _ =>
            Some (name, type, (String.length name + 2 + String.length type)%nat)
        | "" => None
        end
      else None
  | _, _ => None
  end.

Fixpoint findall_fields_from (skip : nat) (s : string) : list (string * string) :=
  match skip with
  | S skip' =>
      match s with
      | "" => nil
      | String _ s' => findall_fields_from skip' s'
      end
  | O =>
      match field_match_here s with
      | Some (name, type, len) =>
          (name, type) ::
          match s with
          | "" => nil
          | String _ s' => findall_fields_from (len - 1) s'
          end
      | None =>
          match s with
          | "" => nil
          | String _ s' => findall_fields_from 0 s'
          end
      end
  end.

Definition findall_fields (s : string) : list (string * string) :=
  findall_fields_from 0 s.

End Py.
(** ** compare.py *)
Module Compare.
Import Py.

(** Python floats are IEEE binary64. *)
Definition float : Type := spec_float.
Definition prec : Z := 53.
Definition emax : Z := 1024.

Definition float_of_Z (z : Z) : float := binary_normalize prec emax z 0 false.
Definition fsub : float -> float -> float := SFsub prec emax.
Definition fmul : float -> float -> float := SFmul prec emax.
Definition fltb : float -> float -> bool := SFltb.
Definition feqb : float -> float -> bool := SFeqb.
Definition fneg : float -> float := SFopp.

Definition is_zero (x : float) : bool :=
  match x with S754_zero _ => true | _ => false end.

(** [x / y]: Python raises on a zero divisor, IEEE division otherwise. *)
Definition fdiv (x y : float) : result float :=
  if is_zero y then Raise ZeroDivisionError else Return (SFdiv prec emax x y).

(** The decimal literal [n / 10^d] of a JSON file or of the command line, read
    as the nearest binary64: both [n] and [10^d] are exact in binary64 for the
    sizes used here, and IEEE division rounds their quotient correctly. *)
Definition float_of_decimal (n : Z) (d : Z) : float :=
  SFdiv prec emax (float_of_Z n) (float_of_Z (10 ^ d)).

(** Round-half-even of [num / den] to an integer, [den > 0]. *)
Definition div_half_even (num den : Z) : Z :=
  let q := num / den in
  let r := num mod den in
  match Z.compare (2 * r) den with
  | Lt => q
  | Gt => q + 1
  | Eq => if Z.even q then q else q + 1
  end.

(** The magnitude of [x] in tenths, correctly rounded (half to even on the
    exact binary value), which is what the [.1f] format prints. *)
Definition tenths (m : positive) (e : Z) : Z :=
  if 0 <=? e then Zpos m * 2 ^ e * 10
  else div_half_even (Zpos m * 10) (2 ^ (- e)).

Definition fixed1 (t : Z) : string :=
  str_N (Z.to_N (t / 10)) +:+ "." +:+ str_N (Z.to_N (t mod 10)).

(** [f"{x:.1f}"], and with [plus] the [+] flag of [f"{x:+.1f}"]. *)
Definition format_1f (plus : bool) (x : float) : string :=
  let sign (s : bool) := if s then "-" else if plus then "+" else "" in
  match x with
  | S754_nan => sign false +:+ "nan"
  | S754_infinity s => sign s +:+ "inf"
  | S754_zero s => sign s +:+ "0.0"
  | S754_finite s m e => sign s +:+ fixed1 (tenths m e)
  end.

(** A Python [dict] with string keys: insertion-ordered, one entry per key. *)
Definition dict (V : Type) : Type := list (string * V).

Fixpoint dict_get {V} (d : dict V) (k : string) : option V :=
  match d with
  | nil => None
  | (k', v) :: rest => if String.eqb k' k then Some v else dict_get rest k
  end.

(** [d[k] = v]: a present key keeps its place, a new key goes last. *)
Fixpoint dict_set {V} (d : dict V) (k : string) (v : V) : dict V :=
  match d with
  | nil => (k, v) :: nil
  | (k', v') :: rest =>
      if String.eqb k' k then (k', v) :: rest else (k', v') :: dict_set rest k v
  end.

Definition dict_mem {V} (d : dict V) (k : string) : bool :=
  match dict_get d k with Some _ => true | None => false end.

(** One object of the ["results"] array of a hyperfine file; a key may be
    missing. *)
Record run_entry : Type := { command : option string; mean : option float }.

(** What [open(path)] and [json.load] find at a path. *)
Inductive file : Type :=
| NoFile (msg : string)
| BadJSON (msg : string)
| Json (results : option (list run_entry)).

(** [{r["command"]: r["mean"] for r in data["results"]}] *)
Fixpoint collect (rs : list run_entry) (acc : dict float) : result (dict float) :=
  match rs with
  | nil => Return acc
  | r :: rest =>
      match command r with
      | None => Raise (KeyError "command")
      | Some c =>
          match mean r with
          | None => Raise (KeyError "mean")
          | Some m => collect rest (dict_set acc c m)
          end
      end
  end.

Definition load_results (f : file) : result (dict float) :=
  match f with
  | NoFile msg => Raise (FileNotFoundError msg)
  | BadJSON msg => Raise (JSONDecodeError msg)
  | Json None => Raise (KeyError "results")
  | Json (Some rs) => collect rs nil
  end.

(** [str(e)] for the exceptions [compare] catches. *)
Definition str_exn (e : exn) : string :=
  match e with
  | FileNotFoundError msg | JSONDecodeError msg | ValueError msg => msg
  | KeyError k => "'" +:+ k +:+ "'"
  | ZeroDivisionError => "float division by zero"
  | IndexError => "list index out of range"
  | RecursionError => "maximum recursion depth exceeded"
  end.

Definition caught (e : exn) : bool :=
  match e with
  | FileNotFoundError _ | JSONDecodeError _ | KeyError _ => true
  | _ => false
  end.

(** [sorted(current.items())]: keys are distinct, so the order is the order
    of the names, code point by code point. *)
Fixpoint insert_sorted {V} (kv : string * V) (l : list (string * V)) : list (string * V) :=
  match l with
  | nil => kv :: nil
  | kv' :: rest =>
      if String.leb (fst kv) (fst kv') then kv :: l else kv' :: insert_sorted kv rest
  end.

Definition sorted_items {V} (d : dict V) : list (string * V) :=
  fold_right insert_sorted nil d.

(** [((current_mean - baseline_mean) / baseline_mean) * 100] *)
Definition change_pct (baseline_mean current_mean : float) : result float :=
  bind (fdiv (fsub current_mean baseline_mean) baseline_mean)
       (fun q => Return (fmul q (float_of_Z 100))).

(** The three-way classification of lines 49 to 55. *)
Inductive verdict : Type := Regression | Faster | Ok.

Definition classify (change threshold_pct : float) : verdict :=
  if fltb threshold_pct change then Regression
  else if fltb change (fneg threshold_pct) then Faster
  else Ok.

Definition status_text (v : verdict) (change : float) : string :=
  match v with
  | Regression => "REGRESSION (+" +:+ format_1f false change +:+ "%)"
  | Faster => "FASTER (" +:+ format_1f false change +:+ "%)"
  | Ok => "OK"
  end.

Definition ms (x : float) : string :=
  rjust 9 (format_1f false (fmul x (float_of_Z 1000))) +:+ "ms".

Section Report.

(** [str(x)] of a float (the shortest decimal that reads back to [x]), used
    only to print the threshold in the summary line; kept abstract. *)
Variable float_repr : float -> string.

Definition row_new (w : nat) (name : string) (current_mean : float) : string :=
  ljust w name +:+ "  " +:+ rjust 10 "N/A" +:+ "  " +:+ ms current_mean
  +:+ "  " +:+ rjust 10 "new" +:+ "  --".

Definition row_common (w : nat) (name : string) (baseline_mean current_mean change : float)
    (status : string) : string :=
  ljust w name +:+ "  " +:+ ms baseline_mean +:+ "  " +:+ ms current_mean
  +:+ "  " +:+ rjust 9 (format_1f true change) +:+ "%  " +:+ status.

Definition row_removed (w : nat) (name : string) (baseline_mean : float) : string :=
  ljust w name +:+ "  " +:+ ms baseline_mean +:+ "  " +:+ rjust 10 "removed"
  +:+ "  " +:+ rjust 10 "N/A" +:+ "  --".

(** The loop of lines 41 to 63, carrying [lines] and [regressions]. *)
Fixpoint rows (w : nat) (baseline : dict float) (threshold_pct : float)
    (items : list (string * float)) (lines : list string)
    (regressions : list (string * float))
    : result (list string * list (string * float)) :=
  match items with
  | nil => Return (lines, regressions)
  | (name, current_mean) :: rest =>
      match dict_get baseline name with
      | None =>
          rows w baseline threshold_pct rest
               (lines ++ row_new w name current_mean :: nil) regressions
      | Some baseline_mean =>
          bind (change_pct baseline_mean current_mean) (fun change =>
            let v := classify change threshold_pct in
            let regressions' :=
              match v with
              | Regression => regressions ++ (name, change) :: nil
              | _ => regressions
              end in
            rows w baseline threshold_pct rest
                 (lines ++ row_common w name baseline_mean current_mean change
                             (status_text v change) :: nil)
                 regressions')
      end
  end.

(** The loop of lines 66 to 68. *)
Definition removed_rows (w : nat) (baseline current : dict float) : list string :=
  flat_map (fun kv => if dict_mem current (fst kv) then nil
                      else row_removed w (fst kv) (snd kv) :: nil) baseline.

Definition max_name_len (current : dict float) : nat :=
  match current with
  | nil => 20%nat
  | _ => fold_right Nat.max 0%nat (map (fun kv => String.length (fst kv)) current)
  end.

Definition header (w : nat) : list string :=
  (ljust w "Benchmark" +:+ "  " +:+ rjust 10 "Baseline" +:+ "  " +:+ rjust 10 "Current"
   +:+ "  " +:+ rjust 10 "Change" +:+ "  Status")
  :: repeat_char "-" (w + 50) :: nil.

Definition summary (threshold_pct : float) (regressions : list (string * float))
    : option bool * list string :=
  match regressions with
  | nil =>
      (Some true,
       ("PASSED: All benchmarks within " +:+ float_repr threshold_pct +:+ "% threshold.") :: nil)
  | _ =>
      (Some false,
       ("FAILED: " +:+ str_N (N.of_nat (List.length regressions)) +:+ " regression(s) exceeded "
        +:+ float_repr threshold_pct +:+ "% threshold:")
       :: map (fun r => "  - " +:+ fst r +:+ ": +" +:+ format_1f false (snd r) +:+ "%") regressions)
  end.

(** [compare(baseline_path, current_path, threshold_pct)], the two paths given
    by what is found there. [passed] is [None], [Some true] or [Some false]. *)
Definition compare (baseline_file current_file : file) (threshold_pct : float)
    : result (option bool * list string) :=
  match bind (load_results baseline_file) (fun b =>
        bind (load_results current_file) (fun c => Return (b, c))) with
  | Raise e =>
      if caught e then Return (None, ("Error loading results: " +:+ str_exn e) :: nil)
      else Raise e
  | Return (baseline, current) =>
      let w := max_name_len current in
      bind (rows w baseline threshold_pct (sorted_items current) (header w) nil)
        (fun '(lines, regressions) =>
           let lines := lines ++ removed_rows w baseline current ++ "" :: nil in
           let '(passed, tail) := summary threshold_pct regressions in
           Return (passed, lines ++ tail))
  end.

(** [main()]: what is printed, and the exit status. [threshold] is the parsed
    [--threshold] option, [None] when it is not given. An exception that
    [compare] lets through ends the interpreter with status 1 before anything
    is printed. *)
Definition main (baseline_file current_file : file) (threshold : option float)
    : option string * Z :=
  let threshold_pct := match threshold with Some t => t | None => float_of_Z 10 end in
  match compare baseline_file current_file threshold_pct with
  | Raise _ => (None, 1)
  | Return (passed, lines) =>
      (Some (join (String "010" "") lines),
       match passed with
       | None => 2
       | Some true => 0
       | Some false => 1
       end)
  end.

End Report.

End Compare.


(** ** generate_corpus.py *)
Module GenerateCorpus.
Import Py.

(** *** The [random] module

    The generator draws from Python's global generator, seeded once. Each
    function of [random] it calls is a method on the generator state [G],
    with the range its documentation gives; nothing else is assumed of the
    generator. *)
Class RandomSource (G : Type) : Type := {
  (** [random.random()] *)
  random : G -> Q * G;
  (** [random.uniform(a, b)] *)
  uniform : Q -> Q -> G -> Q * G;
  (** an integer below [n], behind [randint] and [choice] *)
  randbelow : Z -> G -> Z * G;
  (** the positions [random.sample] picks, [k] out of [n] *)
  sample_indices : nat -> nat -> G -> list nat * G;
  (** the positions [random.choices] picks, [k] times one of [n] *)
  choices_indices : nat -> nat -> G -> list nat * G;
  random_range : forall g, (0 <= fst (random g))%Q /\ (fst (random g) < 1)%Q;
  uniform_range : forall a b g,
      (a <= b)%Q -> (a <= fst (uniform a b g))%Q /\ (fst (uniform a b g) <= b)%Q;
  randbelow_range : forall n g, 0 < n -> 0 <= fst (randbelow n g) < n;
  sample_indices_spec : forall n k g,
      (k <= n)%nat ->
      List.length (fst (sample_indices n k g)) = k
      /\ List.NoDup (fst (sample_indices n k g))
      /\ Forall (fun i => (i < n)%nat) (fst (sample_indices n k g));
  choices_indices_spec : forall n k g,
      (0 < n)%nat ->
      List.length (fst (choices_indices n k g)) = k
      /\ Forall (fun i => (i < n)%nat) (fst (choices_indices n k g))
}.

(** A statement sequence over a mutable state [W]: it reads and updates the
    state, and returns or raises. *)
Definition stateful (W A : Type) : Type := W -> result (A * W).

Definition ret {W A} (a : A) : stateful W A := fun w => Return (a, w).

Definition raise {W A} (e : exn) : stateful W A := fun _ => Raise e.

Definition bindM {W A B} (m : stateful W A) (k : A -> stateful W B) : stateful W B :=
  fun w => match m w with
           | Return (a, w') => k a w'
           | Raise e => Raise e
           end.

Declare Scope py_scope.
Delimit Scope py_scope with py.
Notation "x <- c ;; k" := (bindM c (fun x => k))
  (at level 20, c at level 99, k at level 200, only parsing) : py_scope.
Notation "' pat <- c ;; k" := (bindM c (fun x => match x with pat => k end))
  (at level 20, pat pattern, c at level 99, k at level 200, only parsing) : py_scope.
Local Open Scope py_scope.

Section Generator.

Context {G : Type} `{RandomSource G}.

(** The mutable state of the process: the generator, the module-level
    [_alias_registry], and the files on disk (path to content). *)
Record world : Type := World {
  rng : G;
  alias_registry : gmap string string;
  files : gmap string string
}.

Definition M (A : Type) : Type := stateful world A.

Definition draw {A} (f : G -> A * G) : M A :=
  fun w => let '(a, g) := f (rng w) in
           Return (a, World g (alias_registry w) (files w)).

(** [random.randint(a, b)], which is [randrange(a, b + 1)]. An empty range
    raises [ValueError]; the message is CPython 3.11's, with start, stop and
    width, and its wording differs between versions of the interpreter. *)
Definition randint (a b : Z) : M Z :=
  if b <? a
  then raise (ValueError ("empty range for randrange() (" +:+ str_Z a +:+ ", "
                          +:+ str_Z (b + 1) +:+ ", " +:+ str_Z (b + 1 - a) +:+ ")"))
  else (i <- draw (randbelow (b - a + 1)) ;; ret (a + i)).

(** [random.choice(seq)] *)
Definition choice {A} (seq : list A) : M A :=
  match seq with
  | nil => raise IndexError
  | first :: _ =>
      i <- draw (randbelow (Z.of_nat (List.length seq))) ;;
      ret (nth (Z.to_nat i) seq first)
  end.

Definition pick {A} (seq : list A) (indices : list nat) : list A :=
  flat_map (fun i => match nth_error seq i with Some x => x :: nil | None => nil end) indices.

(** [random.sample(population, k)] *)
Definition sample {A} (population : list A) (k : Z) : M (list A) :=
  if (k <? 0) || (Z.of_nat (List.length population) <? k)
  then raise (ValueError "Sample larger than population or is negative")
  else (indices <- draw (sample_indices (List.length population) (Z.to_nat k)) ;;
        ret (pick population indices)).

(** [random.choices(population, k=k)] *)
Definition choices {A} (population : list A) (k : Z) : M (list A) :=
  match population with
  | nil => if k <=? 0 then ret nil else raise IndexError
  | _ => indices <- draw (choices_indices (List.length population) (Z.to_nat k)) ;;
         ret (pick population indices)
  end.

(** A float literal of the source, [n / 10^d] read as binary64. *)
Definition float_literal (n d : Z) : Q :=
  round_binary64 (inject_Z n / inject_Z (10 ^ d)).

(** [random.random() < p] *)
Definition random_below (p : Q) : M bool :=
  r <- draw random ;; ret (Qltb r p).

Definition get_alias_registry : M (gmap string string) :=
  fun w => Return (alias_registry w, w).

Definition set_alias_registry (registry : gmap string string) : M unit :=
  fun w => Return (tt, World (rng w) registry (files w)).

Definition lift {A} (r : result A) : M A :=
  fun w => match r with Return a => Return (a, w) | Raise e => Raise e end.

(** [for x in xs: body(x)], collecting what each turn appends. *)
Fixpoint for_each {A B} (xs : list A) (body : A -> M B) : M (list B) :=
  match xs with
  | nil => ret nil
  | x :: rest => y <- body x ;; ys <- for_each rest body ;; ret (y :: ys)
  end.

(** [range(n)] and [range(a, b)] *)
Definition range (n : Z) : list Z := map Z.of_nat (seq 0 (Z.to_nat n)).
Definition range_from (a b : Z) : list Z :=
  map (fun i => a + Z.of_nat i) (seq 0 (Z.to_nat (b - a))).

(** [sorted(values)] on integers *)
Fixpoint insert_Z (x : Z) (l : list Z) : list Z :=
  match l with
  | nil => x :: nil
  | y :: rest => if x <=? y then x :: l else y :: insert_Z x rest
  end.
Definition sorted_Z (l : list Z) : list Z := fold_right insert_Z nil l.

(** *** Type generators *)

(** [simple_type()] *)
Definition simple_type : M string :=
  choice ("String" :: "Integer" :: "Float" :: "Boolean" :: nil).

Definition STATES : list string :=
  "active" :: "inactive" :: "pending" :: "archived" :: "draft" :: "published" :: nil.

(** [oneof_type(base)] *)
Definition oneof_type (base : string) : M string :=
  if String.eqb base "String" then
    k <- randint 2 5 ;;
    values <- sample STATES k ;;
    let set_str := join ", " (map quoted values) in
    ret ("String { x | x in { " +:+ set_str +:+ " } }")
  else if String.eqb base "Integer" then
    k <- randint 2 4 ;;
    values <- sample (range_from 1 100) k ;;
    let set_str := join ", " (map str_Z (sorted_Z values)) in
    ret ("Integer { x | x in { " +:+ set_str +:+ " } }")
  else simple_type.

(** [range_type()] *)
Definition range_type : M string :=
  float_base <- random_below (1 # 2) ;;
  if float_base : bool then
    low <- draw (uniform 0 50) ;;
    high <- draw (uniform 60 100) ;;
    ret ("Float { x | x in ( " +:+ str_round 1 low +:+ ".." +:+ str_round 1 high +:+ " ) }")
  else
    low <- randint 0 50 ;;
    high <- randint 60 1000 ;;
    ret ("Integer { x | x in ( " +:+ str_Z low +:+ ".." +:+ str_Z high +:+ " ) }").

(** [random_type(depth, allow_complex=False)], the call that
    [collection_type] and [modifier_type] make: its first test holds, so it
    is [simple_type()] ([random_type_plain_eq]). *)
Definition random_type_plain (depth : Z) : M string := simple_type.

(** [collection_type(depth)] *)
Definition collection_type (depth : Z) : M string :=
  if depth >? 1 then simple_type
  else
    as_list <- random_below (float_literal 6 1) ;;
    if as_list : bool then
      inner <- random_type_plain (depth + 1) ;;
      ret ("List(" +:+ inner +:+ ")")
    else
      val_type <- random_type_plain (depth + 1) ;;
      ret ("Dict(String, " +:+ val_type +:+ ")").

(** [modifier_type(depth)] *)
Definition modifier_type (depth : Z) : M string :=
  inner <- random_type_plain (depth + 1) ;;
  optional <- random_below (1 # 2) ;;
  if optional : bool then ret ("Optional(" +:+ inner +:+ ")")
  else if String.eqb inner "String" then ret ("Defaulted(String, " +:+ quoted "default" +:+ ")")
  else if String.eqb inner "Integer" then ret "Defaulted(Integer, 0)"
  else if String.eqb inner "Float" then ret "Defaulted(Float, 0.0)"
  else if String.eqb inner "Boolean" then ret "Defaulted(Boolean, false)"
  else ret ("Optional(" +:+ inner +:+ ")").

(** [random_type(depth, allow_complex)] *)
Definition random_type (depth : Z) (allow_complex : bool) : M string :=
  if (depth >? 2) || negb allow_complex then simple_type
  else
    r <- draw random ;;
    if Qltb r (float_literal 40 2) then simple_type
    else if Qltb r (float_literal 55 2) then
      base <- choice ("String" :: "Integer" :: nil) ;; oneof_type base
    else if Qltb r (float_literal 65 2) then range_type
    else if Qltb r (float_literal 80 2) then collection_type depth
    else modifier_type depth.

(** *** The value synthesizer *)

(** [string.ascii_lowercase] *)
Definition ascii_lowercase : list ascii :=
  list_ascii_of_string "abcdefghijklmnopqrstuvwxyz".

(** ["".join(random.choices(string.ascii_lowercase, k=k))] *)
Definition random_letters (k : Z) : M string :=
  letters <- choices ascii_lowercase k ;; ret (string_of_list_ascii letters).

Definition is_set_padding (c : ascii) : bool := Ascii.eqb c " " || Ascii.eqb c "}".
Definition is_dquote (c : ascii) : bool := Ascii.eqb c dquote.

(** [t.split("{")[-1].rstrip(" }")] *)
Definition set_body (t : string) : string :=
  rstrip_with is_set_padding (last_item (split_char "{" t)).

(** [value_for_type(type_str)]. [fuel] bounds the depth of the recursion, as
    the interpreter's recursion limit does. *)
Fixpoint value_for_type (fuel : nat) (type_str : string) : M string :=
  match fuel with
  | O => raise RecursionError
  | S fuel' =>
    let t := strip type_str in
    registry <- get_alias_registry ;;
    match (if startswith "_" t then registry !! t else None) with
    | Some underlying => value_for_type fuel' underlying
    | None =>
      if String.eqb t "String" then
        k <- randint 5 15 ;; letters <- random_letters k ;; ret (quoted letters)
      else if String.eqb t "Integer" then
        n <- randint 1 10000 ;; ret (str_Z n)
      else if String.eqb t "Float" then
        x <- draw (uniform (float_literal 1 2) 100) ;; ret (str_round 2 x)
      else if String.eqb t "Boolean" then
        choice ("true" :: "false" :: nil)
      else if String.eqb t "URL" then
        letters <- random_letters 8 ;; ret (quoted ("https://example.com/" +:+ letters))
      else if String.eqb t "Percentage" then
        x <- draw (uniform 0 100) ;; ret (str_round 2 x +:+ "%")
      else if startswith "String { x | x in {" t then
        let vals := map (fun v => strip_with is_dquote (strip v))
                        (split_char "," (set_body t)) in
        v <- choice vals ;; ret (quoted v)
      else if startswith "Integer { x | x in {" t then
        let vals := map strip (split_char "," (set_body t)) in
        choice vals
      else if contains "x | x in (" t && contains ".." t then
        match search_range t with
        | None => ret "50"
        | Some (group1, group2) =>
            low <- lift (float_of_string group1) ;;
            high <- lift (float_of_string group2) ;;
            if contains "Float" t then
              x <- draw (uniform low high) ;; ret (str_round 2 x)
            else
              n <- randint (int_of_float low) (int_of_float high) ;; ret (str_Z n)
        end
      else if startswith "List(" t then
        let inner := slice_inner 5 t in
        count <- randint 1 4 ;;
        vals <- for_each (range count) (fun _ => value_for_type fuel' inner) ;;
        ret ("[" +:+ join ", " vals +:+ "]")
      else if startswith "Dict(String, " t then
        let val_type := slice_inner 13 t in
        count <- randint 1 3 ;;
        pairs <- for_each (range count) (fun i =>
                   val <- value_for_type fuel' val_type ;;
                   ret ("key_" +:+ str_Z i +:+ ": " +:+ val)) ;;
        ret ("{ " +:+ join ", " pairs +:+ " }")
      else if startswith "Optional(" t then
        value_for_type fuel' (slice_inner 9 t)
      else if startswith "Defaulted(" t then
        let parts := split_once ", " (slice_inner 10 t) in
        value_for_type fuel' (first_item parts)
      else ret (quoted "fallback_value")
    end
  end.

(** *** Name pools *)

Definition SERVICES : list string :=
  "checkout" :: "auth" :: "payments" :: "orders" :: "inventory" :: "shipping"
  :: "notifications" :: "analytics" :: "search" :: "recommendations" :: "billing"
  :: "users" :: "profiles" :: "catalog" :: "cart" :: "gateway" :: "messaging"
  :: "scheduler" :: "monitoring" :: "logging" :: "cache" :: "storage" :: "cdn"
  :: "ml_inference" :: "etl_pipeline" :: "data_warehouse" :: "event_bus"
  :: "rate_limiter" :: "circuit_breaker" :: "load_balancer" :: "dns_resolver"
  :: "session_manager" :: "token_service" :: "audit_log" :: "webhook_relay"
  :: "media_processor" :: "pdf_generator" :: "email_sender" :: "sms_gateway"
  :: "push_notifications" :: "feature_flags" :: "ab_testing" :: "config_server"
  :: "secrets_manager" :: "certificate_authority" :: "vpn_gateway" :: "firewall"
  :: "intrusion_detection" :: "compliance_checker" :: "backup_service"
  :: "disaster_recovery" :: nil.

Definition ORGS : list string :=
  "acme" :: "globex" :: "initech" :: "hooli" :: "piedpiper" :: "waystar" :: "delos"
  :: "massive_dynamic" :: nil.

Definition TEAMS : list string :=
  "platform" :: "payments" :: "growth" :: "infrastructure" :: "mobile"
  :: "backend" :: "frontend" :: "data" :: "security" :: "reliability"
  :: "devops" :: "sre" :: "ml" :: "search" :: "messaging"
  :: "identity" :: "commerce" :: "analytics" :: "observability" :: "networking" :: nil.

Definition ENVS : list string :=
  "production" :: "staging" :: "development" :: "canary" :: nil.

Definition METRICS : list string :=
  "http.requests" :: "http.latency.p50" :: "http.latency.p95" :: "http.latency.p99"
  :: "http.errors" :: "grpc.requests" :: "grpc.latency" :: "grpc.errors"
  :: "db.queries" :: "db.latency" :: "db.connections" :: "db.errors"
  :: "cache.hits" :: "cache.misses" :: "cache.latency" :: "cache.evictions"
  :: "queue.messages" :: "queue.latency" :: "queue.depth" :: "queue.errors"
  :: "cpu.utilization" :: "memory.usage" :: "disk.io" :: "network.throughput" :: nil.

(** [seq[i]] for an index in range. *)
Definition item (seq : list string) (i : Z) : string := nth (Z.to_nat i) seq "".

Definition len {A} (l : list A) : Z := Z.of_nat (List.length l).

Definition newline : string := String "010" "".

(** *** Blueprint generators *)

Definition update_alias (name underlying : string) : M unit :=
  registry <- get_alias_registry ;;
  set_alias_registry (<[name := underlying]> registry).

(** One turn of the loop of [gen_type_aliases]: the line of the alias. *)
Definition gen_type_alias (i : Z) : M string :=
  let name := "_type_" +:+ str_Z i in
  as_set <- random_below (1 # 2) ;;
  if as_set : bool then
    k <- randint 2 5 ;;
    values <- sample (ENVS ++ "qa" :: "test" :: "demo" :: "perf" :: nil) k ;;
    let set_str := join ", " (map quoted values) in
    let underlying := "String { x | x in { " +:+ set_str +:+ " } }" in
    _ <- update_alias name underlying ;;
    ret (name +:+ " (Type): " +:+ underlying)
  else
    low <- draw (uniform 0 50) ;;
    high <- draw (uniform 60 100) ;;
    let underlying :=
      "Float { x | x in ( " +:+ str_round 1 low +:+ ".." +:+ str_round 1 high +:+ " ) }" in
    _ <- update_alias name underlying ;;
    ret (name +:+ " (Type): " +:+ underlying).

(** [gen_type_aliases(count)] *)
Definition gen_type_aliases (count : Z) : M (list string * list string) :=
  _ <- set_alias_registry ∅ ;;
  aliases <- for_each (range count) gen_type_alias ;;
  ret (aliases, map (fun i => "_type_" +:+ str_Z i) (range count)).

(** [gen_extendables(req_count, prov_count)] *)
Definition gen_extendables (req_count prov_count : Z)
    : M (list string * list string * list string) :=
  requires <- for_each (range req_count) (fun i =>
    let name := "_req_" +:+ str_Z i in
    num_fields <- randint 1 3 ;;
    fields <- for_each (range num_fields) (fun j =>
      let fname := "req_" +:+ str_Z i +:+ "_field_" +:+ str_Z j in
      ftype <- simple_type ;;
      ret (fname +:+ ": " +:+ ftype)) ;;
    ret (name +:+ " (Requires): { " +:+ join ", " fields +:+ " }")) ;;
  let provides := map (fun i =>
    "_prov_" +:+ str_Z i +:+ " (Provides): { vendor: " +:+ quoted "datadog" +:+ " }")
    (range prov_count) in
  ret (requires ++ provides,
       map (fun i => "_req_" +:+ str_Z i) (range req_count),
       map (fun i => "_prov_" +:+ str_Z i) (range prov_count)).

(** [x in l] on a list of strings *)
Definition mem (x : string) (l : list string) : bool :=
  existsb (String.eqb x) l.

(** Truth value of a variable that is [None] or a string. *)
Definition truthy (x : option string) : bool :=
  match x with
  | Some s => negb (String.eqb s "")
  | None => false
  end.

(** The extends clause, lines 275 to 279. *)
Definition gen_extends (req_ext_names prov_ext_names : list string) : M (list string) :=
  provided <-
    match prov_ext_names with
    | nil => ret nil
    | _ =>
        take <- random_below (float_literal 6 1) ;;
        if take : bool then
          k <- randint 1 2 ;; sample prov_ext_names (Z.min k (len prov_ext_names))
        else ret nil
    end ;;
  required <-
    match req_ext_names with
    | nil => ret nil
    | _ =>
        take <- random_below (1 # 2) ;;
        if take : bool then
          k <- randint 1 1 ;; sample req_ext_names (Z.min k (len req_ext_names))
        else ret nil
    end ;;
  ret (provided ++ required).

(** The number of own fields, lines 286 to 293. *)
Definition gen_num_req (complexity : string) : M Z :=
  if String.eqb complexity "small" then randint 1 2
  else if String.eqb complexity "medium" then randint 2 5
  else if String.eqb complexity "large" then randint 4 8
  else randint 6 12.

(** One turn of the loop of lines 297 to 309: the field and its type. *)
Definition gen_req_field (name : string) (alias_names : list string) (complexity : string)
    (i : Z) : M (string * string) :=
  let fname := name +:+ "_param_" +:+ str_Z i in
  ftype <-
    (if i <? 2 then ret "String"
     else
       use_alias <- match alias_names with
                    | nil => ret false
                    | _ => random_below (float_literal 2 1)
                    end ;;
       if use_alias : bool then choice alias_names
       else if String.eqb complexity "large" || String.eqb complexity "huge"
       then random_type 0 true
       else random_type 0 (negb (String.eqb complexity "small"))) ;;
  ret (fname, ftype).

(** The [Requires] block, lines 311 to 317. *)
Definition requires_block (req_fields : list string) : list string :=
  if (len req_fields <=? 2)
  then ("    Requires { " +:+ join ", " req_fields +:+ " }") :: nil
  else "    Requires {" :: map (fun f => "      " +:+ f +:+ ",") req_fields ++ "    }" :: nil.

(** The test of lines 330 to 333. *)
Definition is_simple_string (registry : gmap string string) (ftype : string) : bool :=
  let ftype_str := strip ftype in
  String.eqb ftype_str "String"
  || startswith "String {" ftype_str
  || (startswith "_" ftype_str &&
      match registry !! ftype_str with
      | Some underlying => startswith "String" underlying
      | None => false
      end).

(** The loop of lines 328 to 337, carrying [env_param] and [svc_param]. *)
Fixpoint select_params (registry : gmap string string) (req_field_info : list (string * string))
    (env_param svc_param : option string) : option string * option string :=
  match req_field_info with
  | nil => (env_param, svc_param)
  | (fname, ftype) :: rest =>
      if is_simple_string registry ftype then
        match env_param, svc_param with
        | None, _ => select_params registry rest (Some fname) svc_param
        | Some _, None => select_params registry rest env_param (Some fname)
        | Some _, Some _ => select_params registry rest env_param svc_param
        end
      else select_params registry rest env_param svc_param
  end.

Definition placeholder (param : string) : string :=
  "$" +:+ param +:+ "->" +:+ param +:+ "$".

Definition unwrap (x : option string) : string :=
  match x with Some s => s | None => "None" end.

(** Lines 340 to 349. *)
Definition numerator_query (metric : string) (env_param svc_param : option string) : string :=
  join "" (("sum:" +:+ metric +:+ "{") ::
           (if truthy env_param then placeholder (unwrap env_param) :: nil else nil) ++
           (if truthy svc_param then
              (if truthy env_param then "," +:+ placeholder (unwrap svc_param)
               else placeholder (unwrap svc_param)) :: nil
            else nil) ++
           "}" :: nil).

(** Line 350. *)
Definition denominator_query (metric : string) (env_param : option string) : string :=
  "sum:" +:+ metric +:+ ".total{"
  +:+ (if truthy env_param then placeholder (unwrap env_param) else "") +:+ "}".

(** The [Provides] block, lines 352 to 360. *)
Definition provides_block (has_prov_extends : bool) (numerator denominator : string)
    : list string :=
  "    Provides {" ::
  (if has_prov_extends then nil else ("      vendor: " +:+ quoted "datadog" +:+ ",") :: nil) ++
  ("      evaluation: " +:+ quoted "numerator / denominator" +:+ ",") ::
  "      indicators: {" ::
  ("        numerator: " +:+ quoted numerator +:+ ",") ::
  ("        denominator: " +:+ quoted denominator) ::
  "      }" ::
  "    }" :: nil.

(** What [gen_blueprint_item] computes on the way to its text. *)
Record blueprint_item : Type := {
  item_extends : list string;
  item_header : string;
  item_fields : list (string * string);
  item_has_prov_extends : bool;
  item_metric : string;
  item_env_param : option string;
  item_svc_param : option string;
  item_provides : list string
}.

Definition item_lines (b : blueprint_item) : list string :=
  item_header b
  :: requires_block (map (fun f => fst f +:+ ": " +:+ snd f) (item_fields b))
  ++ item_provides b.

Definition build_blueprint_item (name : string) (req_ext_names prov_ext_names alias_names : list string)
    (complexity : string) : M blueprint_item :=
  extends <- gen_extends req_ext_names prov_ext_names ;;
  let extends_str :=
    match extends with
    | nil => ""
    | _ => " extends [" +:+ join ", " extends +:+ "]"
    end in
  let header := "  * " +:+ quoted name +:+ extends_str +:+ ":" in
  num_req <- gen_num_req complexity ;;
  req_field_info <- for_each (range num_req) (gen_req_field name alias_names complexity) ;;
  let has_prov_extends :=
    match prov_ext_names with
    | nil => false
    | _ => existsb (fun e => mem e extends) prov_ext_names
    end in
  metric <- choice METRICS ;;
  registry <- get_alias_registry ;;
  let '(env_param, svc_param) := select_params registry req_field_info None None in
  ret {| item_extends := extends;
         item_header := header;
         item_fields := req_field_info;
         item_has_prov_extends := has_prov_extends;
         item_metric := metric;
         item_env_param := env_param;
         item_svc_param := svc_param;
         item_provides :=
           provides_block has_prov_extends
                          (numerator_query metric env_param svc_param)
                          (denominator_query metric env_param) |}.

(** [gen_blueprint_item(name, req_ext_names, prov_ext_names, alias_names, complexity)] *)
Definition gen_blueprint_item (name : string) (req_ext_names prov_ext_names alias_names : list string)
    (complexity : string) : M (string * list (string * string)) :=
  b <- build_blueprint_item name req_ext_names prov_ext_names alias_names complexity ;;
  ret (join newline (item_lines b), item_fields b).

(** [l[1]] of what [split("{", 1)] returns. *)
Definition second_item (l : list string) : result string :=
  match l with
  | _ :: x :: _ => Return x
  | _ => Raise IndexError
  end.

(** One turn of the loop of lines 380 to 390, carrying [req_ext_fields]. *)
Definition parse_req_ext (extendables : list string) (i : Z)
    (req_ext_fields : gmap string (list (string * string)))
    : M (gmap string (list (string * string))) :=
  let name := "_req_" +:+ str_Z i in
  num_fields <- randint 1 3 ;;
  match filter (fun e => startswith (name +:+ " ") e = true) extendables with
  | nil => ret req_ext_fields
  | text :: _ =>
      body <- lift (second_item (split_once "{" text)) ;;
      ret (<[name := findall_fields body]> req_ext_fields)
  end.

Fixpoint fold_M {A S} (xs : list A) (body : A -> S -> M S) (s : S) : M S :=
  match xs with
  | nil => ret s
  | x :: rest => s' <- body x s ;; fold_M rest body s'
  end.

(** The blueprint name of index [i], lines 398 to 400. *)
Definition blueprint_name (i : Z) : string :=
  let service := item SERVICES (i mod len SERVICES) in
  let suffix := if len SERVICES <=? i then "_" +:+ str_Z (i / len SERVICES) else "" in
  service +:+ "_slo" +:+ suffix.

(** The fields a blueprint takes from the extendables, lines 409 to 414. *)
Definition inherited_fields (req_ext_names : list string)
    (req_ext_fields : gmap string (list (string * string))) (item_str : string)
    : list (string * string) :=
  flat_map (fun ext_name =>
              if contains "extends [" item_str && contains ext_name item_str
              then match req_ext_fields !! ext_name with
                   | Some fields => fields
                   | None => nil
                   end
              else nil) req_ext_names.

(** [gen_blueprints_file(num_blueprints, complexity, num_aliases, num_req_ext,
    num_prov_ext)] *)
Definition gen_blueprints_file (num_blueprints : Z) (complexity : string)
    (num_aliases num_req_ext num_prov_ext : Z)
    : M (string * list string * gmap string (list (string * string))) :=
  '(aliases, alias_names) <- gen_type_aliases num_aliases ;;
  let sections1 := match aliases with nil => nil | _ => join newline aliases :: nil end in
  '(extendables, req_ext_names, prov_ext_names) <- gen_extendables num_req_ext num_prov_ext ;;
  let sections2 :=
    match extendables with nil => sections1 | _ => sections1 ++ join newline extendables :: nil end in
  req_ext_fields <- fold_M (range num_req_ext) (parse_req_ext extendables) ∅ ;;
  '(bp_lines, blueprint_fields) <-
    fold_M (range num_blueprints)
      (fun i '(bp_lines, blueprint_fields) =>
         let bp_name := blueprint_name i in
         '(item_str, field_info) <-
           gen_blueprint_item bp_name req_ext_names prov_ext_names alias_names complexity ;;
         let all_fields := field_info ++ inherited_fields req_ext_names req_ext_fields item_str in
         ret (bp_lines ++ item_str :: nil, <[bp_name := all_fields]> blueprint_fields))
      (("Blueprints for " +:+ quoted "SLO") :: nil, ∅) ;;
  let sections := sections2 ++ join newline bp_lines :: nil in
  ret (join (newline +:+ newline) sections +:+ newline,
       map blueprint_name (range num_blueprints),
       blueprint_fields).

(** *** Expectations *)

(** One expectation: its name, the literal of each field, the threshold in
    hundredths (what [round(..., 2)] keeps) and the window. *)
Record expectation : Type := {
  exp_name : string;
  exp_values : list (string * string);
  exp_threshold : Z;
  exp_window : Z
}.

(** One turn of the loop of lines 427 to 442. [fuel] is the recursion depth
    left to [value_for_type]. *)
Definition gen_expectation (fuel : nat) (blueprint_name : string)
    (fields : list (string * string)) (team : string) (i : Z) : M expectation :=
  values <- for_each fields (fun '(fname, ftype) =>
              val <- value_for_type fuel ftype ;; ret (fname, val)) ;;
  threshold <- draw (uniform 95 (float_literal 9999 2)) ;;
  window <- choice (7 :: 30 :: 90 :: nil) ;;
  ret {| exp_name := team +:+ "_" +:+ blueprint_name +:+ "_" +:+ str_Z i;
         exp_values := values;
         exp_threshold := rounded 2 threshold;
         exp_window := window |}.

Definition expectation_lines (e : expectation) : list string :=
  ("  * " +:+ quoted (exp_name e) +:+ ":") ::
  "    Provides {" ::
  map (fun '(fname, val) => "      " +:+ fname +:+ ": " +:+ val +:+ ",") (exp_values e) ++
  ("      threshold: " +:+ str_decimal 2 (exp_threshold e) +:+ ",") ::
  ("      window_in_days: " +:+ str_Z (exp_window e)) ::
  "    }" :: nil.

Definition gen_expectations (fuel : nat) (blueprint_name : string)
    (fields : list (string * string)) (num_expectations : Z) (team : string)
    : M (list expectation) :=
  for_each (range num_expectations) (gen_expectation fuel blueprint_name fields team).

Definition expectation_file_text (blueprint_name : string) (es : list expectation) : string :=
  join newline (("Expectations for " +:+ quoted blueprint_name)
                :: flat_map expectation_lines es) +:+ newline.

(** [gen_expectation_file(blueprint_name, fields, num_expectations, org, team)] *)
Definition gen_expectation_file (fuel : nat) (blueprint_name : string)
    (fields : list (string * string)) (num_expectations : Z) (org team : string) : M string :=
  es <- gen_expectations fuel blueprint_name fields num_expectations team ;;
  ret (expectation_file_text blueprint_name es).

(** *** Files

    The disk is a map from the path of a file to its content; a directory is
    there through the files below it. Paths are written one way only, their
    components joined by single separators, with no [.] or [..] among
    them. *)

(** [os.path.join(a, b)] for a plain relative [b], one or more names with
    no [..]: the constants of the script, the names of [ORGS] and [TEAMS],
    and the name of a scale. (For an absolute [b] Python gives [b] itself,
    and [..] names the directory above; the scale names of [SCALES] and
    [EXPECTATION_SCALES] are plain.) *)
Definition path_join (a b : string) : string := a +:+ "/" +:+ b.

Definition under (dir path : string) : bool := startswith (dir +:+ "/") path.

(** [if os.path.exists(dir): shutil.rmtree(dir)] and [os.makedirs(dir)] for
    a [dir] that is a directory or is not there: no file is left below it. A
    regular file at [dir] or above it is not modelled ([shutil.rmtree] and
    [os.makedirs] raise there). *)
Definition rmtree (dir : string) : M unit :=
  fun w => Return (tt, World (rng w) (alias_registry w)
                             (filter (fun kv => under dir (fst kv) = false) (files w))).

(** [with open(path, "w") as f: f.write(content)] *)
Definition write_file (path content : string) : M unit :=
  fun w => Return (tt, World (rng w) (alias_registry w) (<[path := content]> (files w))).

(** The files below [dir], as [os.walk] finds them. *)
Definition walk (dir : string) (fs : gmap string string) : gmap string string :=
  filter (fun kv => under dir (fst kv) = true) fs.

(** [os.path.getsize(path)]; the content is ASCII, one byte per character. *)
Definition getsize (path : string) : M Z :=
  fun w => match files w !! path with
           | Some content => Return (Z.of_nat (String.length content), w)
           | None => Raise (FileNotFoundError path)
           end.

(** The sum of [os.path.getsize] over the files below [dir]. *)
Definition tree_size (dir : string) : M Z :=
  fun w => Return (map_fold (fun _ content total => Z.of_nat (String.length content) + total)
                            0 (walk dir (files w)), w).

(** The number of files below [dir]. *)
Definition count_files (dir : string) : M Z :=
  fun w => Return (Z.of_nat (size (walk dir (files w))), w).

(** *** Scale profiles *)

Record config : Type := {
  num_blueprints : Z;
  complexity : string;
  num_aliases : Z;
  num_req_ext : Z;
  num_prov_ext : Z;
  num_orgs : Z;
  teams_per_org : Z;
  expectations_per_team_blueprint : Z
}.

Definition SCALES : list (string * config) :=
  ("small", Build_config 2 "small" 0 0 0 1 1 2) ::
  ("medium", Build_config 5 "medium" 2 1 1 2 2 3) ::
  ("large", Build_config 20 "large" 5 3 3 3 4 5) ::
  ("huge", Build_config 50 "huge" 10 5 5 5 5 8) ::
  ("insane", Build_config 50 "huge" 10 5 5 8 10 15) ::
  ("absurd", Build_config 50 "huge" 10 5 5 8 20 25) :: nil.

(** [list(dict.fromkeys(names))]: the first occurrence of each name. *)
Fixpoint dedupe (names seen : list string) : list string :=
  match names with
  | nil => nil
  | n :: rest => if mem n seen then dedupe rest seen else n :: dedupe rest (n :: seen)
  end.

(** The blueprints of one team, lines 553 to 558. *)
Definition blueprints_for_team (bp_names : list string) (num_orgs teams_per_org org_i team_i : Z)
    : list string :=
  let count := Z.min (len bp_names)
                     (Z.max 1 (len bp_names / (num_orgs * teams_per_org) + 1)) in
  let offset := (org_i * teams_per_org + team_i) * count in
  dedupe (map (fun j => item bp_names (j mod len bp_names))
              (range_from offset (offset + count))) nil.

(** What [generate_scale] returns. *)
Record stats : Type := {
  scale : string;
  blueprints : Z;
  blueprint_file_size : Z;
  expectations_total : Z;
  expectation_files : Z;
  expectations_dir_size : Z;
  total_size : Z
}.

(** The directory [CORPUS_DIR], next to the script. *)
Variable CORPUS_DIR : string.

(** The expectations of one team file: for each of its blueprints the
    expectations generated, lines 561 to 565. *)
Definition gen_team_expectations (fuel : nat)
    (bp_fields : gmap string (list (string * string))) (exp_per : Z)
    (team_name : string) (bps_for_team : list string)
    : M (list (string * list expectation)) :=
  for_each bps_for_team (fun bp_name =>
    fields <- lift (match bp_fields !! bp_name with
                    | Some fields => Return fields
                    | None => Raise (KeyError bp_name)
                    end) ;;
    es <- gen_expectations fuel bp_name fields exp_per team_name ;;
    ret (bp_name, es)).

(** One turn of the inner loop of lines 547 to 569: the team file is written,
    and its expectations are returned. *)
Definition gen_team (fuel : nat) (exp_dir : string) (bp_names : list string)
    (bp_fields : gmap string (list (string * string))) (cfg : config) (org_i team_i : Z)
    : M (list (string * list expectation)) :=
  let org_name := item ORGS (org_i mod len ORGS) in
  let team_name := item TEAMS (team_i mod len TEAMS) in
  let team_dir := path_join (path_join exp_dir org_name) team_name in
  let bps_for_team :=
    blueprints_for_team bp_names (num_orgs cfg) (teams_per_org cfg) org_i team_i in
  parts <- gen_team_expectations fuel bp_fields (expectations_per_team_blueprint cfg)
                                 team_name bps_for_team ;;
  _ <- write_file (path_join team_dir "slos.caffeine")
                  (join newline (map (fun '(bp_name, es) => expectation_file_text bp_name es) parts)) ;;
  ret parts.

(** [generate_scale(scale_name, config)]; next to the statistics it returns,
    the model keeps the expectations it generated, team by team. *)
Definition generate_scale (fuel : nat) (scale_name : string) (cfg : config)
    : M (stats * list (list (string * list expectation))) :=
  let scale_dir := path_join CORPUS_DIR scale_name in
  _ <- rmtree scale_dir ;;
  '(bp_content, bp_names, bp_fields) <-
    gen_blueprints_file (num_blueprints cfg) (complexity cfg) (num_aliases cfg)
                        (num_req_ext cfg) (num_prov_ext cfg) ;;
  let bp_file := path_join scale_dir "blueprints.caffeine" in
  _ <- write_file bp_file bp_content ;;
  let exp_dir := path_join scale_dir "expectations" in
  teams <- for_each (flat_map (fun org_i => map (fun team_i => (org_i, team_i))
                                                (range (teams_per_org cfg)))
                              (range (num_orgs cfg)))
                    (fun '(org_i, team_i) =>
                       gen_team fuel exp_dir bp_names bp_fields cfg org_i team_i) ;;
  let total_expectations :=
    fold_left (fun total parts =>
                 total + expectations_per_team_blueprint cfg * len parts) teams 0 in
  bp_size <- getsize bp_file ;;
  total_exp_size <- tree_size exp_dir ;;
  num_exp_files <- count_files exp_dir ;;
  ret ({| scale := scale_name;
          blueprints := num_blueprints cfg;
          blueprint_file_size := bp_size;
          expectations_total := total_expectations;
          expectation_files := num_exp_files;
          expectations_dir_size := total_exp_size;
          total_size := bp_size + total_exp_size |},
       teams).

(** *** Expectation scaling *)

Definition EXPECTATION_SCALES : list Z :=
  10 :: 50 :: 100 :: 500 :: 1000 :: 2500 :: 5000 :: nil.

(** [SCALES[scale_name]] *)
Definition scale_config (scale_name : string) : result config :=
  match List.find (fun sc => String.eqb (fst sc) scale_name) SCALES with
  | Some sc => Return (snd sc)
  | None => Raise (KeyError scale_name)
  end.

(** [os.path.exists(path)] for the path of a file *)
Definition path_exists (path : string) : M bool :=
  fun w => Return (match files w !! path with Some _ => true | None => false end, w).

(** [with open(path, "a") as f: f.write(content)] *)
Definition append_to_file (path content : string) : M unit :=
  fun w => Return (tt, World (rng w) (alias_registry w)
                             (<[path := match files w !! path with
                                        | Some old => old +:+ content
                                        | None => content
                                        end]> (files w))).

(** The loop of lines 634 to 645 over the blueprints chosen for a team,
    carrying [total]: it stops at the first blueprint for which nothing
    remains to generate. Each part is kept with its expectations. *)
Fixpoint scaling_parts (fuel : nat) (bp_fields : gmap string (list (string * string)))
    (target_count : Z) (team_label : string) (chosen_bps : list string) (total : Z)
    : M (list (string * list expectation) * Z) :=
  match chosen_bps with
  | nil => ret (nil, total)
  | bp_name :: rest =>
      let remaining := target_count - total in
      if remaining <=? 0 then ret (nil, total)
      else
        n <- randint 1 5 ;;
        let exp_count := Z.min n remaining in
        fields <- lift (match bp_fields !! bp_name with
                        | Some fields => Return fields
                        | None => Raise (KeyError bp_name)
                        end) ;;
        es <- gen_expectations fuel bp_name fields exp_count team_label ;;
        '(file_parts, total') <-
          scaling_parts fuel bp_fields target_count team_label rest (total + exp_count) ;;
        ret ((bp_name, es) :: file_parts, total')
  end.

(** One turn of the loop of lines 623 to 657, up to the step of the
    counters: the parts written to the file of the team, and [total]. *)
Definition scaling_round (fuel : nat) (exp_dir : string) (bp_names : list string)
    (bp_fields : gmap string (list (string * string))) (target_count total org_i team_i : Z)
    : M (list (string * list expectation) * Z) :=
  let org_name := item ORGS (org_i mod len ORGS) in
  let team_name := item TEAMS (team_i mod len TEAMS) in
  let team_dir := path_join (path_join exp_dir org_name) team_name in
  n <- randint 1 5 ;;
  let num_bps := Z.min n (len bp_names) in
  chosen_bps <- sample bp_names num_bps ;;
  '(file_parts, total') <-
    scaling_parts fuel bp_fields target_count
                  (team_name +:+ "_" +:+ str_Z org_i +:+ "_" +:+ str_Z team_i)
                  chosen_bps total ;;
  _ <- match file_parts with
       | nil => ret tt
       | _ =>
           let exp_file := path_join team_dir "slos.caffeine" in
           let content :=
             join newline (map (fun '(bp_name, es) => expectation_file_text bp_name es)
                               file_parts) in
           found <- path_exists exp_file ;;
           if found : bool then append_to_file exp_file content
           else write_file exp_file content
       end ;;
  ret (file_parts, total').

(** The loop [while total < target_count] of lines 623 to 657. [rounds]
    bounds the number of its turns; the result is [None] when the loop has
    not ended within them. With the total, the parts of each turn. *)
Fixpoint scaling_rounds (rounds fuel : nat) (exp_dir : string) (bp_names : list string)
    (bp_fields : gmap string (list (string * string))) (target_count total org_i team_i : Z)
    : M (option (Z * list (list (string * list expectation)))) :=
  if total <? target_count then
    match rounds with
    | O => ret None
    | S rounds' =>
        '(file_parts, total') <-
          scaling_round fuel exp_dir bp_names bp_fields target_count total org_i team_i ;;
        let team_i' := team_i + 1 in
        let '(team_i'', org_i') :=
          if len TEAMS <=? team_i' then (0, org_i + 1) else (team_i', org_i) in
        rest <- scaling_rounds rounds' fuel exp_dir bp_names bp_fields target_count
                               total' org_i' team_i'' ;;
        ret (match rest with
             | Some (final, parts) => Some (final, file_parts :: parts)
             | None => None
             end)
    end
  else ret (Some (total, nil)).

(** An entry of what [generate_expectation_scaling] returns; the keys
    ["expectation_files"] and ["total_size"] are [expectation_file_count]
    and [corpus_size] here. *)
Record scaling_result : Type := {
  target : Z;
  actual_expectations : Z;
  expectation_file_count : Z;
  blueprint_size : Z;
  expectations_size : Z;
  corpus_size : Z
}.

(** One turn of the loop of lines 604 to 674 over [EXPECTATION_SCALES]. *)
Definition scale_expectations (rounds fuel : nat) (bp_content : string)
    (bp_names : list string) (bp_fields : gmap string (list (string * string)))
    (target_count : Z)
    : M (option (scaling_result * list (list (string * list expectation)))) :=
  let scale_dir := path_join CORPUS_DIR ("exp_scale_" +:+ str_Z target_count) in
  _ <- rmtree scale_dir ;;
  let bp_file := path_join scale_dir "blueprints.caffeine" in
  _ <- write_file bp_file bp_content ;;
  let exp_dir := path_join scale_dir "expectations" in
  ended <- scaling_rounds rounds fuel exp_dir bp_names bp_fields target_count 0 0 0 ;;
  match ended with
  | None => ret None
  | Some (total, parts) =>
      bp_size <- getsize bp_file ;;
      total_exp_size <- tree_size exp_dir ;;
      num_exp_files <- count_files exp_dir ;;
      ret (Some ({| target := target_count;
                    actual_expectations := total;
                    expectation_file_count := num_exp_files;
                    blueprint_size := bp_size;
                    expectations_size := total_exp_size;
                    corpus_size := bp_size + total_exp_size |},
                 parts))
  end.

(** The loop over the targets, which ends with [None] at the first target
    whose rounds have not ended. *)
Fixpoint scale_each (rounds fuel : nat) (bp_content : string) (bp_names : list string)
    (bp_fields : gmap string (list (string * string))) (targets : list Z)
    : M (option (list (scaling_result * list (list (string * list expectation))))) :=
  match targets with
  | nil => ret (Some nil)
  | target_count :: rest =>
      r <- scale_expectations rounds fuel bp_content bp_names bp_fields target_count ;;
      match r with
      | None => ret None
      | Some entry =>
          results <- scale_each rounds fuel bp_content bp_names bp_fields rest ;;
          ret (match results with
               | Some entries => Some (entry :: entries)
               | None => None
               end)
      end
  end.

(** [generate_expectation_scaling()]; next to each result the model keeps
    the expectations generated, turn by turn. *)
Definition generate_expectation_scaling (rounds fuel : nat)
    : M (option (list (scaling_result * list (list (string * list expectation))))) :=
  cfg <- lift (scale_config "large") ;;
  '(bp_content, bp_names, bp_fields) <-
    gen_blueprints_file (num_blueprints cfg) (complexity cfg) (num_aliases cfg)
                        (num_req_ext cfg) (num_prov_ext cfg) ;;
  scale_each rounds fuel bp_content bp_names bp_fields EXPECTATION_SCALES.

(** *** The program *)

Definition spaces (n : nat) : string := string_of_list_ascii (repeat " "%char n).

(** [f"{s:8s}"]: the string, filled with spaces on the right up to the width *)
Definition format_s (width : nat) (s : string) : string :=
  s +:+ spaces (width - String.length s).

(** [f"{n:3d}"]: the numeral, filled with spaces on the left up to the width *)
Definition format_d (width : nat) (n : Z) : string :=
  spaces (width - String.length (str_Z n)) +:+ str_Z n.

(** The digits from the last one on, with a comma after every third one
    that has a digit after it; [k] digits of the group are out. *)
Fixpoint group_digits (reversed : list ascii) (k : nat) : list ascii :=
  match reversed with
  | nil => nil
  | d :: rest =>
      if (k =? 3)%nat then ","%char :: d :: group_digits rest 1
      else d :: group_digits rest (S k)
  end.

Definition grouped (digits : string) : string :=
  string_of_list_ascii (rev (group_digits (rev (list_ascii_of_string digits)) 0)).

(** [f"{n:,d}"] *)
Definition format_grouped (n : Z) : string :=
  if n <? 0 then "-" +:+ grouped (str_Z (- n)) else grouped (str_Z n).

(** The line of lines 691 to 693. *)
Definition scale_line (scale_name : string) (st : stats) : string :=
  "  " +:+ format_s 8 scale_name +:+ ": " +:+ format_d 3 (blueprints st)
  +:+ " blueprints, " +:+ format_d 5 (expectations_total st)
  +:+ " expectations across " +:+ format_d 3 (expectation_files st)
  +:+ " files, total " +:+ format_grouped (total_size st) +:+ " bytes".

(** The line of lines 699 and 700. *)
Definition target_line (r : scaling_result) : string :=
  "  target " +:+ format_d 5 (target r) +:+ ": actual "
  +:+ format_d 5 (actual_expectations r) +:+ " expectations, "
  +:+ format_d 3 (expectation_file_count r) +:+ " files, total "
  +:+ format_grouped (corpus_size r) +:+ " bytes".

(** [main()]: what it prints, one string for each call of [print], and
    whether it has ended: it has not when a loop of
    [generate_expectation_scaling] goes beyond [rounds], and then what is
    printed before that call is all that is printed. *)
Definition main (rounds fuel : nat) : M (list string * bool) :=
  _ <- rmtree CORPUS_DIR ;;
  scale_lines <- for_each SCALES (fun '(scale_name, cfg) =>
                   r <- generate_scale fuel scale_name cfg ;;
                   ret (scale_line scale_name (fst r))) ;;
  let printed :=
    ("=== Generating Caffeine Benchmark Corpus ===" +:+ newline)
    :: "--- Complexity Scaling ---"
    :: scale_lines
    ++ (newline +:+ "--- Expectation Count Scaling (fixed 'large' blueprint) ---") :: nil in
  exp_results <- generate_expectation_scaling rounds fuel ;;
  match exp_results with
  | None => ret (printed, false)
  | Some entries =>
      ret (printed
           ++ map (fun entry => target_line (fst entry)) entries
           ++ (newline +:+ "Corpus generated in: " +:+ CORPUS_DIR) :: "Done!" :: nil,
           true)
  end.

End Generator.

Arguments world G : clear implicits.
Arguments M G A : clear implicits.

(** The draws stay folded under [simpl]. *)
Arguments randint : simpl never.
Arguments choice : simpl never.
Arguments sample : simpl never.
Arguments choices : simpl never.
Arguments random_below : simpl never.
Arguments draw : simpl never.
Arguments simple_type : simpl never.

End GenerateCorpus.

(** ** A scripted generator

    A generator whose draws are read off a tape of numbers, one per draw; it
    is used to run the corpus generator on chosen draws. *)
Module Tape.
Import Py GenerateCorpus.

Definition tape : Type := list Z.

Definition next (g : tape) : Z * tape :=
  match g with
  | nil => (0, nil)
  | x :: g' => (x, g')
  end.

Definition tape_random (g : tape) : Q * tape :=
  let '(x, g') := next g in ((x mod 2 ^ 53) # Z.to_pos (2 ^ 53), g').

Definition tape_uniform (a b : Q) (g : tape) : Q * tape :=
  let '(r, g') := tape_random g in ((a + (b - a) * r)%Q, g').

Definition tape_randbelow (n : Z) (g : tape) : Z * tape :=
  let '(x, g') := next g in (x mod n, g').

(** The element at position [j] of the pool, and the pool without it. *)
Fixpoint take_out (j : nat) (pool : list nat) : option (nat * list nat) :=
  match pool, j with
  | nil, _ => None
  | x :: rest, O => Some (x, rest)
  | x :: rest, S j' =>
      match take_out j' rest with
      | Some (y, rest') => Some (y, x :: rest')
      | None => None
      end
  end.

Fixpoint sample_from (k : nat) (pool : list nat) (g : tape) : list nat * tape :=
  match k with
  | O => (nil, g)
  | S k' =>
      let '(x, g1) := next g in
      match take_out (Z.to_nat (x mod Z.of_nat (List.length pool))) pool with
      | None => (nil, g1)
      | Some (y, pool') =>
          let '(ys, g2) := sample_from k' pool' g1 in (y :: ys, g2)
      end
  end.

Definition tape_sample_indices (n k : nat) (g : tape) : list nat * tape :=
  sample_from k (seq 0 n) g.

Fixpoint tape_choices_indices (n k : nat) (g : tape) : list nat * tape :=
  match k with
  | O => (nil, g)
  | S k' =>
      let '(x, g1) := next g in
      let '(ys, g2) := tape_choices_indices n k' g1 in
      (Z.to_nat (x mod Z.of_nat n) :: ys, g2)
  end.

Lemma tape_random_range (g : tape) :
  (0 <= fst (tape_random g))%Q /\ (fst (tape_random g) < 1)%Q.
Proof.
  unfold tape_random. destruct (next g) as [x g']. simpl.
  pose proof (Z.mod_pos_bound x (2 ^ 53) ltac:(lia)) as Hx.
  unfold Qle, Qlt. simpl. split; lia.
Qed.

Lemma tape_uniform_range (a b : Q) (g : tape) :
  (a <= b)%Q ->
  (a <= fst (tape_uniform a b g))%Q /\ (fst (tape_uniform a b g) <= b)%Q.
Proof.
  intros Hab. unfold tape_uniform.
  pose proof (tape_random_range g) as [H0 H1].
  destruct (tape_random g) as [r g']. simpl in *.
  assert (0 <= (b - a) * r)%Q.
  { apply Qmult_le_0_compat; [|assumption].
    unfold Qminus. rewrite <- Qle_minus_iff. assumption. }
  assert ((b - a) * r <= (b - a) * 1)%Q.
  { rewrite (Qmult_comm (b - a) r), (Qmult_comm (b - a) 1).
    apply Qmult_le_compat_r; [apply Qlt_le_weak; assumption|].
    unfold Qminus. rewrite <- Qle_minus_iff. assumption. }
  split.
  - rewrite <- (Qplus_0_r a) at 1. apply Qplus_le_r. assumption.
  - apply Qle_trans with (a + (b - a) * 1)%Q; [apply Qplus_le_r; assumption|].
    rewrite Qmult_1_r. unfold Qminus.
    rewrite (Qplus_comm b), Qplus_assoc, Qplus_opp_r, Qplus_0_l. apply Qle_refl.
Qed.

Lemma tape_randbelow_range (n : Z) (g : tape) :
  0 < n -> 0 <= fst (tape_randbelow n g) < n.
Proof.
  intros Hn. unfold tape_randbelow. destruct (next g) as [x g']. simpl.
  apply Z.mod_pos_bound. assumption.
Qed.

Lemma take_out_some (j : nat) (pool : list nat) :
  (j < List.length pool)%nat -> exists y pool', take_out j pool = Some (y, pool').
Proof.
  revert j. induction pool as [|x pool IH]; intros j Hj; simpl in *; [lia|].
  destruct j as [|j]; simpl; [eauto|].
  destruct (IH j ltac:(lia)) as (y & pool' & E). rewrite E. eauto.
Qed.

Lemma take_out_spec (j : nat) (pool : list nat) (y : nat) (pool' : list nat) :
  take_out j pool = Some (y, pool') ->
  List.length pool = S (List.length pool')
  /\ In y pool
  /\ (forall z, In z pool' -> In z pool)
  /\ (List.NoDup pool -> List.NoDup pool' /\ ~ In y pool').
Proof.
  revert j y pool'. induction pool as [|x pool IH]; intros j y pool' E.
  - destruct j; discriminate.
  - destruct j as [|j]; simpl in E.
    + injection E as <- <-.
      split; [reflexivity|]. split; [left; reflexivity|].
      split; [intros z Hz; right; assumption|].
      intros Hnd. inversion Hnd; subst. split; assumption.
    + revert E. destruct (take_out j pool) as [[y0 rest']|] eqn:E'; [|discriminate].
      intros E. injection E as <- <-.
      destruct (IH _ _ _ E') as (Hlen & Hin & Hsub & Hnd).
      split; [simpl; lia|]. split; [right; assumption|].
      split; [intros z [->|Hz]; [left; reflexivity | right; auto]|].
      intros Hnd0. inversion Hnd0 as [|? ? Hx Hp]; subst.
      destruct (Hnd Hp) as [Hnd' Hy]. split.
      * constructor; auto.
      * intros [->|Hz]; auto.
Qed.

Lemma sample_from_spec (k : nat) (pool : list nat) (g : tape) :
  (k <= List.length pool)%nat -> List.NoDup pool ->
  List.length (fst (sample_from k pool g)) = k
  /\ List.NoDup (fst (sample_from k pool g))
  /\ (forall y, In y (fst (sample_from k pool g)) -> In y pool).
Proof.
  revert pool g. induction k as [|k IH]; intros pool g Hk Hnd; simpl.
  - repeat split; [constructor | intros y []].
  - destruct (next g) as [x g1].
    assert (Hlen : (0 < List.length pool)%nat) by lia.
    pose proof (Z.mod_pos_bound x (Z.of_nat (List.length pool)) ltac:(lia)) as Hj.
    destruct (take_out_some (Z.to_nat (x mod Z.of_nat (List.length pool))) pool ltac:(lia))
      as (y & pool' & E).
    rewrite E. destruct (take_out_spec _ _ _ _ E) as (Hl & Hin & Hsub & Hnd').
    destruct (Hnd' Hnd) as [Hndp Hy].
    specialize (IH pool' g1 ltac:(lia) Hndp).
    destruct (sample_from k pool' g1) as [ys g2]. simpl in *.
    destruct IH as (IH1 & IH2 & IH3).
    repeat split.
    + lia.
    + constructor; auto.
    + intros z [<-|Hz]; auto.
Qed.

Lemma tape_sample_indices_spec (n k : nat) (g : tape) :
  (k <= n)%nat ->
  List.length (fst (tape_sample_indices n k g)) = k
  /\ List.NoDup (fst (tape_sample_indices n k g))
  /\ Forall (fun i => (i < n)%nat) (fst (tape_sample_indices n k g)).
Proof.
  intros Hk. unfold tape_sample_indices.
  destruct (sample_from_spec k (seq 0 n) g) as (H1 & H2 & H3).
  - rewrite length_seq. assumption.
  - apply seq_NoDup.
  - repeat split; auto. apply List.Forall_forall. intros i Hi.
    apply H3, in_seq in Hi. lia.
Qed.

Lemma tape_choices_indices_spec (n k : nat) (g : tape) :
  (0 < n)%nat ->
  List.length (fst (tape_choices_indices n k g)) = k
  /\ Forall (fun i => (i < n)%nat) (fst (tape_choices_indices n k g)).
Proof.
  intros Hn. revert g. induction k as [|k IH]; intros g; simpl.
  - split; [reflexivity | constructor].
  - destruct (next g) as [x g1]. specialize (IH g1).
    destruct (tape_choices_indices n k g1) as [ys g2]. simpl in *.
    destruct IH as [IH1 IH2]. split; [lia|].
    constructor; [|assumption].
    pose proof (Z.mod_pos_bound x (Z.of_nat n) ltac:(lia)). lia.
Qed.

#[export] Instance tape_source : RandomSource tape := {
  random := tape_random;
  uniform := tape_uniform;
  randbelow := tape_randbelow;
  sample_indices := tape_sample_indices;
  choices_indices := tape_choices_indices;
  random_range := tape_random_range;
  uniform_range := tape_uniform_range;
  randbelow_range := tape_randbelow_range;
  sample_indices_spec := tape_sample_indices_spec;
  choices_indices_spec := tape_choices_indices_spec
}.

(** The process state at start: the given tape, no aliases, no files. *)
Definition start (g : tape) : world tape := World g ∅ ∅.

(** What a run returns, leaving the final state aside. *)
Definition run {A} (m : M tape A) (g : tape) : result A :=
  match m (start g) with
  | Return (a, _) => Return a
  | Raise e => Raise e
  end.

End Tape.

(** ** Type descriptors and their values

    The generator handles a type as its text. [descriptor] is the type the
    text denotes, [render] its text, and [in_domain] the values it accepts. *)
Module Types.
Import Py GenerateCorpus.

Inductive kind : Type := KString | KInteger | KFloat | KBoolean.

(** The bounds of a Float range are decimals with one digit after the point,
    kept in tenths. *)
Inductive descriptor : Type :=
| Primitive (k : kind)
| OneOfString (values : list string)
| OneOfInteger (values : list Z)
| RangeFloat (low high : Z)
| RangeInteger (low high : Z)
| ListOf (element : descriptor)
| DictOf (value : descriptor)
| OptionalOf (inner : descriptor)
| DefaultedOf (inner : descriptor) (default : string).

Definition kind_name (k : kind) : string :=
  match k with
  | KString => "String"
  | KInteger => "Integer"
  | KFloat => "Float"
  | KBoolean => "Boolean"
  end.

(** The text of a descriptor, as the type generators write it. *)
Fixpoint render (d : descriptor) : string :=
  match d with
  | Primitive k => kind_name k
  | OneOfString values =>
      "String { x | x in { " +:+ join ", " (map quoted values) +:+ " } }"
  | OneOfInteger values =>
      "Integer { x | x in { " +:+ join ", " (map str_Z values) +:+ " } }"
  | RangeFloat low high =>
      "Float { x | x in ( " +:+ str_decimal 1 low +:+ ".." +:+ str_decimal 1 high +:+ " ) }"
  | RangeInteger low high =>
      "Integer { x | x in ( " +:+ str_Z low +:+ ".." +:+ str_Z high +:+ " ) }"
  | ListOf element => "List(" +:+ render element +:+ ")"
  | DictOf value => "Dict(String, " +:+ render value +:+ ")"
  | OptionalOf inner => "Optional(" +:+ render inner +:+ ")"
  | DefaultedOf inner default => "Defaulted(" +:+ render inner +:+ ", " +:+ default +:+ ")"
  end.

#[local] Set Warnings "-register-all".

(** A value, as a literal denotes it. Floats are decimals with at most two
    digits after the point, kept in hundredths. *)
Inductive value : Type :=
| VString (s : string)
| VInteger (n : Z)
| VFloat (hundredths : Z)
| VBoolean (b : bool)
| VList (items : list value)
| VDict (entries : list (string * value)).

(** The literal of a value. *)
Fixpoint literal (v : value) : string :=
  match v with
  | VString s => quoted s
  | VInteger n => str_Z n
  | VFloat h => str_decimal 2 h
  | VBoolean b => if b then "true" else "false"
  | VList items => "[" +:+ join ", " (map literal items) +:+ "]"
  | VDict entries =>
      "{ " +:+ join ", " (map (fun kv => fst kv +:+ ": " +:+ literal (snd kv)) entries) +:+ " }"
  end.

(** *** Reading a literal back

    [parse d s] reads the text [s] against the descriptor [d]: a string
    between quotes, an integer or a decimal numeral in digits, [true] or
    [false], a list between brackets, a mapping between braces. It reads
    the characters and shares nothing with [literal]. *)

(** [s] without its prefix [p], when it starts with [p]. *)
Fixpoint after (p s : string) : option string :=
  match p, s with
  | "", _ => Some s
  | String a p', String b s' => if Ascii.eqb a b then after p' s' else None
  | _, "" => None
  end.

(** The number a run of digits denotes. *)
Definition number (digits : string) : option Z :=
  match digits with
  | "" => None
  | _ => option_map (fun u => Z.of_N (N.of_uint u)) (NilEmpty.uint_of_string digits)
  end.

Definition read_string (s : string) : option (value * string) :=
  match after (String "034" "") s with
  | Some s' =>
      let '(body, rest) := span (fun c => negb (Ascii.eqb c "034")) s' in
      option_map (fun rest' => (VString body, rest')) (after (String "034" "") rest)
  | None => None
  end.

Definition read_integer (s : string) : option (value * string) :=
  let '(digits, rest) := span is_digit s in
  option_map (fun n => (VInteger n, rest)) (number digits).

(** A decimal with one or two digits after the point, in hundredths. *)
Definition read_float (s : string) : option (value * string) :=
  let '(whole, rest) := span is_digit s in
  match number whole, after "." rest with
  | Some i, Some rest' =>
      let '(frac, rest'') := span is_digit rest' in
      match number frac, String.length frac with
      | Some f, 1%nat => Some (VFloat (100 * i + 10 * f), rest'')
      | Some f, 2%nat => Some (VFloat (100 * i + f), rest'')
      | _, _ => None
      end
  | _, _ => None
  end.

Definition read_boolean (s : string) : option (value * string) :=
  match after "true" s, after "false" s with
  | Some rest, _ => Some (VBoolean true, rest)
  | None, Some rest => Some (VBoolean false, rest)
  | None, None => None
  end.

Definition read_primitive (k : kind) : string -> option (value * string) :=
  match k with
  | KString => read_string
  | KInteger => read_integer
  | KFloat => read_float
  | KBoolean => read_boolean
  end.

(** Items separated by a comma and a space; [fuel] bounds their number. *)
Fixpoint read_items {A} (read : string -> option (A * string)) (fuel : nat) (s : string)
    : option (list A * string) :=
  match fuel with
  | O => None
  | S fuel' =>
      match read s with
      | Some (x, rest) =>
          match after ", " rest with
          | Some rest' =>
              option_map (fun '(xs, rest'') => (x :: xs, rest'')) (read_items read fuel' rest')
          | None => Some (x :: nil, rest)
          end
      | None => None
      end
  end.

(** An entry of a mapping: the key, a colon and a space, the value. *)
Definition read_entry (read : string -> option (value * string)) (s : string)
    : option ((string * value) * string) :=
  let '(key, rest) := span is_word s in
  match key, after ": " rest with
  | String _ _, Some rest' => option_map (fun '(v, rest'') => ((key, v), rest'')) (read rest')
  | _, _ => None
  end.

Fixpoint read (d : descriptor) (s : string) : option (value * string) :=
  match d with
  | Primitive k => read_primitive k s
  | OneOfString _ => read_string s
  | OneOfInteger _ | RangeInteger _ _ => read_integer s
  | RangeFloat _ _ => read_float s
  | ListOf element =>
      match after "[" s with
      | Some s' =>
          match read_items (read element) (String.length s') s' with
          | Some (items, rest) => option_map (fun rest' => (VList items, rest')) (after "]" rest)
          | None => None
          end
      | None => None
      end
  | DictOf val =>
      match after "{ " s with
      | Some s' =>
          match read_items (read_entry (read val)) (String.length s') s' with
          | Some (entries, rest) =>
              option_map (fun rest' => (VDict entries, rest')) (after " }" rest)
          | None => None
          end
      | None => None
      end
  | OptionalOf inner => read inner s
  | DefaultedOf inner _ => read inner s
  end.

(** The whole of [s] read against [d]. *)
Definition parse (d : descriptor) (s : string) : option value :=
  match read d s with
  | Some (v, "") => Some v
  | _ => None
  end.

Fixpoint same_strings (a b : list string) : bool :=
  match a, b with
  | nil, nil => true
  | x :: a', y :: b' => String.eqb x y && same_strings a' b'
  | _, _ => false
  end.

Definition synthetic_keys (n : nat) : list string :=
  map (fun i => "key_" +:+ str_Z i) (range (Z.of_nat n)).

Definition of_kind (k : kind) (v : value) : bool :=
  match k, v with
  | KString, VString _ | KInteger, VInteger _ | KFloat, VFloat _ | KBoolean, VBoolean _ => true
  | _, _ => false
  end.

(** The value domain as the generator has it: a range is inclusive, as
    [range_type] and [value_for_type] name it (`InclusiveRange`).
    [strictly_inside] is the interval without its ends, and [accepted] below
    the domain with that interval. *)
Fixpoint in_domain (d : descriptor) (v : value) : bool :=
  match d, v with
  | Primitive k, _ => of_kind k v
  | OneOfString values, VString s => mem s values
  | OneOfInteger values, VInteger n => existsb (Z.eqb n) values
  | RangeFloat low high, VFloat h => (10 * low <=? h) && (h <=? 10 * high)
  | RangeInteger low high, VInteger n => (low <=? n) && (n <=? high)
  | ListOf element, VList items =>
      (1 <=? len items) && (len items <=? 4) && forallb (in_domain element) items
  | DictOf val, VDict entries =>
      (1 <=? len entries) && (len entries <=? 3)
      && forallb (fun kv => in_domain val (snd kv)) entries
      && same_strings (map fst entries) (synthetic_keys (List.length entries))
  | OptionalOf inner, _ => in_domain inner v
  | DefaultedOf inner default, _ => in_domain inner v || String.eqb (literal v) default
  | _, _ => false
  end.

Definition strictly_inside (d : descriptor) (v : value) : bool :=
  match d, v with
  | RangeFloat low high, VFloat h => (10 * low <? h) && (h <? 10 * high)
  | RangeInteger low high, VInteger n => (low <? n) && (n <? high)
  | _, _ => false
  end.

(** The accepted value domain in the words of the specification, where a
    valid value of a range lies in the open interval of its bounds; the other
    descriptors are as in [in_domain]. *)
Fixpoint accepted (d : descriptor) (v : value) : bool :=
  match d, v with
  | Primitive k, _ => of_kind k v
  | OneOfString values, VString s => mem s values
  | OneOfInteger values, VInteger n => existsb (Z.eqb n) values
  | RangeFloat low high, VFloat h => (10 * low <? h) && (h <? 10 * high)
  | RangeInteger low high, VInteger n => (low <? n) && (n <? high)
  | ListOf element, VList items =>
      (1 <=? len items) && (len items <=? 4) && forallb (accepted element) items
  | DictOf val, VDict entries =>
      (1 <=? len entries) && (len entries <=? 3)
      && forallb (fun kv => accepted val (snd kv)) entries
      && same_strings (map fst entries) (synthetic_keys (List.length entries))
  | OptionalOf inner, _ => accepted inner v
  | DefaultedOf inner default, _ => accepted inner v || String.eqb (literal v) default
  | _, _ => false
  end.

Definition default_literal (k : kind) : string :=
  match k with
  | KString => quoted "default"
  | KInteger => "0"
  | KFloat => "0.0"
  | KBoolean => "false"
  end.

(** The descriptors the type generators produce. *)
Inductive generated : descriptor -> Prop :=
| gen_primitive k : generated (Primitive k)
| gen_oneof_string values :
    2 <= len values <= 5 -> Forall (fun v => In v STATES) values ->
    generated (OneOfString values)
| gen_oneof_integer values :
    2 <= len values <= 4 -> Forall (fun n => 1 <= n < 100) values ->
    generated (OneOfInteger values)
| gen_range_float low high :
    0 <= low <= 500 -> 600 <= high <= 1000 -> generated (RangeFloat low high)
| gen_range_integer low high :
    0 <= low <= 50 -> 60 <= high <= 1000 -> generated (RangeInteger low high)
| gen_list k : generated (ListOf (Primitive k))
| gen_dict k : generated (DictOf (Primitive k))
| gen_optional k : generated (OptionalOf (Primitive k))
| gen_defaulted k : generated (DefaultedOf (Primitive k) (default_literal k)).

(** A type string matches one of the shapes [value_for_type] tests for,
    in the order of its branches. *)
Definition recognized (registry : gmap string string) (type_str : string) : bool :=
  let t := strip type_str in
  (startswith "_" t && match registry !! t with Some _ => true | None => false end)
  || String.eqb t "String" || String.eqb t "Integer" || String.eqb t "Float"
  || String.eqb t "Boolean" || String.eqb t "URL" || String.eqb t "Percentage"
  || startswith "String { x | x in {" t || startswith "Integer { x | x in {" t
  || (contains "x | x in (" t && contains ".." t)
  || startswith "List(" t || startswith "Dict(String, " t
  || startswith "Optional(" t || startswith "Defaulted(" t.

End Types.

(** ** Facts about the string methods *)
Module StringFacts.
Import Py GenerateCorpus.

Lemma append_assoc (a b c : string) : (a +:+ b) +:+ c = a +:+ (b +:+ c).
Proof. induction a as [|x a IH]; simpl; [reflexivity | now rewrite IH]. Qed.

Lemma append_nil_r (a : string) : a +:+ "" = a.
Proof. induction a as [|x a IH]; simpl; [reflexivity | now rewrite IH]. Qed.

Lemma append_nonempty (a b : string) : b <> "" -> String.eqb (a +:+ b) "" = false.
Proof.
  intros Hb. apply String.eqb_neq. destruct a; simpl; [assumption | discriminate].
Qed.

Lemma append_eq_nil (a b : string) : a +:+ b = "" -> a = "" /\ b = "".
Proof. destruct a; simpl; [auto | discriminate]. Qed.

(** [c] occurs in [s]. *)
Fixpoint has_char (c : ascii) (s : string) : bool :=
  match s with
  | "" => false
  | String a s' => Ascii.eqb a c || has_char c s'
  end.

(** Every character of [s] is in the class [p]. *)
Fixpoint all_chars (p : ascii -> bool) (s : string) : bool :=
  match s with
  | "" => true
  | String a s' => p a && all_chars p s'
  end.

Lemma has_char_app (c : ascii) (a b : string) :
  has_char c (a +:+ b) = has_char c a || has_char c b.
Proof.
  induction a as [|x a IH]; simpl; [reflexivity|].
  rewrite IH. apply orb_assoc.
Qed.

Lemma all_chars_app (p : ascii -> bool) (a b : string) :
  all_chars p (a +:+ b) = all_chars p a && all_chars p b.
Proof.
  induction a as [|x a IH]; simpl; [reflexivity|].
  rewrite IH. apply andb_assoc.
Qed.

Lemma all_chars_has_char (p : ascii -> bool) (c : ascii) (s : string) :
  all_chars p s = true -> p c = false -> has_char c s = false.
Proof.
  intros Hs Hc. induction s as [|a s IH]; simpl in *; [reflexivity|].
  apply andb_prop in Hs as [Ha Hs]. rewrite (IH Hs), orb_false_r.
  destruct (Ascii.eqb_spec a c) as [->|]; [congruence | reflexivity].
Qed.

Lemma all_chars_weaken (p q : ascii -> bool) (s : string) :
  (forall c, p c = true -> q c = true) -> all_chars p s = true -> all_chars q s = true.
Proof.
  intros Hpq. induction s as [|a s IH]; simpl; [reflexivity|].
  intros Hs. apply andb_prop in Hs as [Ha Hs]. rewrite (Hpq a Ha), (IH Hs). reflexivity.
Qed.

(** *** split *)

Lemma split_char_nonempty (c : ascii) (s : string) : split_char c s <> nil.
Proof.
  induction s as [|a s IH]; simpl; [discriminate|].
  destruct (Ascii.eqb a c); [discriminate|].
  destruct (split_char c s); [congruence | discriminate].
Qed.

Lemma split_char_no_sep (c : ascii) (s : string) :
  has_char c s = false -> split_char c s = s :: nil.
Proof.
  induction s as [|a s IH]; simpl; [reflexivity|].
  intros Hs. apply orb_false_elim in Hs as [Ha Hs]. rewrite Ha, (IH Hs). reflexivity.
Qed.

Lemma split_char_app_sep (c : ascii) (a b : string) :
  has_char c a = false -> split_char c (a +:+ String c b) = a :: split_char c b.
Proof.
  induction a as [|x a IH]; simpl.
  - intros _. rewrite Ascii.eqb_refl. reflexivity.
  - intros Ha. apply orb_false_elim in Ha as [Hx Ha]. rewrite Hx, (IH Ha). reflexivity.
Qed.

Lemma split_char_app (c : ascii) (a b : string) :
  split_char c (a +:+ String c b) = split_char c a ++ split_char c b.
Proof.
  induction a as [|x a IH]; simpl.
  - rewrite Ascii.eqb_refl. reflexivity.
  - destruct (Ascii.eqb x c); rewrite IH; [reflexivity|].
    pose proof (split_char_nonempty c a) as Hne.
    destruct (split_char c a); [congruence | reflexivity].
Qed.

Lemma last_item_app (l1 l2 : list string) :
  l2 <> nil -> last_item (l1 ++ l2) = last_item l2.
Proof.
  intros Hne. unfold last_item. induction l1 as [|x l1 IH]; [reflexivity|].
  simpl. destruct (l1 ++ l2) eqn:E; [|assumption].
  apply app_eq_nil in E as [_ E]. congruence.
Qed.

Lemma last_item_split (c : ascii) (a b : string) :
  has_char c b = false -> last_item (split_char c (a +:+ String c b)) = b.
Proof.
  intros Hb. rewrite split_char_app, last_item_app by apply split_char_nonempty.
  rewrite split_char_no_sep by assumption. reflexivity.
Qed.

(** *** strip *)

Lemma rstrip_with_app_keep (p : ascii -> bool) (a b : string) :
  b <> "" -> rstrip_with p b = b -> rstrip_with p (a +:+ b) = a +:+ b.
Proof.
  intros Hne Hb. induction a as [|x a IH]; simpl; [assumption|].
  rewrite IH. destruct (a +:+ b) eqn:E; [|reflexivity].
  apply append_eq_nil in E as [_ E]. congruence.
Qed.

Lemma rstrip_with_all (p : ascii -> bool) (b : string) :
  all_chars p b = true -> rstrip_with p b = "".
Proof.
  induction b as [|x b IH]; simpl; [reflexivity|].
  intros Hb. apply andb_prop in Hb as [Hx Hb]. rewrite (IH Hb), Hx. reflexivity.
Qed.

Lemma rstrip_with_app_drop (p : ascii -> bool) (a b : string) :
  all_chars p b = true -> rstrip_with p (a +:+ b) = rstrip_with p a.
Proof.
  intros Hb. induction a as [|x a IH]; simpl; [apply rstrip_with_all; assumption|].
  rewrite IH. reflexivity.
Qed.

(** A string without characters of the class is left as it is. *)
Lemma rstrip_with_none (p : ascii -> bool) (s : string) :
  all_chars (fun c => negb (p c)) s = true -> rstrip_with p s = s.
Proof.
  induction s as [|x s IH]; simpl; [reflexivity|].
  intros Hs. apply andb_prop in Hs as [Hx Hs]. rewrite (IH Hs).
  destruct s; [|reflexivity]. apply negb_true_iff in Hx. rewrite Hx. reflexivity.
Qed.

Lemma lstrip_with_none (p : ascii -> bool) (s : string) :
  all_chars (fun c => negb (p c)) s = true -> lstrip_with p s = s.
Proof.
  destruct s as [|x s]; simpl; [reflexivity|].
  intros Hs. apply andb_prop in Hs as [Hx _]. apply negb_true_iff in Hx.
  rewrite Hx. reflexivity.
Qed.

(** *** in *)

Lemma contains_app_r (sub a b : string) :
  contains sub b = true -> contains sub (a +:+ b) = true.
Proof.
  intros Hb. induction a as [|x a IH]; simpl; [assumption|].
  rewrite IH. apply orb_true_r.
Qed.

Lemma prefix_app (sub b : string) : String.prefix sub (sub +:+ b) = true.
Proof.
  induction sub as [|x sub IH]; simpl; [destruct b; reflexivity|].
  destruct (ascii_dec x x); [assumption | congruence].
Qed.

Lemma contains_here (sub b : string) : contains sub (sub +:+ b) = true.
Proof.
  pose proof (prefix_app sub b) as Hp.
  destruct (sub +:+ b); unfold contains; fold contains; rewrite Hp; reflexivity.
Qed.

(** A string without the first character of [sub] does not contain [sub]. *)
Lemma contains_no_first (c : ascii) (sub s : string) :
  has_char c s = false -> contains (String c sub) s = false.
Proof.
  induction s as [|x s IH]; simpl; [reflexivity|].
  intros Hs. apply orb_false_elim in Hs as [Hx Hs]. rewrite (IH Hs), orb_false_r.
  destruct (ascii_dec c x) as [->|]; [|reflexivity].
  rewrite Ascii.eqb_refl in Hx. discriminate.
Qed.

(** *** span *)

Lemma span_app (p : ascii -> bool) (a b : string) :
  all_chars p a = true ->
  span p (a +:+ b) = (a +:+ fst (span p b), snd (span p b)).
Proof.
  induction a as [|x a IH]; simpl; [destruct (span p b); reflexivity|].
  intros Ha. apply andb_prop in Ha as [Hx Ha]. rewrite Hx, (IH Ha). reflexivity.
Qed.

(** *** The body of a set: tokens separated by a comma and a space *)

Definition is_token_char (c : ascii) : bool :=
  negb (is_space c || Ascii.eqb c "," || Ascii.eqb c "{" || Ascii.eqb c "}").

Definition token (s : string) : bool :=
  negb (String.eqb s "") && all_chars is_token_char s.

Lemma token_nonempty (s : string) : token s = true -> s <> "".
Proof.
  unfold token. intros Hs. apply andb_prop in Hs as [Hs _].
  apply negb_true_iff, String.eqb_neq in Hs. assumption.
Qed.

Lemma token_chars (s : string) (p : ascii -> bool) :
  token s = true -> (forall c, is_token_char c = true -> p c = true) ->
  all_chars p s = true.
Proof.
  unfold token. intros Hs Hp. apply andb_prop in Hs as [_ Hs].
  eapply all_chars_weaken; eassumption.
Qed.

Lemma token_char_cases (c : ascii) :
  is_token_char c = true ->
  is_space c = false /\ Ascii.eqb c "," = false /\ Ascii.eqb c "{" = false
  /\ Ascii.eqb c "}" = false.
Proof.
  unfold is_token_char. intros Hc. apply negb_true_iff in Hc.
  apply orb_false_elim in Hc as [Hc H4]. apply orb_false_elim in Hc as [Hc H3].
  apply orb_false_elim in Hc as [H1 H2]. auto.
Qed.

Lemma token_has_no (s : string) (c : ascii) :
  token s = true -> is_token_char c = false -> has_char c s = false.
Proof.
  unfold token. intros Hs Hc. apply andb_prop in Hs as [_ Hs].
  eapply all_chars_has_char; eassumption.
Qed.

Lemma join_cons (sep x : string) (rest : list string) :
  rest <> nil -> join sep (x :: rest) = x +:+ sep +:+ join sep rest.
Proof. destruct rest; [congruence | reflexivity]. Qed.

Lemma join_tokens_has_no (items : list string) (c : ascii) :
  Forall (fun it => token it = true) items ->
  is_token_char c = false -> Ascii.eqb " " c = false -> Ascii.eqb "," c = false ->
  has_char c (join ", " items) = false.
Proof.
  intros Hall Hc Hsp Hco. induction Hall as [|x rest Hx Hrest IH]; [reflexivity|].
  destruct rest as [|y rest]; [simpl; eapply token_has_no; eassumption|].
  assert (Hsep : has_char c ", " = false)
    by (unfold has_char; rewrite Hsp, Hco; reflexivity).
  rewrite join_cons by discriminate. rewrite !has_char_app, IH, Hsep.
  rewrite (token_has_no x c Hx Hc). reflexivity.
Qed.

Lemma join_tokens_rstrip (items : list string) (p : ascii -> bool) :
  items <> nil -> Forall (fun it => token it = true) items ->
  (forall c, is_token_char c = true -> p c = false) ->
  join ", " items <> "" /\ rstrip_with p (join ", " items) = join ", " items.
Proof.
  intros Hne Hall Hp. induction Hall as [|x rest Hx Hrest IH]; [congruence|].
  destruct rest as [|y rest].
  - simpl. split; [apply token_nonempty; assumption|].
    apply rstrip_with_none, (token_chars x); [assumption|].
    intros c Hc. rewrite (Hp c Hc). reflexivity.
  - destruct (IH ltac:(discriminate)) as [IHne IHr].
    rewrite join_cons by discriminate. split.
    + intros E. apply append_eq_nil in E as [E _].
      apply (token_nonempty x Hx). assumption.
    + rewrite <- append_assoc. apply rstrip_with_app_keep; assumption.
Qed.

Lemma split_join_tokens (items : list string) :
  items <> nil -> Forall (fun it => token it = true) items ->
  split_char "," (" " +:+ join ", " items) = map (fun it => " " +:+ it) items.
Proof.
  intros Hne Hall. induction Hall as [|x rest Hx Hrest IH]; [congruence|].
  assert (Hcomma : has_char "," (" " +:+ x) = false).
  { simpl. apply token_has_no; [assumption | reflexivity]. }
  destruct rest as [|y rest].
  - simpl join. rewrite split_char_no_sep by assumption. reflexivity.
  - rewrite join_cons by discriminate.
    change (" " +:+ x +:+ ", " +:+ join ", " (y :: rest))
      with (" " +:+ (x +:+ String "," (" " +:+ join ", " (y :: rest)))).
    rewrite <- append_assoc, split_char_app_sep by assumption.
    rewrite IH by discriminate. reflexivity.
Qed.

Lemma strip_token (it : string) : token it = true -> strip (" " +:+ it) = it.
Proof.
  intros Hit. unfold strip, strip_with.
  assert (Hns : all_chars (fun c => negb (is_space c)) it = true).
  { apply (token_chars it); [assumption|]. intros c Hc.
    apply token_char_cases in Hc as (Hc & _). rewrite Hc. reflexivity. }
  rewrite rstrip_with_app_keep;
    [| apply token_nonempty; assumption | apply rstrip_with_none; assumption].
  simpl. apply lstrip_with_none. assumption.
Qed.

(** The values read back from the text of a set are its tokens. *)
Lemma set_values (head : string) (items : list string) :
  items <> nil -> Forall (fun it => token it = true) items ->
  map strip (split_char "," (set_body (head +:+ "{ " +:+ join ", " items +:+ " } }")))
  = items.
Proof.
  intros Hne Hall. unfold set_body.
  change (head +:+ "{ " +:+ join ", " items +:+ " } }")
    with (head +:+ String "{" (" " +:+ join ", " items +:+ " } }")).
  rewrite last_item_split.
  2:{ simpl. rewrite has_char_app, (join_tokens_has_no items "{" Hall); reflexivity. }
  destruct (join_tokens_rstrip items is_set_padding Hne Hall) as [Hj Hr].
  { intros c Hc. apply token_char_cases in Hc as (Hs & _ & _ & Hb).
    unfold is_set_padding. rewrite Hb, orb_false_r.
    destruct (Ascii.eqb_spec c " ") as [->|]; [discriminate Hs | reflexivity]. }
  change (" " +:+ join ", " items +:+ " } }")
    with (" " +:+ (join ", " items +:+ " } }")).
  rewrite <- append_assoc, rstrip_with_app_drop by reflexivity.
  rewrite rstrip_with_app_keep by assumption.
  rewrite split_join_tokens by assumption.
  rewrite map_map. clear Hne Hj Hr.
  induction Hall as [|x rest Hx _ IH]; [reflexivity|].
  cbn [map]. f_equal; [apply strip_token; assumption | exact IH].
Qed.

Lemma mem_In (x : string) (l : list string) : mem x l = true <-> In x l.
Proof.
  unfold mem. rewrite existsb_exists. split.
  - intros (y & Hy & E). apply String.eqb_eq in E. congruence.
  - intros Hx. exists x. split; [assumption | apply String.eqb_refl].
Qed.

(** [rstrip] keeps a text that ends as [s] does. *)
Definition kept (p : ascii -> bool) (s : string) : Prop :=
  s <> "" /\ rstrip_with p s = s.

Lemma kept_app (p : ascii -> bool) (a b : string) : kept p b -> kept p (a +:+ b).
Proof.
  intros [Hne Hb]. split; [|apply rstrip_with_app_keep; assumption].
  intros E. apply append_eq_nil in E as [_ E]. congruence.
Qed.

Lemma strip_kept (a : ascii) (s : string) :
  is_space a = false -> kept is_space (String a s) -> strip (String a s) = String a s.
Proof.
  intros Ha [_ Hr]. unfold strip, strip_with. rewrite Hr. simpl. rewrite Ha. reflexivity.
Qed.

(** *** The range pattern on the text of a range *)

Definition starts_with_digit (s : string) : bool :=
  match s with
  | String a _ => is_digit a
  | "" => false
  end.

Fixpoint no_double_dot (s : string) : bool :=
  match s with
  | String a ((String b _) as s') =>
      negb (Ascii.eqb a "." && Ascii.eqb b ".") && no_double_dot s'
  | _ => true
  end.

(** A numeral as the generators print it. *)
Definition numeral (s : string) : bool :=
  all_chars is_numeral_char s && starts_with_digit s && no_double_dot s.

Lemma numeral_char_not_space (a : ascii) : is_numeral_char a = true -> is_space a = false.
Proof.
  unfold is_numeral_char, is_digit, is_space, code.
  destruct (Ascii.eqb_spec a ".") as [->|_]; [reflexivity|].
  rewrite orb_false_r. intros Ha. apply andb_prop in Ha as [H1 H2].
  apply N.leb_le in H1. apply N.leb_le in H2.
  repeat match goal with
         | |- context [(?x <=? ?y)%N] => destruct (N.leb_spec x y)
         | |- context [(?x =? ?y)%N] => destruct (N.eqb_spec x y)
         end; simpl; try reflexivity; lia.
Qed.

Lemma digit_not_dot (a : ascii) : is_digit a = true -> Ascii.eqb a "." = false.
Proof.
  intros Ha. destruct (Ascii.eqb_spec a ".") as [->|]; [discriminate Ha | reflexivity].
Qed.

Lemma skip_spaces_numeral (a : ascii) (s : string) :
  is_numeral_char a = true -> skip_spaces (String a s) = String a s.
Proof.
  intros Ha. unfold skip_spaces. simpl. rewrite (numeral_char_not_space a Ha). reflexivity.
Qed.

(** After numeral characters without two dots in a row, the rest of the
    pattern does not match. *)
Lemma range_tail_after (s : string) :
  all_chars is_numeral_char s = true -> no_double_dot s = true ->
  range_tail (s +:+ " ) }") = None.
Proof.
  intros Hall Hnd. destruct s as [|a [|b s]]; [reflexivity| |].
  - simpl in Hall. rewrite andb_true_r in Hall.
    unfold range_tail. simpl append. rewrite skip_spaces_numeral by assumption.
    rewrite andb_false_r. reflexivity.
  - simpl in Hall. apply andb_prop in Hall as [Ha Hall].
    unfold range_tail. simpl append. rewrite skip_spaces_numeral by assumption.
    simpl in Hnd. apply andb_prop in Hnd as [Hab _]. apply negb_true_iff in Hab.
    rewrite Hab. reflexivity.
Qed.

Lemma no_double_dot_tail (a : ascii) (s : string) :
  no_double_dot (String a s) = true -> no_double_dot s = true.
Proof.
  destruct s as [|b s]; [reflexivity|]. simpl. intros Hnd.
  apply andb_prop in Hnd as [_ Hnd]. exact Hnd.
Qed.

Lemma range_groups_cons (a : ascii) (run rest : string) :
  range_groups (String a run) rest
  = match range_groups run rest with
    | Some (low, high) => Some (String a low, high)
    | None =>
        match range_tail (run +:+ rest) with
        | Some high => Some (String a "", high)
        | None => None
        end
    end.
Proof. reflexivity. Qed.

Lemma range_groups_none (s : string) :
  all_chars is_numeral_char s = true -> no_double_dot s = true ->
  range_groups s " ) }" = None.
Proof.
  induction s as [|a s IH]; [reflexivity|].
  intros Hall Hnd. simpl in Hall. apply andb_prop in Hall as [Ha Hall].
  pose proof (no_double_dot_tail a s Hnd) as Hnd'.
  rewrite range_groups_cons, (IH Hall Hnd'), (range_tail_after s Hall Hnd'). reflexivity.
Qed.

Lemma numeral_parts (s : string) :
  numeral s = true ->
  all_chars is_numeral_char s = true /\ no_double_dot s = true
  /\ exists a s', s = String a s' /\ is_digit a = true.
Proof.
  unfold numeral. intros Hs. apply andb_prop in Hs as [Hs Hnd].
  apply andb_prop in Hs as [Hall Hd]. repeat split; try assumption.
  destruct s as [|a s']; [discriminate Hd | eauto].
Qed.

Lemma range_tail_found (high : string) :
  numeral high = true -> range_tail (".." +:+ high +:+ " ) }") = Some high.
Proof.
  intros Hh. destruct (numeral_parts high Hh) as (Hall & _ & a & s' & -> & Ha).
  assert (Hn : is_numeral_char a = true) by (unfold is_numeral_char; rewrite Ha; reflexivity).
  unfold range_tail.
  change (".." +:+ String a s' +:+ " ) }")
    with (String "." (String "." (String a s' +:+ " ) }"))).
  rewrite (skip_spaces_numeral "." _ eq_refl).
  change (Ascii.eqb "." "." && Ascii.eqb "." ".") with true. cbv iota.
  change (String a s' +:+ " ) }") with (String a (s' +:+ " ) }")).
  rewrite skip_spaces_numeral by assumption.
  change (String a (s' +:+ " ) }")) with (String a s' +:+ " ) }").
  rewrite span_app by assumption.
  change (span is_numeral_char " ) }") with ("", " ) }"). cbn [fst snd].
  rewrite append_nil_r. reflexivity.
Qed.

Lemma range_groups_dots (high : string) :
  numeral high = true -> range_groups (".." +:+ high) " ) }" = None.
Proof.
  intros Hh. destruct (numeral_parts high Hh) as (Hall & Hnd & a & s' & E & Ha).
  assert (Hall1 : all_chars is_numeral_char ("." +:+ high) = true) by (simpl; exact Hall).
  assert (Hnd1 : no_double_dot ("." +:+ high) = true).
  { subst high.
    change (no_double_dot ("." +:+ String a s'))
      with (negb (Ascii.eqb "." "." && Ascii.eqb a ".") && no_double_dot (String a s')).
    rewrite (digit_not_dot a Ha), Hnd. reflexivity. }
  change (".." +:+ high) with (String "." ("." +:+ high)).
  rewrite range_groups_cons.
  rewrite (range_groups_none ("." +:+ high) Hall1 Hnd1).
  rewrite (range_tail_after ("." +:+ high) Hall1 Hnd1). reflexivity.
Qed.

Lemma range_groups_found (low high : string) :
  low <> "" -> numeral high = true ->
  range_groups (low +:+ ".." +:+ high) " ) }" = Some (low, high).
Proof.
  intros Hne Hh. induction low as [|a low IH]; [congruence|].
  change (String a low +:+ ".." +:+ high) with (String a (low +:+ ".." +:+ high)).
  rewrite range_groups_cons.
  destruct low as [|b low].
  - change ("" +:+ ".." +:+ high) with (".." +:+ high).
    rewrite (range_groups_dots high Hh).
    change ((".." +:+ high) +:+ " ) }") with (".." +:+ high +:+ " ) }").
    rewrite (range_tail_found high Hh). reflexivity.
  - rewrite IH by discriminate. reflexivity.
Qed.

Lemma search_range_cons (a : ascii) (s : string) :
  search_range (String a s)
  = match range_match_here (String a s) with
    | Some groups => Some groups
    | None => search_range s
    end.
Proof. reflexivity. Qed.

Lemma search_range_skip (head s : string) :
  has_char "(" head = false -> search_range (head +:+ s) = search_range s.
Proof.
  induction head as [|a head IH]; [reflexivity|].
  simpl has_char. intros Hh. apply orb_false_elim in Hh as [Ha Hh].
  change (String a head +:+ s) with (String a (head +:+ s)).
  rewrite search_range_cons. unfold range_match_here. rewrite Ha. apply IH. assumption.
Qed.

(** The groups found in the text of a range are its two bounds. *)
Lemma search_range_text (head low high : string) :
  has_char "(" head = false -> numeral low = true -> numeral high = true ->
  search_range (head +:+ "( " +:+ low +:+ ".." +:+ high +:+ " ) }") = Some (low, high).
Proof.
  intros Hhead Hl Hh. rewrite search_range_skip by assumption.
  destruct (numeral_parts low Hl) as (Hall & _ & a & s' & E & Ha).
  destruct (numeral_parts high Hh) as (Hallh & _ & _).
  assert (Hn : is_numeral_char a = true) by (unfold is_numeral_char; rewrite Ha; reflexivity).
  assert (Hspan : span is_numeral_char (low +:+ ".." +:+ high +:+ " ) }")
                  = (low +:+ ".." +:+ high, " ) }")).
  { rewrite span_app by assumption.
    rewrite (span_app is_numeral_char ".." (high +:+ " ) }") eq_refl).
    rewrite span_app by assumption.
    change (span is_numeral_char " ) }") with ("", " ) }"). cbn [fst snd].
    rewrite append_nil_r. reflexivity. }
  assert (Hlow : low <> "") by (subst low; discriminate).
  change ("( " +:+ low +:+ ".." +:+ high +:+ " ) }")
    with (String "(" (String " " (low +:+ ".." +:+ high +:+ " ) }"))).
  rewrite search_range_cons. unfold range_match_here.
  change (Ascii.eqb "(" "(") with true. cbv iota.
  assert (Hskip : skip_spaces (String " " (low +:+ ".." +:+ high +:+ " ) }"))
                  = low +:+ ".." +:+ high +:+ " ) }").
  { subst low. unfold skip_spaces. simpl lstrip_with.
    rewrite (numeral_char_not_space a Hn). reflexivity. }
  rewrite Hskip, Hspan, (range_groups_found low high Hlow Hh). reflexivity.
Qed.

(** Checking a property on every integer of a range. *)
Lemma for_range (P : Z -> bool) (a b : Z) :
  forallb P (map (fun i => a + Z.of_nat i) (seq 0 (Z.to_nat (b - a)))) = true ->
  forall n, a <= n < b -> P n = true.
Proof.
  intros Hall n Hn. rewrite forallb_forall in Hall. apply Hall.
  apply in_map_iff. exists (Z.to_nat (n - a)). split; [lia|].
  apply in_seq. lia.
Qed.

End StringFacts.

(** ** Facts about compare.py *)
Module CompareFacts.
Import Py Compare.

(** The two files of the comparator example. *)
Definition one_benchmark (name : string) (mean_ms : Z) : file :=
  Json (Some ({| command := Some name; mean := Some (float_of_decimal mean_ms 3) |} :: nil)).

Definition baseline_example : file := one_benchmark "checkout" 1000.
Definition current_example : file := one_benchmark "checkout" 1150.

Definition zero : float := S754_zero false.

(** [0 <= x] as Python evaluates it. *)
Definition nonnegative (x : float) : bool := SFleb zero x.

Lemma compare_cont_eq (m1 m2 : positive) :
  Pos.compare_cont Eq m1 m2 = Eq -> m1 = m2.
Proof. apply Pos.compare_eq. Qed.

Lemma SFcompare_eq_sym (x y : float) :
  SFcompare x y = Some Eq -> SFcompare y x = Some Eq.
Proof.
  destruct x as [sx|sx| |sx mx ex], y as [sy|sy| |sy my ey]; simpl;
    try discriminate; try reflexivity;
    repeat match goal with s : bool |- _ => destruct s end;
    try discriminate; try reflexivity.
  all: destruct (Z.compare_spec ex ey) as [He|He|He]; try discriminate; subst.
  all: intros H; injection H as H.
  all: try (apply (f_equal CompOpp) in H; rewrite CompOpp_involutive in H; simpl in H).
  all: apply compare_cont_eq in H; subst.
  all: rewrite Z.compare_refl, Pos.compare_cont_refl; reflexivity.
Qed.

Lemma fltb_eq_false (x y : float) : feqb x y = true -> fltb y x = false.
Proof.
  unfold feqb, fltb, SFeqb, SFltb. intros H.
  destruct (SFcompare x y) as [[| |]|] eqn:E; try discriminate.
  now rewrite (SFcompare_eq_sym _ _ E).
Qed.

Lemma fltb_eq_false' (x y : float) : feqb x y = true -> fltb x y = false.
Proof.
  unfold feqb, fltb, SFeqb, SFltb. intros H.
  destruct (SFcompare x y) as [[| |]|]; try discriminate; reflexivity.
Qed.

(** A value equal to a non-negative threshold is not below its negation. *)
Lemma not_below_negated (c t : float) :
  nonnegative t = true -> feqb c t = true -> fltb c (fneg t) = false.
Proof.
  unfold nonnegative, feqb, fltb, fneg, SFleb, SFeqb, SFltb, zero.
  destruct c as [sc|sc| |sc mc ec], t as [st|st| |st mt et]; simpl;
    repeat match goal with s : bool |- _ => destruct s end; simpl;
    try discriminate; try reflexivity.
  all: destruct (ec ?= et); try discriminate; try reflexivity.
Qed.

(** A non-negative threshold is not below its own negation. *)
Lemma negated_not_above (c t : float) :
  nonnegative t = true -> feqb c (fneg t) = true -> fltb t c = false.
Proof.
  unfold nonnegative, feqb, fltb, fneg, SFleb, SFeqb, SFltb, zero.
  destruct c as [sc|sc| |sc mc ec], t as [st|st| |st mt et]; simpl;
    repeat match goal with s : bool |- _ => destruct s end; simpl;
    try discriminate; try reflexivity.
  all: destruct (et ?= ec); try discriminate; try reflexivity.
Qed.

Lemma classify_at_threshold (c t : float) :
  nonnegative t = true ->
  feqb c t = true \/ feqb c (fneg t) = true ->
  classify c t = Ok.
Proof.
  intros Ht [H|H]; unfold classify.
  - rewrite (fltb_eq_false _ _ H), (not_below_negated _ _ Ht H). reflexivity.
  - rewrite (negated_not_above _ _ Ht H), (fltb_eq_false' _ _ H). reflexivity.
Qed.

Lemma classify_regression_iff (c t : float) :
  classify c t = Regression <-> fltb t c = true.
Proof.
  unfold classify. destruct (fltb t c); [tauto|].
  destruct (fltb c (fneg t)); split; discriminate.
Qed.

Lemma insert_sorted_In {V} (kv x : string * V) (l : list (string * V)) :
  In x (insert_sorted kv l) -> x = kv \/ In x l.
Proof.
  induction l as [|kv' l IH]; simpl.
  - intros [H|[]]; auto.
  - destruct (String.leb (fst kv) (fst kv')); simpl.
    + intros [H|[H|H]]; auto.
    + intros [H|H]; auto. destruct (IH H); auto.
Qed.

Lemma sorted_items_In {V} (d : dict V) (x : string * V) :
  In x (sorted_items d) -> In x d.
Proof.
  induction d as [|kv d IH]; simpl; [tauto|].
  intros H. destruct (insert_sorted_In _ _ _ H); auto.
Qed.

(** A benchmark of both files whose change is computed and does not exceed
    the threshold. *)
Definition within (baseline : dict float) (threshold_pct : float)
    (item : string * float) : Prop :=
  forall baseline_mean, dict_get baseline (fst item) = Some baseline_mean ->
    exists change, change_pct baseline_mean (snd item) = Return change
                   /\ fltb threshold_pct change = false.

Lemma rows_no_regression (w : nat) (baseline : dict float) (t : float)
    (items : list (string * float)) :
  (forall item, In item items -> within baseline t item) ->
  forall lines regressions,
    exists lines', rows w baseline t items lines regressions = Return (lines', regressions).
Proof.
  induction items as [|[name cm] items IH]; intros Hall lines regs; simpl.
  - eauto.
  - assert (Hrest : forall item, In item items -> within baseline t item)
      by (intros; apply Hall; right; assumption).
    destruct (dict_get baseline name) as [bm|] eqn:E.
    + destruct (Hall (name, cm) (or_introl eq_refl) bm E) as (ch & Hch & Hlt).
      simpl in Hch. rewrite Hch. simpl. unfold classify. rewrite Hlt.
      destruct (fltb ch (fneg t)); apply IH; assumption.
    + apply IH; assumption.
Qed.

Lemma compare_passes (float_repr : float -> string) (bf cf : file)
    (baseline current : dict float) (t : float) :
  load_results bf = Return baseline ->
  load_results cf = Return current ->
  (forall item, In item current -> within baseline t item) ->
  exists lines, compare float_repr bf cf t = Return (Some true, lines).
Proof.
  intros Hb Hc Hall. unfold compare. rewrite Hb, Hc. simpl.
  destruct (rows_no_regression (max_name_len current) baseline t (sorted_items current))
    with (lines := header (max_name_len current)) (regressions := @nil (string * float))
    as (lines' & Hrows).
  - intros item Hin. apply Hall, sorted_items_In, Hin.
  - rewrite Hrows. simpl. eauto.
Qed.

(** C4: the comparator example. With threshold 10 the change of checkout is
    printed as +15.0%, it is a regression, [compare] returns passed=False and
    the program exits with status 1; with threshold 20 there is no regression,
    passed=True and the exit status is 0. *)
Theorem compare_checkout_example (float_repr : float -> string) :
  let row := "checkout     1000.0ms     1150.0ms      +15.0%  " in
  exists change,
    change_pct (float_of_decimal 1000 3) (float_of_decimal 1150 3) = Return change
    /\ format_1f true change = "+15.0"
    /\ classify change (float_of_Z 10) = Regression
    /\ (exists lines,
          compare float_repr baseline_example current_example (float_of_Z 10)
          = Return (Some false, lines)
          /\ In (row +:+ "REGRESSION (+15.0%)") lines
          /\ In "  - checkout: +15.0%" lines)
    /\ snd (main float_repr baseline_example current_example (Some (float_of_Z 10))) = 1
    /\ snd (main float_repr baseline_example current_example None) = 1
    /\ classify change (float_of_Z 20) = Ok
    /\ (exists lines,
          compare float_repr baseline_example current_example (float_of_Z 20)
          = Return (Some true, lines)
          /\ In (row +:+ "OK") lines)
    /\ snd (main float_repr baseline_example current_example (Some (float_of_Z 20))) = 0.
Proof.
  eexists. split; [vm_compute; reflexivity|].
  split; [vm_compute; reflexivity|].
  split; [vm_compute; reflexivity|].
  split.
  { eexists. split; [vm_compute; reflexivity|]. split.
    - right; right; left. reflexivity.
    - right; right; right; right; right; left. reflexivity. }
  split; [vm_compute; reflexivity|].
  split; [vm_compute; reflexivity|].
  split; [vm_compute; reflexivity|].
  split.
  { eexists. split; [vm_compute; reflexivity|].
    right; right; left. reflexivity. }
  vm_compute; reflexivity.
Qed.

(** C10, as the code has it: for a threshold that is not negative, a change
    equal to the threshold or to its negation is classified OK; for every
    threshold a regression is exactly a change strictly above the threshold;
    and when both files load and every common benchmark has a change that is
    computed and not above the threshold, [compare] returns passed=True and
    the program exits with status 0. *)
Theorem compare_threshold_boundary (float_repr : float -> string) :
  (forall change t : float,
      nonnegative t = true ->
      feqb change t = true \/ feqb change (fneg t) = true ->
      classify change t = Ok)
  /\ (forall change t : float, classify change t = Regression <-> fltb t change = true)
  /\ (forall (bf cf : file) (baseline current : dict float) (t : float),
        load_results bf = Return baseline ->
        load_results cf = Return current ->
        (forall item, In item current -> within baseline t item) ->
        (exists lines, compare float_repr bf cf t = Return (Some true, lines))
        /\ snd (main float_repr bf cf (Some t)) = 0).
Proof.
  split; [exact classify_at_threshold|].
  split; [exact classify_regression_iff|].
  intros bf cf baseline current t Hb Hc Hall.
  destruct (compare_passes float_repr bf cf baseline current t Hb Hc Hall) as (lines & H).
  split; [eauto|]. unfold main. rewrite H. reflexivity.
Qed.

Definition two_seconds : file := one_benchmark "checkout" 2000.
Definition three_seconds : file := one_benchmark "checkout" 3000.

Lemma compare_threshold_boundary_witness :
  classify (float_of_Z 50) (float_of_Z 50) = Ok
  /\ snd (main (fun _ => "50.0") two_seconds three_seconds (Some (float_of_Z 50))) = 0.
Proof.
  destruct (compare_threshold_boundary (fun _ => "50.0")) as (H1 & _ & H3).
  split.
  - apply H1; [reflexivity | left; reflexivity].
  - eapply H3; [reflexivity | reflexivity |].
    intros item [<-|[]] bm Hbm. injection Hbm as <-.
    eexists. split; vm_compute; reflexivity.
Defined.

(** C10 as stated fails for a negative threshold: with [--threshold -50] a
    change of exactly +50% equals the negated threshold, yet it is a
    regression and the program exits with status 1. *)
Lemma threshold_equality_counterexample :
  let t := float_of_Z (-50) in
  exists change,
    change_pct (float_of_decimal 2000 3) (float_of_decimal 3000 3) = Return change
    /\ feqb change (fneg t) = true
    /\ classify change t = Regression
    /\ classify change t <> Ok
    /\ forall float_repr, snd (main float_repr two_seconds three_seconds (Some t)) = 1.
Proof.
  eexists. split; [vm_compute; reflexivity|].
  split; [vm_compute; reflexivity|].
  split; [vm_compute; reflexivity|].
  split; [vm_compute; discriminate|].
  intros float_repr. vm_compute. reflexivity.
Qed.

End CompareFacts.

(** ** Facts about generate_corpus.py *)
Module GenerateCorpusFacts.
Import Py GenerateCorpus Tape.
Local Open Scope py_scope.

(** *** Rounding *)

Lemma round_half_even_bounds (x : Q) :
  Qfloor x <= round_half_even x <= Qfloor x + 1.
Proof.
  unfold round_half_even.
  destruct (Qcompare (x - inject_Z (Qfloor x)) (1 # 2)); [|lia|lia].
  destruct (Z.even (Qfloor x)); lia.
Qed.

Lemma round_half_even_mono (x y : Q) :
  (x <= y)%Q -> round_half_even x <= round_half_even y.
Proof.
  intros Hxy.
  pose proof (Qfloor_resp_le _ _ Hxy) as Hf.
  pose proof (round_half_even_bounds x) as Hx.
  pose proof (round_half_even_bounds y) as Hy.
  destruct (Z.eq_dec (Qfloor x) (Qfloor y)) as [E|NE]; [|lia].
  assert (Hr : (x - inject_Z (Qfloor x) <= y - inject_Z (Qfloor y))%Q).
  { rewrite E. unfold Qminus. apply Qplus_le_l. assumption. }
  unfold round_half_even in *. rewrite <- E in *.
  destruct (Qcompare (x - inject_Z (Qfloor x)) (1 # 2)) eqn:Cx;
    destruct (Qcompare (y - inject_Z (Qfloor x)) (1 # 2)) eqn:Cy;
    try lia.
  - apply Qeq_alt in Cx. apply Qlt_alt in Cy. rewrite Cx in Hr.
    exfalso. apply (Qlt_not_le _ _ Cy Hr).
  - apply Qgt_alt in Cx. apply Qeq_alt in Cy. rewrite Cy in Hr.
    exfalso. apply (Qlt_not_le _ _ Cx Hr).
  - apply Qgt_alt in Cx. apply Qlt_alt in Cy.
    exfalso. apply (Qlt_not_le _ _ Cx). apply Qle_trans with (1 := Hr).
    apply Qlt_le_weak. assumption.
Qed.

Lemma rounded_mono (ndigits : Z) (x y : Q) :
  (x <= y)%Q -> rounded ndigits x <= rounded ndigits y.
Proof.
  intros Hxy. unfold rounded. apply round_half_even_mono.
  apply Qmult_le_compat_r; [assumption|].
  unfold Qle. simpl. pose proof (Z.pow_nonneg 10 ndigits ltac:(lia)). lia.
Qed.

Section Facts.

Context {G : Type} `{RandomSource G}.

(** *** Statement sequences *)

(** Only the generator moved. *)
Definition same_store (w w' : world G) : Prop :=
  alias_registry w' = alias_registry w /\ files w' = files w.

Lemma same_store_refl (w : world G) : same_store w w.
Proof. split; reflexivity. Qed.

Lemma same_store_trans (w1 w2 w3 : world G) :
  same_store w1 w2 -> same_store w2 w3 -> same_store w1 w3.
Proof. intros [A B] [C D]. split; congruence. Qed.

Lemma ret_inv {A} (a b : A) (w w' : world G) :
  ret a w = Return (b, w') -> b = a /\ w' = w.
Proof. unfold ret. intros E. injection E as <- <-. auto. Qed.

Lemma bind_inv {A B} (m : M G A) (k : A -> M G B) (w w'' : world G) (b : B) :
  bindM m k w = Return (b, w'') ->
  exists a w', m w = Return (a, w') /\ k a w' = Return (b, w'').
Proof.
  unfold bindM. destruct (m w) as [[a w']|e]; [eauto | discriminate].
Qed.

Lemma draw_inv {A} (f : G -> A * G) (w w' : world G) (a : A) :
  draw f w = Return (a, w') ->
  a = fst (f (rng w)) /\ rng w' = snd (f (rng w)) /\ same_store w w'.
Proof.
  unfold draw. destruct (f (rng w)) as [a0 g]. intros E. injection E as <- <-.
  simpl. repeat split.
Qed.

Lemma choice_inv {A} (seq : list A) (w w' : world G) (x : A) :
  choice seq w = Return (x, w') -> In x seq /\ same_store w w'.
Proof.
  destruct seq as [|first rest]; [discriminate|].
  unfold choice. intros E.
  apply bind_inv in E as (i & w1 & Ed & Er).
  apply draw_inv in Ed as (-> & _ & Hs). apply ret_inv in Er as [-> ->].
  split; [|assumption].
  pose proof (randbelow_range (Z.of_nat (List.length (first :: rest))) (rng w)
                ltac:(simpl; lia)) as Hi.
  apply nth_In. lia.
Qed.

Lemma randint_inv (a b : Z) (w w' : world G) (n : Z) :
  randint a b w = Return (n, w') -> a <= n <= b /\ same_store w w'.
Proof.
  unfold randint. destruct (b <? a) eqn:E; [discriminate|]. intros E'.
  apply bind_inv in E' as (i & w1 & Ed & Er).
  apply draw_inv in Ed as (-> & _ & Hs). apply ret_inv in Er as [-> ->].
  split; [|assumption].
  pose proof (randbelow_range (b - a + 1) (rng w) ltac:(lia)). lia.
Qed.

Lemma for_each_inv {A B} (body : A -> M G B) (xs : list A) (w w' : world G) (ys : list B) :
  for_each xs body w = Return (ys, w') ->
  Forall2 (fun x y => exists w1 w2, body x w1 = Return (y, w2)) xs ys.
Proof.
  revert w ys. induction xs as [|x xs IH]; intros w ys E; simpl in E.
  - apply ret_inv in E as [-> _]. constructor.
  - apply bind_inv in E as (y & w1 & Ey & E).
    apply bind_inv in E as (ys' & w2 & Eys & E).
    apply ret_inv in E as [-> ->].
    constructor; [exists w, w1; assumption | eapply IH; eassumption].
Qed.

Lemma range_one_or_more (n : Z) :
  1 <= n -> range n = 0 :: nil \/ exists rest, range n = 0 :: 1 :: rest.
Proof.
  intros Hn. unfold range.
  destruct (Z.to_nat n) as [|[|k]] eqn:E; [lia | left; reflexivity | right].
  simpl. eauto.
Qed.

Lemma range_two_or_more (n : Z) :
  2 <= n -> exists rest, range n = 0 :: 1 :: rest.
Proof.
  intros Hn. unfold range.
  destruct (Z.to_nat n) as [|[|k]] eqn:E; [lia | lia |].
  simpl. eauto.
Qed.

(** *** The threshold and the window of an expectation *)

(** C8, as the code has it: the threshold of every generated expectation lies
    in the closed interval from 95.0 to 99.99 (kept in hundredths, as
    [round(..., 2)] leaves it), and its window is 7, 30 or 90. *)
Theorem expectation_threshold_window (fuel : nat) (blueprint_name : string)
    (fields : list (string * string)) (team : string) (i : Z)
    (w w' : world G) (e : expectation) :
  gen_expectation fuel blueprint_name fields team i w = Return (e, w') ->
  9500 <= exp_threshold e <= 9999 /\ In (exp_window e) (7 :: 30 :: 90 :: nil).
Proof.
  unfold gen_expectation. intros E.
  apply bind_inv in E as (values & w1 & _ & E).
  apply bind_inv in E as (threshold & w2 & Et & E).
  apply bind_inv in E as (window & w3 & Ew & E).
  apply ret_inv in E as [-> ->]. simpl.
  apply draw_inv in Et as (-> & _ & _). apply choice_inv in Ew as [Hw _].
  split; [|assumption].
  destruct (uniform_range 95 (float_literal 9999 2) (rng w1)) as [Hlo Hhi];
    [vm_compute; discriminate|].
  split.
  - change 9500 with (rounded 2 95). apply rounded_mono. assumption.
  - replace 9999 with (rounded 2 (float_literal 9999 2)) by (vm_compute; reflexivity).
    apply rounded_mono. assumption.
Qed.

End Facts.

Definition one_string_field : list (string * string) :=
  ("checkout_slo_param_0", "String") :: nil.

Lemma expectation_threshold_window_witness :
  exists e w',
    gen_expectation 5 "checkout_slo" one_string_field "platform" 0
                    (Tape.start (3 :: 1 :: 2 :: 2 ^ 52 :: 1 :: nil)) = Return (e, w')
    /\ 9500 <= exp_threshold e <= 9999 /\ In (exp_window e) (7 :: 30 :: 90 :: nil).
Proof.
  eexists _, _. split; [vm_compute; reflexivity|].
  eapply (expectation_threshold_window 5 "checkout_slo" one_string_field "platform" 0
            (Tape.start (3 :: 1 :: 2 :: 2 ^ 52 :: 1 :: nil))).
  vm_compute. reflexivity.
Defined.

(** C8 as stated fails at the lower end: when [random.uniform(95.0, 99.99)]
    returns 95.0 (or anything that rounds to it), the threshold is 95.0 itself,
    not a value strictly above it. *)
Lemma threshold_lower_end_counterexample :
  exists e w',
    gen_expectation 5 "checkout_slo" one_string_field "platform" 0 (Tape.start nil)
    = Return (e, w')
    /\ exp_threshold e = 9500
    /\ ~ (9500 < exp_threshold e)
    /\ In "      threshold: 95.0," (expectation_lines e).
Proof.
  eexists _, _. split; [vm_compute; reflexivity|].
  split; [reflexivity|]. split; [vm_compute; discriminate|].
  vm_compute. tauto.
Qed.

End GenerateCorpusFacts.

(** *** Blueprints *)
Module BlueprintFacts.
Import Py GenerateCorpus Tape StringFacts GenerateCorpusFacts.
Local Open Scope py_scope.

Definition param (name : string) (i : Z) : string := name +:+ "_param_" +:+ str_Z i.

Lemma truthy_param (name : string) (i : Z) : truthy (Some (param name i)) = true.
Proof.
  unfold truthy, param. rewrite append_nonempty; [reflexivity | discriminate].
Qed.

(** The line of the direct vendor field. *)
Definition vendor_line : string := "      vendor: " +:+ quoted "datadog" +:+ ",".

Lemma has_char_param (name : string) (i : Z) (rest : string) :
  has_char "_" (param name i +:+ rest) = true.
Proof.
  unfold param. rewrite !has_char_app. simpl. rewrite orb_true_r. reflexivity.
Qed.

(** No line of a [Requires] block is the vendor line: each field line has
    the underscore of its field name. *)
Lemma requires_block_no_vendor (name : string) (fields : list (string * string)) :
  Forall (fun f => exists i, fst f = param name i) fields ->
  ~ In vendor_line (requires_block (map (fun f => fst f +:+ ": " +:+ snd f) fields)).
Proof.
  intros Hf. unfold requires_block.
  destruct (len _ <=? 2).
  - intros [E|[]]. discriminate E.
  - intros [E|Hin]; [discriminate E|].
    apply in_app_or in Hin as [Hin|[E|[]]]; [|discriminate E].
    apply in_map_iff in Hin as (line & E & Hin).
    apply in_map_iff in Hin as (f & <- & Hin).
    rewrite List.Forall_forall in Hf. destruct (Hf f Hin) as (i & Hi).
    rewrite Hi in E. unfold vendor_line in E. simpl in E.
    injection E as E.
    apply (f_equal (has_char "_")) in E.
    rewrite has_char_app, has_char_param in E. vm_compute in E. discriminate.
Qed.

Section Blueprints.

Context {G : Type} `{RandomSource G}.

Lemma gen_num_req_inv (complexity : string) (w w' : world G) (n : Z) :
  gen_num_req complexity w = Return (n, w') ->
  1 <= n <= 12 /\ (complexity <> "small" -> 2 <= n).
Proof.
  unfold gen_num_req. intros E.
  destruct (String.eqb_spec complexity "small") as [->|Hs].
  { apply randint_inv in E as [? _]. split; [lia | congruence]. }
  destruct (String.eqb complexity "medium");
    [|destruct (String.eqb complexity "large")];
    apply randint_inv in E as [? _]; split; lia.
Qed.

Lemma gen_req_field_first_two (name : string) (alias_names : list string)
    (complexity : string) (i : Z) (w w' : world G) (field : string * string) :
  i < 2 ->
  gen_req_field name alias_names complexity i w = Return (field, w') ->
  field = (param name i, "String").
Proof.
  intros Hi E. unfold gen_req_field in E.
  apply bind_inv in E as (ftype & w1 & Et & E).
  apply ret_inv in E as [-> _].
  destruct (Z.ltb_spec i 2); [|lia].
  apply ret_inv in Et as [-> _]. reflexivity.
Qed.

Lemma is_simple_string_String (registry : gmap string string) :
  is_simple_string registry "String" = true.
Proof. reflexivity. Qed.

Lemma select_params_full (registry : gmap string string) (fields : list (string * string))
    (env svc : string) :
  select_params registry fields (Some env) (Some svc) = (Some env, Some svc).
Proof.
  induction fields as [|[fname ftype] fields IH]; simpl; [reflexivity|].
  destruct (is_simple_string registry ftype); assumption.
Qed.

(** Of fields that begin with one or two [String] fields, the first is
    [env_param] and the second, when there is one, [svc_param]. *)
Lemma select_params_leading (registry : gmap string string) (p0 p1 : string)
    (rest : list (string * string)) :
  select_params registry ((p0, "String") :: nil) None None = (Some p0, None)
  /\ select_params registry ((p0, "String") :: (p1, "String") :: rest) None None
     = (Some p0, Some p1).
Proof.
  split; [reflexivity|].
  simpl. change (is_simple_string registry "String") with true. simpl.
  apply select_params_full.
Qed.

Lemma numerator_query_two (metric : string) (name : string) :
  numerator_query metric (Some (param name 0)) (Some (param name 1))
  = "sum:" +:+ metric +:+ "{" +:+ placeholder (param name 0) +:+ ","
    +:+ placeholder (param name 1) +:+ "}".
Proof.
  unfold numerator_query. rewrite !truthy_param. simpl.
  rewrite !append_assoc. reflexivity.
Qed.

Lemma numerator_query_one (metric : string) (name : string) :
  numerator_query metric (Some (param name 0)) None
  = "sum:" +:+ metric +:+ "{" +:+ placeholder (param name 0) +:+ "}".
Proof.
  unfold numerator_query. rewrite !truthy_param. simpl.
  rewrite !append_assoc. reflexivity.
Qed.

Lemma denominator_query_env (metric : string) (name : string) :
  denominator_query metric (Some (param name 0))
  = "sum:" +:+ metric +:+ ".total{" +:+ placeholder (param name 0) +:+ "}".
Proof. unfold denominator_query. rewrite truthy_param. reflexivity. Qed.

Lemma get_alias_registry_inv (w w' : world G) (registry : gmap string string) :
  get_alias_registry w = Return (registry, w') ->
  registry = alias_registry w /\ w' = w.
Proof. unfold get_alias_registry. intros E. injection E as <- <-. auto. Qed.

(** What a built blueprint is made of. *)
Lemma build_blueprint_item_inv (name : string) (req_ext_names prov_ext_names alias_names : list string)
    (complexity : string) (w w' : world G) (b : blueprint_item) :
  build_blueprint_item name req_ext_names prov_ext_names alias_names complexity w
  = Return (b, w') ->
  exists (num_req : Z) (registry : gmap string string),
    (1 <= num_req <= 12 /\ (complexity <> "small" -> 2 <= num_req))
    /\ Forall2 (fun i f => exists w1 w2,
                  gen_req_field name alias_names complexity i w1 = Return (f, w2))
               (range num_req) (item_fields b)
    /\ item_has_prov_extends b
       = match prov_ext_names with
         | nil => false
         | _ => existsb (fun e => mem e (item_extends b)) prov_ext_names
         end
    /\ In (item_metric b) METRICS
    /\ select_params registry (item_fields b) None None
       = (item_env_param b, item_svc_param b)
    /\ item_provides b
       = provides_block (item_has_prov_extends b)
           (numerator_query (item_metric b) (item_env_param b) (item_svc_param b))
           (denominator_query (item_metric b) (item_env_param b)).
Proof.
  unfold build_blueprint_item. intros E.
  apply bind_inv in E as (extends & w1 & _ & E).
  apply bind_inv in E as (num_req & w2 & En & E).
  apply bind_inv in E as (fields & w3 & Ef & E).
  apply bind_inv in E as (metric & w4 & Em & E).
  apply bind_inv in E as (registry & w5 & Er & E).
  destruct (select_params registry fields None None) as [env svc] eqn:Es.
  apply ret_inv in E as [-> _]. apply choice_inv in Em as [Hm _].
  exists num_req, registry.
  split; [eapply gen_num_req_inv; eassumption|].
  split; [eapply for_each_inv; eassumption|].
  split; [reflexivity|].
  split; [exact Hm|].
  split; [assumption | reflexivity].
Qed.

(** C6, as the code has it: every blueprint built has at least one own field,
    at least two unless the complexity is "small"; its first own field, and
    its second when there is one, have the type String; the first is selected
    as envParam and the second, when there is one, as svcParam (none
    otherwise), and these are the placeholders of the two indicator queries. *)
Theorem blueprint_template_variables (name : string)
    (req_ext_names prov_ext_names alias_names : list string)
    (complexity : string) (w w' : world G) (b : blueprint_item) :
  build_blueprint_item name req_ext_names prov_ext_names alias_names complexity w
  = Return (b, w') ->
  let numerator q := "        numerator: " +:+ quoted q +:+ "," in
  let denominator q := "        denominator: " +:+ quoted q in
  (complexity <> "small" -> (2 <= List.length (item_fields b))%nat)
  /\ item_env_param b = Some (param name 0)
  /\ In (denominator ("sum:" +:+ item_metric b +:+ ".total{"
                      +:+ placeholder (param name 0) +:+ "}")) (item_provides b)
  /\ ((item_fields b = (param name 0, "String") :: nil
       /\ item_svc_param b = None
       /\ In (numerator ("sum:" +:+ item_metric b +:+ "{"
                         +:+ placeholder (param name 0) +:+ "}")) (item_provides b))
      \/ (exists rest,
            item_fields b = (param name 0, "String") :: (param name 1, "String") :: rest
            /\ item_svc_param b = Some (param name 1)
            /\ In (numerator ("sum:" +:+ item_metric b +:+ "{"
                              +:+ placeholder (param name 0) +:+ ","
                              +:+ placeholder (param name 1) +:+ "}")) (item_provides b))).
Proof.
  intros E numerator denominator.
  apply build_blueprint_item_inv in E
    as (num_req & registry & [Hn Hn2] & Hf & _ & _ & Hs & Hp).
  assert (Hshape :
    (num_req = 1 /\ item_fields b = (param name 0, "String") :: nil)
    \/ (2 <= num_req /\ exists rest,
          item_fields b = (param name 0, "String") :: (param name 1, "String") :: rest)).
  { destruct (Z.eq_dec num_req 1) as [->|Hne].
    - left. split; [reflexivity|]. change (range 1) with (0 :: nil) in Hf.
      inversion Hf as [|? f ? fs (w1 & w2 & E0) Hrest]; subst.
      inversion Hrest; subst.
      apply gen_req_field_first_two in E0; [|lia]. congruence.
    - right. split; [lia|].
      destruct (range_two_or_more num_req ltac:(lia)) as (rest & Hr). rewrite Hr in Hf.
      inversion Hf as [|? f0 ? fs0 (w1 & w2 & E0) Hrest]; subst.
      inversion Hrest as [|? f1 ? fs1 (w3 & w4 & E1) Hrest']; subst.
      apply gen_req_field_first_two in E0; [|lia].
      apply gen_req_field_first_two in E1; [|lia].
      subst. eauto. }
  assert (Hlen : complexity <> "small" -> (2 <= List.length (item_fields b))%nat).
  { intros Hc. specialize (Hn2 Hc).
    destruct Hshape as [[-> _]|[_ (rest & ->)]]; [lia | simpl; lia]. }
  split; [assumption|].
  destruct Hshape as [[_ Hfields]|[_ (rest & Hfields)]]; rewrite Hfields in Hs.
  - destruct (select_params_leading registry (param name 0) "" nil) as [Hsel _].
    rewrite Hsel in Hs. injection Hs as Henv Hsvc.
    rewrite Hp, <- Henv, <- Hsvc, numerator_query_one, denominator_query_env.
    split; [reflexivity|].
    split; [unfold provides_block; destruct (item_has_prov_extends b); simpl; tauto|].
    left. split; [assumption|]. split; [reflexivity|].
    unfold provides_block; destruct (item_has_prov_extends b); simpl; tauto.
  - destruct (select_params_leading registry (param name 0) (param name 1) rest) as [_ Hsel].
    rewrite Hsel in Hs. injection Hs as Henv Hsvc.
    rewrite Hp, <- Henv, <- Hsvc, numerator_query_two, denominator_query_env.
    split; [reflexivity|].
    split; [unfold provides_block; destruct (item_has_prov_extends b); simpl; tauto|].
    right. exists rest. split; [assumption|]. split; [reflexivity|].
    unfold provides_block; destruct (item_has_prov_extends b); simpl; tauto.
Qed.

(** The direct vendor line is in the [Provides] block exactly when the
    blueprint extends no Provides extendable, and then once. *)
Lemma provides_block_vendor (has_prov_extends : bool) (numerator denominator : string) :
  count_occ string_dec (provides_block has_prov_extends numerator denominator) vendor_line
  = if has_prov_extends then 0%nat else 1%nat.
Proof.
  unfold provides_block, vendor_line.
  destruct has_prov_extends; simpl;
    repeat match goal with
           | |- context [string_dec ?a ?b] =>
               destruct (string_dec a b) as [E|E]; [try discriminate E|]
           end; try reflexivity.
  all: exfalso; apply E; reflexivity.
Qed.

Lemma gen_req_field_name (name : string) (alias_names : list string)
    (complexity : string) (i : Z) (w w' : world G) (field : string * string) :
  gen_req_field name alias_names complexity i w = Return (field, w') ->
  fst field = param name i.
Proof.
  intros E. unfold gen_req_field in E.
  apply bind_inv in E as (ftype & w1 & _ & E).
  apply ret_inv in E as [-> _]. reflexivity.
Qed.

(** C7: a built blueprint that extends at least one Provides extendable has
    no direct vendor line, in its Provides block or anywhere in its text; one
    that extends none has the line in its Provides block, and once in its
    text. Either way the text of a blueprint never has the vendor line twice:
    the extension stands in for the direct field. *)
Theorem blueprint_vendor_field (name : string)
    (req_ext_names prov_ext_names alias_names : list string)
    (complexity : string) (w w' : world G) (b : blueprint_item) :
  build_blueprint_item name req_ext_names prov_ext_names alias_names complexity w
  = Return (b, w') ->
  let extends_provides := exists e, In e prov_ext_names /\ In e (item_extends b) in
  (extends_provides ->
     ~ In vendor_line (item_provides b) /\ ~ In vendor_line (item_lines b))
  /\ (~ extends_provides ->
        In vendor_line (item_provides b)
        /\ count_occ string_dec (item_provides b) vendor_line = 1%nat
        /\ count_occ string_dec (item_lines b) vendor_line = 1%nat)
  /\ (count_occ string_dec (item_lines b) vendor_line <= 1)%nat.
Proof.
  intros E extends_provides.
  assert (Hheader : item_header b <> vendor_line).
  { unfold build_blueprint_item in E.
    apply bind_inv in E as (extends & w1 & _ & E).
    apply bind_inv in E as (num_req & w2 & _ & E).
    apply bind_inv in E as (fields & w3 & _ & E).
    apply bind_inv in E as (metric & w4 & _ & E).
    apply bind_inv in E as (registry & w5 & _ & E).
    destruct (select_params registry fields None None) as [env svc].
    apply ret_inv in E as [-> _]. simpl. discriminate. }
  apply build_blueprint_item_inv in E as (num_req & registry & _ & Hf & Hh & _ & _ & Hp).
  assert (Hreq : ~ In vendor_line
                   (requires_block (map (fun f => fst f +:+ ": " +:+ snd f) (item_fields b)))).
  { apply (requires_block_no_vendor name).
    clear -Hf. induction Hf as [|i f ids fs (w1 & w2 & E) _ IH]; constructor; [|assumption].
    exists i. eapply gen_req_field_name. eassumption. }
  assert (Hiff : item_has_prov_extends b = true <-> extends_provides).
  { rewrite Hh. unfold extends_provides. destruct prov_ext_names as [|p ps].
    - split; [discriminate | intros (e & [] & _)].
    - rewrite existsb_exists. split.
      + intros (e & He & Hm). exists e. split; [assumption | apply mem_In; assumption].
      + intros (e & He & Hm). exists e. split; [assumption | apply mem_In; assumption]. }
  pose proof (provides_block_vendor (item_has_prov_extends b)
                (numerator_query (item_metric b) (item_env_param b) (item_svc_param b))
                (denominator_query (item_metric b) (item_env_param b))) as Hc.
  rewrite <- Hp in Hc.
  assert (Hcount : count_occ string_dec (item_lines b) vendor_line
                   = count_occ string_dec (item_provides b) vendor_line).
  { unfold item_lines. rewrite count_occ_cons_neq by assumption.
    rewrite count_occ_app.
    apply (count_occ_not_In string_dec) in Hreq. rewrite Hreq. reflexivity. }
  split; [|split].
  - intros Hex. apply Hiff in Hex. rewrite Hex in Hc.
    split; apply (count_occ_not_In string_dec); congruence.
  - intros Hno. destruct (item_has_prov_extends b) eqn:Eh.
    + exfalso. apply Hno, Hiff. reflexivity.
    + split; [apply (count_occ_In string_dec); lia|]. split; congruence.
  - rewrite Hcount, Hc. destruct (item_has_prov_extends b); lia.
Qed.

End Blueprints.

Definition medium_tape : Tape.tape :=
  0 :: 1 :: 0 :: 0 :: 0 :: 0 :: 2 :: 0 :: 2 ^ 52 :: 0 :: 0 :: 2 ^ 52 :: nil.

Lemma blueprint_template_variables_witness :
  exists b w',
    build_blueprint_item "checkout_slo" ("_req_0" :: nil) ("_prov_0" :: "_prov_1" :: nil)
                         ("_type_0" :: nil) "medium" (Tape.start medium_tape) = Return (b, w')
    /\ item_env_param b = Some "checkout_slo_param_0"
    /\ item_svc_param b = Some "checkout_slo_param_1".
Proof.
  eexists _, _. split; [vm_compute; reflexivity|].
  eassert (Hrun : build_blueprint_item "checkout_slo" ("_req_0" :: nil)
                    ("_prov_0" :: "_prov_1" :: nil) ("_type_0" :: nil) "medium"
                    (Tape.start medium_tape) = Return _) by (vm_compute; reflexivity).
  destruct (blueprint_template_variables _ _ _ _ _ _ _ _ Hrun) as (_ & Henv & _ & Hsvc).
  split; [exact Henv|].
  destruct Hsvc as [(Hone & _)|(rest & _ & Hsvc & _)]; [discriminate Hone | exact Hsvc].
Defined.

(** C6 as stated fails for the complexity "small": [random.randint(1, 2)] may
    give one own field, and then there is no second String field and no
    svcParam. *)
Lemma small_blueprint_counterexample :
  exists b w',
    build_blueprint_item "checkout_slo" nil nil nil "small" (Tape.start nil) = Return (b, w')
    /\ item_fields b = ("checkout_slo_param_0", "String") :: nil
    /\ nth_error (item_fields b) 1 = None
    /\ item_svc_param b = None.
Proof.
  eexists _, _. split; [vm_compute; reflexivity|]. repeat split.
Qed.

Lemma blueprint_vendor_field_witness :
  exists b w',
    build_blueprint_item "checkout_slo" ("_req_0" :: nil) ("_prov_0" :: "_prov_1" :: nil)
                         ("_type_0" :: nil) "medium" (Tape.start medium_tape) = Return (b, w')
    /\ item_extends b = "_prov_0" :: "_prov_1" :: "_req_0" :: nil
    /\ ~ In vendor_line (item_lines b)
    /\ (count_occ string_dec (item_lines b) vendor_line <= 1)%nat.
Proof.
  eexists _, _. split; [vm_compute; reflexivity|].
  eassert (Hrun : build_blueprint_item "checkout_slo" ("_req_0" :: nil)
                    ("_prov_0" :: "_prov_1" :: nil) ("_type_0" :: nil) "medium"
                    (Tape.start medium_tape) = Return _) by (vm_compute; reflexivity).
  split; [reflexivity|].
  destruct (blueprint_vendor_field _ _ _ _ _ _ _ _ Hrun) as (Hext & _ & Honce).
  split; [|exact Honce].
  apply Hext. exists "_prov_0". split; [left; reflexivity | left; reflexivity].
Defined.

End BlueprintFacts.

(** *** Runs that return *)
Module Returns.
Import Py GenerateCorpus Tape GenerateCorpusFacts.
Local Open Scope py_scope.

Section Returns.

Context {G : Type} `{RandomSource G}.

(** [m] returns from [w], with a result and a state that satisfy [P]. *)
Definition succeeds {A} (m : M G A) (w : world G) (P : A -> world G -> Prop) : Prop :=
  exists a w', m w = Return (a, w') /\ P a w'.

Lemma succeeds_ret {A} (a : A) (w : world G) (P : A -> world G -> Prop) :
  P a w -> succeeds (ret a) w P.
Proof. intros HP. exists a, w. split; [reflexivity | assumption]. Qed.

Lemma succeeds_bind {A B} (m : M G A) (k : A -> M G B) (w : world G)
    (Q : B -> world G -> Prop) :
  succeeds m w (fun a w1 => succeeds (k a) w1 Q) -> succeeds (bindM m k) w Q.
Proof.
  intros (a & w1 & Em & b & w2 & Ek & HQ). exists b, w2.
  split; [|assumption]. unfold bindM. rewrite Em. assumption.
Qed.

Lemma succeeds_weaken {A} (m : M G A) (w : world G) (P Q : A -> world G -> Prop) :
  succeeds m w P -> (forall a w', P a w' -> Q a w') -> succeeds m w Q.
Proof. intros (a & w' & E & HP) HPQ. exists a, w'. auto. Qed.

Lemma succeeds_draw {A} (f : G -> A * G) (w : world G) (P : A -> world G -> Prop) :
  (forall w', rng w' = snd (f (rng w)) -> same_store w w' -> P (fst (f (rng w))) w') ->
  succeeds (draw f) w P.
Proof.
  intros HP. unfold succeeds, draw. destruct (f (rng w)) as [a g] eqn:E.
  eexists _, _. split; [reflexivity|]. apply HP; [reflexivity | split; reflexivity].
Qed.

Lemma succeeds_random_below (p : Q) (w : world G) (P : bool -> world G -> Prop) :
  (forall b w', same_store w w' -> P b w') -> succeeds (random_below p) w P.
Proof.
  intros HP. unfold random_below. apply succeeds_bind, succeeds_draw.
  intros w' _ Hs. apply succeeds_ret, HP, Hs.
Qed.

Lemma succeeds_randint (a b : Z) (w : world G) (P : Z -> world G -> Prop) :
  a <= b ->
  (forall n w', a <= n <= b -> same_store w w' -> P n w') ->
  succeeds (randint a b) w P.
Proof.
  intros Hab HP. unfold randint. destruct (Z.ltb_spec b a); [lia|].
  apply succeeds_bind, succeeds_draw. intros w' _ Hs. apply succeeds_ret, HP; [|assumption].
  pose proof (randbelow_range (b - a + 1) (rng w) ltac:(lia)). lia.
Qed.

Lemma succeeds_choice {A} (seq : list A) (w : world G) (P : A -> world G -> Prop) :
  seq <> nil ->
  (forall x w', In x seq -> same_store w w' -> P x w') ->
  succeeds (choice seq) w P.
Proof.
  intros Hne HP. destruct seq as [|first rest]; [congruence|].
  unfold choice. apply succeeds_bind, succeeds_draw. intros w' _ Hs.
  apply succeeds_ret, HP; [|assumption].
  pose proof (randbelow_range (Z.of_nat (List.length (first :: rest))) (rng w)
                ltac:(simpl; lia)).
  apply nth_In. lia.
Qed.

Lemma pick_spec {A} (seq : list A) (indices : list nat) :
  Forall (fun i => (i < List.length seq)%nat) indices ->
  List.length (pick seq indices) = List.length indices
  /\ Forall (fun x => In x seq) (pick seq indices).
Proof.
  induction 1 as [|i indices Hi _ [IHl IHf]]; simpl; [split; [reflexivity | constructor]|].
  destruct (nth_error seq i) as [x|] eqn:E.
  - simpl. split; [lia|]. constructor; [|assumption]. eapply nth_error_In. eassumption.
  - apply nth_error_None in E. lia.
Qed.

Lemma succeeds_sample {A} (population : list A) (k : Z) (w : world G)
    (P : list A -> world G -> Prop) :
  0 <= k <= len population ->
  (forall xs w', len xs = k -> Forall (fun x => In x population) xs ->
                 same_store w w' -> P xs w') ->
  succeeds (sample population k) w P.
Proof.
  intros Hk HP. unfold sample, len in *.
  destruct (Z.ltb_spec k 0); [lia|]. destruct (Z.ltb_spec (Z.of_nat (List.length population)) k); [lia|].
  simpl. apply succeeds_bind, succeeds_draw. intros w' _ Hs.
  destruct (sample_indices_spec (List.length population) (Z.to_nat k) (rng w) ltac:(lia))
    as (Hlen & _ & Hlt).
  destruct (pick_spec population _ Hlt) as [Hl Hf].
  apply succeeds_ret, HP; [lia | assumption | assumption].
Qed.

Lemma succeeds_choices {A} (population : list A) (k : Z) (w : world G)
    (P : list A -> world G -> Prop) :
  population <> nil -> 0 <= k ->
  (forall xs w', len xs = k -> Forall (fun x => In x population) xs ->
                 same_store w w' -> P xs w') ->
  succeeds (choices population k) w P.
Proof.
  intros Hne Hk HP. unfold choices, len in *.
  destruct population as [|x0 rest]; [congruence|].
  apply succeeds_bind, succeeds_draw. intros w' _ Hs.
  destruct (choices_indices_spec (List.length (x0 :: rest)) (Z.to_nat k) (rng w)
              ltac:(simpl; lia)) as (Hlen & Hlt).
  destruct (pick_spec (x0 :: rest) _ Hlt) as [Hl Hf].
  apply succeeds_ret, HP; [lia | assumption | assumption].
Qed.

Lemma succeeds_get_alias_registry (w : world G)
    (P : gmap string string -> world G -> Prop) :
  P (alias_registry w) w -> succeeds get_alias_registry w P.
Proof. intros HP. exists (alias_registry w), w. split; [reflexivity | assumption]. Qed.

Lemma succeeds_lift {A} (a : A) (w : world G) (P : A -> world G -> Prop) :
  P a w -> succeeds (lift (Return a)) w P.
Proof. intros HP. exists a, w. split; [reflexivity | assumption]. Qed.

(** A loop whose every turn returns, keeping [I]. *)
Lemma succeeds_for_each {A B} (xs : list A) (body : A -> M G B)
    (I : world G -> Prop) (R : A -> B -> Prop) (w : world G) :
  I w ->
  (forall x w1, In x xs -> I w1 -> succeeds (body x) w1 (fun y w2 => R x y /\ I w2)) ->
  succeeds (for_each xs body) w (fun ys w' => Forall2 R xs ys /\ I w').
Proof.
  revert w. induction xs as [|x xs IH]; intros w HI Hbody; simpl.
  - apply succeeds_ret. split; [constructor | assumption].
  - apply succeeds_bind.
    eapply succeeds_weaken; [apply Hbody; [left; reflexivity | assumption]|].
    intros y w1 [HR HI1]. apply succeeds_bind.
    eapply succeeds_weaken; [apply IH; [assumption|]|].
    + intros x' w2 Hin. apply Hbody. right. assumption.
    + intros ys w2 [HF HI2]. apply succeeds_ret. split; [constructor; assumption | assumption].
Qed.

End Returns.

End Returns.

(** *** The value synthesizer on the generated descriptors *)
Module Synthesis.
Import Py GenerateCorpus Tape StringFacts GenerateCorpusFacts Returns Types.
Local Open Scope py_scope.

Section Synthesis.

Context {G : Type} `{RandomSource G}.

(** The literal is the literal of a value of the domain, and only the
    generator moved. *)
Definition sound (d : descriptor) (w : world G) (lit : string) (w' : world G) : Prop :=
  same_store w w' /\ exists v, literal v = lit /\ in_domain d v = true.

Lemma sound_store (d : descriptor) (w0 w : world G) (lit : string) (w' : world G) :
  same_store w0 w -> sound d w lit w' -> sound d w0 lit w'.
Proof. intros Hs [Hs' Hv]. split; [eapply same_store_trans; eassumption | assumption]. Qed.

Lemma synth_primitive (k : kind) (fuel : nat) (w : world G) :
  succeeds (value_for_type (S fuel) (kind_name k)) w (sound (Primitive k) w).
Proof.
  destruct k; simpl; apply succeeds_bind, succeeds_get_alias_registry.
  - apply succeeds_bind, succeeds_randint; [lia|]. intros n w1 Hn Hs1.
    unfold random_letters. apply succeeds_bind, succeeds_bind, succeeds_choices;
      [discriminate | lia |].
    intros letters w2 _ _ Hs2. apply succeeds_ret, succeeds_ret.
    split; [eapply same_store_trans; eassumption|].
    exists (VString (string_of_list_ascii letters)). split; reflexivity.
  - apply succeeds_bind, succeeds_randint; [lia|]. intros n w1 Hn Hs1.
    apply succeeds_ret. split; [assumption|].
    exists (VInteger n). split; reflexivity.
  - apply succeeds_bind, succeeds_draw. intros w1 _ Hs1.
    apply succeeds_ret. split; [assumption|].
    eexists (VFloat _). split; reflexivity.
  - apply succeeds_choice; [discriminate|]. intros lit w1 Hin Hs1.
    split; [assumption|].
    destruct Hin as [<-|[<-|[]]]; [exists (VBoolean true) | exists (VBoolean false)];
      split; reflexivity.
Qed.

Lemma collect_values {A} (P : value -> bool) (show : A -> value -> string)
    (xs : list A) (ys : list string) :
  Forall2 (fun x y => exists v, show x v = y /\ P v = true) xs ys ->
  exists vs, List.length vs = List.length xs
             /\ map (fun xv => show (fst xv) (snd xv)) (combine xs vs) = ys
             /\ forallb P vs = true.
Proof.
  induction 1 as [|x y xs ys (v & Hv & HP) _ (vs & Hl & Hm & Hf)].
  - exists nil. repeat split.
  - exists (v :: vs). simpl. rewrite Hl, Hm, Hv, HP, Hf. repeat split.
Qed.

Lemma length_range (n : Z) : 0 <= n -> len (range n) = n.
Proof. intros Hn. unfold len, range. rewrite length_map, length_seq. lia. Qed.

Lemma map_snd_combine {A B} (xs : list A) (vs : list B) :
  List.length vs = List.length xs -> map snd (combine xs vs) = vs.
Proof.
  revert vs. induction xs as [|x xs IH]; intros [|v vs] E; simpl in *; try discriminate;
    [reflexivity|]. f_equal. apply IH. lia.
Qed.

Lemma map_fst_combine {A B} (xs : list A) (vs : list B) :
  List.length vs = List.length xs -> map fst (combine xs vs) = xs.
Proof.
  revert vs. induction xs as [|x xs IH]; intros [|v vs] E; simpl in *; try discriminate;
    [reflexivity|]. f_equal. apply IH. lia.
Qed.

Lemma forallb_map_snd {A B} (P : B -> bool) (l : list (A * B)) :
  forallb P (map snd l) = forallb (fun kv => P (snd kv)) l.
Proof. induction l as [|x l IH]; simpl; [reflexivity | now rewrite IH]. Qed.

Lemma same_strings_refl (l : list string) : same_strings l l = true.
Proof. induction l; simpl; [reflexivity|]. rewrite String.eqb_refl. assumption. Qed.

(** A loop of [count] synthesized elements is a list of the domain. *)
Lemma synth_list (element : descriptor) (fuel : nat) (w : world G) (inner : string) :
  (forall w1, succeeds (value_for_type fuel inner) w1 (sound element w1)) ->
  succeeds (count <- randint 1 4 ;;
            vals <- for_each (range count) (fun _ => value_for_type fuel inner) ;;
            ret ("[" +:+ join ", " vals +:+ "]"))
           w (sound (ListOf element) w).
Proof.
  intros Hinner. apply succeeds_bind, succeeds_randint; [lia|]. intros count w1 Hc Hs1.
  apply succeeds_bind.
  eapply succeeds_weaken.
  { apply (succeeds_for_each (range count) _ (same_store w1)
             (fun _ lit => exists v, literal v = lit /\ in_domain element v = true));
      [apply same_store_refl|].
    intros i w2 _ Hs2. eapply succeeds_weaken; [apply Hinner|].
    intros lit w3 [Hs3 Hv]. split; [assumption | eapply same_store_trans; eassumption]. }
  intros vals w2 [HF Hs2]. apply succeeds_ret.
  split; [eapply same_store_trans; eassumption|].
  destruct (collect_values (in_domain element) (fun (_ : Z) v => literal v) _ _ HF)
    as (vs & Hl & Hm & Hf).
  exists (VList vs). split.
  - simpl. rewrite <- Hm. do 3 f_equal.
    rewrite <- (map_snd_combine (range count) vs Hl) at 1. rewrite map_map. reflexivity.
  - simpl. rewrite Hf, andb_true_r.
    pose proof (length_range count ltac:(lia)) as Hr. unfold len in *.
    apply andb_true_intro. split; [apply Z.leb_le | apply Z.leb_le]; lia.
Qed.

(** A loop of [count] synthesized entries is a mapping of the domain. *)
Lemma synth_dict (val : descriptor) (fuel : nat) (w : world G) (val_type : string) :
  (forall w1, succeeds (value_for_type fuel val_type) w1 (sound val w1)) ->
  succeeds (count <- randint 1 3 ;;
            pairs <- for_each (range count) (fun i =>
                       v <- value_for_type fuel val_type ;;
                       ret ("key_" +:+ str_Z i +:+ ": " +:+ v)) ;;
            ret ("{ " +:+ join ", " pairs +:+ " }"))
           w (sound (DictOf val) w).
Proof.
  intros Hinner. apply succeeds_bind, succeeds_randint; [lia|]. intros count w1 Hc Hs1.
  apply succeeds_bind.
  eapply succeeds_weaken.
  { apply (succeeds_for_each (range count) _ (same_store w1)
             (fun i pair => exists v, ("key_" +:+ str_Z i) +:+ ": " +:+ literal v = pair
                                      /\ in_domain val v = true));
      [apply same_store_refl|].
    intros i w2 _ Hs2. apply succeeds_bind. eapply succeeds_weaken; [apply Hinner|].
    intros lit w3 [Hs3 (v & <- & Hv)]. apply succeeds_ret.
    split; [|eapply same_store_trans; eassumption].
    exists v. split; [|assumption].
    rewrite StringFacts.append_assoc. reflexivity. }
  intros pairs w2 [HF Hs2]. apply succeeds_ret.
  split; [eapply same_store_trans; eassumption|].
  destruct (collect_values (in_domain val)
              (fun (i : Z) v => ("key_" +:+ str_Z i) +:+ ": " +:+ literal v) _ _ HF)
    as (vs & Hl & Hm & Hf).
  exists (VDict (combine (map (fun i => "key_" +:+ str_Z i) (range count)) vs)).
  assert (Hl' : List.length vs
                = List.length (map (fun i => "key_" +:+ str_Z i) (range count)))
    by (rewrite length_map; assumption).
  pose proof (length_range count ltac:(lia)) as Hr. unfold len in Hr.
  assert (Hshow :
    map (fun kv : string * value => fst kv +:+ ": " +:+ literal (snd kv))
        (combine (map (fun i => "key_" +:+ str_Z i) (range count)) vs)
    = map (fun xv : Z * value => ("key_" +:+ str_Z (fst xv)) +:+ ": " +:+ literal (snd xv))
          (combine (range count) vs)).
  { clear. generalize (range count) as l. intros l. revert vs.
    induction l as [|i l IH]; intros [|v vs]; try reflexivity.
    cbn [map combine fst snd]. rewrite IH. reflexivity. }
  split.
  - change (literal (VDict ?e))
      with ("{ " +:+ join ", " (map (fun kv => fst kv +:+ ": " +:+ literal (snd kv)) e) +:+ " }").
    rewrite Hshow, Hm. reflexivity.
  - set (keys := map (fun i => "key_" +:+ str_Z i) (range count)) in *.
    change (in_domain (DictOf val) (VDict ?e))
      with ((1 <=? len e) && (len e <=? 3)
            && forallb (fun kv => in_domain val (snd kv)) e
            && same_strings (map fst e) (synthetic_keys (List.length e))).
    assert (Hle : List.length (combine keys vs) = Z.to_nat count).
    { rewrite length_combine, <- Hl', Nat.min_id, Hl. lia. }
    assert (Hkeys : synthetic_keys (List.length (combine keys vs)) = keys).
    { unfold synthetic_keys. rewrite Hle, Z2Nat.id by lia. reflexivity. }
    assert (Hvals : forallb (fun kv => in_domain val (snd kv)) (combine keys vs) = true).
    { rewrite <- (map_snd_combine keys vs Hl') in Hf. rewrite forallb_map_snd in Hf.
      exact Hf. }
    rewrite Hkeys, Hvals, (map_fst_combine keys vs Hl'), same_strings_refl, !andb_true_r.
    unfold len. rewrite Hle.
    apply andb_true_intro. split; [apply Z.leb_le | apply Z.leb_le]; lia.
Qed.

Lemma synth_list_of_primitive (k : kind) (fuel : nat) (w : world G) :
  succeeds (value_for_type (S (S fuel)) (render (ListOf (Primitive k)))) w
           (sound (ListOf (Primitive k)) w).
Proof.
  remember (S fuel) as inner_fuel eqn:E.
  destruct k; simpl; apply succeeds_bind, succeeds_get_alias_registry;
    subst inner_fuel.
  - apply (synth_list (Primitive KString) (S fuel) w "String").
    intros w1. apply (synth_primitive KString).
  - apply (synth_list (Primitive KInteger) (S fuel) w "Integer").
    intros w1. apply (synth_primitive KInteger).
  - apply (synth_list (Primitive KFloat) (S fuel) w "Float").
    intros w1. apply (synth_primitive KFloat).
  - apply (synth_list (Primitive KBoolean) (S fuel) w "Boolean").
    intros w1. apply (synth_primitive KBoolean).
Qed.

Lemma synth_dict_of_primitive (k : kind) (fuel : nat) (w : world G) :
  succeeds (value_for_type (S (S fuel)) (render (DictOf (Primitive k)))) w
           (sound (DictOf (Primitive k)) w).
Proof.
  remember (S fuel) as inner_fuel eqn:E.
  destruct k; simpl; apply succeeds_bind, succeeds_get_alias_registry;
    subst inner_fuel.
  - apply (synth_dict (Primitive KString) (S fuel) w "String").
    intros w1. apply (synth_primitive KString).
  - apply (synth_dict (Primitive KInteger) (S fuel) w "Integer").
    intros w1. apply (synth_primitive KInteger).
  - apply (synth_dict (Primitive KFloat) (S fuel) w "Float").
    intros w1. apply (synth_primitive KFloat).
  - apply (synth_dict (Primitive KBoolean) (S fuel) w "Boolean").
    intros w1. apply (synth_primitive KBoolean).
Qed.

Lemma synth_optional_of_primitive (k : kind) (fuel : nat) (w : world G) :
  succeeds (value_for_type (S (S fuel)) (render (OptionalOf (Primitive k)))) w
           (sound (OptionalOf (Primitive k)) w).
Proof.
  remember (S fuel) as inner_fuel eqn:E.
  destruct k; simpl; apply succeeds_bind, succeeds_get_alias_registry;
    subst inner_fuel.
  - apply (synth_primitive KString).
  - apply (synth_primitive KInteger).
  - apply (synth_primitive KFloat).
  - apply (synth_primitive KBoolean).
Qed.

Lemma synth_defaulted_of_primitive (k : kind) (fuel : nat) (w : world G) :
  succeeds (value_for_type (S (S fuel)) (render (DefaultedOf (Primitive k) (default_literal k)))) w
           (sound (DefaultedOf (Primitive k) (default_literal k)) w).
Proof.
  remember (S fuel) as inner_fuel eqn:E.
  destruct k; simpl; apply succeeds_bind, succeeds_get_alias_registry;
    subst inner_fuel.
  - eapply succeeds_weaken; [apply (synth_primitive KString)|].
    intros lit w' [Hs (v & Hl & Hv)]. split; [assumption|]. exists v.
    split; [assumption|]. simpl in *. rewrite Hv. reflexivity.
  - eapply succeeds_weaken; [apply (synth_primitive KInteger)|].
    intros lit w' [Hs (v & Hl & Hv)]. split; [assumption|]. exists v.
    split; [assumption|]. simpl in *. rewrite Hv. reflexivity.
  - eapply succeeds_weaken; [apply (synth_primitive KFloat)|].
    intros lit w' [Hs (v & Hl & Hv)]. split; [assumption|]. exists v.
    split; [assumption|]. simpl in *. rewrite Hv. reflexivity.
  - eapply succeeds_weaken; [apply (synth_primitive KBoolean)|].
    intros lit w' [Hs (v & Hl & Hv)]. split; [assumption|]. exists v.
    split; [assumption|]. simpl in *. rewrite Hv. reflexivity.
Qed.

End Synthesis.

End Synthesis.

(** *** The value synthesizer on sets and ranges *)
Module Refinements.
Import Py GenerateCorpus Tape StringFacts GenerateCorpusFacts Returns Types Synthesis.
Local Open Scope py_scope.

(** The text of a descriptor is taken apart by the lemmas of [StringFacts],
    not by unfolding. *)
#[local] Arguments strip : simpl never.
#[local] Arguments set_body : simpl never.
#[local] Arguments split_char : simpl never.
#[local] Arguments search_range : simpl never.
#[local] Arguments contains : simpl never.
#[local] Arguments startswith : simpl never.
#[local] Arguments String.eqb : simpl never.
#[local] Arguments render : simpl never.

(** A test on the text of a descriptor, settled on its literal part. *)
Ltac settle test outcome :=
  let E := fresh "E" in
  assert (E : test = outcome) by reflexivity; rewrite E; clear E.

Lemma states_are_tokens :
  forallb (fun v => token (quoted v) && String.eqb (strip_with is_dquote (quoted v)) v)
          STATES = true.
Proof. reflexivity. Qed.

Lemma small_integers_are_tokens :
  forallb (fun n => token (str_Z n)) (range_from 1 100) = true.
Proof. vm_compute. reflexivity. Qed.

Lemma state_token (v : string) :
  In v STATES -> token (quoted v) = true /\ strip_with is_dquote (quoted v) = v.
Proof.
  intros Hv. pose proof states_are_tokens as Hall. rewrite forallb_forall in Hall.
  specialize (Hall v Hv). apply andb_prop in Hall as [Ht He].
  apply String.eqb_eq in He. auto.
Qed.

Lemma small_integer_token (n : Z) : 1 <= n < 100 -> token (str_Z n) = true.
Proof. apply (for_range (fun n => token (str_Z n)) 1 100 small_integers_are_tokens). Qed.

(** A text that starts with a character that is no space and ends with a
    tail that [rstrip] keeps is not changed by [strip]. *)
Lemma strip_keep (a : ascii) (head body tail : string) :
  is_space a = false -> tail <> "" -> rstrip_with is_space tail = tail ->
  strip (String a head +:+ body +:+ tail) = String a head +:+ body +:+ tail.
Proof.
  intros Ha Hne Ht. unfold strip, strip_with.
  assert (Hr : rstrip_with is_space (body +:+ tail) = body +:+ tail)
    by (apply rstrip_with_app_keep; assumption).
  rewrite rstrip_with_app_keep; [simpl; rewrite Ha; reflexivity | | exact Hr].
  intros E. apply append_eq_nil in E as [_ E]. congruence.
Qed.

Lemma strip_text (t : string) :
  lstrip_with is_space t = t -> kept is_space t -> strip t = t.
Proof. intros Hl [_ Hr]. unfold strip, strip_with. rewrite Hr. exact Hl. Qed.

Lemma kept_range_end : kept is_space " ) }".
Proof. split; [discriminate | reflexivity]. Qed.

(** What the text of a range needs of a bound: the range pattern finds it,
    and [float] reads it. *)
Definition integer_bound_ok (n : Z) : bool :=
  numeral (str_Z n)
  && match float_of_string (str_Z n) with
     | Return q => int_of_float q =? n
     | Raise _ => false
     end.

Definition float_bound_ok (n : Z) : bool :=
  numeral (str_decimal 1 n)
  && match float_of_string (str_decimal 1 n) with
     | Return q =>
         (rounded 2 q =? 10 * n)
         && (if n <=? 500 then Qle_bool q 50 else if 600 <=? n then Qle_bool 60 q else true)
     | Raise _ => false
     end.

Lemma integer_bounds_ok : forallb integer_bound_ok (range_from 0 1001) = true.
Proof. vm_compute. reflexivity. Qed.

Lemma float_bounds_ok : forallb float_bound_ok (range_from 0 1001) = true.
Proof. vm_compute. reflexivity. Qed.

Lemma integer_bound (n : Z) :
  0 <= n <= 1000 ->
  numeral (str_Z n) = true
  /\ exists q, float_of_string (str_Z n) = Return q /\ int_of_float q = n.
Proof.
  intros Hn.
  pose proof (for_range integer_bound_ok 0 1001 integer_bounds_ok n ltac:(lia)) as Hok.
  unfold integer_bound_ok in Hok. apply andb_prop in Hok as [Hnum Hq].
  split; [assumption|].
  destruct (float_of_string (str_Z n)) as [q|]; [|discriminate].
  exists q. split; [reflexivity | apply Z.eqb_eq; assumption].
Qed.

Lemma float_bound (n : Z) :
  0 <= n <= 1000 ->
  numeral (str_decimal 1 n) = true
  /\ exists q, float_of_string (str_decimal 1 n) = Return q
               /\ rounded 2 q = 10 * n
               /\ (n <= 500 -> (q <= 50)%Q) /\ (600 <= n -> (60 <= q)%Q).
Proof.
  intros Hn.
  pose proof (for_range float_bound_ok 0 1001 float_bounds_ok n ltac:(lia)) as Hok.
  unfold float_bound_ok in Hok. apply andb_prop in Hok as [Hnum Hq].
  split; [assumption|].
  destruct (float_of_string (str_decimal 1 n)) as [q|]; [|discriminate].
  apply andb_prop in Hq as [Hr Hc]. apply Z.eqb_eq in Hr.
  exists q. split; [reflexivity|]. split; [assumption|].
  destruct (Z.leb_spec n 500); [|destruct (Z.leb_spec 600 n)];
    try apply Qle_bool_iff in Hc; split; intros; (assumption || lia).
Qed.

Lemma numeral_no_F (s : string) : numeral s = true -> has_char "F" s = false.
Proof.
  intros Hs. destruct (numeral_parts s Hs) as (Hall & _).
  eapply all_chars_has_char; [exact Hall | reflexivity].
Qed.

(** The tests of [value_for_type] on the text of a range. *)
Lemma range_text_tests (head low high : string) :
  numeral low = true -> numeral high = true ->
  let t := head +:+ "( " +:+ low +:+ ".." +:+ high +:+ " ) }" in
  kept is_space t
  /\ contains ".." t = true
  /\ (has_char "(" head = false -> search_range t = Some (low, high))
  /\ (has_char "F" head = false -> contains "Float" t = false).
Proof.
  intros Hl Hh t. unfold t. split; [|split; [|split]].
  - apply kept_app.
    change ("( " +:+ low +:+ ".." +:+ high +:+ " ) }")
      with ("( " +:+ (low +:+ ".." +:+ high +:+ " ) }")).
    do 4 apply kept_app. apply kept_range_end.
  - apply contains_app_r.
    change ("( " +:+ low +:+ ".." +:+ high +:+ " ) }")
      with ("( " +:+ (low +:+ ".." +:+ high +:+ " ) }")).
    do 2 apply contains_app_r. apply contains_here.
  - intros Hhead. apply search_range_text; assumption.
  - intros Hhead. apply contains_no_first.
    rewrite has_char_app, Hhead.
    change ("( " +:+ low +:+ ".." +:+ high +:+ " ) }")
      with ("( " +:+ (low +:+ ".." +:+ high +:+ " ) }")).
    rewrite !has_char_app, (numeral_no_F low Hl), (numeral_no_F high Hh). reflexivity.
Qed.

Section Refinements.

Context {G : Type} `{RandomSource G}.

Lemma synth_oneof_string (values : list string) (fuel : nat) (w : world G) :
  generated (OneOfString values) ->
  succeeds (value_for_type (S fuel) (render (OneOfString values))) w
           (sound (OneOfString values) w).
Proof.
  intros Hgen. inversion Hgen as [|? Hlen Hall| | | | | | |]; subst.
  assert (Hne : values <> nil) by (destruct values; [unfold len in Hlen; simpl in Hlen; lia | discriminate]).
  assert (Htok : Forall (fun it => token it = true) (map quoted values)).
  { clear -Hall. induction Hall as [|v vs Hv _ IH]; constructor; [|exact IH].
    apply state_token. assumption. }
  set (body := join ", " (map quoted values)).
  assert (Hstrip : strip (render (OneOfString values)) = render (OneOfString values)).
  { unfold render. fold body.
    apply (strip_keep "S" "tring { x | x in { " body " } }");
      [reflexivity | discriminate | reflexivity]. }
  assert (Hvals : map (fun v => strip_with is_dquote (strip v))
                      (split_char "," (set_body (render (OneOfString values)))) = values).
  { unfold render.
    change ("String { x | x in { " +:+ join ", " (map quoted values) +:+ " } }")
      with ("String { x | x in " +:+ "{ " +:+ join ", " (map quoted values) +:+ " } }").
    rewrite <- (map_map strip (strip_with is_dquote)).
    rewrite set_values by (assumption || (destruct values; [congruence | discriminate])).
    rewrite map_map. clear -Hall.
    induction Hall as [|v vs Hv _ IH]; [reflexivity|].
    cbn [map]. f_equal; [apply state_token; assumption | exact IH]. }
  simpl value_for_type. rewrite Hstrip, Hvals.
  apply succeeds_bind, succeeds_get_alias_registry.
  set (t := render (OneOfString values)).
  settle (startswith "_" t) false.
  settle (String.eqb t "String") false. settle (String.eqb t "Integer") false.
  settle (String.eqb t "Float") false. settle (String.eqb t "Boolean") false.
  settle (String.eqb t "URL") false. settle (String.eqb t "Percentage") false.
  settle (startswith "String { x | x in {" t) true.
  apply succeeds_bind, succeeds_choice; [assumption|]. intros v w1 Hv Hs1.
  apply succeeds_ret. split; [assumption|].
  exists (VString v). split; [reflexivity|]. apply mem_In. assumption.
Qed.

Lemma synth_oneof_integer (values : list Z) (fuel : nat) (w : world G) :
  generated (OneOfInteger values) ->
  succeeds (value_for_type (S fuel) (render (OneOfInteger values))) w
           (sound (OneOfInteger values) w).
Proof.
  intros Hgen. inversion Hgen as [| |? Hlen Hall| | | | | |]; subst.
  assert (Hne : map str_Z values <> nil)
    by (destruct values; [unfold len in Hlen; simpl in Hlen; lia | discriminate]).
  assert (Htok : Forall (fun it => token it = true) (map str_Z values)).
  { clear -Hall. induction Hall as [|v vs Hv _ IH]; constructor; [|exact IH].
    apply small_integer_token. assumption. }
  set (body := join ", " (map str_Z values)).
  assert (Hstrip : strip (render (OneOfInteger values)) = render (OneOfInteger values)).
  { unfold render. fold body.
    apply (strip_keep "I" "nteger { x | x in { " body " } }");
      [reflexivity | discriminate | reflexivity]. }
  assert (Hvals : map strip (split_char "," (set_body (render (OneOfInteger values))))
                  = map str_Z values).
  { unfold render.
    change ("Integer { x | x in { " +:+ join ", " (map str_Z values) +:+ " } }")
      with ("Integer { x | x in " +:+ "{ " +:+ join ", " (map str_Z values) +:+ " } }").
    apply set_values; assumption. }
  simpl value_for_type. rewrite Hstrip, Hvals.
  apply succeeds_bind, succeeds_get_alias_registry.
  set (t := render (OneOfInteger values)).
  settle (startswith "_" t) false.
  settle (String.eqb t "String") false. settle (String.eqb t "Integer") false.
  settle (String.eqb t "Float") false. settle (String.eqb t "Boolean") false.
  settle (String.eqb t "URL") false. settle (String.eqb t "Percentage") false.
  settle (startswith "String { x | x in {" t) false.
  settle (startswith "Integer { x | x in {" t) true.
  apply succeeds_choice; [assumption|]. intros lit w1 Hlit Hs1.
  split; [assumption|].
  apply in_map_iff in Hlit as (n & <- & Hn).
  exists (VInteger n). split; [reflexivity|].
  simpl. apply existsb_exists. exists n. split; [assumption | apply Z.eqb_refl].
Qed.

Lemma synth_range_integer (low high : Z) (fuel : nat) (w : world G) :
  generated (RangeInteger low high) ->
  succeeds (value_for_type (S fuel) (render (RangeInteger low high))) w
           (sound (RangeInteger low high) w).
Proof.
  intros Hgen. inversion Hgen as [| | | |? ? Hlo Hhi| | | |]; subst.
  destruct (integer_bound low ltac:(lia)) as (Hnl & ql & Eql & Hql).
  destruct (integer_bound high ltac:(lia)) as (Hnh & qh & Eqh & Hqh).
  destruct (range_text_tests "Integer { x | x in " (str_Z low) (str_Z high) Hnl Hnh)
    as (Hkept & Hdots & Hsearch & Hfloat).
  specialize (Hsearch eq_refl). specialize (Hfloat eq_refl).
  set (t := render (RangeInteger low high)) in *.
  change ("Integer { x | x in " +:+ "( " +:+ str_Z low +:+ ".." +:+ str_Z high +:+ " ) }")
    with t in *.
  assert (Hstrip : strip t = t) by (apply strip_text; [reflexivity | assumption]).
  simpl value_for_type. rewrite Hstrip.
  apply succeeds_bind, succeeds_get_alias_registry.
  settle (startswith "_" t) false.
  settle (String.eqb t "String") false. settle (String.eqb t "Integer") false.
  settle (String.eqb t "Float") false. settle (String.eqb t "Boolean") false.
  settle (String.eqb t "URL") false. settle (String.eqb t "Percentage") false.
  settle (startswith "String { x | x in {" t) false.
  settle (startswith "Integer { x | x in {" t) false.
  settle (contains "x | x in (" t) true.
  rewrite Hdots, Hsearch, Hfloat, Eql, Eqh. cbn [andb].
  apply succeeds_bind, succeeds_lift, succeeds_bind, succeeds_lift.
  rewrite Hql, Hqh.
  apply succeeds_bind, succeeds_randint; [lia|]. intros n w1 Hn Hs1.
  apply succeeds_ret. split; [assumption|].
  exists (VInteger n). split; [reflexivity|].
  simpl. apply andb_true_intro. split; apply Z.leb_le; lia.
Qed.

Lemma synth_range_float (low high : Z) (fuel : nat) (w : world G) :
  generated (RangeFloat low high) ->
  succeeds (value_for_type (S fuel) (render (RangeFloat low high))) w
           (sound (RangeFloat low high) w).
Proof.
  intros Hgen. inversion Hgen as [| | |? ? Hlo Hhi| | | | |]; subst.
  destruct (float_bound low ltac:(lia)) as (Hnl & ql & Eql & Hrl & Hql & _).
  destruct (float_bound high ltac:(lia)) as (Hnh & qh & Eqh & Hrh & _ & Hqh).
  destruct (range_text_tests "Float { x | x in " (str_decimal 1 low) (str_decimal 1 high)
              Hnl Hnh) as (Hkept & Hdots & Hsearch & _).
  specialize (Hsearch eq_refl).
  set (t := render (RangeFloat low high)) in *.
  change ("Float { x | x in " +:+ "( " +:+ str_decimal 1 low +:+ ".."
          +:+ str_decimal 1 high +:+ " ) }") with t in *.
  assert (Hstrip : strip t = t) by (apply strip_text; [reflexivity | assumption]).
  simpl value_for_type. rewrite Hstrip.
  apply succeeds_bind, succeeds_get_alias_registry.
  settle (startswith "_" t) false.
  settle (String.eqb t "String") false. settle (String.eqb t "Integer") false.
  settle (String.eqb t "Float") false. settle (String.eqb t "Boolean") false.
  settle (String.eqb t "URL") false. settle (String.eqb t "Percentage") false.
  settle (startswith "String { x | x in {" t) false.
  settle (startswith "Integer { x | x in {" t) false.
  settle (contains "x | x in (" t) true.
  settle (contains "Float" t) true.
  rewrite Hdots, Hsearch, Eql, Eqh. cbn [andb].
  apply succeeds_bind, succeeds_lift, succeeds_bind, succeeds_lift.
  apply succeeds_bind, succeeds_draw. intros w1 _ Hs1.
  apply succeeds_ret. split; [assumption|].
  assert (Hle : (ql <= qh)%Q).
  { apply Qle_trans with 50%Q; [apply Hql; lia|].
    apply Qle_trans with 60%Q; [discriminate | apply Hqh; lia]. }
  destruct (uniform_range ql qh (rng w) Hle) as [Hx1 Hx2].
  exists (VFloat (rounded 2 (fst (uniform ql qh (rng w))))). split; [reflexivity|].
  pose proof (rounded_mono 2 _ _ Hx1). pose proof (rounded_mono 2 _ _ Hx2).
  simpl. apply andb_true_intro. split; apply Z.leb_le; lia.
Qed.

(** The synthesizer on every generated descriptor: it returns the literal of
    a value of the descriptor's domain. *)
Lemma synthesis_sound (d : descriptor) (fuel : nat) (w : world G) :
  generated d ->
  succeeds (value_for_type (S (S fuel)) (render d)) w (sound d w).
Proof.
  intros Hgen. destruct Hgen.
  - apply synth_primitive.
  - apply synth_oneof_string. constructor; assumption.
  - apply synth_oneof_integer. constructor; assumption.
  - apply synth_range_float. constructor; assumption.
  - apply synth_range_integer. constructor; assumption.
  - apply synth_list_of_primitive.
  - apply synth_dict_of_primitive.
  - apply synth_optional_of_primitive.
  - apply synth_defaulted_of_primitive.
Qed.

End Refinements.

End Refinements.

(** *** The type generators *)
Module Grammar.
Import Py GenerateCorpus Tape StringFacts GenerateCorpusFacts Returns Types.
Local Open Scope py_scope.

Lemma insert_Z_Forall (P : Z -> Prop) (x : Z) (l : list Z) :
  P x -> Forall P l -> Forall P (insert_Z x l).
Proof.
  intros Hx Hl. induction Hl as [|y l Hy Hl IH]; simpl; [repeat constructor; assumption|].
  destruct (x <=? y); repeat constructor; assumption.
Qed.

Lemma insert_Z_length (x : Z) (l : list Z) :
  List.length (insert_Z x l) = S (List.length l).
Proof.
  induction l as [|y l IH]; simpl; [reflexivity|].
  destruct (x <=? y); simpl; [reflexivity | now rewrite IH].
Qed.

Lemma sorted_Z_Forall (P : Z -> Prop) (l : list Z) : Forall P l -> Forall P (sorted_Z l).
Proof.
  induction 1 as [|x l Hx Hl IH]; simpl; [constructor|].
  apply insert_Z_Forall; assumption.
Qed.

Lemma sorted_Z_length (l : list Z) : len (sorted_Z l) = len l.
Proof.
  unfold len. induction l as [|x l IH]; simpl; [reflexivity|].
  rewrite insert_Z_length. lia.
Qed.

Section Grammar.

Context {G : Type} `{RandomSource G}.

(** The text is the text of a generated descriptor. *)
Definition describes (text : string) (w' : world G) : Prop :=
  exists d, generated d /\ text = render d.

Lemma random_type_plain_eq (depth : Z) : random_type depth false = random_type_plain depth.
Proof. unfold random_type. rewrite orb_true_r. reflexivity. Qed.

Lemma simple_type_kind (w : world G) :
  succeeds simple_type w (fun text _ => exists k, text = kind_name k).
Proof.
  unfold simple_type. apply succeeds_choice; [discriminate|].
  intros text w' Hin _.
  destruct Hin as [<-|[<-|[<-|[<-|[]]]]];
    [exists KString | exists KInteger | exists KFloat | exists KBoolean]; reflexivity.
Qed.

Lemma simple_type_describes (w : world G) : succeeds simple_type w describes.
Proof.
  eapply succeeds_weaken; [apply simple_type_kind|].
  intros text w' (k & ->). exists (Primitive k). split; [constructor | reflexivity].
Qed.

Lemma oneof_type_describes (base : string) (w : world G) :
  succeeds (oneof_type base) w describes.
Proof.
  unfold oneof_type. destruct (String.eqb base "String").
  - apply succeeds_bind, succeeds_randint; [lia|]. intros k w1 Hk _.
    apply succeeds_bind, succeeds_sample; [unfold len; simpl; lia|].
    intros values w2 Hlen Hall _. apply succeeds_ret.
    exists (OneOfString values). split; [|reflexivity].
    constructor; [lia | assumption].
  - destruct (String.eqb base "Integer"); [|apply simple_type_describes].
    apply succeeds_bind, succeeds_randint; [lia|]. intros k w1 Hk _.
    apply succeeds_bind, succeeds_sample; [unfold len; simpl; lia|].
    intros values w2 Hlen Hall _. apply succeeds_ret.
    exists (OneOfInteger (sorted_Z values)). split; [|reflexivity].
    constructor; [rewrite sorted_Z_length; lia|].
    apply sorted_Z_Forall. eapply List.Forall_impl; [|exact Hall].
    intros n Hn. unfold range_from in Hn.
    apply in_map_iff in Hn as (i & <- & Hi). apply in_seq in Hi. lia.
Qed.

Lemma range_type_describes (w : world G) : succeeds range_type w describes.
Proof.
  unfold range_type. apply succeeds_bind, succeeds_random_below. intros [|] w1 _.
  - apply succeeds_bind, succeeds_draw. intros w2 _ _.
    apply succeeds_bind, succeeds_draw. intros w3 _ _. apply succeeds_ret.
    destruct (uniform_range 0 50 (rng w1) ltac:(discriminate)) as [Hl1 Hl2].
    destruct (uniform_range 60 100 (rng w2) ltac:(discriminate)) as [Hh1 Hh2].
    exists (RangeFloat (rounded 1 (fst (uniform 0 50 (rng w1))))
                       (rounded 1 (fst (uniform 60 100 (rng w2))))).
    split; [|reflexivity].
    pose proof (rounded_mono 1 _ _ Hl1). pose proof (rounded_mono 1 _ _ Hl2).
    pose proof (rounded_mono 1 _ _ Hh1). pose proof (rounded_mono 1 _ _ Hh2).
    constructor.
    + change (rounded 1 0) with 0 in *. change (rounded 1 50) with 500 in *. lia.
    + change (rounded 1 60) with 600 in *. change (rounded 1 100) with 1000 in *. lia.
  - apply succeeds_bind, succeeds_randint; [lia|]. intros low w2 Hl _.
    apply succeeds_bind, succeeds_randint; [lia|]. intros high w3 Hh _.
    apply succeeds_ret. exists (RangeInteger low high).
    split; [constructor; lia | reflexivity].
Qed.

Lemma collection_type_describes (depth : Z) (w : world G) :
  succeeds (collection_type depth) w describes.
Proof.
  unfold collection_type. destruct (depth >? 1); [apply simple_type_describes|].
  apply succeeds_bind, succeeds_random_below. intros [|] w1 _.
  - apply succeeds_bind. eapply succeeds_weaken; [apply simple_type_kind|].
    intros inner w2 (k & ->). apply succeeds_ret.
    exists (ListOf (Primitive k)). split; [constructor | reflexivity].
  - apply succeeds_bind. eapply succeeds_weaken; [apply simple_type_kind|].
    intros inner w2 (k & ->). apply succeeds_ret.
    exists (DictOf (Primitive k)). split; [constructor | reflexivity].
Qed.

Lemma modifier_type_describes (depth : Z) (w : world G) :
  succeeds (modifier_type depth) w describes.
Proof.
  unfold modifier_type.
  apply succeeds_bind. eapply succeeds_weaken; [apply simple_type_kind|].
  intros inner w1 (k & ->).
  apply succeeds_bind, succeeds_random_below. intros [|] w2 _.
  - apply succeeds_ret.
    exists (OptionalOf (Primitive k)). split; [constructor | reflexivity].
  - destruct k; simpl; apply succeeds_ret.
    + exists (DefaultedOf (Primitive KString) (default_literal KString)).
      split; [constructor | reflexivity].
    + exists (DefaultedOf (Primitive KInteger) (default_literal KInteger)).
      split; [constructor | reflexivity].
    + exists (DefaultedOf (Primitive KFloat) (default_literal KFloat)).
      split; [constructor | reflexivity].
    + exists (DefaultedOf (Primitive KBoolean) (default_literal KBoolean)).
      split; [constructor | reflexivity].
Qed.

(** The type grammar is total, and what it returns is the text of a
    generated descriptor. *)
Lemma random_type_describes (depth : Z) (allow_complex : bool) (w : world G) :
  succeeds (random_type depth allow_complex) w describes.
Proof.
  unfold random_type.
  destruct ((depth >? 2) || negb allow_complex); [apply simple_type_describes|].
  apply succeeds_bind, succeeds_draw. intros w1 _ _.
  destruct (Qltb _ _); [apply simple_type_describes|].
  destruct (Qltb _ _).
  { apply succeeds_bind, succeeds_choice; [discriminate|]. intros base w2 _ _.
    apply oneof_type_describes. }
  destruct (Qltb _ _); [apply range_type_describes|].
  destruct (Qltb _ _); [apply collection_type_describes | apply modifier_type_describes].
Qed.

End Grammar.

End Grammar.

(** *** Reading the literals back *)
Module Reading.
Import Py GenerateCorpus Tape StringFacts GenerateCorpusFacts Returns Types Synthesis
       Refinements.
Local Open Scope py_scope.

(** A value as the synthesizer writes it: no quote inside a string, and
    numbers within the bounds of the draws. *)
Fixpoint plain (v : value) : bool :=
  match v with
  | VString s => negb (has_char dquote s)
  | VInteger n => (0 <=? n) && (n <=? 10000)
  | VFloat h => (0 <=? h) && (h <=? 10000)
  | VBoolean _ => true
  | VList items => forallb plain items
  | VDict entries => forallb (fun kv => plain (snd kv)) entries
  end.

Lemma after_app (p s : string) : after p (p +:+ s) = Some s.
Proof.
  induction p as [|a p IH]; [destruct s; reflexivity|].
  cbn [String.append append after]. rewrite Ascii.eqb_refl. exact IH.
Qed.

Lemma append_length (a b : string) :
  String.length (a +:+ b) = (String.length a + String.length b)%nat.
Proof. induction a as [|x a IH]; cbn; [reflexivity | now rewrite IH]. Qed.

#[local] Arguments String.append : simpl never.

(** Where a run of characters of the class [p] stops. *)
Definition stops (p : ascii -> bool) (s : string) : bool :=
  match s with
  | String a _ => negb (p a)
  | "" => true
  end.

Lemma span_stops (p : ascii -> bool) (s : string) : stops p s = true -> span p s = ("", s).
Proof.
  destruct s as [|a s]; [reflexivity|]. cbn. intros Ha.
  apply negb_true_iff in Ha. rewrite Ha. reflexivity.
Qed.

Lemma span_run (p : ascii -> bool) (a b : string) :
  all_chars p a = true -> stops p b = true -> span p (a +:+ b) = (a, b).
Proof.
  intros Ha Hb. rewrite (span_app p a b Ha), (span_stops p b Hb). cbn [fst snd].
  rewrite append_nil_r. reflexivity.
Qed.

(** What [span] returns: the run, and a rest at which it stops. *)
Lemma span_parts (p : ascii -> bool) (s run rest : string) :
  span p s = (run, rest) ->
  s = run +:+ rest /\ all_chars p run = true /\ stops p rest = true.
Proof.
  revert run rest. induction s as [|a s IH]; intros run rest E; cbn in E.
  - injection E as <- <-. repeat split.
  - destruct (p a) eqn:Ha.
    + destruct (span p s) as [run' rest'] eqn:Es. injection E as <- <-.
      destruct (IH _ _ eq_refl) as (-> & Hrun & Hstop).
      repeat split; [cbn; rewrite Ha; exact Hrun | exact Hstop].
    + injection E as <- <-. repeat split. cbn. rewrite Ha. reflexivity.
Qed.

Lemma stops_digit (s : string) : starts_with_digit s = false -> stops is_digit s = true.
Proof. destruct s as [|a s]; [reflexivity|]. cbn. intros ->. reflexivity. Qed.

(** *** Strings *)

Lemma no_quote_chars (s : string) :
  has_char dquote s = false ->
  all_chars (fun c => negb (Ascii.eqb c "034")) s = true.
Proof.
  induction s as [|a s IH]; [reflexivity|]. cbn. intros Hs.
  apply orb_false_elim in Hs as [Ha Hs]. change dquote with "034"%char in Ha.
  rewrite Ha, (IH Hs). reflexivity.
Qed.

Lemma read_string_quoted (s rest : string) :
  has_char dquote s = false ->
  read_string (quoted s +:+ rest) = Some (VString s, rest).
Proof.
  intros Hs. unfold read_string, quoted.
  change (String dquote s) with (String "034" "" +:+ s).
  change (String dquote "") with (String "034" "").
  rewrite !append_assoc, after_app.
  change (String "034" "" +:+ rest) with (String "034" rest).
  rewrite (span_run _ s (String "034" rest) (no_quote_chars s Hs) eq_refl).
  reflexivity.
Qed.

(** *** Numbers: every numeral the synthesizer can write is read back *)

Definition integer_read_ok (n : Z) : bool :=
  negb (String.eqb (str_Z n) "")
  && match read_integer (str_Z n) with
     | Some (VInteger m, "") => m =? n
     | _ => false
     end.

Definition float_read_ok (h : Z) : bool :=
  negb (String.eqb (str_decimal 2 h) "")
  && match read_float (str_decimal 2 h) with
     | Some (VFloat m, "") => m =? h
     | _ => false
     end.

Lemma integers_read_ok : forallb integer_read_ok (range_from 0 10001) = true.
Proof. vm_compute. reflexivity. Qed.

Lemma floats_read_ok : forallb float_read_ok (range_from 0 10001) = true.
Proof. vm_compute. reflexivity. Qed.

Lemma read_integer_app (a rest : string) (v : value) :
  read_integer a = Some (v, "") -> starts_with_digit rest = false ->
  read_integer (a +:+ rest) = Some (v, rest).
Proof.
  unfold read_integer. intros E Hrest.
  destruct (span is_digit a) as [digits r] eqn:Es.
  destruct (span_parts _ _ _ _ Es) as (-> & Hd & _).
  destruct (number digits) as [n|] eqn:En; [|discriminate]. injection E as <- ->.
  rewrite append_nil_r. rewrite (span_run _ _ _ Hd (stops_digit _ Hrest)), En.
  reflexivity.
Qed.

Lemma read_float_app (a rest : string) (v : value) :
  read_float a = Some (v, "") -> starts_with_digit rest = false ->
  read_float (a +:+ rest) = Some (v, rest).
Proof.
  unfold read_float. intros E Hrest.
  destruct (span is_digit a) as [whole r] eqn:Es.
  destruct (span_parts _ _ _ _ Es) as (-> & Hw & _). clear Es.
  destruct (number whole) as [i|] eqn:Ei; [|discriminate].
  destruct (after "." r) as [r1|] eqn:Edot; [|discriminate].
  assert (Hr : r = "." +:+ r1).
  { destruct r as [|c r]; [discriminate|]. cbn [after] in Edot.
    destruct (Ascii.eqb_spec "." c) as [<-|]; [|discriminate].
    destruct r; injection Edot as <-; reflexivity. }
  subst r. clear Edot.
  destruct (span is_digit r1) as [frac r2] eqn:Ef.
  destruct (span_parts _ _ _ _ Ef) as (-> & Hf & _). clear Ef.
  destruct (number frac) as [f|] eqn:En; [|discriminate].
  assert (Hout : r2 = "").
  { destruct (String.length frac) as [|[|[|?]]]; try discriminate;
      injection E as _ <-; reflexivity. }
  subst r2. rewrite append_nil_r. rewrite !append_assoc.
  rewrite (span_run is_digit whole ("." +:+ frac +:+ rest) Hw eq_refl), Ei, after_app.
  rewrite (span_run is_digit frac rest Hf (stops_digit _ Hrest)), En.
  destruct (String.length frac) as [|[|[|?]]]; try discriminate;
    injection E as <-; reflexivity.
Qed.

Lemma read_integer_written (n : Z) (rest : string) :
  0 <= n <= 10000 -> starts_with_digit rest = false ->
  str_Z n <> "" /\ read_integer (str_Z n +:+ rest) = Some (VInteger n, rest).
Proof.
  intros Hn Hrest.
  pose proof (for_range integer_read_ok 0 10001 integers_read_ok n ltac:(lia)) as Hok.
  unfold integer_read_ok in Hok. apply andb_prop in Hok as [Hne Hok].
  split; [apply String.eqb_neq, negb_true_iff; exact Hne|].
  apply read_integer_app; [|assumption].
  destruct (read_integer (str_Z n)) as [[[] []]|]; try discriminate.
  apply Z.eqb_eq in Hok. subst. reflexivity.
Qed.

Lemma read_float_written (h : Z) (rest : string) :
  0 <= h <= 10000 -> starts_with_digit rest = false ->
  str_decimal 2 h <> "" /\ read_float (str_decimal 2 h +:+ rest) = Some (VFloat h, rest).
Proof.
  intros Hh Hrest.
  pose proof (for_range float_read_ok 0 10001 floats_read_ok h ltac:(lia)) as Hok.
  unfold float_read_ok in Hok. apply andb_prop in Hok as [Hne Hok].
  split; [apply String.eqb_neq, negb_true_iff; exact Hne|].
  apply read_float_app; [|assumption].
  destruct (read_float (str_decimal 2 h)) as [[[] []]|]; try discriminate.
  apply Z.eqb_eq in Hok. subst. reflexivity.
Qed.

(** *** Primitive values *)

Lemma read_primitive_written (k : kind) (v : value) (rest : string) :
  of_kind k v = true -> plain v = true -> starts_with_digit rest = false ->
  literal v <> "" /\ read_primitive k (literal v +:+ rest) = Some (v, rest).
Proof.
  intros Hk Hv Hrest. destruct k, v; try discriminate Hk; cbn [literal read_primitive].
  - split; [discriminate|]. apply read_string_quoted.
    apply negb_true_iff. exact Hv.
  - apply read_integer_written; [|assumption].
    cbn [plain] in Hv. apply andb_prop in Hv as [H1 H2]. lia.
  - apply read_float_written; [|assumption].
    cbn [plain] in Hv. apply andb_prop in Hv as [H1 H2]. lia.
  - destruct b; (split; [discriminate|]); unfold read_boolean.
    + rewrite after_app. reflexivity.
    + rewrite after_app. reflexivity.
Qed.

(** *** Items separated by a comma and a space *)

Lemma read_items_join {A} (read : string -> option (A * string)) (show : A -> string)
    (xs : list A) (rest : string) (fuel : nat) :
  xs <> nil ->
  (forall x r, In x xs -> starts_with_digit r = false -> read (show x +:+ r) = Some (x, r)) ->
  starts_with_digit rest = false -> after ", " rest = None ->
  (List.length xs <= fuel)%nat ->
  read_items read fuel (join ", " (map show xs) +:+ rest) = Some (xs, rest).
Proof.
  revert fuel. induction xs as [|x xs IH]; intros fuel Hne Hread Hrest Hsep Hfuel;
    [congruence|].
  destruct fuel as [|fuel]; [simpl in Hfuel; lia|].
  destruct xs as [|y xs].
  - cbn [map join read_items].
    rewrite (Hread x rest (or_introl eq_refl) Hrest), Hsep. reflexivity.
  - change (join ", " (map show (x :: y :: xs)))
      with (show x +:+ ", " +:+ join ", " (map show (y :: xs))).
    rewrite !append_assoc. cbn [read_items].
    rewrite (Hread x (", " +:+ join ", " (map show (y :: xs)) +:+ rest)
                   (or_introl eq_refl) eq_refl), after_app.
    rewrite IH; [reflexivity | discriminate | | assumption | assumption | simpl in *; lia].
    intros x' r Hin. apply Hread. right. exact Hin.
Qed.

Lemma items_fuel {A} (show : A -> string) (xs : list A) (rest : string) :
  (forall x, In x xs -> show x <> "") ->
  (List.length xs <= String.length (join ", " (map show xs) +:+ rest))%nat.
Proof.
  intros Hshow. rewrite append_length.
  enough (List.length xs <= String.length (join ", " (map show xs)))%nat by lia.
  induction xs as [|x xs IH]; [simpl; lia|].
  assert (Hx : (1 <= String.length (show x))%nat).
  { specialize (Hshow x (or_introl eq_refl)). destruct (show x); [congruence | simpl; lia]. }
  destruct xs as [|y xs]; [simpl; lia|].
  change (join ", " (map show (x :: y :: xs)))
    with (show x +:+ ", " +:+ join ", " (map show (y :: xs))).
  rewrite !append_length.
  assert (IH' := IH (fun x' Hin => Hshow x' (or_intror Hin))). simpl in *. lia.
Qed.

Lemma forallb_both {A} (p q : A -> bool) (l : list A) :
  forallb (fun x => p x && q x) l = forallb p l && forallb q l.
Proof.
  induction l as [|x l IH]; [reflexivity|]. simpl. rewrite IH.
  destruct (p x), (q x), (forallb p l); reflexivity.
Qed.

(** A list of primitive values is read back. *)
Lemma read_list_written (k : kind) (vs : list value) (rest : string) :
  vs <> nil -> forallb (of_kind k) vs = true -> forallb plain vs = true ->
  read (ListOf (Primitive k)) (literal (VList vs) +:+ rest) = Some (VList vs, rest).
Proof.
  intros Hne Hk Hv. rewrite forallb_forall in Hk, Hv.
  change (literal (VList vs)) with ("[" +:+ join ", " (map literal vs) +:+ "]").
  cbn [read]. rewrite !append_assoc, (after_app "[").
  rewrite (read_items_join (read_primitive k) literal vs ("]" +:+ rest)); try reflexivity.
  - exact Hne.
  - intros v r Hin Hr. apply read_primitive_written; auto.
  - apply items_fuel. intros v Hin.
    apply (read_primitive_written k v ""); auto.
Qed.

(** *** Mappings *)

Lemma same_strings_eq (a b : list string) : same_strings a b = true -> a = b.
Proof.
  revert b. induction a as [|x a IH]; intros [|y b] E; try discriminate; [reflexivity|].
  simpl in E. apply andb_prop in E as [Exy E]. apply String.eqb_eq in Exy.
  rewrite Exy, (IH b E). reflexivity.
Qed.

Definition word (key : string) : bool := negb (String.eqb key "") && all_chars is_word key.

Lemma synthetic_keys_words (n : nat) :
  (n <= 3)%nat -> forallb word (synthetic_keys n) = true.
Proof. intros Hn. destruct n as [|[|[|[|n]]]]; try reflexivity. lia. Qed.

Lemma read_entry_written (k : kind) (kv : string * value) (rest : string) :
  word (fst kv) = true -> of_kind k (snd kv) = true -> plain (snd kv) = true ->
  starts_with_digit rest = false ->
  read_entry (read_primitive k) ((fst kv +:+ ": " +:+ literal (snd kv)) +:+ rest)
  = Some (kv, rest).
Proof.
  destruct kv as [key v]. cbn [fst snd]. intros Hw Hk Hv Hrest.
  apply andb_prop in Hw as [Hne Hw]. apply negb_true_iff, String.eqb_neq in Hne.
  unfold read_entry. rewrite !append_assoc.
  rewrite (span_run is_word key (": " +:+ literal v +:+ rest) Hw eq_refl).
  destruct key as [|c key]; [congruence|]. rewrite (after_app ": ").
  destruct (read_primitive_written k v rest Hk Hv Hrest) as [_ Er]. rewrite Er.
  reflexivity.
Qed.

Lemma read_dict_written (k : kind) (entries : list (string * value)) (rest : string) :
  entries <> nil ->
  forallb word (map fst entries) = true ->
  forallb (fun kv => of_kind k (snd kv)) entries = true ->
  forallb (fun kv => plain (snd kv)) entries = true ->
  read (DictOf (Primitive k)) (literal (VDict entries) +:+ rest) = Some (VDict entries, rest).
Proof.
  intros Hne Hw Hk Hv. rewrite forallb_forall in Hw, Hk, Hv.
  change (literal (VDict entries))
    with ("{ " +:+ join ", " (map (fun kv => fst kv +:+ ": " +:+ literal (snd kv)) entries)
          +:+ " }").
  cbn [read]. rewrite !append_assoc, (after_app "{ ").
  rewrite (read_items_join (read_entry (read_primitive k))
             (fun kv => fst kv +:+ ": " +:+ literal (snd kv)) entries (" }" +:+ rest));
    try reflexivity.
  - exact Hne.
  - intros kv r Hin Hr. apply read_entry_written; auto.
    apply Hw, in_map. exact Hin.
  - apply items_fuel. intros kv Hin E. apply append_eq_nil in E as [_ E].
    discriminate E.
Qed.

(** *** What the synthesizer writes is read back *)

Lemma lowercase_no_quote (letters : list ascii) :
  Forall (fun c => In c ascii_lowercase) letters ->
  has_char dquote (string_of_list_ascii letters) = false.
Proof.
  assert (Hall : forallb (fun c => negb (Ascii.eqb c dquote)) ascii_lowercase = true)
    by reflexivity.
  rewrite forallb_forall in Hall.
  induction 1 as [|c letters Hc _ IH]; [reflexivity|].
  cbn [string_of_list_ascii has_char]. rewrite IH, (proj1 (negb_true_iff _) (Hall c Hc)).
  reflexivity.
Qed.

(** The literal [lit], read against [d], is a value of the domain of [d]. *)
Definition read_back (d : descriptor) (lit : string) : Prop :=
  exists v, parse d lit = Some v /\ in_domain d v = true.

Lemma parse_read (d : descriptor) (v : value) :
  read d (literal v +:+ "") = Some (v, "") -> parse d (literal v) = Some v.
Proof. rewrite append_nil_r. unfold parse. intros ->. reflexivity. Qed.

Lemma states_no_quote : forallb (fun s => negb (has_char dquote s)) STATES = true.
Proof. reflexivity. Qed.

(** A value of the domain of a generated set or range is read back. *)
Lemma read_back_oneof_string (values : list string) (v : value) :
  generated (OneOfString values) -> in_domain (OneOfString values) v = true ->
  read_back (OneOfString values) (literal v).
Proof.
  intros Hgen Hin. inversion Hgen as [|? _ Hvalues| | | | | | |]; subst.
  exists v. split; [|exact Hin]. destruct v as [s| | | | |]; try discriminate Hin.
  cbn [in_domain] in Hin. apply mem_In in Hin.
  rewrite List.Forall_forall in Hvalues. specialize (Hvalues s Hin).
  pose proof states_no_quote as Hq. rewrite forallb_forall in Hq.
  apply parse_read, read_string_quoted, negb_true_iff, Hq, Hvalues.
Qed.

Lemma read_back_oneof_integer (values : list Z) (v : value) :
  generated (OneOfInteger values) -> in_domain (OneOfInteger values) v = true ->
  read_back (OneOfInteger values) (literal v).
Proof.
  intros Hgen Hin. inversion Hgen as [| |? _ Hvalues| | | | | |]; subst.
  exists v. split; [|exact Hin]. destruct v as [|n| | | |]; try discriminate Hin.
  cbn [in_domain] in Hin. apply existsb_exists in Hin as (m & Hm & E).
  apply Z.eqb_eq in E. subst m.
  rewrite List.Forall_forall in Hvalues. specialize (Hvalues n Hm).
  apply parse_read. apply (read_integer_written n ""); [lia | reflexivity].
Qed.

Lemma read_back_range_integer (low high : Z) (v : value) :
  generated (RangeInteger low high) -> in_domain (RangeInteger low high) v = true ->
  read_back (RangeInteger low high) (literal v).
Proof.
  intros Hgen Hin. inversion Hgen as [| | | |? ? Hlo Hhi| | | |]; subst.
  exists v. split; [|exact Hin]. destruct v as [|n| | | |]; try discriminate Hin.
  cbn [in_domain] in Hin. apply andb_prop in Hin as [H1 H2].
  apply Z.leb_le in H1, H2.
  apply parse_read. apply (read_integer_written n ""); [lia | reflexivity].
Qed.

Lemma read_back_range_float (low high : Z) (v : value) :
  generated (RangeFloat low high) -> in_domain (RangeFloat low high) v = true ->
  read_back (RangeFloat low high) (literal v).
Proof.
  intros Hgen Hin. inversion Hgen as [| | |? ? Hlo Hhi| | | | |]; subst.
  exists v. split; [|exact Hin]. destruct v as [| |h| | |]; try discriminate Hin.
  cbn [in_domain] in Hin. apply andb_prop in Hin as [H1 H2].
  apply Z.leb_le in H1, H2.
  apply parse_read. apply (read_float_written h ""); [lia | reflexivity].
Qed.

Section Reading.

Context {G : Type} `{RandomSource G}.

(** The literal is the literal of a plain value of the kind [k]. *)
Definition writes (k : kind) (w : world G) (lit : string) (w' : world G) : Prop :=
  same_store w w' /\ exists v, literal v = lit /\ of_kind k v && plain v = true.

Lemma synth_primitive_plain (k : kind) (fuel : nat) (w : world G) :
  succeeds (value_for_type (S fuel) (kind_name k)) w (writes k w).
Proof.
  destruct k; simpl; apply succeeds_bind, succeeds_get_alias_registry.
  - apply succeeds_bind, succeeds_randint; [lia|]. intros n w1 Hn Hs1.
    unfold random_letters. apply succeeds_bind, succeeds_bind, succeeds_choices;
      [discriminate | lia |].
    intros letters w2 _ Hletters Hs2. apply succeeds_ret, succeeds_ret.
    split; [eapply same_store_trans; eassumption|].
    exists (VString (string_of_list_ascii letters)). split; [reflexivity|].
    cbn [of_kind plain andb]. rewrite (lowercase_no_quote letters Hletters). reflexivity.
  - apply succeeds_bind, succeeds_randint; [lia|]. intros n w1 Hn Hs1.
    apply succeeds_ret. split; [assumption|].
    exists (VInteger n). split; [reflexivity|].
    cbn [of_kind plain andb]. apply andb_true_intro. split; apply Z.leb_le; lia.
  - apply succeeds_bind, succeeds_draw. intros w1 _ Hs1.
    apply succeeds_ret. split; [assumption|].
    exists (VFloat (rounded 2 (fst (uniform (float_literal 1 2) 100 (rng w))))).
    split; [reflexivity|].
    destruct (uniform_range (float_literal 1 2) 100 (rng w)) as [Hlo Hhi];
      [vm_compute; discriminate|].
    apply (rounded_mono 2) in Hlo, Hhi.
    replace (rounded 2 (float_literal 1 2)) with 1 in Hlo by (vm_compute; reflexivity).
    replace (rounded 2 100) with 10000 in Hhi by (vm_compute; reflexivity).
    cbn [of_kind plain andb]. apply andb_true_intro. split; apply Z.leb_le; lia.
  - apply succeeds_choice; [discriminate|]. intros lit w1 Hin Hs1.
    split; [assumption|].
    destruct Hin as [<-|[<-|[]]]; [exists (VBoolean true) | exists (VBoolean false)];
      split; reflexivity.
Qed.

Lemma read_back_primitive (k : kind) (v : value) :
  of_kind k v && plain v = true -> read_back (Primitive k) (literal v).
Proof.
  intros Hv. apply andb_prop in Hv as [Hk Hv]. exists v. split; [|exact Hk].
  apply parse_read. apply (read_primitive_written k v "" Hk Hv eq_refl).
Qed.

(** A loop of [count] synthesized elements is read back as a list. *)
Lemma synth_list_read (k : kind) (fuel : nat) (w : world G) :
  succeeds (count <- randint 1 4 ;;
            vals <- for_each (range count) (fun _ => value_for_type (S fuel) (kind_name k)) ;;
            ret ("[" +:+ join ", " vals +:+ "]"))
           w (fun lit _ => read_back (ListOf (Primitive k)) lit).
Proof.
  apply succeeds_bind, succeeds_randint; [lia|]. intros count w1 Hc Hs1.
  apply succeeds_bind.
  eapply succeeds_weaken.
  { apply (succeeds_for_each (range count) _ (same_store w1)
             (fun _ lit => exists v, literal v = lit /\ of_kind k v && plain v = true));
      [apply same_store_refl|].
    intros i w2 _ Hs2. eapply succeeds_weaken; [apply synth_primitive_plain|].
    intros lit w3 [Hs3 Hv]. split; [assumption | eapply same_store_trans; eassumption]. }
  intros vals w2 [HF Hs2]. apply succeeds_ret.
  destruct (collect_values (fun v => of_kind k v && plain v) (fun (_ : Z) v => literal v)
              _ _ HF) as (vs & Hl & Hm & Hf).
  rewrite forallb_both in Hf. apply andb_prop in Hf as [Hk Hp].
  assert (Hlit : "[" +:+ join ", " vals +:+ "]" = literal (VList vs)).
  { simpl. rewrite <- Hm. do 3 f_equal.
    rewrite <- (map_snd_combine (range count) vs Hl) at 2. rewrite map_map. reflexivity. }
  pose proof (length_range count ltac:(lia)) as Hr. unfold len in Hr.
  rewrite Hlit. exists (VList vs). split.
  - apply parse_read, read_list_written; [|assumption|assumption].
    intros ->. simpl in Hl. lia.
  - change (in_domain (ListOf (Primitive k)) (VList vs))
      with ((1 <=? len vs) && (len vs <=? 4) && forallb (of_kind k) vs).
    unfold len. rewrite Hk, andb_true_r.
    apply andb_true_intro. split; apply Z.leb_le; lia.
Qed.

(** A loop of [count] synthesized entries is read back as a mapping. *)
Lemma synth_dict_read (k : kind) (fuel : nat) (w : world G) :
  succeeds (count <- randint 1 3 ;;
            pairs <- for_each (range count) (fun i =>
                       v <- value_for_type (S fuel) (kind_name k) ;;
                       ret ("key_" +:+ str_Z i +:+ ": " +:+ v)) ;;
            ret ("{ " +:+ join ", " pairs +:+ " }"))
           w (fun lit _ => read_back (DictOf (Primitive k)) lit).
Proof.
  apply succeeds_bind, succeeds_randint; [lia|]. intros count w1 Hc Hs1.
  apply succeeds_bind.
  eapply succeeds_weaken.
  { apply (succeeds_for_each (range count) _ (same_store w1)
             (fun i pair => exists v, ("key_" +:+ str_Z i) +:+ ": " +:+ literal v = pair
                                      /\ of_kind k v && plain v = true));
      [apply same_store_refl|].
    intros i w2 _ Hs2. apply succeeds_bind.
    eapply succeeds_weaken; [apply synth_primitive_plain|].
    intros lit w3 [Hs3 (v & <- & Hv)]. apply succeeds_ret.
    split; [|eapply same_store_trans; eassumption].
    exists v. split; [|assumption].
    rewrite StringFacts.append_assoc. reflexivity. }
  intros pairs w2 [HF Hs2]. apply succeeds_ret.
  destruct (collect_values (fun v => of_kind k v && plain v)
              (fun (i : Z) v => ("key_" +:+ str_Z i) +:+ ": " +:+ literal v) _ _ HF)
    as (vs & Hl & Hm & Hf).
  rewrite forallb_both in Hf. apply andb_prop in Hf as [Hk Hp].
  set (keys := map (fun i => "key_" +:+ str_Z i) (range count)) in *.
  assert (Hl' : List.length vs = List.length keys)
    by (unfold keys; rewrite length_map; assumption).
  pose proof (length_range count ltac:(lia)) as Hr. unfold len in Hr.
  assert (Hle : List.length (combine keys vs) = Z.to_nat count).
  { rewrite length_combine, <- Hl', Nat.min_id, Hl. lia. }
  assert (Hkeys : synthetic_keys (List.length (combine keys vs)) = keys).
  { unfold synthetic_keys. rewrite Hle, Z2Nat.id by lia. reflexivity. }
  assert (Hlit : "{ " +:+ join ", " pairs +:+ " }" = literal (VDict (combine keys vs))).
  { change (literal (VDict ?e))
      with ("{ " +:+ join ", " (map (fun kv => fst kv +:+ ": " +:+ literal (snd kv)) e)
            +:+ " }").
    rewrite <- Hm. do 3 f_equal. unfold keys. clear.
    generalize (range count) as l. intros l. revert vs.
    induction l as [|i l IH]; intros [|v vs]; try reflexivity.
    cbn [map combine fst snd]. rewrite IH. reflexivity. }
  assert (Hvk : forallb (fun kv => of_kind k (snd kv)) (combine keys vs) = true).
  { rewrite <- (map_snd_combine keys vs Hl') in Hk. rewrite forallb_map_snd in Hk.
    exact Hk. }
  assert (Hvp : forallb (fun kv => plain (snd kv)) (combine keys vs) = true).
  { rewrite <- (map_snd_combine keys vs Hl') in Hp. rewrite forallb_map_snd in Hp.
    exact Hp. }
  rewrite Hlit. exists (VDict (combine keys vs)). split.
  - apply parse_read, read_dict_written; [| |assumption|assumption].
    + intros E. rewrite E in Hle. simpl in Hle. lia.
    + rewrite (map_fst_combine keys vs Hl'), <- Hkeys.
      apply synthetic_keys_words. rewrite Hle. lia.
  - change (in_domain (DictOf (Primitive k)) (VDict ?e))
      with ((1 <=? len e) && (len e <=? 3)
            && forallb (fun kv => in_domain (Primitive k) (snd kv)) e
            && same_strings (map fst e) (synthetic_keys (List.length e))).
    change (fun kv : string * value => in_domain (Primitive k) (snd kv))
      with (fun kv : string * value => of_kind k (snd kv)).
    rewrite Hkeys, Hvk, (map_fst_combine keys vs Hl'), same_strings_refl, !andb_true_r.
    unfold len. rewrite Hle.
    apply andb_true_intro. split; apply Z.leb_le; lia.
Qed.

(** The synthesizer on every generated descriptor: its literal is read back,
    against the descriptor, as a value of the descriptor's domain. *)
Lemma synthesis_read (d : descriptor) (fuel : nat) (w : world G) :
  generated d ->
  succeeds (value_for_type (S (S fuel)) (render d)) w (fun lit _ => read_back d lit).
Proof.
  intros Hgen. destruct Hgen as [k|values|values|low high|low high|k|k|k|k].
  - eapply succeeds_weaken; [apply synth_primitive_plain|].
    intros lit w' [_ (v & <- & Hv)]. apply read_back_primitive, Hv.
  - eapply succeeds_weaken; [apply synth_oneof_string; constructor; assumption|].
    intros lit w' [_ (v & <- & Hv)].
    apply read_back_oneof_string; [constructor; assumption | exact Hv].
  - eapply succeeds_weaken; [apply synth_oneof_integer; constructor; assumption|].
    intros lit w' [_ (v & <- & Hv)].
    apply read_back_oneof_integer; [constructor; assumption | exact Hv].
  - eapply succeeds_weaken; [apply synth_range_float; constructor; assumption|].
    intros lit w' [_ (v & <- & Hv)].
    apply read_back_range_float; [constructor; assumption | exact Hv].
  - eapply succeeds_weaken; [apply synth_range_integer; constructor; assumption|].
    intros lit w' [_ (v & <- & Hv)].
    apply read_back_range_integer; [constructor; assumption | exact Hv].
  - remember (S fuel) as inner_fuel eqn:E.
    destruct k; simpl; apply succeeds_bind, succeeds_get_alias_registry; subst inner_fuel.
    + apply (synth_list_read KString fuel).
    + apply (synth_list_read KInteger fuel).
    + apply (synth_list_read KFloat fuel).
    + apply (synth_list_read KBoolean fuel).
  - remember (S fuel) as inner_fuel eqn:E.
    destruct k; simpl; apply succeeds_bind, succeeds_get_alias_registry; subst inner_fuel.
    + apply (synth_dict_read KString fuel).
    + apply (synth_dict_read KInteger fuel).
    + apply (synth_dict_read KFloat fuel).
    + apply (synth_dict_read KBoolean fuel).
  - assert (Hinner : succeeds (value_for_type (S fuel) (kind_name k)) w
                       (fun lit _ => read_back (OptionalOf (Primitive k)) lit)).
    { eapply succeeds_weaken; [apply synth_primitive_plain|].
      intros lit w' [_ (v & <- & Hv)]. apply (read_back_primitive k v Hv). }
    remember (S fuel) as inner_fuel eqn:E.
    destruct k; simpl; apply succeeds_bind, succeeds_get_alias_registry; exact Hinner.
  - assert (Hinner : succeeds (value_for_type (S fuel) (kind_name k)) w
                       (fun lit _ => read_back (DefaultedOf (Primitive k) (default_literal k))
                                               lit)).
    { eapply succeeds_weaken; [apply synth_primitive_plain|].
      intros lit w' [_ (v & <- & Hv)].
      destruct (read_back_primitive k v Hv) as (v' & Hp & Hd).
      exists v'. split; [exact Hp|]. cbn [in_domain] in *. rewrite Hd. reflexivity. }
    remember (S fuel) as inner_fuel eqn:E.
    destruct k; simpl; apply succeeds_bind, succeeds_get_alias_registry; exact Hinner.
Qed.

End Reading.

End Reading.

(** *** The synthesizer: soundness, ranges, totality *)
Module SynthesizerFacts.
Import Py GenerateCorpus Tape StringFacts GenerateCorpusFacts Returns Types Synthesis
       Refinements Grammar Reading.
Local Open Scope py_scope.

#[local] Arguments strip : simpl never.
#[local] Arguments set_body : simpl never.
#[local] Arguments split_char : simpl never.
#[local] Arguments search_range : simpl never.
#[local] Arguments contains : simpl never.
#[local] Arguments startswith : simpl never.
#[local] Arguments String.eqb : simpl never.
#[local] Arguments render : simpl never.

(** A value of the generator's domain that the open interval of the
    specification leaves out is a bound of a range. *)
Lemma domain_or_bound (d : descriptor) (v : value) :
  generated d -> in_domain d v = true -> accepted d v = false ->
  exists low high,
    (d = RangeInteger low high /\ (v = VInteger low \/ v = VInteger high))
    \/ (d = RangeFloat low high /\ (v = VFloat (10 * low) \/ v = VFloat (10 * high))).
Proof.
  intros Hgen Hin Hout.
  destruct Hgen as [k|values|values|low high|low high|k|k|k|k];
    try (exfalso; destruct v; cbn in Hin, Hout; congruence).
  - exists low, high. right. split; [reflexivity|].
    destruct v as [| |h| | |]; try discriminate Hin. cbn [in_domain accepted] in Hin, Hout.
    apply andb_prop in Hin as [H1 H2]. apply Z.leb_le in H1, H2.
    apply andb_false_iff in Hout as [Hout|Hout]; apply Z.ltb_ge in Hout;
      [left | right]; f_equal; lia.
  - exists low, high. left. split; [reflexivity|].
    destruct v as [|n| | | |]; try discriminate Hin. cbn [in_domain accepted] in Hin, Hout.
    apply andb_prop in Hin as [H1 H2]. apply Z.leb_le in H1, H2.
    apply andb_false_iff in Hout as [Hout|Hout]; apply Z.ltb_ge in Hout;
      [left | right]; f_equal; lia.
Qed.

Section SynthesizerFacts.

Context {G : Type} `{RandomSource G}.

(** C1, as the code has it: round-trip soundness with the bounds of a range
    in its domain. Whatever the depth, the complexity flag and the state, the
    type grammar returns the text of a descriptor, and from every state the
    synthesizer returns for that text a literal that, read back against the
    descriptor, is a value of the descriptor's domain, a range being
    inclusive. The value is in the accepted domain of the specification as
    well, unless it is a bound of a range. *)
Theorem round_trip_soundness (depth : Z) (allow_complex : bool) (w : world G) :
  exists (text : string) (w1 : world G) (d : descriptor),
    random_type depth allow_complex w = Return (text, w1)
    /\ generated d
    /\ text = render d
    /\ forall (fuel : nat) (w2 : world G),
         exists (lit : string) (w3 : world G) (v : value),
           value_for_type (S (S fuel)) text w2 = Return (lit, w3)
           /\ parse d lit = Some v
           /\ in_domain d v = true
           /\ (accepted d v = true
               \/ exists low high,
                    (d = RangeInteger low high /\ (v = VInteger low \/ v = VInteger high))
                    \/ (d = RangeFloat low high
                        /\ (v = VFloat (10 * low) \/ v = VFloat (10 * high)))).
Proof.
  destruct (random_type_describes depth allow_complex w) as (text & w1 & E & d & Hd & ->).
  exists (render d), w1, d. repeat split; try assumption.
  intros fuel w2.
  destruct (synthesis_read d fuel w2 Hd) as (lit & w3 & E' & v & Hv & Hin).
  exists lit, w3, v. split; [exact E'|]. split; [exact Hv|]. split; [exact Hin|].
  destruct (accepted d v) eqn:Ha; [left; reflexivity | right].
  apply domain_or_bound; assumption.
Qed.

(** C3, as the code has it: for a generated range the synthesizer returns a
    literal inside the closed interval of the two bounds; the bounds
    themselves are not excluded. Float bounds are in tenths, the value in
    hundredths. *)
Theorem range_value_within_bounds (low high : Z) (fuel : nat) (w : world G) :
  (0 <= low <= 50 -> 60 <= high <= 1000 ->
   exists (n : Z) (w' : world G),
     value_for_type (S fuel) (render (RangeInteger low high)) w = Return (str_Z n, w')
     /\ low <= n <= high)
  /\ (0 <= low <= 500 -> 600 <= high <= 1000 ->
      exists (h : Z) (w' : world G),
        value_for_type (S fuel) (render (RangeFloat low high)) w
        = Return (str_decimal 2 h, w')
        /\ 10 * low <= h <= 10 * high).
Proof.
  split; intros Hl Hh.
  - destruct (synth_range_integer low high fuel w ltac:(constructor; assumption))
      as (lit & w' & E & _ & v & <- & Hin).
    destruct v; try discriminate Hin. simpl in Hin.
    apply andb_prop in Hin as [H1 H2]. apply Z.leb_le in H1. apply Z.leb_le in H2.
    eauto.
  - destruct (synth_range_float low high fuel w ltac:(constructor; assumption))
      as (lit & w' & E & _ & v & <- & Hin).
    destruct v; try discriminate Hin. simpl in Hin.
    apply andb_prop in Hin as [H1 H2]. apply Z.leb_le in H1. apply Z.leb_le in H2.
    eauto.
Qed.

(** Where [value_for_type] does return: on the text of every generated
    descriptor it returns a literal, and on every string that matches none of
    its shapes it returns the fallback literal and leaves the state as it
    is. *)
Theorem value_for_type_returns (fuel : nat) (w : world G) :
  (forall d : descriptor, generated d ->
     exists (lit : string) (w' : world G),
       value_for_type (S (S fuel)) (render d) w = Return (lit, w'))
  /\ (forall type_str : string,
        recognized (alias_registry w) type_str = false ->
        value_for_type (S fuel) type_str w = Return (quoted "fallback_value", w)).
Proof.
  split.
  - intros d Hd. destruct (synthesis_sound d fuel w Hd) as (lit & w' & E & _). eauto.
  - intros type_str Hno. unfold recognized in Hno.
    repeat match type of Hno with
           | (_ || _) = false => apply orb_false_elim in Hno as [Hno ?]
           end.
    simpl value_for_type. unfold bindM, get_alias_registry.
    repeat match goal with
           | E : ?c = false |- context [if ?c then _ else _] => rewrite E
           end.
    destruct (startswith "_" (strip type_str)); [|reflexivity].
    destruct (alias_registry w !! strip type_str); [discriminate | reflexivity].
Qed.

End SynthesizerFacts.

Lemma range_value_within_bounds_witness :
  exists (n : Z) (w' : world Tape.tape),
    value_for_type 1 (render (RangeInteger 7 659)) (Tape.start (5 :: nil))
    = Return (str_Z n, w')
    /\ 7 <= n <= 659.
Proof.
  destruct (range_value_within_bounds 7 659 0 (Tape.start (5 :: nil))) as [Hint _].
  apply Hint; lia.
Defined.

(** C3 as stated fails: the integer draw is inclusive, and the float draw can
    round to a bound. Both descriptors come out of the type grammar, and for
    each the synthesizer can return the lower bound itself. *)
Lemma range_bound_counterexample :
  Tape.run (random_type 0 true) (5 * 2 ^ 50 :: 2 ^ 52 :: 7 :: 599 :: nil)
  = Return (render (RangeInteger 7 659))
  /\ Tape.run (value_for_type 1 (render (RangeInteger 7 659))) nil = Return (literal (VInteger 7))
  /\ strictly_inside (RangeInteger 7 659) (VInteger 7) = false
  /\ Tape.run (random_type 0 true) (5 * 2 ^ 50 :: 0 :: 0 :: 2 ^ 52 :: nil)
     = Return (render (RangeFloat 0 800))
  /\ Tape.run (value_for_type 1 (render (RangeFloat 0 800))) nil = Return (literal (VFloat 0))
  /\ strictly_inside (RangeFloat 0 800) (VFloat 0) = false.
Proof. repeat split; vm_compute; reflexivity. Qed.

(** C1 as stated fails for the accepted domain of the specification, where a
    range is the open interval of its bounds: the type grammar returns the
    range of 0 and 60, the synthesizer returns for it the literal of 60, and
    60 read back against the range is its upper bound, outside the open
    interval. *)
Lemma round_trip_bound_counterexample :
  Tape.run (random_type 0 true) (5 * 2 ^ 50 :: 2 ^ 52 :: 0 :: 0 :: nil)
  = Return "Integer { x | x in ( 0..60 ) }"
  /\ render (RangeInteger 0 60) = "Integer { x | x in ( 0..60 ) }"
  /\ Tape.run (value_for_type 2 "Integer { x | x in ( 0..60 ) }") (60 :: nil) = Return "60"
  /\ parse (RangeInteger 0 60) "60" = Some (VInteger 60)
  /\ accepted (RangeInteger 0 60) (VInteger 60) = false.
Proof. repeat split; vm_compute; reflexivity. Qed.

Lemma value_for_type_returns_witness :
  (exists (lit : string) (w' : world Tape.tape),
     value_for_type 2 (render (Primitive KInteger)) (Tape.start (41 :: nil)) = Return (lit, w'))
  /\ value_for_type 1 "Duration" (Tape.start nil)
     = Return (quoted "fallback_value", Tape.start nil).
Proof.
  destruct (value_for_type_returns 0 (Tape.start (41 :: nil))) as [Hgen _].
  destruct (value_for_type_returns 0 (Tape.start nil)) as [_ Hfall].
  split; [apply Hgen; constructor | apply Hfall; reflexivity].
Defined.

(** C9, on malformed range text: a string with the shape of a range whose
    bounds are in the wrong order, or are no numerals, makes [value_for_type]
    raise [ValueError] (from [random.randint], from [float]); the claim has it
    return a literal there. The paths next to these do return on text they
    cannot read: a range whose bounds the pattern does not find gives "50",
    and text of no known shape gives the fallback literal. The recursion
    depth, here the interpreter's default of 1000, plays no part. *)
Theorem value_for_type_malformed_range :
  (exists msg,
     Tape.run (value_for_type 1000 "Integer { x | x in ( 9..3 ) }") nil
     = Raise (ValueError msg))
  /\ Tape.run (value_for_type 1000 "Float { x | x in ( 1.2.3..5 ) }") nil
     = Raise (ValueError "could not convert string to float: '1.2.3'")
  /\ Tape.run (value_for_type 1000 "Integer { x | x in ( low..high ) }") nil = Return "50"
  /\ Tape.run (value_for_type 1000 "Integer { x | x in ( 3..9 ) }") (2 :: nil) = Return "5"
  /\ Tape.run (value_for_type 1000 "Duration") nil = Return (quoted "fallback_value").
Proof.
  split; [eexists; vm_compute; reflexivity|].
  repeat split; vm_compute; reflexivity.
Qed.

End SynthesizerFacts.

(** *** The corpus of the profile "small", as it is to be on the disk

    The two files are written out here with the string functions of the
    Standard Library, line by line, after the statements of
    [gen_blueprint_item], [gen_blueprints_file] and [gen_expectation_file]
    that append them. *)
Module SmallCorpus.
Import Py GenerateCorpus StringFacts GenerateCorpusFacts BlueprintFacts.

Definition quote : string := String "034" "".
Definition line_end : string := String "010" "".
Definition lines (ls : list string) : string := String.concat line_end ls.

(** The own fields of a blueprint of the profile: one, or two. *)
Definition field_names (bp : string) (two : bool) : list string :=
  (bp +:+ "_param_0") :: (if two then (bp +:+ "_param_1") :: nil else nil).

Definition blueprint_lines (bp : string) (two : bool) (metric : string) : list string :=
  let p0 := bp +:+ "_param_0" in
  let p1 := bp +:+ "_param_1" in
  ("  * " +:+ quote +:+ bp +:+ quote +:+ ":")
  :: ("    Requires { " +:+ p0 +:+ ": String"
      +:+ (if two then ", " +:+ p1 +:+ ": String" else "") +:+ " }")
  :: "    Provides {"
  :: ("      vendor: " +:+ quote +:+ "datadog" +:+ quote +:+ ",")
  :: ("      evaluation: " +:+ quote +:+ "numerator / denominator" +:+ quote +:+ ",")
  :: "      indicators: {"
  :: ("        numerator: " +:+ quote +:+ "sum:" +:+ metric +:+ "{$" +:+ p0 +:+ "->" +:+ p0
      +:+ "$" +:+ (if two then ",$" +:+ p1 +:+ "->" +:+ p1 +:+ "$" else "") +:+ "}"
      +:+ quote +:+ ",")
  :: ("        denominator: " +:+ quote +:+ "sum:" +:+ metric +:+ ".total{$" +:+ p0 +:+ "->"
      +:+ p0 +:+ "$}" +:+ quote)
  :: "      }"
  :: "    }" :: nil.

Definition blueprints_file (two1 : bool) (metric1 : string) (two2 : bool) (metric2 : string)
    : string :=
  lines (("Blueprints for " +:+ quote +:+ "SLO" +:+ quote)
         :: blueprint_lines "checkout_slo" two1 metric1
         ++ blueprint_lines "auth_slo" two2 metric2)
  +:+ line_end.

Definition digit (d : Z) : string := String (ascii_of_N (48 + Z.to_N d)) "".

(** A threshold of [h] hundredths, from 95.0 to 99.99, as it is printed:
    with one digit after the point when the second is a zero. *)
Definition threshold_text (h : Z) : string :=
  digit (h / 1000) +:+ digit (h / 100 mod 10) +:+ "." +:+ digit (h / 10 mod 10)
  +:+ (if h mod 10 =? 0 then "" else digit (h mod 10)).

Definition window_text (days : Z) : string :=
  if days =? 7 then "7" else if days =? 30 then "30" else "90".

Definition instance_lines (e : expectation) : list string :=
  ("  * " +:+ quote +:+ exp_name e +:+ quote +:+ ":")
  :: "    Provides {"
  :: map (fun fv => "      " +:+ fst fv +:+ ": " +:+ snd fv +:+ ",") (exp_values e)
  ++ ("      threshold: " +:+ threshold_text (exp_threshold e) +:+ ",")
  :: ("      window_in_days: " +:+ window_text (exp_window e))
  :: "    }" :: nil.

Definition expectations_for (bp : string) (es : list expectation) : string :=
  lines (("Expectations for " +:+ quote +:+ bp +:+ quote) :: flat_map instance_lines es)
  +:+ line_end.

Definition expectations_file (e1 e2 e3 e4 : expectation) : string :=
  expectations_for "checkout_slo" (e1 :: e2 :: nil) +:+ line_end
  +:+ expectations_for "auth_slo" (e3 :: e4 :: nil).

Definition lowercase (c : ascii) : bool :=
  ((97 <=? N_of_ascii c) && (N_of_ascii c <=? 122))%N.

(** The value of a String field: 5 to 15 lowercase letters between quotes. *)
Definition string_value (val : string) : Prop :=
  exists letters,
    val = quote +:+ letters +:+ quote
    /\ (5 <= String.length letters <= 15)%nat
    /\ Forall (fun c => lowercase c = true) (list_ascii_of_string letters).

(** An instance of the blueprint [bp] for the team platform: its name, a
    value for each field of the blueprint, in order, the threshold and the
    window. *)
Definition instance_of (bp : string) (two : bool) (index : string) (e : expectation)
    : Prop :=
  exp_name e = "platform_" +:+ bp +:+ "_" +:+ index
  /\ map fst (exp_values e) = field_names bp two
  /\ Forall string_value (map snd (exp_values e))
  /\ 9500 <= exp_threshold e <= 9999
  /\ In (exp_window e) (7 :: 30 :: 90 :: nil).

Lemma join_lines (ls : list string) : join newline ls = lines ls.
Proof.
  induction ls as [|l ls IH]; [reflexivity|].
  destruct ls as [|l' ls]; [reflexivity|].
  change (join newline (l :: l' :: ls)) with (l +:+ newline +:+ join newline (l' :: ls)).
  rewrite IH. reflexivity.
Qed.

Lemma lines_cons (l : string) (ls : list string) :
  ls <> nil -> lines (l :: ls) = l +:+ line_end +:+ lines ls.
Proof. destruct ls; [congruence | reflexivity]. Qed.

Lemma lines_app (a b : list string) :
  a <> nil -> b <> nil -> lines (a ++ b) = lines a +:+ line_end +:+ lines b.
Proof.
  intros Ha Hb. induction a as [|l a IH]; [congruence|].
  destruct a as [|l' a].
  - simpl app. apply lines_cons. exact Hb.
  - change ((l :: l' :: a) ++ b) with (l :: (l' :: a) ++ b).
    rewrite lines_cons by discriminate. rewrite IH by discriminate.
    rewrite (lines_cons l (l' :: a)) by discriminate.
    rewrite !append_assoc. reflexivity.
Qed.

Definition threshold_ok (h : Z) : bool := String.eqb (str_decimal 2 h) (threshold_text h).

Lemma thresholds_ok : forallb threshold_ok (range_from 9500 10000) = true.
Proof. vm_compute. reflexivity. Qed.

Lemma threshold_printed (h : Z) :
  9500 <= h <= 9999 -> str_decimal 2 h = threshold_text h.
Proof.
  intros Hh. apply String.eqb_eq.
  apply (for_range threshold_ok 9500 10000 thresholds_ok h). lia.
Qed.

Lemma window_printed (days : Z) :
  In days (7 :: 30 :: 90 :: nil) -> str_Z days = window_text days.
Proof. intros [<-|[<-|[<-|[]]]]; reflexivity. Qed.

Lemma expectation_lines_printed (e : expectation) :
  9500 <= exp_threshold e <= 9999 -> In (exp_window e) (7 :: 30 :: 90 :: nil) ->
  expectation_lines e = instance_lines e.
Proof.
  intros Ht Hw. unfold expectation_lines, instance_lines.
  rewrite (threshold_printed _ Ht), (window_printed _ Hw).
  f_equal; [unfold quoted; rewrite !append_assoc; reflexivity|]. f_equal. f_equal.
  apply map_ext. intros [fname val]. reflexivity.
Qed.

Lemma quoted_quote (s : string) : quoted s = quote +:+ s +:+ quote.
Proof. reflexivity. Qed.

(** The lines of a blueprint without extends clause and with one or two
    String fields are the lines written out above. *)
Lemma small_item_lines (name : string) (two : bool) (metric : string) :
  ("  * " +:+ quoted name +:+ "" +:+ ":")
  :: requires_block (map (fun f : string * string => fst f +:+ ": " +:+ snd f)
                         (map (fun n => (n, "String")) (field_names name two)))
  ++ provides_block false
       (numerator_query metric (Some (param name 0))
                        (if two then Some (param name 1) else None))
       (denominator_query metric (Some (param name 0)))
  = blueprint_lines name two metric.
Proof.
  unfold numerator_query, denominator_query. rewrite !truthy_param.
  destruct two; rewrite ?truthy_param;
    unfold blueprint_lines, provides_block, requires_block, field_names, placeholder,
           unwrap, param;
    rewrite !quoted_quote; unfold quote;
    cbn [map fst snd app join truthy]; rewrite ?append_assoc; cbv; reflexivity.
Qed.

Lemma blueprint_lines_nonempty (bp : string) (two : bool) (metric : string) :
  blueprint_lines bp two metric <> nil.
Proof. discriminate. Qed.

Lemma lowercase_letters : forallb lowercase ascii_lowercase = true.
Proof. reflexivity. Qed.

Lemma length_string_of_list (l : list ascii) :
  String.length (string_of_list_ascii l) = List.length l.
Proof. induction l as [|c l IH]; simpl; [reflexivity | now rewrite IH]. Qed.

End SmallCorpus.

(** *** The small profile *)
Module SmallProfile.
Import Py GenerateCorpus Tape StringFacts GenerateCorpusFacts BlueprintFacts Returns Types
       Synthesis SmallCorpus.
Local Open Scope py_scope.

#[local] Arguments build_blueprint_item : simpl never.
#[local] Arguments gen_blueprint_item : simpl never.
#[local] Arguments gen_expectations : simpl never.
#[local] Arguments value_for_type : simpl never.
#[local] Arguments String.append : simpl never.
#[local] Arguments join : simpl never.

(** The head of a statement sequence, and its pure steps. *)
Ltac head := repeat simple apply succeeds_bind.
Ltac rets := repeat (head; simple apply succeeds_ret; cbv beta).

(** The profile "small" of [SCALES]. *)
Definition small : config := Build_config 2 "small" 0 0 0 1 1 2.

Lemma in_range (i n : Z) : In i (range n) -> 0 <= i < n.
Proof.
  unfold range. intros Hi. apply in_map_iff in Hi as (k & <- & Hk).
  apply in_seq in Hk. lia.
Qed.

Section SmallProfile.

Context {G : Type} `{RandomSource G}.

(** A blueprint of the small profile: no extends clause, one or two String
    fields, and the lines of [blueprint_lines]. *)
Definition small_item (name : string) (b : blueprint_item) : Prop :=
  exists (two : bool) (metric : string),
    In metric METRICS
    /\ item_lines b = blueprint_lines name two metric
    /\ item_fields b = map (fun n => (n, "String")) (field_names name two).

Lemma build_small_item (name : string) (w : world G) :
  succeeds (build_blueprint_item name nil nil nil "small") w
           (fun b w' => small_item name b /\ same_store w w').
Proof.
  unfold build_blueprint_item, gen_extends.
  apply succeeds_bind, succeeds_bind, succeeds_ret, succeeds_bind, succeeds_ret, succeeds_ret.
  apply succeeds_bind. unfold gen_num_req. simpl String.eqb. cbv iota.
  apply succeeds_randint; [lia|]. intros n w1 Hn Hs1.
  apply succeeds_bind.
  eapply succeeds_weaken.
  { apply (succeeds_for_each (range n) _ (same_store w1)
             (fun i f => f = (param name i, "String"))); [apply same_store_refl|].
    intros i w2 Hi Hs2. apply in_range in Hi. unfold gen_req_field.
    destruct (Z.ltb_spec i 2); [|lia].
    apply succeeds_bind, succeeds_ret, succeeds_ret. split; [reflexivity | assumption]. }
  intros fields w2 [HF Hs2].
  assert (Hfields : fields = map (fun n => (n, "String")) (field_names name (n =? 2))).
  { assert (Hcases : n = 1 \/ n = 2) by lia. destruct Hcases as [-> | ->].
    - change (range 1) with (0 :: nil) in HF.
      inversion HF as [|? f0 ? fs0 -> Hrest]; subst. inversion Hrest; subst. reflexivity.
    - change (range 2) with (0 :: 1 :: nil) in HF.
      inversion HF as [|? f0 ? fs0 -> Hrest]; subst.
      inversion Hrest as [|? f1 ? fs1 -> Hrest']; subst. inversion Hrest'; subst.
      reflexivity. }
  apply succeeds_bind, succeeds_choice; [discriminate|]. intros metric w3 Hmetric Hs3.
  apply succeeds_bind, succeeds_get_alias_registry.
  assert (Hsel : select_params (alias_registry w3) fields None None
                 = (Some (param name 0), if n =? 2 then Some (param name 1) else None)).
  { rewrite Hfields.
    destruct (select_params_leading (alias_registry w3) (param name 0) (param name 1) nil)
      as [H1 H2].
    destruct (n =? 2); [exact H2 | exact H1]. }
  rewrite Hsel. apply succeeds_ret. split.
  - exists (n =? 2), metric. split; [exact Hmetric|]. split; [|exact Hfields].
    unfold item_lines. cbn [item_header item_fields item_provides]. rewrite Hfields.
    apply small_item_lines.
  - eapply same_store_trans; [|exact Hs3]. eapply same_store_trans; eassumption.
Qed.

Lemma gen_small_item (name : string) (w : world G) :
  succeeds (gen_blueprint_item name nil nil nil "small") w
           (fun r w' => exists b, r = (join newline (item_lines b), item_fields b)
                                  /\ small_item name b /\ same_store w w').
Proof.
  unfold gen_blueprint_item. apply succeeds_bind.
  eapply succeeds_weaken; [apply build_small_item|].
  intros b w' [Hb Hs]. apply succeeds_ret. exists b. auto.
Qed.

(** The text of the blueprint file of two blueprints without aliases and
    extendables. *)
Definition blueprints_text (b1 b2 : blueprint_item) : string :=
  join (newline +:+ newline)
       (nil ++ join newline ((("Blueprints for " +:+ quoted "SLO") :: nil
                              ++ join newline (item_lines b1) :: nil)
                             ++ join newline (item_lines b2) :: nil) :: nil)
  +:+ newline.

Lemma blueprints_text_file (b1 b2 : blueprint_item) (two1 two2 : bool)
    (metric1 metric2 : string) :
  item_lines b1 = blueprint_lines "checkout_slo" two1 metric1 ->
  item_lines b2 = blueprint_lines "auth_slo" two2 metric2 ->
  blueprints_text b1 b2 = blueprints_file two1 metric1 two2 metric2.
Proof.
  intros E1 E2. unfold blueprints_text, blueprints_file. rewrite E1, E2.
  rewrite (join_lines (blueprint_lines "checkout_slo" two1 metric1)),
          (join_lines (blueprint_lines "auth_slo" two2 metric2)).
  cbn [app]. change (join (newline +:+ newline) (?t :: nil)) with t.
  rewrite join_lines, quoted_quote. f_equal.
  rewrite (lines_cons _ (_ ++ _)).
  - rewrite lines_app by apply blueprint_lines_nonempty. reflexivity.
  - intros E. apply app_eq_nil in E as [E _]. revert E. apply blueprint_lines_nonempty.
Qed.

Lemma gen_small_blueprints_file (w : world G) :
  succeeds (gen_blueprints_file 2 "small" 0 0 0) w
    (fun r w' => exists b1 b2,
       r = (blueprints_text b1 b2, "checkout_slo" :: "auth_slo" :: nil,
            <["auth_slo" := item_fields b2 ++ nil]>
              (<["checkout_slo" := item_fields b1 ++ nil]> ∅))
       /\ small_item "checkout_slo" b1 /\ small_item "auth_slo" b2
       /\ files w' = files w).
Proof.
  unfold gen_blueprints_file.
  apply succeeds_bind. exists (nil, nil), (World (rng w) ∅ (files w)).
  split; [reflexivity|].
  apply succeeds_bind. exists (nil, nil, nil), (World (rng w) ∅ (files w)).
  split; [reflexivity|].
  apply succeeds_bind. exists ∅, (World (rng w) ∅ (files w)). split; [reflexivity|].
  apply succeeds_bind.
  change (range 2) with (0 :: 1 :: nil). cbn [fold_M].
  apply succeeds_bind. apply succeeds_bind.
  change (blueprint_name 0) with "checkout_slo".
  eapply succeeds_weaken; [apply gen_small_item|].
  intros r1 w1 (b1 & -> & Hb1 & Hs1). apply succeeds_ret.
  apply succeeds_bind. apply succeeds_bind.
  change (blueprint_name 1) with "auth_slo".
  eapply succeeds_weaken; [apply gen_small_item|].
  intros r2 w2 (b2 & -> & Hb2 & Hs2). apply succeeds_ret. apply succeeds_ret.
  apply succeeds_ret. exists b1, b2.
  split; [reflexivity|]. split; [assumption|]. split; [assumption|].
  destruct Hs1 as [_ Hf1]. destruct Hs2 as [_ Hf2]. simpl in *. congruence.
Qed.

(** The synthesizer on the type String: letters between quotes. *)
Lemma synth_string_value (fuel : nat) (w : world G) :
  succeeds (value_for_type (S fuel) "String") w
           (fun lit w' => string_value lit /\ same_store w w').
Proof.
  simpl. apply succeeds_bind, succeeds_get_alias_registry.
  apply succeeds_bind, succeeds_randint; [lia|]. intros n w1 Hn Hs1.
  unfold random_letters. apply succeeds_bind, succeeds_bind, succeeds_choices;
    [discriminate | lia |].
  intros letters w2 Hlen Hletters Hs2. apply succeeds_ret, succeeds_ret.
  split; [|eapply same_store_trans; eassumption].
  exists (string_of_list_ascii letters). split; [apply quoted_quote|].
  rewrite length_string_of_list, list_ascii_of_string_of_list_ascii.
  unfold len in Hlen. split; [lia|].
  pose proof lowercase_letters as Hall. rewrite forallb_forall in Hall.
  eapply List.Forall_impl; [|exact Hletters]. intros c Hc. apply Hall, Hc.
Qed.

(** An expectation of a blueprint of String fields. *)
Definition string_instance (bp : string) (fields : list (string * string))
    (team : string) (i : Z) (e : expectation) : Prop :=
  exp_name e = team +:+ "_" +:+ bp +:+ "_" +:+ str_Z i
  /\ map fst (exp_values e) = map fst fields
  /\ Forall string_value (map snd (exp_values e))
  /\ 9500 <= exp_threshold e <= 9999
  /\ In (exp_window e) (7 :: 30 :: 90 :: nil).

Lemma gen_string_expectation (fuel : nat) (bp : string) (fields : list (string * string))
    (team : string) (i : Z) (w : world G) :
  Forall (fun f => snd f = "String") fields ->
  succeeds (gen_expectation (S fuel) bp fields team i) w
           (fun e w' => string_instance bp fields team i e /\ same_store w w').
Proof.
  intros Hfields. unfold gen_expectation. apply succeeds_bind.
  eapply succeeds_weaken.
  { apply (succeeds_for_each fields _ (same_store w)
             (fun f fv => fst fv = fst f /\ string_value (snd fv)));
      [apply same_store_refl|].
    intros [fname ftype] w1 Hin Hs1. rewrite List.Forall_forall in Hfields.
    specialize (Hfields _ Hin). simpl in Hfields. subst ftype.
    apply succeeds_bind. eapply succeeds_weaken; [apply synth_string_value|].
    intros val w2 [Hval Hs2]. apply succeeds_ret.
    split; [split; [reflexivity | exact Hval] | eapply same_store_trans; eassumption]. }
  intros values w1 [HF Hs1].
  apply succeeds_bind, succeeds_draw. intros w2 _ Hs2.
  apply succeeds_bind, succeeds_choice; [discriminate|]. intros window w3 Hwindow Hs3.
  apply succeeds_ret. split.
  - unfold string_instance. cbn [exp_name exp_values exp_threshold exp_window].
    split; [reflexivity|]. split; [|split; [|split; [|exact Hwindow]]].
    + clear -HF. induction HF as [|f fv fs fvs [E _] _ IH]; [reflexivity|].
      simpl. rewrite E, IH. reflexivity.
    + clear -HF. induction HF as [|f fv fs fvs [_ Hv] _ IH]; constructor; assumption.
    + destruct (uniform_range 95 (float_literal 9999 2) (rng w1)) as [Hlo Hhi];
        [vm_compute; discriminate|].
      apply (rounded_mono 2) in Hlo, Hhi.
      replace (rounded 2 95) with 9500 in Hlo by (vm_compute; reflexivity).
      replace (rounded 2 (float_literal 9999 2)) with 9999 in Hhi
        by (vm_compute; reflexivity).
      lia.
  - eapply same_store_trans; [|exact Hs3]. eapply same_store_trans; eassumption.
Qed.

Lemma gen_two_string_expectations (fuel : nat) (bp : string)
    (fields : list (string * string)) (team : string) (w : world G) :
  Forall (fun f => snd f = "String") fields ->
  succeeds (gen_expectations (S fuel) bp fields 2 team) w
           (fun es w' => exists e1 e2,
              es = e1 :: e2 :: nil
              /\ string_instance bp fields team 0 e1
              /\ string_instance bp fields team 1 e2
              /\ same_store w w').
Proof.
  intros Hfields. unfold gen_expectations.
  change (range 2) with (0 :: 1 :: nil). cbn [for_each].
  apply succeeds_bind.
  eapply succeeds_weaken; [apply gen_string_expectation; assumption|].
  intros e1 w1 [He1 Hs1]. apply succeeds_bind, succeeds_bind.
  eapply succeeds_weaken; [apply gen_string_expectation; assumption|].
  intros e2 w2 [He2 Hs2]. apply succeeds_bind, succeeds_ret, succeeds_ret, succeeds_ret.
  exists e1, e2. split; [reflexivity|]. split; [exact He1|]. split; [exact He2|].
  eapply same_store_trans; eassumption.
Qed.

Lemma small_fields_String (name : string) (two : bool) :
  Forall (fun f : string * string => snd f = "String")
         (map (fun n => (n, "String")) (field_names name two)).
Proof. destruct two; repeat constructor. Qed.

Lemma small_fields_names (name : string) (two : bool) :
  map fst (map (fun n : string => (n, "String")) (field_names name two))
  = field_names name two.
Proof. destruct two; reflexivity. Qed.

Lemma team_text_file (e1 e2 e3 e4 : expectation) :
  (forall e, In e (e1 :: e2 :: e3 :: e4 :: nil) ->
             9500 <= exp_threshold e <= 9999 /\ In (exp_window e) (7 :: 30 :: 90 :: nil)) ->
  join newline (expectation_file_text "checkout_slo" (e1 :: e2 :: nil)
                :: expectation_file_text "auth_slo" (e3 :: e4 :: nil) :: nil)
  = expectations_file e1 e2 e3 e4.
Proof.
  intros Hall.
  assert (Hlines : forall e, In e (e1 :: e2 :: e3 :: e4 :: nil) ->
                             expectation_lines e = instance_lines e).
  { intros e He. destruct (Hall e He). apply expectation_lines_printed; assumption. }
  unfold expectations_file, expectations_for, expectation_file_text.
  cbn [flat_map]. rewrite !join_lines, !quoted_quote.
  rewrite (Hlines e1), (Hlines e2), (Hlines e3), (Hlines e4) by (simpl; tauto).
  reflexivity.
Qed.

Variable CORPUS_DIR : string.

Definition small_blueprints_path : string :=
  path_join (path_join CORPUS_DIR "small") "blueprints.caffeine".

Definition small_team_path : string :=
  path_join (path_join (path_join (path_join (path_join CORPUS_DIR "small") "expectations")
                                  "acme") "platform") "slos.caffeine".

Lemma small_paths_differ : small_team_path <> small_blueprints_path.
Proof.
  unfold small_team_path, small_blueprints_path, path_join.
  rewrite !append_assoc. intros E.
  apply (String.app_inj CORPUS_DIR) in E. discriminate E.
Qed.

Lemma small_paths :
  small_blueprints_path = CORPUS_DIR +:+ "/small/blueprints.caffeine"
  /\ small_team_path = CORPUS_DIR +:+ "/small/expectations/acme/platform/slos.caffeine".
Proof.
  unfold small_team_path, small_blueprints_path, path_join.
  rewrite !append_assoc. split; reflexivity.
Qed.

(** What the small profile generates: the statistics, the expectations team
    by team, and the two files. *)
Definition small_outcome (r : stats * list (list (string * list expectation)))
    (w' : world G) : Prop :=
  exists (b1 b2 : blueprint_item) (e1 e2 e3 e4 : expectation),
    snd r = (("checkout_slo", e1 :: e2 :: nil) :: ("auth_slo", e3 :: e4 :: nil) :: nil) :: nil
    /\ blueprints (fst r) = 2
    /\ expectations_total (fst r) = 4
    /\ small_item "checkout_slo" b1 /\ small_item "auth_slo" b2
    /\ files w' !! small_blueprints_path = Some (blueprints_text b1 b2)
    /\ files w' !! small_team_path
       = Some (join newline (expectation_file_text "checkout_slo" (e1 :: e2 :: nil)
                             :: expectation_file_text "auth_slo" (e3 :: e4 :: nil) :: nil))
    /\ string_instance "checkout_slo" (item_fields b1) "platform" 0 e1
    /\ string_instance "checkout_slo" (item_fields b1) "platform" 1 e2
    /\ string_instance "auth_slo" (item_fields b2) "platform" 0 e3
    /\ string_instance "auth_slo" (item_fields b2) "platform" 1 e4.

Lemma generate_small (fuel : nat) (w : world G) :
  succeeds (generate_scale CORPUS_DIR (S fuel) "small" small) w small_outcome.
Proof.
  unfold generate_scale.
  head. eexists tt, (World (rng w) (alias_registry w) _). split; [reflexivity|].
  head. cbn [num_blueprints complexity num_aliases num_req_ext num_prov_ext small].
  eapply succeeds_weaken; [apply gen_small_blueprints_file|].
  intros r1 w1 (b1 & b2 & -> & Hb1 & Hb2 & Hf1).
  assert (Hs1 : Forall (fun f => snd f = "String") (item_fields b1)).
  { destruct Hb1 as (two & metric & _ & _ & ->). apply small_fields_String. }
  assert (Hs2 : Forall (fun f => snd f = "String") (item_fields b2)).
  { destruct Hb2 as (two & metric & _ & _ & ->). apply small_fields_String. }
  head. eexists tt, (World (rng w1) (alias_registry w1) _). split; [reflexivity|].
  cbn [num_orgs teams_per_org small]. change (range 1) with (0 :: nil).
  cbn [flat_map map app for_each]. unfold gen_team.
  cbn [num_orgs teams_per_org expectations_per_team_blueprint small].
  change (blueprints_for_team ("checkout_slo" :: "auth_slo" :: nil) 1 1 0 0)
    with ("checkout_slo" :: "auth_slo" :: nil).
  change (item ORGS (0 mod len ORGS)) with "acme".
  change (item TEAMS (0 mod len TEAMS)) with "platform".
  unfold gen_team_expectations. cbn [for_each].
  head. rewrite lookup_insert_ne by discriminate. rewrite lookup_insert_eq, app_nil_r.
  apply succeeds_lift.
  head. eapply succeeds_weaken; [apply gen_two_string_expectations; assumption|].
  intros es1 w2 (e1 & e2 & -> & He1 & He2 & Hw2). rets.
  head. rewrite lookup_insert_eq, app_nil_r. apply succeeds_lift.
  head. eapply succeeds_weaken; [apply gen_two_string_expectations; assumption|].
  intros es2 w3 (e3 & e4 & -> & He3 & He4 & Hw3). rets.
  head. eexists tt, (World (rng w3) (alias_registry w3) _). split; [reflexivity|]. rets.
  destruct Hw2 as [_ Hf2]. destruct Hw3 as [_ Hf3]. cbn [files] in Hf2.
  assert (Hbp : files w3 !! small_blueprints_path = Some (blueprints_text b1 b2))
    by (rewrite Hf3, Hf2; apply lookup_insert_eq).
  head. eexists _, _. split.
  { unfold getsize. cbn [files].
    rewrite lookup_insert_ne by apply small_paths_differ.
    fold small_blueprints_path. rewrite Hbp. reflexivity. }
  head. eexists _, _. split; [reflexivity|].
  head. eexists _, _. split; [reflexivity|]. rets.
  exists b1, b2, e1, e2, e3, e4. cbn [fst snd blueprints expectations_total files].
  split; [reflexivity|]. split; [reflexivity|]. split; [reflexivity|].
  split; [assumption|]. split; [assumption|].
  split; [|split; [apply lookup_insert_eq|]].
  2: { split; [exact He1|]. split; [exact He2|]. split; [exact He3 | exact He4]. }
  rewrite lookup_insert_ne by apply small_paths_differ. exact Hbp.
Qed.

(** C5: the profile "small" of [SCALES], from every state, generates two
    blueprint definitions, [checkout_slo] and [auth_slo], and four
    expectation instances, two for each blueprint. The blueprint file is the
    text of [blueprints_file] and the one team file the text of
    [expectations_file], line by line; every instance has its name, a value
    (letters between quotes) for each field of its blueprint, in order, a
    threshold between 95.0 and 99.99 and a window of 7, 30 or 90 days, and
    these are the lines of its block in the team file, the threshold and the
    window after the fields. *)
Theorem small_profile_counts (fuel : nat) (w : world G) :
  nth_error SCALES 0 = Some ("small", small)
  /\ exists (st : stats) (w' : world G) (two1 two2 : bool) (metric1 metric2 : string)
            (e1 e2 e3 e4 : expectation),
       generate_scale CORPUS_DIR (S fuel) "small" small w
       = Return ((st, (("checkout_slo", e1 :: e2 :: nil)
                       :: ("auth_slo", e3 :: e4 :: nil) :: nil) :: nil), w')
       /\ blueprints st = 2
       /\ expectations_total st = 4
       /\ In metric1 METRICS /\ In metric2 METRICS
       /\ files w' !! (CORPUS_DIR +:+ "/small/blueprints.caffeine")
          = Some (blueprints_file two1 metric1 two2 metric2)
       /\ files w' !! (CORPUS_DIR +:+ "/small/expectations/acme/platform/slos.caffeine")
          = Some (expectations_file e1 e2 e3 e4)
       /\ Forall2 (instance_of "checkout_slo" two1) ("0" :: "1" :: nil) (e1 :: e2 :: nil)
       /\ Forall2 (instance_of "auth_slo" two2) ("0" :: "1" :: nil) (e3 :: e4 :: nil).
Proof.
  split; [reflexivity|].
  destruct (generate_small fuel w)
    as ([st teams] & w' & E & b1 & b2 & e1 & e2 & e3 & e4
        & Ht & Hb & Hn & Hb1 & Hb2 & Hf1 & Hf2 & H1 & H2 & H3 & H4).
  simpl in Ht, Hb, Hn. subst teams.
  destruct Hb1 as (two1 & metric1 & Hm1 & Hl1 & Hfields1).
  destruct Hb2 as (two2 & metric2 & Hm2 & Hl2 & Hfields2).
  rewrite Hfields1 in H1, H2. rewrite Hfields2 in H3, H4.
  destruct small_paths as [Hp1 Hp2]. rewrite Hp1 in Hf1. rewrite Hp2 in Hf2.
  exists st, w', two1, two2, metric1, metric2, e1, e2, e3, e4.
  split; [exact E|]. split; [exact Hb|]. split; [exact Hn|].
  split; [exact Hm1|]. split; [exact Hm2|].
  split; [rewrite Hf1, (blueprints_text_file b1 b2 two1 two2 metric1 metric2 Hl1 Hl2);
          reflexivity|].
  split.
  { rewrite Hf2, team_text_file; [reflexivity|].
    intros e [<-|[<-|[<-|[<-|[]]]]];
      [destruct H1 as (_ & _ & _ & ? & ?) | destruct H2 as (_ & _ & _ & ? & ?)
       | destruct H3 as (_ & _ & _ & ? & ?) | destruct H4 as (_ & _ & _ & ? & ?)];
      split; assumption. }
  assert (Hinst : forall bp two i index e,
             str_Z i = index ->
             string_instance bp (map (fun n => (n, "String")) (field_names bp two))
                             "platform" i e ->
             instance_of bp two index e).
  { intros bp two i index e <- (Hname & Hvals & Hsv & Hthr & Hwin).
    unfold instance_of. rewrite small_fields_names in Hvals.
    split; [rewrite Hname; reflexivity|]. repeat split; assumption || apply Hthr. }
  split;
    (constructor; [|constructor; [|constructor]];
     (eapply Hinst; cycle 1; [eassumption | reflexivity])).
Qed.

End SmallProfile.

End SmallProfile.

(** ** Determinism of a generation pass

    Two runs of [generate_scale] are compared step by step: two worlds agree
    when the generator is in the same state, the alias registry is the same
    and the files below a directory [dir] are the same; every action of the
    generator takes agreeing worlds to the same outcome and to agreeing
    worlds. *)

Module Determinism.
Import Py GenerateCorpus Tape StringFacts.

Section Determinism.

Context {G : Type} `{RandomSource G}.

Variable dir : string.

Definition agree (w1 w2 : world G) : Prop :=
  rng w1 = rng w2
  /\ alias_registry w1 = alias_registry w2
  /\ walk dir (files w1) = walk dir (files w2).

(** Before the alias registry is reset the registries may differ, and
    before the directory is removed the files may differ as well. *)
Definition same_files (w1 w2 : world G) : Prop :=
  rng w1 = rng w2 /\ walk dir (files w1) = walk dir (files w2).

Definition same_rng (w1 w2 : world G) : Prop := rng w1 = rng w2.

Definition same_outcome {A} (post : world G -> world G -> Prop)
    (r1 r2 : result (A * world G)) : Prop :=
  match r1, r2 with
  | Return (a1, w1), Return (a2, w2) => a1 = a2 /\ post w1 w2
  | Raise e1, Raise e2 => e1 = e2
  | _, _ => False
  end.

Definition relates {A} (pre post : world G -> world G -> Prop) (m : M G A) : Prop :=
  forall w1 w2, pre w1 w2 -> same_outcome post (m w1) (m w2).

Definition respects {A} (m : M G A) : Prop := relates agree agree m.

Lemma relates_bind {A B} (pre mid post : world G -> world G -> Prop)
    (m : M G A) (k : A -> M G B) :
  relates pre mid m -> (forall a, relates mid post (k a)) -> relates pre post (bindM m k).
Proof.
  intros Hm Hk w1 w2 Hw. specialize (Hm w1 w2 Hw). unfold bindM.
  destruct (m w1) as [[a1 w1']|e1], (m w2) as [[a2 w2']|e2]; simpl in Hm;
    try contradiction; [|exact Hm].
  destruct Hm as [-> Hw']. apply Hk, Hw'.
Qed.

Lemma respects_ret {A} (a : A) : respects (ret a).
Proof. intros w1 w2 Hw. simpl. auto. Qed.

Lemma respects_raise {A} (e : exn) : respects (raise e : M G A).
Proof. intros w1 w2 Hw. reflexivity. Qed.

Lemma respects_bind {A B} (m : M G A) (k : A -> M G B) :
  respects m -> (forall a, respects (k a)) -> respects (bindM m k).
Proof. apply relates_bind. Qed.

Lemma respects_draw {A} (f : G -> A * G) : respects (draw f).
Proof.
  intros w1 w2 (Hg & Hr & Hf). unfold draw. rewrite Hg.
  destruct (f (rng w2)) as [a g]. simpl. repeat split; assumption.
Qed.

Lemma respects_lift {A} (r : result A) : respects (lift r).
Proof. intros w1 w2 Hw. destruct r; simpl; auto. Qed.

Lemma respects_get_alias_registry : respects get_alias_registry.
Proof. intros w1 w2 Hw. simpl. split; [apply Hw|exact Hw]. Qed.

Lemma respects_set_alias_registry (registry : gmap string string) :
  respects (set_alias_registry registry).
Proof. intros w1 w2 (Hg & Hr & Hf). simpl. repeat split; assumption. Qed.

Lemma respects_for_each {A B} (xs : list A) (body : A -> M G B) :
  (forall x, respects (body x)) -> respects (for_each xs body).
Proof.
  intros Hbody. induction xs as [|x xs IH]; simpl.
  - apply respects_ret.
  - apply respects_bind; [apply Hbody|]. intros y.
    apply respects_bind; [apply IH|]. intros ys. apply respects_ret.
Qed.

Lemma respects_fold_M {A S} (xs : list A) (body : A -> S -> M G S) (s : S) :
  (forall x s, respects (body x s)) -> respects (fold_M xs body s).
Proof.
  intros Hbody. revert s. induction xs as [|x xs IH]; intros s; simpl.
  - apply respects_ret.
  - apply respects_bind; [apply Hbody|]. intros s'. apply IH.
Qed.

(** *** The files below [dir] *)

Lemma walk_lookup (fs : gmap string string) (path : string) :
  walk dir fs !! path = if under dir path then fs !! path else None.
Proof.
  unfold walk. rewrite map_lookup_filter.
  destruct (fs !! path) as [content|]; simpl; [|destruct (under dir path); reflexivity].
  case_guard as Hu; simpl in Hu.
  - rewrite Hu. reflexivity.
  - destruct (under dir path); [congruence|reflexivity].
Qed.

Lemma walk_insert (fs1 fs2 : gmap string string) (path content : string) :
  walk dir fs1 = walk dir fs2 ->
  walk dir (<[path := content]> fs1) = walk dir (<[path := content]> fs2).
Proof.
  intros Hfs. apply map_eq. intros k. rewrite !walk_lookup.
  destruct (under dir k) eqn:Hu; [|reflexivity].
  destruct (decide (path = k)) as [->|Hne].
  - rewrite !lookup_insert_eq. reflexivity.
  - rewrite !lookup_insert_ne by exact Hne.
    assert (Hk : walk dir fs1 !! k = walk dir fs2 !! k) by (rewrite Hfs; reflexivity).
    rewrite !walk_lookup, Hu in Hk. exact Hk.
Qed.

Lemma walk_rmtree (d : string) (fs1 fs2 : gmap string string) :
  walk dir fs1 = walk dir fs2 ->
  walk dir (filter (fun kv => under d (fst kv) = false) fs1)
  = walk dir (filter (fun kv => under d (fst kv) = false) fs2).
Proof.
  intros Hfs. apply map_eq. intros k. rewrite !walk_lookup.
  destruct (under dir k) eqn:Hu; [|reflexivity].
  assert (Hk : fs1 !! k = fs2 !! k).
  { assert (Hk : walk dir fs1 !! k = walk dir fs2 !! k) by (rewrite Hfs; reflexivity).
    rewrite !walk_lookup, Hu in Hk. exact Hk. }
  rewrite !map_lookup_filter, Hk. reflexivity.
Qed.

Lemma walk_below (sub : string) (fs1 fs2 : gmap string string) :
  (forall path, under sub path = true -> under dir path = true) ->
  walk dir fs1 = walk dir fs2 -> walk sub fs1 = walk sub fs2.
Proof.
  intros Hsub Hfs. apply map_eq. intros k.
  unfold walk at 1 2. rewrite !map_lookup_filter.
  destruct (under sub k) eqn:Hu.
  - assert (Hk : walk dir fs1 !! k = walk dir fs2 !! k) by (rewrite Hfs; reflexivity).
    rewrite !walk_lookup, (Hsub k Hu) in Hk. rewrite Hk. reflexivity.
  - destruct (fs1 !! k), (fs2 !! k); simpl; repeat case_guard; simpl in *; congruence.
Qed.

Lemma respects_rmtree (d : string) : respects (rmtree d).
Proof.
  intros w1 w2 (Hg & Hr & Hf). simpl. repeat split; try assumption.
  simpl. apply walk_rmtree, Hf.
Qed.

Lemma respects_write_file (path content : string) : respects (write_file path content).
Proof.
  intros w1 w2 (Hg & Hr & Hf). simpl. repeat split; try assumption.
  simpl. apply walk_insert, Hf.
Qed.

Lemma respects_getsize (path : string) : under dir path = true -> respects (getsize path).
Proof.
  intros Hu w1 w2 Hw. unfold getsize.
  assert (Hk : files w1 !! path = files w2 !! path).
  { destruct Hw as (_ & _ & Hf).
    assert (Hk : walk dir (files w1) !! path = walk dir (files w2) !! path)
      by (rewrite Hf; reflexivity).
    rewrite !walk_lookup, Hu in Hk. exact Hk. }
  rewrite Hk. destruct (files w2 !! path); simpl; auto.
Qed.

Lemma respects_tree_size (sub : string) :
  (forall path, under sub path = true -> under dir path = true) -> respects (tree_size sub).
Proof.
  intros Hsub w1 w2 Hw. unfold tree_size. simpl.
  rewrite (walk_below sub (files w1) (files w2) Hsub) by apply Hw. auto.
Qed.

Lemma respects_count_files (sub : string) :
  (forall path, under sub path = true -> under dir path = true) -> respects (count_files sub).
Proof.
  intros Hsub w1 w2 Hw. unfold count_files. simpl.
  rewrite (walk_below sub (files w1) (files w2) Hsub) by apply Hw. auto.
Qed.

(** *** The generators

    Each generator is a sequence of the actions above, so it respects
    agreement as well; one step of the argument is chosen by the shape of
    the program. *)

Create HintDb respects discriminated.

Ltac respects_step :=
  first
    [ simple apply respects_ret
    | simple apply respects_raise
    | simple apply respects_draw
    | simple apply respects_lift
    | simple apply respects_get_alias_registry
    | simple apply respects_set_alias_registry
    | simple apply respects_write_file
    | simple apply respects_rmtree
    | solve [auto with respects]
    | simple apply respects_bind; [|intros ?]
    | simple apply respects_for_each; intros ?
    | simple apply respects_fold_M; intros ? ?
    | progress cbv zeta
    | match goal with
      | |- respects (if ?c then _ else _) => destruct c
      | |- respects (match ?x with _ => _ end) => destruct x
      end ].

Ltac respects_all := repeat respects_step.

Lemma respects_randint (a b : Z) : respects (randint a b).
Proof. unfold randint. respects_all. Qed.

Lemma respects_choice {A} (seq : list A) : respects (choice seq).
Proof. unfold choice. respects_all. Qed.

Lemma respects_sample {A} (population : list A) (k : Z) : respects (sample population k).
Proof. unfold sample. respects_all. Qed.

Lemma respects_choices {A} (population : list A) (k : Z) : respects (choices population k).
Proof. unfold choices. respects_all. Qed.

Lemma respects_random_below (p : Q) : respects (random_below p).
Proof. unfold random_below. respects_all. Qed.

Lemma respects_update_alias (name underlying : string) :
  respects (update_alias name underlying).
Proof. unfold update_alias. respects_all. Qed.

#[local] Hint Resolve respects_randint respects_choice respects_sample respects_choices
  respects_random_below respects_update_alias : respects.

Lemma respects_simple_type : respects simple_type.
Proof. unfold simple_type. respects_all. Qed.

#[local] Hint Resolve respects_simple_type : respects.

Lemma respects_oneof_type (base : string) : respects (oneof_type base).
Proof. unfold oneof_type. respects_all. Qed.

Lemma respects_range_type : respects range_type.
Proof. unfold range_type. respects_all. Qed.

Lemma respects_random_type_plain (depth : Z) : respects (random_type_plain depth).
Proof. unfold random_type_plain. respects_all. Qed.

#[local] Hint Resolve respects_oneof_type respects_range_type respects_random_type_plain
  : respects.

Lemma respects_collection_type (depth : Z) : respects (collection_type depth).
Proof. unfold collection_type. respects_all. Qed.

Lemma respects_modifier_type (depth : Z) : respects (modifier_type depth).
Proof. unfold modifier_type. respects_all. Qed.

#[local] Hint Resolve respects_collection_type respects_modifier_type : respects.

Lemma respects_random_type (depth : Z) (allow_complex : bool) :
  respects (random_type depth allow_complex).
Proof. unfold random_type. respects_all. Qed.

Lemma respects_random_letters (k : Z) : respects (random_letters k).
Proof. unfold random_letters. respects_all. Qed.

#[local] Hint Resolve respects_random_type respects_random_letters : respects.

Lemma respects_value_for_type (fuel : nat) (type_str : string) :
  respects (value_for_type fuel type_str).
Proof.
  revert type_str. induction fuel as [|fuel IH]; intros type_str; cbn [value_for_type].
  - respects_all.
  - respects_all.
Qed.

#[local] Hint Resolve respects_value_for_type : respects.

Lemma respects_gen_type_alias (i : Z) : respects (gen_type_alias i).
Proof. unfold gen_type_alias. respects_all. Qed.

#[local] Hint Resolve respects_gen_type_alias : respects.

(** [gen_type_aliases] clears the registry first, so the registries it is
    entered with do not matter. *)
Lemma relates_gen_type_aliases (count : Z) :
  relates same_files agree (gen_type_aliases count).
Proof.
  unfold gen_type_aliases. apply relates_bind with (mid := agree).
  - intros w1 w2 [Hg Hf]. simpl. repeat split; assumption.
  - intros _. match goal with |- relates agree agree ?m => change (respects m) end.
    respects_all.
Qed.

Lemma respects_gen_extendables (req_count prov_count : Z) :
  respects (gen_extendables req_count prov_count).
Proof. unfold gen_extendables. respects_all. Qed.

Lemma respects_gen_extends (req_ext_names prov_ext_names : list string) :
  respects (gen_extends req_ext_names prov_ext_names).
Proof. unfold gen_extends. respects_all. Qed.

Lemma respects_gen_num_req (complexity : string) : respects (gen_num_req complexity).
Proof. unfold gen_num_req. respects_all. Qed.

Lemma respects_gen_req_field (name : string) (alias_names : list string) (complexity : string)
    (i : Z) :
  respects (gen_req_field name alias_names complexity i).
Proof. unfold gen_req_field. respects_all. Qed.

#[local] Hint Resolve respects_gen_extendables respects_gen_extends respects_gen_num_req
  respects_gen_req_field : respects.

Lemma respects_build_blueprint_item (name : string)
    (req_ext_names prov_ext_names alias_names : list string) (complexity : string) :
  respects (build_blueprint_item name req_ext_names prov_ext_names alias_names complexity).
Proof. unfold build_blueprint_item. respects_all. Qed.

#[local] Hint Resolve respects_build_blueprint_item : respects.

Lemma respects_gen_blueprint_item (name : string)
    (req_ext_names prov_ext_names alias_names : list string) (complexity : string) :
  respects (gen_blueprint_item name req_ext_names prov_ext_names alias_names complexity).
Proof. unfold gen_blueprint_item. respects_all. Qed.

Lemma respects_parse_req_ext (extendables : list string) (i : Z)
    (req_ext_fields : gmap string (list (string * string))) :
  respects (parse_req_ext extendables i req_ext_fields).
Proof. unfold parse_req_ext. respects_all. Qed.

#[local] Hint Resolve respects_gen_blueprint_item respects_parse_req_ext : respects.

Lemma relates_gen_blueprints_file (num_blueprints : Z) (complexity : string)
    (num_aliases num_req_ext num_prov_ext : Z) :
  relates same_files agree
    (gen_blueprints_file num_blueprints complexity num_aliases num_req_ext num_prov_ext).
Proof.
  unfold gen_blueprints_file. apply relates_bind with (mid := agree).
  - apply relates_gen_type_aliases.
  - intros [aliases alias_names].
    match goal with |- relates agree agree ?m => change (respects m) end.
    respects_all.
Qed.

Lemma respects_gen_expectation (fuel : nat) (blueprint_name : string)
    (fields : list (string * string)) (team_name : string) (i : Z) :
  respects (gen_expectation fuel blueprint_name fields team_name i).
Proof. unfold gen_expectation. respects_all. Qed.

#[local] Hint Resolve respects_gen_expectation : respects.

Lemma respects_gen_expectations (fuel : nat) (blueprint_name : string)
    (fields : list (string * string)) (count : Z) (team_name : string) :
  respects (gen_expectations fuel blueprint_name fields count team_name).
Proof. unfold gen_expectations. respects_all. Qed.

#[local] Hint Resolve respects_gen_expectations : respects.

Lemma respects_gen_team_expectations (fuel : nat)
    (bp_fields : gmap string (list (string * string))) (exp_per : Z)
    (team_name : string) (bps_for_team : list string) :
  respects (gen_team_expectations fuel bp_fields exp_per team_name bps_for_team).
Proof. unfold gen_team_expectations. respects_all. Qed.

#[local] Hint Resolve respects_gen_team_expectations : respects.

Lemma respects_gen_team (fuel : nat) (exp_dir : string) (bp_names : list string)
    (bp_fields : gmap string (list (string * string))) (cfg : config) (org_i team_i : Z) :
  respects (gen_team fuel exp_dir bp_names bp_fields cfg org_i team_i).
Proof. unfold gen_team. respects_all. Qed.

#[local] Hint Resolve respects_gen_team : respects.

(** *** Paths *)

Lemma prefix_append (a b : string) : String.prefix a (a +:+ b) = true.
Proof.
  induction a as [|c a IH]; simpl; [destruct b; reflexivity|].
  destruct (ascii_dec c c) as [_|Hne]; [exact IH|congruence].
Qed.

Lemma prefix_shorter (a b path : string) :
  String.prefix (a +:+ b) path = true -> String.prefix a path = true.
Proof.
  revert path. induction a as [|c a IH]; intros path; simpl; [destruct path; reflexivity|].
  destruct path as [|c' path]; simpl; [discriminate|].
  destruct (ascii_dec c c'); [apply IH|discriminate].
Qed.

Lemma under_path_join (d name : string) : under d (path_join d name) = true.
Proof.
  unfold under, path_join, startswith. rewrite <- append_assoc. apply prefix_append.
Qed.

Lemma under_below (d name path : string) :
  under (path_join d name) path = true -> under d path = true.
Proof.
  unfold under, path_join, startswith. rewrite !append_assoc.
  rewrite <- (append_assoc d "/"). apply prefix_shorter.
Qed.

(** *** A generation pass *)

Lemma rmtree_clears : relates same_rng same_files (rmtree dir).
Proof.
  intros w1 w2 Hg. simpl. split; [reflexivity|]. split; [exact Hg|]. simpl.
  apply map_eq. intros k. rewrite !walk_lookup.
  destruct (under dir k) eqn:Hu; [|reflexivity].
  rewrite !map_lookup_filter.
  destruct (files w1 !! k), (files w2 !! k); simpl; repeat case_guard; simpl in *; congruence.
Qed.

Lemma relates_generate_scale (CORPUS_DIR : string) (fuel : nat) (scale_name : string)
    (cfg : config) :
  dir = path_join CORPUS_DIR scale_name ->
  relates same_rng agree (generate_scale CORPUS_DIR fuel scale_name cfg).
Proof.
  intros Hdir. unfold generate_scale. cbv zeta. rewrite <- Hdir.
  apply relates_bind with (mid := same_files); [apply rmtree_clears|]. intros _.
  apply relates_bind with (mid := agree); [apply relates_gen_blueprints_file|].
  intros [[bp_content bp_names] bp_fields].
  match goal with |- relates agree agree ?m => change (respects m) end.
  respects_all.
  - apply respects_getsize, under_path_join.
  - apply respects_tree_size. intros path. apply under_below.
  - apply respects_count_files. intros path. apply under_below.
Qed.

End Determinism.

(** C2: a generation pass is a function of the state of the random source it
    starts from and of the profile: two passes that start from the same state
    of the random source, whatever the alias registry and the disk hold
    before, either stop with the same exception or return the same
    statistics and expectations and leave the random source in the same
    state, the same alias registry, and the same files with the same content
    below the directory of the scale. *)
Theorem generation_deterministic {G : Type} `{RandomSource G} (CORPUS_DIR : string)
    (fuel : nat) (scale_name : string) (cfg : config) (w1 w2 : world G) :
  rng w1 = rng w2 ->
  match generate_scale CORPUS_DIR fuel scale_name cfg w1,
        generate_scale CORPUS_DIR fuel scale_name cfg w2 with
  | Return (out1, w1'), Return (out2, w2') =>
      out1 = out2
      /\ rng w1' = rng w2'
      /\ alias_registry w1' = alias_registry w2'
      /\ walk (path_join CORPUS_DIR scale_name) (files w1')
         = walk (path_join CORPUS_DIR scale_name) (files w2')
  | Raise e1, Raise e2 => e1 = e2
  | _, _ => False
  end.
Proof.
  intros Hg.
  exact (relates_generate_scale (path_join CORPUS_DIR scale_name) CORPUS_DIR fuel scale_name
           cfg eq_refl w1 w2 Hg).
Qed.

(** Two runs of the small profile over the same draws: the second starts
    with an alias left in the registry and a stale file below the directory
    of the scale. *)
Definition first_run : world Tape.tape := Tape.start (3 :: 1 :: 4 :: 1 :: 5 :: nil).

Definition second_run : world Tape.tape :=
  World (3 :: 1 :: 4 :: 1 :: 5 :: nil)
        (<["_type_0" := "Float { x | x in ( 1.0..99.0 ) }"]> ∅)
        (<["corpus/small/expectations/acme/old_team/slos.caffeine" := "stale"]> ∅).

Lemma generation_deterministic_witness :
  rng first_run = rng second_run
  /\ alias_registry first_run <> alias_registry second_run
  /\ match generate_scale "corpus" 8 "small" (Build_config 2 "small" 0 0 0 1 1 2) first_run,
           generate_scale "corpus" 8 "small" (Build_config 2 "small" 0 0 0 1 1 2) second_run with
     | Return (out1, w1'), Return (out2, w2') =>
         out1 = out2
         /\ rng w1' = rng w2'
         /\ alias_registry w1' = alias_registry w2'
         /\ walk (path_join "corpus" "small") (files w1')
            = walk (path_join "corpus" "small") (files w2')
     | Raise e1, Raise e2 => e1 = e2
     | _, _ => False
     end.
Proof.
  split; [reflexivity|]. split.
  - intros E. apply (f_equal (fun m => m !! "_type_0")) in E. vm_compute in E. discriminate E.
  - apply (generation_deterministic "corpus" 8 "small" (Build_config 2 "small" 0 0 0 1 1 2)
             first_run second_run).
    reflexivity.
Defined.

End Determinism.

(** ** The report of compare.py: errors, verdicts, rows *)
Module ReportFacts.
Import Py Compare CompareFacts.

(** *** Loading *)

Lemma collect_raises (rs : list run_entry) (acc : dict float) (e : exn) :
  collect rs acc = Raise e -> exists k, e = KeyError k.
Proof.
  revert acc. induction rs as [|r rs IH]; intros acc; simpl; [discriminate|].
  destruct (command r); [|intros [= <-]; eauto].
  destruct (mean r); [apply IH | intros [= <-]; eauto].
Qed.

Lemma load_results_raises (f : file) (e : exn) :
  load_results f = Raise e -> caught e = true.
Proof.
  destruct f as [msg|msg|[rs|]]; simpl; try (intros [= <-]; reflexivity).
  intros E. apply collect_raises in E as [k ->]. reflexivity.
Qed.

Lemma dict_get_set {V} (d : dict V) (k k' : string) (v : V) :
  dict_get (dict_set d k v) k' = if String.eqb k k' then Some v else dict_get d k'.
Proof.
  induction d as [|[k0 v0] d IH]; simpl.
  - reflexivity.
  - destruct (String.eqb k0 k) eqn:E0; simpl.
    + apply String.eqb_eq in E0. subst k0.
      destruct (String.eqb k k'); reflexivity.
    + rewrite IH. destruct (String.eqb k k') eqn:E; [|reflexivity].
      apply String.eqb_eq in E. subst k'. rewrite E0. reflexivity.
Qed.

Lemma dict_set_keys {V} (d : dict V) (k : string) (v : V) :
  List.NoDup (map fst d) -> List.NoDup (map fst (dict_set d k v)).
Proof.
  induction d as [|[k0 v0] d IH]; simpl; intros Hd.
  - constructor; [intros [] | constructor].
  - apply List.NoDup_cons_iff in Hd as [Hk0 Hd'].
    destruct (String.eqb k0 k) eqn:E0; simpl; [constructor; assumption|].
    constructor; [|apply IH; assumption].
    intros Hin. apply Hk0. clear -Hin E0.
    induction d as [|[k1 v1] d IH]; simpl in *.
    + destruct Hin as [->|[]]. rewrite String.eqb_refl in E0. discriminate.
    + destruct (String.eqb k1 k); simpl in *; [assumption|].
      destruct Hin as [->|Hin]; [left; reflexivity | right; apply IH; assumption].
Qed.

(** The mean a run of entries leaves for a command: the one of the last
    entry with that command. *)
Definition last_mean (rs : list run_entry) (c : string) (before : option float)
    : option float :=
  fold_left (fun found r =>
               match command r with
               | Some c' => if String.eqb c' c then mean r else found
               | None => found
               end) rs before.

Lemma collect_last_mean (rs : list run_entry) (acc d : dict float) :
  List.NoDup (map fst acc) ->
  collect rs acc = Return d ->
  List.NoDup (map fst d) /\ forall c, dict_get d c = last_mean rs c (dict_get acc c).
Proof.
  revert acc. induction rs as [|r rs IH]; intros acc Hacc; simpl.
  - intros [= <-]. split; [assumption | reflexivity].
  - destruct (command r) as [c0|] eqn:Ec; [|discriminate].
    destruct (mean r) as [m|] eqn:Em; [|discriminate].
    intros E. apply IH in E as [Hd Hget]; [|apply dict_set_keys; assumption].
    split; [assumption|]. intros c. rewrite Hget, dict_get_set.
    unfold last_mean. reflexivity.
Qed.

(** In a dictionary of distinct keys an item is found under its key. *)
Lemma dict_get_In {V} (d : dict V) (k : string) (v : V) :
  List.NoDup (map fst d) -> In (k, v) d -> dict_get d k = Some v.
Proof.
  induction d as [|[k0 v0] d IH]; simpl; intros Hd; [intros []|].
  apply List.NoDup_cons_iff in Hd as [Hk0 Hd'].
  intros [[= -> ->]|Hin]; [rewrite String.eqb_refl; reflexivity|].
  destruct (String.eqb k0 k) eqn:E; [|apply IH; assumption].
  apply String.eqb_eq in E. subst k0. exfalso. apply Hk0.
  apply (in_map fst) in Hin. exact Hin.
Qed.

Lemma load_results_keys (f : file) (d : dict float) :
  load_results f = Return d -> List.NoDup (map fst d).
Proof.
  destruct f as [msg|msg|[rs|]]; simpl; try discriminate.
  intros E. apply collect_last_mean in E as [Hd _]; [assumption | constructor].
Qed.

(** *** Rows *)

Lemma insert_sorted_keeps {V} (kv x : string * V) (l : list (string * V)) :
  x = kv \/ In x l -> In x (insert_sorted kv l).
Proof.
  induction l as [|kv' l IH]; simpl.
  - intros [->|[]]. left. reflexivity.
  - destruct (String.leb (fst kv) (fst kv')); simpl.
    + intros [->|[->|H]]; auto.
    + intros [->|[->|H]]; auto.
Qed.

Lemma In_sorted_items {V} (d : dict V) (x : string * V) :
  In x d -> In x (sorted_items d).
Proof.
  induction d as [|kv d IH]; simpl; [tauto|].
  intros [->|H]; apply insert_sorted_keeps; auto.
Qed.

Lemma insert_sorted_length {V} (kv : string * V) (l : list (string * V)) :
  List.length (insert_sorted kv l) = S (List.length l).
Proof.
  induction l as [|kv' l IH]; simpl; [reflexivity|].
  destruct (String.leb (fst kv) (fst kv')); simpl; [reflexivity | now rewrite IH].
Qed.

Lemma sorted_items_length {V} (d : dict V) :
  List.length (sorted_items d) = List.length d.
Proof.
  induction d as [|kv d IH]; simpl; [reflexivity|].
  rewrite insert_sorted_length, IH. reflexivity.
Qed.

Lemma change_pct_zero (bm cm : float) :
  is_zero bm = true -> change_pct bm cm = Raise ZeroDivisionError.
Proof. intros Hz. unfold change_pct, fdiv. rewrite Hz. reflexivity. Qed.

Lemma change_pct_nonzero (bm cm : float) :
  is_zero bm = false ->
  change_pct bm cm
  = Return (fmul (SFdiv prec emax (fsub cm bm) bm) (float_of_Z 100)).
Proof. intros Hz. unfold change_pct, fdiv. rewrite Hz. reflexivity. Qed.

Lemma change_pct_raises (bm cm : float) (e : exn) :
  change_pct bm cm = Raise e -> e = ZeroDivisionError.
Proof.
  unfold change_pct, fdiv. destruct (is_zero bm); simpl; [|discriminate].
  intros [= <-]. reflexivity.
Qed.

(** The loop stops with [ZeroDivisionError] as soon as a benchmark of both
    files has a zero baseline mean; nothing else stops it. *)
Lemma rows_zero_baseline (w : nat) (baseline : dict float) (t : float)
    (items : list (string * float)) (name : string) (cm bm : float) :
  In (name, cm) items -> dict_get baseline name = Some bm -> is_zero bm = true ->
  forall lines regressions,
    rows w baseline t items lines regressions = Raise ZeroDivisionError.
Proof.
  intros Hin Hget Hz. induction items as [|[name' cm'] items IH]; [destruct Hin|].
  intros lines regs. simpl.
  destruct Hin as [[= -> ->]|Hin].
  - rewrite Hget, (change_pct_zero _ _ Hz). reflexivity.
  - destruct (dict_get baseline name') as [bm'|]; [|apply IH; assumption].
    destruct (change_pct bm' cm') as [change|e] eqn:E; simpl.
    + apply IH. assumption.
    + apply change_pct_raises in E. subst e. reflexivity.
Qed.

(** The regressions the loop collects, in the order of the rows. *)
Fixpoint regressions_of (baseline : dict float) (t : float)
    (items : list (string * float)) : list (string * float) :=
  match items with
  | nil => nil
  | (name, cm) :: rest =>
      match dict_get baseline name with
      | Some bm =>
          match change_pct bm cm with
          | Return change =>
              if fltb t change then (name, change) :: regressions_of baseline t rest
              else regressions_of baseline t rest
          | Raise _ => regressions_of baseline t rest
          end
      | None => regressions_of baseline t rest
      end
  end.

Definition nonzero_baseline (baseline : dict float) (items : list (string * float)) : Prop :=
  forall name cm bm, In (name, cm) items -> dict_get baseline name = Some bm ->
                     is_zero bm = false.

Lemma rows_returns (w : nat) (baseline : dict float) (t : float)
    (items : list (string * float)) :
  nonzero_baseline baseline items ->
  forall lines regressions,
    exists body,
      rows w baseline t items lines regressions
      = Return (lines ++ body, regressions ++ regressions_of baseline t items)
      /\ List.length body = List.length items.
Proof.
  induction items as [|[name cm] items IH]; intros Hnz lines regs.
  - exists nil. simpl. rewrite !app_nil_r. split; reflexivity.
  - assert (Hrest : nonzero_baseline baseline items)
      by (intros n c b Hin; apply (Hnz n c b); right; assumption).
    simpl rows.
    destruct (dict_get baseline name) as [bm|] eqn:Eb.
    + simpl regressions_of. rewrite Eb.
      rewrite (change_pct_nonzero bm cm (Hnz name cm bm (or_introl eq_refl) Eb)).
      cbn [bind]. cbv zeta.
      set (change := fmul (SFdiv prec emax (fsub cm bm) bm) (float_of_Z 100)).
      unfold classify. destruct (fltb t change); cbv iota.
      * destruct (IH Hrest (lines ++ row_common w name bm cm change
                                       (status_text Regression change) :: nil)
                     (regs ++ (name, change) :: nil)) as (body & E & Hl).
        exists (row_common w name bm cm change (status_text Regression change) :: body).
        rewrite E, <- !app_assoc. simpl. split; [reflexivity | now rewrite Hl].
      * destruct (fltb change (fneg t)); cbv iota.
        -- destruct (IH Hrest (lines ++ row_common w name bm cm change
                                         (status_text Faster change) :: nil) regs)
             as (body & E & Hl).
           exists (row_common w name bm cm change (status_text Faster change) :: body).
           rewrite E, <- !app_assoc. simpl. split; [reflexivity | now rewrite Hl].
        -- destruct (IH Hrest (lines ++ row_common w name bm cm change
                                         (status_text Ok change) :: nil) regs)
             as (body & E & Hl).
           exists (row_common w name bm cm change (status_text Ok change) :: body).
           rewrite E, <- !app_assoc. simpl. split; [reflexivity | now rewrite Hl].
    + simpl regressions_of. rewrite Eb.
      destruct (IH Hrest (lines ++ row_new w name cm :: nil) regs) as (body & E & Hl).
      exists (row_new w name cm :: body).
      rewrite E, <- !app_assoc. simpl. split; [reflexivity | now rewrite Hl].
Qed.

Lemma regressions_of_In (baseline : dict float) (t : float)
    (items : list (string * float)) (name : string) (change : float) :
  In (name, change) (regressions_of baseline t items)
  <-> exists cm bm, In (name, cm) items /\ dict_get baseline name = Some bm
                    /\ change_pct bm cm = Return change /\ fltb t change = true.
Proof.
  induction items as [|[name' cm'] items IH]; simpl.
  - split; [intros [] | intros (cm & bm & [] & _)].
  - split.
    + intros Hin.
      assert (Hrest : In (name, change) (regressions_of baseline t items) ->
                      exists cm bm, ((name', cm') = (name, cm) \/ In (name, cm) items)
                                    /\ dict_get baseline name = Some bm
                                    /\ change_pct bm cm = Return change
                                    /\ fltb t change = true).
      { intros H. apply IH in H as (cm & bm & H1 & H2). exists cm, bm.
        split; [right; assumption | assumption]. }
      destruct (dict_get baseline name') as [bm'|] eqn:Eb; [|auto].
      destruct (change_pct bm' cm') as [change'|e] eqn:Ec; [|auto].
      destruct (fltb t change') eqn:Et; [|auto].
      destruct Hin as [[= -> ->]|Hin]; [|auto].
      exists cm', bm'. repeat split; auto.
    + intros (cm & bm & [[= -> ->]|Hin] & Hget & Hc & Ht).
      * rewrite Hget, Hc, Ht. left. reflexivity.
      * assert (Hrest : In (name, change) (regressions_of baseline t items))
          by (apply IH; exists cm, bm; repeat split; assumption).
        destruct (dict_get baseline name') as [bm'|]; [|assumption].
        destruct (change_pct bm' cm') as [change'|e]; [|assumption].
        destruct (fltb t change'); [simpl; right|]; assumption.
Qed.

Lemma rows_shape (w : nat) (baseline : dict float) (t : float)
    (items : list (string * float)) :
  forall lines0 regs0 lines1 regs1,
    rows w baseline t items lines0 regs0 = Return (lines1, regs1) ->
    exists body, lines1 = lines0 ++ body
                 /\ List.length body = List.length items
                 /\ (List.length regs0 <= List.length regs1)%nat.
Proof.
  induction items as [|[name cm] items IH]; intros l0 r0 l1 r1; simpl.
  - intros [= <- <-]. exists nil. rewrite app_nil_r. auto.
  - destruct (dict_get baseline name) as [bm|].
    + destruct (change_pct bm cm) as [change|e]; [|discriminate].
      cbn [bind]. cbv zeta.
      intros H. apply IH in H as (body & -> & Hl & Hr).
      eexists (_ :: body). rewrite <- app_assoc. simpl.
      split; [reflexivity|]. split; [now rewrite Hl|].
      destruct (classify change t); try assumption.
      rewrite length_app in Hr. simpl in Hr. lia.
    + intros H. apply IH in H as (body & -> & Hl & Hr).
      eexists (_ :: body). rewrite <- app_assoc. simpl.
      split; [reflexivity|]. split; [now rewrite Hl | assumption].
Qed.

Lemma removed_rows_length (w : nat) (baseline current : dict float) :
  List.length (removed_rows w baseline current)
  = List.length (List.filter (fun kv => negb (dict_mem current (fst kv))) baseline).
Proof.
  unfold removed_rows.
  induction baseline as [|[k v] b IH]; simpl; [reflexivity|].
  destruct (dict_mem current k); simpl; [exact IH | now rewrite IH].
Qed.

(** The change of a mean against itself is zero or not a number, and is not
    above a threshold that is not negative. *)
Lemma self_change (m t : float) :
  is_zero m = false -> nonnegative t = true ->
  fltb t (fmul (SFdiv prec emax (fsub m m) m) (float_of_Z 100)) = false.
Proof.
  intros Hnz Ht.
  assert (H100 : exists m100 e100, float_of_Z 100 = S754_finite false m100 e100)
    by (eexists _, _; vm_compute; reflexivity).
  destruct H100 as (m100 & e100 & ->).
  assert (Hzero : forall b, fltb t (S754_zero b) = false).
  { intros b. unfold nonnegative, zero, SFleb in Ht. unfold fltb, SFltb.
    destruct t as [st|st| |st mt et]; simpl in *; try reflexivity;
      destruct st; simpl in *; try reflexivity; discriminate. }
  assert (Hnan : fltb t S754_nan = false)
    by (unfold fltb, SFltb; destruct t; reflexivity).
  destruct m as [s|s| |s m e]; try discriminate.
  - destruct s; exact Hnan.
  - exact Hnan.
  - assert (Hsub : fsub (S754_finite s m e) (S754_finite s m e) = S754_zero false).
    { unfold fsub, SFsub. cbv zeta.
      match goal with
      | |- binary_normalize _ _ ?d _ _ = _ =>
          assert (Hd : d = 0) by apply Z.sub_diag
      end.
      rewrite Hd. reflexivity. }
    rewrite Hsub. apply Hzero.
Qed.

Section Report.

Variable float_repr : float -> string.

(** X1: when a file cannot be loaded --- it is missing, it is no JSON, or
    the ["results"], ["command"] or ["mean"] key is missing --- [compare]
    returns passed=None with the one line that names the error, the error of
    the baseline first, and the program prints that line and exits with
    status 2. *)
Theorem compare_load_error (bf cf : file) (t : float) (e : exn) :
  load_results bf = Raise e
  \/ (returns (load_results bf) /\ load_results cf = Raise e) ->
  compare float_repr bf cf t
  = Return (None, ("Error loading results: " +:+ str_exn e) :: nil)
  /\ main float_repr bf cf (Some t)
     = (Some ("Error loading results: " +:+ str_exn e), 2).
Proof.
  intros Hload.
  assert (Hc : compare float_repr bf cf t
               = Return (None, ("Error loading results: " +:+ str_exn e) :: nil)).
  { unfold compare. destruct Hload as [Hb|[[b Hb] Hcur]].
    - rewrite Hb. simpl. rewrite (load_results_raises _ _ Hb). reflexivity.
    - rewrite Hb, Hcur. simpl. rewrite (load_results_raises _ _ Hcur). reflexivity. }
  split; [exact Hc|]. unfold main. rewrite Hc. reflexivity.
Qed.

(** X2: when both files load and a benchmark of both has a baseline mean of
    zero, the division of line 47 raises [ZeroDivisionError]; [compare] does
    not catch it, so no report is printed and the program ends with status
    1, whatever the threshold and the other benchmarks. *)
Theorem compare_zero_baseline (bf cf : file) (baseline current : dict float) (t : float)
    (name : string) (current_mean baseline_mean : float) :
  load_results bf = Return baseline ->
  load_results cf = Return current ->
  In (name, current_mean) current ->
  dict_get baseline name = Some baseline_mean ->
  is_zero baseline_mean = true ->
  compare float_repr bf cf t = Raise ZeroDivisionError
  /\ main float_repr bf cf (Some t) = (None, 1).
Proof.
  intros Hb Hc Hin Hget Hz.
  assert (E : compare float_repr bf cf t = Raise ZeroDivisionError).
  { unfold compare. rewrite Hb, Hc. simpl.
    rewrite (rows_zero_baseline _ baseline t (sorted_items current) name
               current_mean baseline_mean (In_sorted_items _ _ Hin) Hget Hz).
    reflexivity. }
  split; [exact E|]. unfold main. rewrite E. reflexivity.
Qed.

(** X3: when both files load and no benchmark of both has a zero baseline
    mean, [compare] returns a verdict: passed=False exactly when some
    benchmark of both files has a change strictly above the threshold; every
    such benchmark is listed with its change after the FAILED line; and the
    exit status is 1 for passed=False and 0 for passed=True. *)
Theorem compare_verdict (bf cf : file) (baseline current : dict float) (t : float) :
  load_results bf = Return baseline ->
  load_results cf = Return current ->
  nonzero_baseline baseline current ->
  exists (passed : bool) (lines : list string),
    compare float_repr bf cf t = Return (Some passed, lines)
    /\ (passed = false
        <-> exists name cm bm change,
              In (name, cm) current /\ dict_get baseline name = Some bm
              /\ change_pct bm cm = Return change /\ fltb t change = true)
    /\ (forall name cm bm change,
          In (name, cm) current -> dict_get baseline name = Some bm ->
          change_pct bm cm = Return change -> fltb t change = true ->
          In ("  - " +:+ name +:+ ": +" +:+ format_1f false change +:+ "%") lines)
    /\ snd (main float_repr bf cf (Some t)) = (if passed then 0 else 1).
Proof.
  intros Hb Hc Hnz.
  assert (Hnz' : nonzero_baseline baseline (sorted_items current)).
  { intros n c b Hin. apply (Hnz n c b), sorted_items_In, Hin. }
  destruct (rows_returns (max_name_len current) baseline t (sorted_items current) Hnz'
              (header (max_name_len current)) nil) as (body & Hrows & _).
  set (regs := regressions_of baseline t (sorted_items current)) in *.
  assert (Hregs : forall name change,
             In (name, change) regs
             <-> exists cm bm, In (name, cm) current /\ dict_get baseline name = Some bm
                               /\ change_pct bm cm = Return change /\ fltb t change = true).
  { intros name change. unfold regs. rewrite regressions_of_In. split.
    - intros (cm & bm & Hin & H). exists cm, bm. split; [apply sorted_items_In|]; assumption.
    - intros (cm & bm & Hin & H). exists cm, bm. split; [apply In_sorted_items|]; assumption. }
  assert (Hcompare : compare float_repr bf cf t
                     = Return (fst (summary float_repr t regs),
                               (header (max_name_len current) ++ body)
                               ++ (removed_rows (max_name_len current) baseline current
                                   ++ "" :: nil)
                               ++ snd (summary float_repr t regs))).
  { unfold compare. rewrite Hb, Hc. simpl bind. cbv iota beta.
    rewrite Hrows. simpl. destruct (summary float_repr t regs). rewrite <- !app_assoc.
    reflexivity. }
  unfold main. rewrite Hcompare. clear Hcompare Hrows.
  destruct regs as [|[name0 change0] regs'] eqn:Er.
  - exists true. eexists. split; [reflexivity|]. split; [|split; [|reflexivity]].
    + split; [discriminate|]. intros (name & cm & bm & change & H).
      destruct (proj2 (Hregs name change) (ex_intro _ cm (ex_intro _ bm H))).
    + intros name cm bm change H1 H2 H3 H4.
      destruct (proj2 (Hregs name change)
                  (ex_intro _ cm (ex_intro _ bm (conj H1 (conj H2 (conj H3 H4)))))).
  - exists false. eexists. split; [reflexivity|]. split; [|split; [|reflexivity]].
    + split; [|reflexivity]. intros _.
      destruct (proj1 (Hregs name0 change0) (or_introl eq_refl)) as (cm & bm & H).
      exists name0, cm, bm, change0. exact H.
    + intros name cm bm change H1 H2 H3 H4.
      assert (Hin : In (name, change) ((name0, change0) :: regs'))
        by (apply Hregs; exists cm, bm; repeat split; assumption).
      apply in_or_app. right. apply in_or_app. right. cbn [snd summary]. right.
      apply (in_map (fun r => "  - " +:+ fst r +:+ ": +" +:+ format_1f false (snd r) +:+ "%"))
        in Hin. exact Hin.
Qed.

(** X4: benchmarks of one file only never fail the comparison. When no
    benchmark of the current file is in the baseline, [compare] passes for
    every threshold, and the report is the header, a row marked new for each
    current benchmark in the order of the names, a row marked removed for
    each baseline benchmark, an empty line and the PASSED line. *)
Theorem compare_disjoint_names (bf cf : file) (baseline current : dict float) (t : float) :
  load_results bf = Return baseline ->
  load_results cf = Return current ->
  (forall name cm, In (name, cm) current -> dict_get baseline name = None) ->
  let w := max_name_len current in
  compare float_repr bf cf t
  = Return (Some true,
            header w
            ++ map (fun item => row_new w (fst item) (snd item)) (sorted_items current)
            ++ removed_rows w baseline current
            ++ "" :: ("PASSED: All benchmarks within " +:+ float_repr t +:+ "% threshold.")
                  :: nil)
  /\ snd (main float_repr bf cf (Some t)) = 0.
Proof.
  intros Hb Hc Hnone w.
  assert (Hrows : forall items lines,
             (forall name cm, In (name, cm) items -> dict_get baseline name = None) ->
             rows w baseline t items lines nil
             = Return (lines ++ map (fun item => row_new w (fst item) (snd item)) items, nil)).
  { induction items as [|[name cm] items IH]; intros lines Hitems; simpl.
    - rewrite app_nil_r. reflexivity.
    - rewrite (Hitems name cm (or_introl eq_refl)).
      rewrite IH by (intros n c Hin; apply (Hitems n c); right; assumption).
      rewrite <- app_assoc. reflexivity. }
  assert (E : compare float_repr bf cf t
              = Return (Some true,
                        header w
                        ++ map (fun item => row_new w (fst item) (snd item))
                               (sorted_items current)
                        ++ removed_rows w baseline current
                        ++ "" :: ("PASSED: All benchmarks within " +:+ float_repr t
                                  +:+ "% threshold.") :: nil)).
  { unfold compare. rewrite Hb, Hc. simpl bind. cbv iota beta. fold w.
    rewrite Hrows by (intros n c Hin; apply (Hnone n c), sorted_items_In, Hin).
    simpl. rewrite <- !app_assoc. reflexivity. }
  split; [exact E|]. unfold main. rewrite E. reflexivity.
Qed.

(** X5: the shape of a report with a verdict. It has the two header lines,
    one row for each benchmark of the current file, one row for each
    baseline benchmark that is not in the current file, an empty line, and
    the summary: the PASSED line alone, or the FAILED line followed by one
    line for each regression. *)
Theorem compare_report_shape (bf cf : file) (baseline current : dict float) (t : float)
    (passed : bool) (lines : list string) :
  load_results bf = Return baseline ->
  load_results cf = Return current ->
  compare float_repr bf cf t = Return (Some passed, lines) ->
  exists (body tail : list string),
    lines = header (max_name_len current) ++ body
            ++ removed_rows (max_name_len current) baseline current ++ "" :: tail
    /\ List.length body = List.length current
    /\ List.length (removed_rows (max_name_len current) baseline current)
       = List.length (List.filter (fun kv => negb (dict_mem current (fst kv))) baseline)
    /\ (if passed then tail = ("PASSED: All benchmarks within " +:+ float_repr t
                               +:+ "% threshold.") :: nil
        else exists n, (0 < n)%nat /\ List.length tail = S n
                       /\ nth_error tail 0
                          = Some ("FAILED: " +:+ str_N (N.of_nat n)
                                  +:+ " regression(s) exceeded " +:+ float_repr t
                                  +:+ "% threshold:")).
Proof.
  intros Hb Hc E. unfold compare in E. rewrite Hb, Hc in E.
  cbn [bind] in E. cbv beta iota zeta in E.
  destruct (rows (max_name_len current) baseline t (sorted_items current)
              (header (max_name_len current)) nil) as [[lines1 regs]|e] eqn:Er;
    [|discriminate].
  apply rows_shape in Er as (body & -> & Hl & _).
  cbn [bind] in E. cbv beta iota zeta in E.
  rewrite sorted_items_length in Hl. unfold summary in E.
  destruct regs as [|r regs]; injection E as <- <-.
  - eexists body, _.
    split; [rewrite <- !app_assoc; reflexivity|].
    split; [assumption|]. split; [apply removed_rows_length | reflexivity].
  - eexists body, _.
    split; [rewrite <- !app_assoc; reflexivity|].
    split; [assumption|]. split; [apply removed_rows_length|].
    exists (S (List.length regs)).
    split; [lia|]. split; [simpl; rewrite length_map; reflexivity | reflexivity].
Qed.

(** X6: a file compared with itself passes. When the file loads, none of
    its means is zero and the threshold is not negative, every change is
    zero (or not a number, for a mean that is infinite or not a number), so
    [compare] returns passed=True and the program exits with status 0. *)
Theorem compare_with_itself (f : file) (results : dict float) (t : float) :
  load_results f = Return results ->
  (forall name m, In (name, m) results -> is_zero m = false) ->
  nonnegative t = true ->
  (exists lines, compare float_repr f f t = Return (Some true, lines))
  /\ snd (main float_repr f f (Some t)) = 0.
Proof.
  intros Hf Hnz Ht.
  assert (Hwithin : forall item, In item results -> within results t item).
  { intros [name m] Hin bm Hget. simpl in *.
    rewrite (dict_get_In results name m (load_results_keys _ _ Hf) Hin) in Hget.
    injection Hget as <-. specialize (Hnz name m Hin).
    rewrite (change_pct_nonzero m m Hnz). eexists. split; [reflexivity|].
    apply self_change; assumption. }
  destruct (compare_passes float_repr f f results results t Hf Hf Hwithin) as (lines & E).
  split; [eauto|]. unfold main. rewrite E. reflexivity.
Qed.

End Report.

(** X7: loading keeps one mean for each command, the one of the last entry
    of the ["results"] array with that command; a command of no entry is
    not in the dictionary. *)
Theorem load_results_last_wins (rs : list run_entry) (d : dict float) :
  load_results (Json (Some rs)) = Return d ->
  List.NoDup (map fst d) /\ forall c, dict_get d c = last_mean rs c None.
Proof.
  simpl. intros E. apply collect_last_mean in E; [exact E | constructor].
Qed.

(** *** The theorems at work *)

Definition repr_example (t : float) : string := "10.0".

Definition missing_file : file :=
  NoFile "[Errno 2] No such file or directory: 'baseline.json'".

Lemma compare_load_error_witness :
  compare repr_example missing_file current_example (float_of_Z 10)
  = Return (None, "Error loading results: [Errno 2] No such file or directory: 'baseline.json'"
                  :: nil)
  /\ main repr_example missing_file current_example (Some (float_of_Z 10))
     = (Some "Error loading results: [Errno 2] No such file or directory: 'baseline.json'", 2).
Proof.
  apply (compare_load_error repr_example missing_file current_example (float_of_Z 10)
           (FileNotFoundError "[Errno 2] No such file or directory: 'baseline.json'")).
  left. reflexivity.
Defined.

(** A baseline whose one benchmark took no time at all. *)
Definition zero_baseline_file : file :=
  Json (Some ({| command := Some "checkout"; mean := Some (S754_zero false) |} :: nil)).

Lemma compare_zero_baseline_witness :
  compare repr_example zero_baseline_file current_example (float_of_Z 10)
  = Raise ZeroDivisionError
  /\ main repr_example zero_baseline_file current_example (Some (float_of_Z 10)) = (None, 1).
Proof.
  apply (compare_zero_baseline repr_example zero_baseline_file current_example
           (("checkout", S754_zero false) :: nil)
           (("checkout", float_of_decimal 1150 3) :: nil)
           (float_of_Z 10) "checkout" (float_of_decimal 1150 3) (S754_zero false));
    try reflexivity.
  left. reflexivity.
Defined.

Lemma example_nonzero_baseline :
  nonzero_baseline (("checkout", float_of_decimal 1000 3) :: nil)
                   (("checkout", float_of_decimal 1150 3) :: nil).
Proof.
  intros name cm bm [[= <- <-]|[]] Hget. simpl in Hget. injection Hget as <-.
  vm_compute. reflexivity.
Defined.

Lemma compare_verdict_witness :
  exists (passed : bool) (lines : list string),
    compare repr_example baseline_example current_example (float_of_Z 10)
    = Return (Some passed, lines)
    /\ (passed = false
        <-> exists name cm bm change,
              In (name, cm) (("checkout", float_of_decimal 1150 3) :: nil)
              /\ dict_get (("checkout", float_of_decimal 1000 3) :: nil) name = Some bm
              /\ change_pct bm cm = Return change /\ fltb (float_of_Z 10) change = true)
    /\ (forall name cm bm change,
          In (name, cm) (("checkout", float_of_decimal 1150 3) :: nil) ->
          dict_get (("checkout", float_of_decimal 1000 3) :: nil) name = Some bm ->
          change_pct bm cm = Return change -> fltb (float_of_Z 10) change = true ->
          In ("  - " +:+ name +:+ ": +" +:+ format_1f false change +:+ "%") lines)
    /\ snd (main repr_example baseline_example current_example (Some (float_of_Z 10)))
       = (if passed then 0 else 1).
Proof.
  apply (compare_verdict repr_example baseline_example current_example
           (("checkout", float_of_decimal 1000 3) :: nil)
           (("checkout", float_of_decimal 1150 3) :: nil) (float_of_Z 10)
           eq_refl eq_refl example_nonzero_baseline).
Defined.

Lemma compare_disjoint_names_witness :
  snd (main repr_example (one_benchmark "checkout" 1000) (one_benchmark "check_out" 9000)
            (Some (float_of_Z 10))) = 0.
Proof.
  apply (compare_disjoint_names repr_example (one_benchmark "checkout" 1000)
           (one_benchmark "check_out" 9000)
           (("checkout", float_of_decimal 1000 3) :: nil)
           (("check_out", float_of_decimal 9000 3) :: nil) (float_of_Z 10)
           eq_refl eq_refl).
  intros name cm [[= <- <-]|[]]. reflexivity.
Defined.

(** The report of the comparator example at threshold 20. *)
Definition example_report : list string :=
  Eval vm_compute in
    match compare repr_example baseline_example current_example (float_of_Z 20) with
    | Return (_, lines) => lines
    | Raise _ => nil
    end.

Lemma compare_report_shape_witness :
  exists (body tail : list string),
    example_report
    = header 8 ++ body
      ++ removed_rows 8 (("checkout", float_of_decimal 1000 3) :: nil)
                        (("checkout", float_of_decimal 1150 3) :: nil) ++ "" :: tail
    /\ List.length body = 1%nat
    /\ List.length (removed_rows 8 (("checkout", float_of_decimal 1000 3) :: nil)
                                   (("checkout", float_of_decimal 1150 3) :: nil))
       = List.length (List.filter
                        (fun kv => negb (dict_mem (("checkout", float_of_decimal 1150 3) :: nil)
                                                  (fst kv)))
                        (("checkout", float_of_decimal 1000 3) :: nil))
    /\ tail = ("PASSED: All benchmarks within " +:+ repr_example (float_of_Z 20)
              +:+ "% threshold.") :: nil.
Proof.
  apply (compare_report_shape repr_example baseline_example current_example
           (("checkout", float_of_decimal 1000 3) :: nil)
           (("checkout", float_of_decimal 1150 3) :: nil) (float_of_Z 20)
           true example_report eq_refl eq_refl).
  vm_compute. reflexivity.
Defined.

Lemma compare_with_itself_witness :
  (exists lines,
     compare repr_example baseline_example baseline_example (float_of_Z 10)
     = Return (Some true, lines))
  /\ snd (main repr_example baseline_example baseline_example (Some (float_of_Z 10))) = 0.
Proof.
  apply (compare_with_itself repr_example baseline_example
           (("checkout", float_of_decimal 1000 3) :: nil) (float_of_Z 10) eq_refl).
  - intros name m [[= <- <-]|[]]. vm_compute. reflexivity.
  - vm_compute. reflexivity.
Defined.

(** A file that lists checkout twice. *)
Definition repeated_entries : list run_entry :=
  {| command := Some "checkout"; mean := Some (float_of_decimal 1000 3) |}
  :: {| command := Some "auth"; mean := Some (float_of_decimal 2000 3) |}
  :: {| command := Some "checkout"; mean := Some (float_of_decimal 1150 3) |} :: nil.

Lemma load_results_last_wins_witness :
  List.NoDup (map fst (("checkout", float_of_decimal 1150 3)
                       :: ("auth", float_of_decimal 2000 3) :: nil))
  /\ forall c, dict_get (("checkout", float_of_decimal 1150 3)
                         :: ("auth", float_of_decimal 2000 3) :: nil) c
               = last_mean repeated_entries c None.
Proof.
  apply (load_results_last_wins repeated_entries
           (("checkout", float_of_decimal 1150 3) :: ("auth", float_of_decimal 2000 3) :: nil)).
  reflexivity.
Defined.

End ReportFacts.

(** ** The order of the benchmarks in a report *)
Module ReportOrder.
Import Py Compare CompareFacts ReportFacts.

(** *** The order of names *)

Lemma ascii_compare_lt_trans (x y z : ascii) :
  Ascii.compare x y = Lt -> Ascii.compare y z = Lt -> Ascii.compare x z = Lt.
Proof.
  unfold Ascii.compare. rewrite !N.compare_lt_iff. apply N.lt_trans.
Qed.

Lemma ascii_compare_refl (x : ascii) : Ascii.compare x x = Eq.
Proof. unfold Ascii.compare. apply N.compare_refl. Qed.

Lemma leb_trans (a b c : string) :
  String.leb a b = true -> String.leb b c = true -> String.leb a c = true.
Proof.
  unfold String.leb. revert b c.
  induction a as [|x a IH]; intros [|y b] [|z c]; simpl; try congruence.
  destruct (Ascii.compare x y) eqn:Exy; try discriminate;
    destruct (Ascii.compare y z) eqn:Eyz; try discriminate.
  - apply Ascii.compare_eq_iff in Exy, Eyz. subst.
    rewrite ascii_compare_refl. apply IH.
  - apply Ascii.compare_eq_iff in Exy. subst. rewrite Eyz. reflexivity.
  - apply Ascii.compare_eq_iff in Eyz. subst. rewrite Exy. reflexivity.
  - rewrite (ascii_compare_lt_trans _ _ _ Exy Eyz). reflexivity.
Qed.

(** The order of two entries of a dictionary is the order of their names. *)
Definition name_le {V} (a b : string * V) : Prop := String.leb (fst a) (fst b) = true.

(** *** Sorted items *)

Lemma insert_sorted_perm {V} (kv : string * V) (l : list (string * V)) :
  Permutation (insert_sorted kv l) (kv :: l).
Proof.
  induction l as [|kv' l IH]; simpl; [reflexivity|].
  destruct (String.leb (fst kv) (fst kv')); [reflexivity|].
  rewrite IH. apply perm_swap.
Qed.

Lemma sorted_items_perm {V} (d : dict V) : Permutation (sorted_items d) d.
Proof.
  induction d as [|kv d IH]; simpl; [reflexivity|].
  rewrite insert_sorted_perm, IH. reflexivity.
Qed.

Lemma insert_sorted_sorted {V} (kv : string * V) (l : list (string * V)) :
  StronglySorted name_le l -> StronglySorted name_le (insert_sorted kv l).
Proof.
  induction 1 as [|kv' l Hl IH Hall]; simpl; [repeat constructor|].
  destruct (String.leb (fst kv) (fst kv')) eqn:E.
  - constructor; [constructor; assumption|]. constructor; [exact E|].
    eapply List.Forall_impl; [|exact Hall]. intros x Hx. unfold name_le in *.
    eapply leb_trans; eassumption.
  - constructor; [exact IH|].
    assert (Hle : name_le kv' kv).
    { unfold name_le. destruct (String.leb_total (fst kv) (fst kv')); congruence. }
    apply List.Forall_forall. intros x Hx.
    apply (Permutation_in _ (insert_sorted_perm kv l)) in Hx as [<-|Hx]; [exact Hle|].
    rewrite List.Forall_forall in Hall. apply Hall, Hx.
Qed.

(** [sorted] puts the items in the order of their names. *)
Lemma sorted_items_sorted {V} (d : dict V) : StronglySorted name_le (sorted_items d).
Proof.
  induction d as [|kv d IH]; simpl; [constructor | apply insert_sorted_sorted, IH].
Qed.

Lemma same_key_same_item {V} (l : list (string * V)) (x y : string * V) :
  List.NoDup (map fst l) -> In x l -> In y l -> fst x = fst y -> x = y.
Proof.
  induction l as [|z l IH]; simpl; intros Hnd; [intros []|].
  apply List.NoDup_cons_iff in Hnd as [Hz Hnd].
  intros [->|Hx] [->|Hy] E; [reflexivity | | |apply IH; assumption].
  - exfalso. apply Hz. rewrite E. apply in_map, Hy.
  - exfalso. apply Hz. rewrite <- E. apply in_map, Hx.
Qed.

(** Items with distinct names have one sorted order. *)
Lemma sorted_unique {V} (l l' : list (string * V)) :
  StronglySorted name_le l -> StronglySorted name_le l' ->
  Permutation l l' -> List.NoDup (map fst l) -> l = l'.
Proof.
  intros Hl. revert l'. induction Hl as [|x l Hl IH Hx]; intros l' Hl' Hperm Hnd.
  - apply Permutation_nil in Hperm. congruence.
  - destruct Hl' as [|y l' Hl' Hy].
    { apply Permutation_sym, Permutation_nil in Hperm. discriminate. }
    assert (x = y) as <-.
    { assert (Hxin : In x (y :: l')) by (apply (Permutation_in _ Hperm); left; reflexivity).
      assert (Hyin : In y (x :: l))
        by (apply (Permutation_in _ (Permutation_sym Hperm)); left; reflexivity).
      destruct Hxin as [->|Hxin]; [reflexivity|].
      destruct Hyin as [->|Hyin]; [reflexivity|].
      rewrite List.Forall_forall in Hx, Hy.
      apply (same_key_same_item (x :: l)); [assumption | left; reflexivity | right; assumption|].
      apply String.leb_antisym; [apply Hx, Hyin | apply Hy, Hxin]. }
    f_equal. apply IH; [assumption | eapply Permutation_cons_inv; eassumption|].
    simpl in Hnd. apply List.NoDup_cons_iff in Hnd. tauto.
Qed.

Lemma sorted_items_order {V} (d d' : dict V) :
  Permutation d d' -> List.NoDup (map fst d) -> sorted_items d = sorted_items d'.
Proof.
  intros Hperm Hnd. apply sorted_unique; try apply sorted_items_sorted.
  - rewrite !sorted_items_perm. exact Hperm.
  - eapply Permutation_NoDup; [|exact Hnd].
    apply Permutation_map, Permutation_sym, sorted_items_perm.
Qed.

(** *** What else reads the current results *)

Lemma max_name_len_order (d d' : dict float) :
  Permutation d d' -> max_name_len d = max_name_len d'.
Proof.
  intros Hperm.
  assert (Hfold : fold_right Nat.max 0%nat (map (fun kv => String.length (fst kv)) d)
                  = fold_right Nat.max 0%nat (map (fun kv => String.length (fst kv)) d')).
  { induction Hperm as [|x l l' _ IH|x y l|l l' l'' _ IH1 _ IH2]; simpl; lia. }
  destruct d as [|x d], d' as [|y d'].
  - reflexivity.
  - apply Permutation_nil in Hperm. discriminate.
  - apply Permutation_sym, Permutation_nil in Hperm. discriminate.
  - exact Hfold.
Qed.

Lemma dict_get_found {V} (d : dict V) (k : string) (v : V) :
  dict_get d k = Some v -> In (k, v) d.
Proof.
  induction d as [|[k0 v0] d IH]; simpl; [discriminate|].
  destruct (String.eqb k0 k) eqn:E.
  - apply String.eqb_eq in E. intros [= ->]. left. congruence.
  - intros Hget. right. apply IH, Hget.
Qed.

Lemma dict_get_order {V} (d d' : dict V) (k : string) :
  Permutation d d' -> List.NoDup (map fst d) -> dict_get d k = dict_get d' k.
Proof.
  intros Hperm Hnd.
  assert (Hnd' : List.NoDup (map fst d'))
    by (eapply Permutation_NoDup; [apply Permutation_map; exact Hperm | exact Hnd]).
  destruct (dict_get d k) as [v|] eqn:E.
  - symmetry. apply dict_get_In; [assumption|].
    apply (Permutation_in _ Hperm), dict_get_found, E.
  - destruct (dict_get d' k) as [v'|] eqn:E'; [|reflexivity].
    apply dict_get_found, (Permutation_in _ (Permutation_sym Hperm)) in E'.
    rewrite (dict_get_In d k v' Hnd E') in E. discriminate.
Qed.

Lemma removed_rows_order (w : nat) (baseline current current' : dict float) :
  Permutation current current' -> List.NoDup (map fst current) ->
  removed_rows w baseline current = removed_rows w baseline current'.
Proof.
  intros Hperm Hnd. unfold removed_rows. apply flat_map_ext. intros kv.
  unfold dict_mem. rewrite (dict_get_order current current') by assumption. reflexivity.
Qed.

Section Order.

Variable float_repr : float -> string.

(** X8: the report does not depend on the order of the benchmarks in the
    current file. The rows of the current benchmarks are made in the order
    of their names, so two current files that load to the same benchmarks
    with the same means, in any order, give the same result: the same
    verdict and the same lines. *)
Theorem compare_current_order (bf cf cf' : file) (baseline current current' : dict float)
    (t : float) :
  load_results bf = Return baseline ->
  load_results cf = Return current ->
  load_results cf' = Return current' ->
  Permutation current current' ->
  compare float_repr bf cf t = compare float_repr bf cf' t
  /\ StronglySorted name_le (sorted_items current)
  /\ Permutation (sorted_items current) current.
Proof.
  intros Hb Hc Hc' Hperm. split; [|split; [apply sorted_items_sorted | apply sorted_items_perm]].
  pose proof (load_results_keys cf current Hc) as Hnd.
  unfold compare. rewrite Hb, Hc, Hc'. simpl.
  rewrite <- (max_name_len_order current current' Hperm).
  rewrite <- (sorted_items_order current current' Hperm Hnd).
  rewrite <- (removed_rows_order _ baseline current current' Hperm Hnd).
  reflexivity.
Qed.

End Order.

(** Two benchmarks in the two orders. *)
Definition measured (c : string) (millis : Z) : run_entry :=
  {| command := Some c; mean := Some (float_of_decimal millis 3) |}.

Definition checkout_first : file :=
  Json (Some (measured "checkout" 1000 :: measured "auth" 2000 :: nil)).

Definition auth_first : file :=
  Json (Some (measured "auth" 2000 :: measured "checkout" 1000 :: nil)).

Lemma compare_current_order_witness :
  compare (fun _ => "10.0") checkout_first checkout_first (float_of_Z 10)
  = compare (fun _ => "10.0") checkout_first auth_first (float_of_Z 10)
  /\ StronglySorted name_le
       (sorted_items (("checkout", float_of_decimal 1000 3)
                      :: ("auth", float_of_decimal 2000 3) :: nil))
  /\ Permutation
       (sorted_items (("checkout", float_of_decimal 1000 3)
                      :: ("auth", float_of_decimal 2000 3) :: nil))
       (("checkout", float_of_decimal 1000 3) :: ("auth", float_of_decimal 2000 3) :: nil).
Proof.
  apply (compare_current_order (fun _ => "10.0") checkout_first checkout_first auth_first
           (("checkout", float_of_decimal 1000 3) :: ("auth", float_of_decimal 2000 3) :: nil)
           (("checkout", float_of_decimal 1000 3) :: ("auth", float_of_decimal 2000 3) :: nil)
           (("auth", float_of_decimal 2000 3) :: ("checkout", float_of_decimal 1000 3) :: nil)
           (float_of_Z 10) eq_refl eq_refl eq_refl).
  apply perm_swap.
Defined.

End ReportOrder.

(** ** The refinement types the generators write *)
Module RefinementTypes.
Import Py GenerateCorpus Tape StringFacts GenerateCorpusFacts Returns Types Grammar.
Local Open Scope py_scope.

(** *** Samples without repetition *)

Lemma In_pick {A} (seq : list A) (indices : list nat) (x : A) :
  In x (pick seq indices) -> exists i, In i indices /\ nth_error seq i = Some x.
Proof.
  unfold pick. intros Hx. apply in_flat_map in Hx as (i & Hi & Hx).
  exists i. split; [assumption|].
  destruct (nth_error seq i) as [y|]; [|destruct Hx].
  destruct Hx as [->|[]]. reflexivity.
Qed.

Lemma pick_distinct {A} (seq : list A) (indices : list nat) :
  List.NoDup seq -> List.NoDup indices -> List.NoDup (pick seq indices).
Proof.
  intros Hseq. induction 1 as [|i indices Hi Hnd IH]; [constructor|].
  unfold pick in *. simpl. destruct (nth_error seq i) as [x|] eqn:Ex; [|exact IH].
  simpl. constructor; [|exact IH].
  intros Hx. apply In_pick in Hx as (j & Hj & Ej).
  assert (i = j); [|subst; contradiction].
  apply (proj1 (List.NoDup_nth_error seq) Hseq).
  - apply nth_error_Some. congruence.
  - congruence.
Qed.

Lemma range_from_distinct (a b : Z) : List.NoDup (range_from a b).
Proof.
  unfold range_from. apply List.NoDup_map_inv with (f := fun z => Z.to_nat (z - a)).
  rewrite map_map. erewrite map_ext; [rewrite map_id; apply List.seq_NoDup|].
  intros i. simpl. lia.
Qed.

Lemma In_insert_Z (x y : Z) (l : list Z) : In y (insert_Z x l) -> y = x \/ In y l.
Proof.
  induction l as [|z l IH]; simpl; [intros [<-|[]]; auto|].
  destruct (x <=? z); simpl; intros [<-|H]; auto. destruct (IH H); auto.
Qed.

Lemma In_sorted_Z (y : Z) (l : list Z) : In y (sorted_Z l) -> In y l.
Proof.
  induction l as [|x l IH]; simpl; [tauto|].
  intros H. apply In_insert_Z in H as [->|H]; auto.
Qed.

Lemma insert_Z_ascending (x : Z) (l : list Z) :
  StronglySorted Z.lt l -> ~ In x l -> StronglySorted Z.lt (insert_Z x l).
Proof.
  induction 1 as [|y l Hl IH Hy]; intros Hx; simpl.
  - repeat constructor.
  - assert (x <> y) by (intros ->; apply Hx; left; reflexivity).
    destruct (Z.leb_spec x y).
    + constructor; [constructor; assumption|].
      constructor; [lia|]. eapply List.Forall_impl; [|exact Hy]. intros z Hz. simpl in Hz. lia.
    + constructor.
      * apply IH. intros Hin. apply Hx. right. assumption.
      * apply insert_Z_Forall; [lia | assumption].
Qed.

(** [sorted] puts distinct integers in strictly ascending order. *)
Lemma sorted_Z_ascending (l : list Z) : List.NoDup l -> StronglySorted Z.lt (sorted_Z l).
Proof.
  induction 1 as [|x l Hx Hl IH]; simpl; [constructor|].
  apply insert_Z_ascending; [assumption|]. intros Hin. apply Hx, In_sorted_Z, Hin.
Qed.

Section Types.

Context {G : Type} `{RandomSource G}.

(** [random.sample] of a population without repetition has none. *)
Lemma succeeds_sample_distinct {A} (population : list A) (k : Z) (w : world G)
    (P : list A -> world G -> Prop) :
  0 <= k <= len population -> List.NoDup population ->
  (forall xs w', len xs = k -> Forall (fun x => In x population) xs -> List.NoDup xs ->
                 same_store w w' -> P xs w') ->
  succeeds (sample population k) w P.
Proof.
  intros Hk Hnd HP. unfold sample, len in *.
  destruct (Z.ltb_spec k 0); [lia|].
  destruct (Z.ltb_spec (Z.of_nat (List.length population)) k); [lia|].
  simpl. apply succeeds_bind, succeeds_draw. intros w' _ Hs.
  destruct (sample_indices_spec (List.length population) (Z.to_nat k) (rng w) ltac:(lia))
    as (Hlen & Hdistinct & Hlt).
  destruct (pick_spec population _ Hlt) as [Hl Hf].
  apply succeeds_ret, HP; [lia | assumption | apply pick_distinct; assumption | assumption].
Qed.

(** X9: [oneof_type] returns a set of distinct values: for the base String
    two to five different states, for the base Integer two to four different
    integers from 1 to 99 in ascending order; for any other base it falls
    back to a primitive type. It returns from every state. *)
Theorem oneof_type_values (base : string) (w : world G) :
  exists (text : string) (w' : world G),
    oneof_type base w = Return (text, w')
    /\ ((base = "String"
         /\ exists values, text = render (OneOfString values)
                           /\ 2 <= len values <= 5 /\ List.NoDup values
                           /\ Forall (fun v => In v STATES) values)
        \/ (base = "Integer"
            /\ exists values, text = render (OneOfInteger values)
                              /\ 2 <= len values <= 4 /\ StronglySorted Z.lt values
                              /\ Forall (fun n => 1 <= n < 100) values)
        \/ (base <> "String" /\ base <> "Integer" /\ exists k, text = kind_name k)).
Proof.
  change (succeeds (oneof_type base) w (fun text _ =>
    (base = "String"
     /\ exists values, text = render (OneOfString values)
                       /\ 2 <= len values <= 5 /\ List.NoDup values
                       /\ Forall (fun v => In v STATES) values)
    \/ (base = "Integer"
        /\ exists values, text = render (OneOfInteger values)
                          /\ 2 <= len values <= 4 /\ StronglySorted Z.lt values
                          /\ Forall (fun n => 1 <= n < 100) values)
    \/ (base <> "String" /\ base <> "Integer" /\ exists k, text = kind_name k))).
  unfold oneof_type. destruct (String.eqb_spec base "String") as [->|Hs].
  - apply succeeds_bind, succeeds_randint; [lia|]. intros k w1 Hk _.
    apply succeeds_bind, succeeds_sample_distinct; [unfold len; simpl; lia | |].
    { repeat (constructor; [simpl; intuition discriminate|]). constructor. }
    intros values w2 Hlen Hall Hnd _. apply succeeds_ret.
    left. split; [reflexivity|]. exists values.
    split; [reflexivity|]. split; [lia|]. split; assumption.
  - destruct (String.eqb_spec base "Integer") as [->|Hi].
    + apply succeeds_bind, succeeds_randint; [lia|]. intros k w1 Hk _.
      apply succeeds_bind, succeeds_sample_distinct;
        [unfold len; simpl; lia | apply range_from_distinct |].
      intros values w2 Hlen Hall Hnd _. apply succeeds_ret.
      right. left. split; [reflexivity|]. exists (sorted_Z values).
      split; [reflexivity|]. split; [rewrite sorted_Z_length; lia|].
      split; [apply sorted_Z_ascending; assumption|].
      apply sorted_Z_Forall. eapply List.Forall_impl; [|exact Hall].
      intros n Hn. unfold range_from in Hn.
      apply in_map_iff in Hn as (i & <- & Hin). apply in_seq in Hin. lia.
    + eapply succeeds_weaken; [apply simple_type_kind|].
      intros text w' Hk. right. right. auto.
Qed.

(** X10: [range_type] returns from every state, and its interval is never
    empty: a Float range with one decimal and 0.0 <= low <= 50.0 and
    60.0 <= high <= 100.0, or an Integer range with 0 <= low <= 50 and
    60 <= high <= 1000, so that low is below high by ten at least. Float
    bounds are counted in tenths. *)
Theorem range_type_bounds (w : world G) :
  exists (text : string) (w' : world G),
    range_type w = Return (text, w')
    /\ ((exists low high, text = render (RangeFloat low high)
                          /\ 0 <= low <= 500 /\ 600 <= high <= 1000)
        \/ (exists low high, text = render (RangeInteger low high)
                             /\ 0 <= low <= 50 /\ 60 <= high <= 1000)).
Proof.
  change (succeeds range_type w (fun text _ =>
    (exists low high, text = render (RangeFloat low high)
                      /\ 0 <= low <= 500 /\ 600 <= high <= 1000)
    \/ (exists low high, text = render (RangeInteger low high)
                         /\ 0 <= low <= 50 /\ 60 <= high <= 1000))).
  unfold range_type. apply succeeds_bind, succeeds_random_below. intros [|] w1 _.
  - apply succeeds_bind, succeeds_draw. intros w2 _ _.
    apply succeeds_bind, succeeds_draw. intros w3 _ _. apply succeeds_ret.
    destruct (uniform_range 0 50 (rng w1) ltac:(discriminate)) as [Hl1 Hl2].
    destruct (uniform_range 60 100 (rng w2) ltac:(discriminate)) as [Hh1 Hh2].
    left. exists (rounded 1 (fst (uniform 0 50 (rng w1)))),
                 (rounded 1 (fst (uniform 60 100 (rng w2)))).
    split; [reflexivity|].
    pose proof (rounded_mono 1 _ _ Hl1). pose proof (rounded_mono 1 _ _ Hl2).
    pose proof (rounded_mono 1 _ _ Hh1). pose proof (rounded_mono 1 _ _ Hh2).
    change (rounded 1 0) with 0 in *. change (rounded 1 50) with 500 in *.
    change (rounded 1 60) with 600 in *. change (rounded 1 100) with 1000 in *. lia.
  - apply succeeds_bind, succeeds_randint; [lia|]. intros low w2 Hl _.
    apply succeeds_bind, succeeds_randint; [lia|]. intros high w3 Hh _.
    apply succeeds_ret. right. exists low, high. split; [reflexivity | lia].
Qed.

(** X11: a type is wrapped once at most. For every depth [collection_type]
    returns a primitive type when the depth is above one and otherwise
    [List(P)] or [Dict(String, P)] for a primitive P; [modifier_type] returns
    [Optional(P)] or [Defaulted(P, default)] for a primitive P, the default
    being the one of P: "default", 0, 0.0 or false. The inner type is never
    a refinement or a wrapper itself, so the last branch of [modifier_type]
    is never taken. *)
Theorem wrapper_types (depth : Z) (w : world G) :
  (exists (text : string) (w' : world G),
      collection_type depth w = Return (text, w')
      /\ exists k, (1 < depth /\ text = kind_name k)
                   \/ (depth <= 1
                       /\ (text = "List(" +:+ kind_name k +:+ ")"
                           \/ text = "Dict(String, " +:+ kind_name k +:+ ")")))
  /\ (exists (text : string) (w' : world G),
         modifier_type depth w = Return (text, w')
         /\ exists k, text = "Optional(" +:+ kind_name k +:+ ")"
                      \/ text = "Defaulted(" +:+ kind_name k +:+ ", "
                                +:+ default_literal k +:+ ")").
Proof.
  split.
  - change (succeeds (collection_type depth) w (fun text _ =>
      exists k, (1 < depth /\ text = kind_name k)
                \/ (depth <= 1
                    /\ (text = "List(" +:+ kind_name k +:+ ")"
                        \/ text = "Dict(String, " +:+ kind_name k +:+ ")")))).
    unfold collection_type. destruct (Z.gtb_spec depth 1).
    + eapply succeeds_weaken; [apply simple_type_kind|].
      intros text w' (k & ->). exists k. left. split; [assumption | reflexivity].
    + apply succeeds_bind, succeeds_random_below. intros [|] w1 _;
        (apply succeeds_bind; eapply succeeds_weaken; [apply simple_type_kind|];
         intros inner w2 (k & ->); apply succeeds_ret; exists k; right;
         split; [assumption|]; auto).
  - change (succeeds (modifier_type depth) w (fun text _ =>
      exists k, text = "Optional(" +:+ kind_name k +:+ ")"
                \/ text = "Defaulted(" +:+ kind_name k +:+ ", "
                          +:+ default_literal k +:+ ")")).
    unfold modifier_type. apply succeeds_bind.
    eapply succeeds_weaken; [apply simple_type_kind|]. intros inner w1 (k & ->).
    apply succeeds_bind, succeeds_random_below. intros [|] w2 _.
    + apply succeeds_ret. exists k. left. reflexivity.
    + destruct k; simpl; apply succeeds_ret;
        [exists KString | exists KInteger | exists KFloat | exists KBoolean];
        right; reflexivity.
Qed.

End Types.

End RefinementTypes.

(** ** Decimal numerals *)
Module Numerals.
Import Py StringFacts.

Lemma string_of_uint_digits (u : Decimal.uint) :
  all_chars is_digit (NilEmpty.string_of_uint u) = true.
Proof. induction u; simpl; [reflexivity | assumption ..]. Qed.

Lemma str_N_inj (n m : N) : str_N n = str_N m -> n = m.
Proof.
  unfold str_N. intros E. apply DecimalN.Unsigned.to_uint_inj.
  apply (f_equal NilEmpty.uint_of_string) in E. rewrite !NilEmpty.usu in E.
  congruence.
Qed.

Lemma str_N_nonempty (n : N) : str_N n <> "".
Proof.
  unfold str_N. destruct n as [|p]; [discriminate|]. simpl.
  pose proof (DecimalPos.Unsigned.to_uint_nonnil p) as Hp.
  destruct (Pos.to_uint p); [congruence | discriminate ..].
Qed.

Lemma str_Z_inj (i j : Z) : 0 <= i -> 0 <= j -> str_Z i = str_Z j -> i = j.
Proof.
  intros Hi Hj E. destruct i as [|p|p], j as [|q|q]; try lia; simpl in E;
    apply str_N_inj in E; congruence.
Qed.

Lemma str_Z_digits (i : Z) :
  0 <= i -> all_chars is_digit (str_Z i) = true /\ str_Z i <> "".
Proof.
  intros Hi. destruct i as [|p|p]; try lia; unfold str_Z;
    (split; [apply string_of_uint_digits | apply str_N_nonempty]).
Qed.

Lemma digit_is_word (c : ascii) : is_digit c = true -> is_word c = true.
Proof. intros Hc. unfold is_word. rewrite Hc. reflexivity. Qed.

Lemma digit_not_space (c : ascii) : is_digit c = true -> negb (is_space c) = true.
Proof.
  unfold is_digit, is_space. intros Hc. apply andb_prop in Hc as [H1 H2].
  apply N.leb_le in H1, H2. apply negb_true_iff.
  repeat match goal with
         | |- (_ || _)%bool = false => apply orb_false_intro
         | |- (_ && _)%bool = false => apply andb_false_iff
         end;
    try (right; apply N.leb_gt; lia); try (apply N.eqb_neq; lia).
Qed.

(** A text that ends with the digits of a number is not changed by
    [rstrip]. *)
Lemma rstrip_number (head : string) (i : Z) :
  0 <= i -> rstrip_with is_space (head +:+ str_Z i) = head +:+ str_Z i.
Proof.
  intros Hi. destruct (str_Z_digits i Hi) as [Hd Hne].
  apply rstrip_with_app_keep; [assumption|].
  apply rstrip_with_none. eapply all_chars_weaken; [|exact Hd].
  intros c Hc. apply digit_not_space. assumption.
Qed.

End Numerals.

(** ** Loops that build a list or carry a value *)
Module Loops.
Import Py GenerateCorpus Tape GenerateCorpusFacts Returns.
Local Open Scope py_scope.

Section Loops.

Context {G : Type} `{RandomSource G}.

(** A loop whose every turn returns and takes the invariant from the items
    done and the results so far to the next. *)
Lemma succeeds_for_each_acc {A B} (xs : list A) (body : A -> M G B)
    (J : list A -> list B -> world G -> Prop) (w : world G) :
  J nil nil w ->
  (forall done ys x rest w1,
      xs = done ++ x :: rest -> J done ys w1 ->
      succeeds (body x) w1 (fun y w2 => J (done ++ x :: nil) (ys ++ y :: nil) w2)) ->
  succeeds (for_each xs body) w (fun ys w' => J xs ys w').
Proof.
  intros H0 Hbody.
  assert (Hgen : forall rest done ys0 w0,
             xs = done ++ rest -> J done ys0 w0 ->
             succeeds (for_each rest body) w0
                      (fun ys w' => J (done ++ rest) (ys0 ++ ys) w')).
  { induction rest as [|x rest IH]; intros done ys0 w0 Hxs HJ; simpl.
    - apply succeeds_ret. rewrite !app_nil_r. assumption.
    - apply succeeds_bind.
      eapply succeeds_weaken; [apply (Hbody done ys0 x rest w0); assumption|].
      intros y w1 HJ1. apply succeeds_bind.
      eapply succeeds_weaken.
      { apply (IH (done ++ x :: nil) (ys0 ++ y :: nil) w1); [|assumption].
        rewrite <- app_assoc. assumption. }
      intros ys w2 HJ2. apply succeeds_ret.
      rewrite <- !app_assoc in HJ2. exact HJ2. }
  apply (Hgen xs nil nil w); auto.
Qed.

(** The same for a loop that carries a value. *)
Lemma succeeds_fold_M {A S} (xs : list A) (body : A -> S -> M G S) (s : S)
    (J : list A -> S -> world G -> Prop) (w : world G) :
  J nil s w ->
  (forall done s1 x rest w1,
      xs = done ++ x :: rest -> J done s1 w1 ->
      succeeds (body x s1) w1 (fun s2 w2 => J (done ++ x :: nil) s2 w2)) ->
  succeeds (fold_M xs body s) w (fun s' w' => J xs s' w').
Proof.
  intros H0 Hbody.
  assert (Hgen : forall rest done s0 w0,
             xs = done ++ rest -> J done s0 w0 ->
             succeeds (fold_M rest body s0) w0 (fun s' w' => J (done ++ rest) s' w')).
  { induction rest as [|x rest IH]; intros done s0 w0 Hxs HJ; simpl.
    - apply succeeds_ret. rewrite app_nil_r. assumption.
    - apply succeeds_bind.
      eapply succeeds_weaken; [apply (Hbody done s0 x rest w0); assumption|].
      intros s1 w1 HJ1.
      eapply succeeds_weaken.
      { apply (IH (done ++ x :: nil) s1 w1); [|assumption].
        rewrite <- app_assoc. assumption. }
      intros s2 w2 HJ2. rewrite <- app_assoc in HJ2. exact HJ2. }
  apply (Hgen xs nil s w); auto.
Qed.

Lemma range_distinct (n : Z) : List.NoDup (range n).
Proof.
  unfold range. apply List.NoDup_map_inv with (f := Z.to_nat).
  rewrite map_map. erewrite map_ext; [rewrite map_id; apply List.seq_NoDup|].
  intros i. simpl. lia.
Qed.

(** In a list without repetition an item is not among the ones before it. *)
Lemma not_in_done {A} (xs done rest : list A) (x : A) :
  List.NoDup xs -> xs = done ++ x :: rest -> ~ In x done.
Proof.
  intros Hnd ->. apply List.NoDup_remove_2 in Hnd.
  intros Hin. apply Hnd, in_or_app. left. assumption.
Qed.

Lemma in_done {A} (xs done rest : list A) (x : A) : xs = done ++ x :: rest -> In x xs.
Proof. intros ->. apply in_or_app. right. left. reflexivity. Qed.

Lemma in_range_iff (i n : Z) : In i (range n) <-> 0 <= i < n.
Proof.
  unfold range. rewrite in_map_iff. split.
  - intros (k & <- & Hk). apply in_seq in Hk. lia.
  - intros Hi. exists (Z.to_nat i). split; [lia|]. apply in_seq. lia.
Qed.

Lemma length_range_max (n : Z) : len (range n) = Z.max 0 n.
Proof. unfold len, range. rewrite length_map, length_seq. lia. Qed.

End Loops.

End Loops.

(** ** Type aliases *)
Module Aliases.
Import Py GenerateCorpus Tape StringFacts GenerateCorpusFacts Returns Types Synthesis
       Refinements Grammar RefinementTypes Numerals Loops.
Local Open Scope py_scope.

#[local] Arguments strip : simpl never.
#[local] Arguments set_body : simpl never.
#[local] Arguments split_char : simpl never.
#[local] Arguments search_range : simpl never.
#[local] Arguments contains : simpl never.
#[local] Arguments startswith : simpl never.
#[local] Arguments String.eqb : simpl never.
#[local] Arguments render : simpl never.

(** The values an alias of a set is drawn from. *)
Definition ENV_VALUES : list string := ENVS ++ "qa" :: "test" :: "demo" :: "perf" :: nil.

(** The name of the alias of index [i]. *)
Definition alias_name (i : Z) : string := "_type_" +:+ str_Z i.

(** What an alias stands for: a set of two to five different environment
    names, or a Float range as [range_type] writes it. *)
Inductive alias_descriptor : descriptor -> Prop :=
| alias_set values :
    2 <= len values <= 5 -> List.NoDup values ->
    Forall (fun v => In v ENV_VALUES) values ->
    alias_descriptor (OneOfString values)
| alias_range low high :
    0 <= low <= 500 -> 600 <= high <= 1000 -> alias_descriptor (RangeFloat low high).

Lemma env_values_are_tokens :
  forallb (fun v => token (quoted v) && String.eqb (strip_with is_dquote (quoted v)) v)
          ENV_VALUES = true.
Proof. reflexivity. Qed.

Lemma env_value_token (v : string) :
  In v ENV_VALUES -> token (quoted v) = true /\ strip_with is_dquote (quoted v) = v.
Proof.
  intros Hv. pose proof env_values_are_tokens as Hall. rewrite forallb_forall in Hall.
  specialize (Hall v Hv). apply andb_prop in Hall as [Ht He].
  apply String.eqb_eq in He. auto.
Qed.

Lemma alias_name_strip (i : Z) : 0 <= i -> strip (alias_name i) = alias_name i.
Proof.
  intros Hi. unfold strip, strip_with, alias_name.
  rewrite (rstrip_number "_type_" i Hi). reflexivity.
Qed.

Lemma alias_name_inj (i j : Z) : 0 <= i -> 0 <= j -> alias_name i = alias_name j -> i = j.
Proof.
  unfold alias_name. intros Hi Hj E. apply String.app_inj in E.
  apply str_Z_inj; assumption.
Qed.

Section Aliases.

Context {G : Type} `{RandomSource G}.

(** One turn of the loop of [gen_type_aliases]. *)
Lemma gen_type_alias_spec (i : Z) (w : world G) :
  succeeds (gen_type_alias i) w
    (fun line w' =>
       exists d, alias_descriptor d
                 /\ line = alias_name i +:+ " (Type): " +:+ render d
                 /\ alias_registry w' = <[alias_name i := render d]> (alias_registry w)
                 /\ files w' = files w).
Proof.
  unfold gen_type_alias. cbv zeta. fold (alias_name i).
  apply succeeds_bind, succeeds_random_below. intros [|] w1 Hs1.
  - apply succeeds_bind, succeeds_randint; [lia|]. intros k w2 Hk Hs2.
    apply succeeds_bind. fold ENV_VALUES.
    apply succeeds_sample_distinct; [unfold len; simpl; lia | |].
    { repeat (constructor; [simpl; intuition discriminate|]). constructor. }
    intros values w3 Hlen Hall Hnd Hs3.
    apply succeeds_bind. unfold update_alias.
    apply succeeds_bind, succeeds_get_alias_registry.
    eexists tt, _. split; [reflexivity|]. apply succeeds_ret.
    exists (OneOfString values). split; [constructor; [lia | assumption ..]|].
    split; [reflexivity|]. simpl.
    destruct Hs1 as [R1 F1], Hs2 as [R2 F2], Hs3 as [R3 F3].
    split; [rewrite R3, R2, R1; reflexivity | congruence].
  - apply succeeds_bind, succeeds_draw. intros w2 _ Hs2.
    apply succeeds_bind, succeeds_draw. intros w3 _ Hs3.
    apply succeeds_bind. unfold update_alias.
    apply succeeds_bind, succeeds_get_alias_registry.
    eexists tt, _. split; [reflexivity|]. apply succeeds_ret.
    destruct (uniform_range 0 50 (rng w1) ltac:(discriminate)) as [Hl1 Hl2].
    destruct (uniform_range 60 100 (rng w2) ltac:(discriminate)) as [Hh1 Hh2].
    pose proof (rounded_mono 1 _ _ Hl1). pose proof (rounded_mono 1 _ _ Hl2).
    pose proof (rounded_mono 1 _ _ Hh1). pose proof (rounded_mono 1 _ _ Hh2).
    change (rounded 1 0) with 0 in *. change (rounded 1 50) with 500 in *.
    change (rounded 1 60) with 600 in *. change (rounded 1 100) with 1000 in *.
    exists (RangeFloat (rounded 1 (fst (uniform 0 50 (rng w1))))
                       (rounded 1 (fst (uniform 60 100 (rng w2))))).
    split; [constructor; lia|]. split; [reflexivity|]. simpl.
    destruct Hs1 as [R1 F1], Hs2 as [R2 F2], Hs3 as [R3 F3].
    split; [rewrite R3, R2, R1; reflexivity | congruence].
Qed.

(** The registry holds the aliases of the lines: every alias done is in it
    with the text of its line, and nothing else is. *)
Definition registered (done : list Z) (lines : list string) (w : world G) : Prop :=
  Forall2 (fun i line =>
             exists d, alias_descriptor d
                       /\ line = alias_name i +:+ " (Type): " +:+ render d
                       /\ alias_registry w !! alias_name i = Some (render d))
          done lines
  /\ forall name, alias_registry w !! name <> None -> exists i, In i done /\ name = alias_name i.

Lemma gen_type_aliases_spec (count : Z) (w : world G) :
  succeeds (gen_type_aliases count) w
    (fun r w' => snd r = map alias_name (range count)
                 /\ registered (range count) (fst r) w'
                 /\ files w' = files w).
Proof.
  unfold gen_type_aliases. apply succeeds_bind.
  eexists tt, _. split; [reflexivity|]. apply succeeds_bind.
  eapply succeeds_weaken.
  { apply (succeeds_for_each_acc (range count) gen_type_alias
             (fun done lines w1 =>
                (forall i, In i done -> 0 <= i) /\ registered done lines w1
                /\ files w1 = files w)).
    - split; [intros i []|]. split; [|reflexivity]. split; [constructor|].
      intros name Hname. simpl in Hname. rewrite lookup_empty in Hname. congruence.
    - intros done lines i rest w1 Hxs (Hpos & [Hreg Hkeys] & Hfiles).
      pose proof (not_in_done _ _ _ _ (range_distinct count) Hxs) as Hnew.
      apply in_done, in_range_iff in Hxs as Hi.
      eapply succeeds_weaken; [apply gen_type_alias_spec|].
      intros line w2 (d & Hd & Hline & Hr & Hf).
      split; [|split; [split|congruence]].
      + intros j Hj. apply in_app_or in Hj as [Hj|[<-|[]]]; [auto | lia].
      + apply Forall2_app.
        * clear Hkeys. induction Hreg as [|j l js ls (d' & Hd' & Hl' & Hget) _ IH];
            constructor.
          -- exists d'. split; [assumption|]. split; [assumption|]. rewrite Hr.
             rewrite lookup_insert_ne; [assumption|].
             intros E. apply alias_name_inj in E; [|lia | apply Hpos; left; reflexivity].
             subst j. apply Hnew. left. reflexivity.
          -- apply IH.
             ++ intros j' Hj'. apply Hpos. right. assumption.
             ++ intros Hin. apply Hnew. right. assumption.
        * constructor; [|constructor]. exists d. split; [assumption|].
          split; [assumption|]. rewrite Hr. apply lookup_insert_eq.
      + intros name Hname. rewrite Hr in Hname.
        destruct (String.eqb_spec (alias_name i) name) as [<-|Hne].
        * exists i. split; [apply in_or_app; right; left; reflexivity | reflexivity].
        * rewrite lookup_insert_ne in Hname by assumption.
          destruct (Hkeys name Hname) as (j & Hj & ->).
          exists j. split; [apply in_or_app; left; assumption | reflexivity]. }
  intros lines w1 (_ & Hreg & Hf). apply succeeds_ret. simpl. auto.
Qed.

(** *** Values of an alias *)

Lemma synth_env_set (values : list string) (fuel : nat) (w : world G) :
  values <> nil -> Forall (fun v => In v ENV_VALUES) values ->
  succeeds (value_for_type (S fuel) (render (OneOfString values))) w
           (sound (OneOfString values) w).
Proof.
  intros Hne Hall.
  assert (Htok : Forall (fun it => token it = true) (map quoted values)).
  { clear -Hall. induction Hall as [|v vs Hv _ IH]; constructor; [|exact IH].
    apply env_value_token. assumption. }
  set (body := join ", " (map quoted values)).
  assert (Hstrip : strip (render (OneOfString values)) = render (OneOfString values)).
  { unfold render. fold body.
    apply (strip_keep "S" "tring { x | x in { " body " } }");
      [reflexivity | discriminate | reflexivity]. }
  assert (Hvals : map (fun v => strip_with is_dquote (strip v))
                      (split_char "," (set_body (render (OneOfString values)))) = values).
  { unfold render.
    change ("String { x | x in { " +:+ join ", " (map quoted values) +:+ " } }")
      with ("String { x | x in " +:+ "{ " +:+ join ", " (map quoted values) +:+ " } }").
    rewrite <- (map_map strip (strip_with is_dquote)).
    rewrite set_values by (assumption || (destruct values; [congruence | discriminate])).
    rewrite map_map. clear -Hall.
    induction Hall as [|v vs Hv _ IH]; [reflexivity|].
    cbn [map]. f_equal; [apply env_value_token; assumption | exact IH]. }
  simpl value_for_type. rewrite Hstrip, Hvals.
  apply succeeds_bind, succeeds_get_alias_registry.
  set (t := render (OneOfString values)).
  settle (startswith "_" t) false.
  settle (String.eqb t "String") false. settle (String.eqb t "Integer") false.
  settle (String.eqb t "Float") false. settle (String.eqb t "Boolean") false.
  settle (String.eqb t "URL") false. settle (String.eqb t "Percentage") false.
  settle (startswith "String { x | x in {" t) true.
  apply succeeds_bind, succeeds_choice; [assumption|]. intros v w1 Hv Hs1.
  apply succeeds_ret. split; [assumption|].
  exists (VString v). split; [reflexivity|]. apply mem_In. assumption.
Qed.

(** What an alias stands for is synthesized as a generated type is. *)
Lemma synth_alias_descriptor (d : descriptor) (fuel : nat) (w : world G) :
  alias_descriptor d ->
  succeeds (value_for_type (S fuel) (render d)) w (sound d w).
Proof.
  intros [values Hlen Hnd Hall|low high Hlo Hhi].
  - apply synth_env_set; [|assumption].
    destruct values; [unfold len in Hlen; simpl in Hlen; lia | discriminate].
  - apply synth_range_float. constructor; assumption.
Qed.

(** The first test of [value_for_type]: a registered alias stands for its
    underlying type. *)
Lemma value_for_alias (fuel : nat) (name underlying : string) (w : world G) :
  strip name = name -> startswith "_" name = true ->
  alias_registry w !! name = Some underlying ->
  value_for_type (S fuel) name w = value_for_type fuel underlying w.
Proof.
  intros Hs Hp Hget. cbn [value_for_type]. cbv zeta. rewrite Hs.
  unfold bindM at 1. unfold get_alias_registry at 1. rewrite Hp, Hget. reflexivity.
Qed.

Lemma synth_alias_name (i : Z) (d : descriptor) (fuel : nat) (w : world G) :
  0 <= i -> alias_descriptor d -> alias_registry w !! alias_name i = Some (render d) ->
  succeeds (value_for_type (S (S fuel)) (alias_name i)) w (sound d w).
Proof.
  intros Hi Hd Hget. unfold succeeds.
  rewrite (value_for_alias (S fuel) (alias_name i) (render d) w
             (alias_name_strip i Hi) eq_refl Hget).
  apply synth_alias_descriptor. assumption.
Qed.

(** X12: [gen_type_aliases(count)] returns from every state with the names
    [_type_0] to [_type_{count-1}] and one line for each; afterwards the
    registry holds exactly these aliases, whatever it held before: each name
    maps to the type written on its line, which is a set of two to five
    different environment names or a Float range with 0.0 <= low <= 50.0 and
    60.0 <= high <= 100.0. No file is touched. *)
Theorem gen_type_aliases_registry (count : Z) (w : world G) :
  exists (aliases : list string) (w' : world G),
    gen_type_aliases count w = Return ((aliases, map alias_name (range count)), w')
    /\ len aliases = Z.max 0 count
    /\ Forall2 (fun i line =>
                  exists d, alias_descriptor d
                            /\ line = alias_name i +:+ " (Type): " +:+ render d
                            /\ alias_registry w' !! alias_name i = Some (render d))
               (range count) aliases
    /\ (forall name, alias_registry w' !! name <> None ->
                     exists i, 0 <= i < count /\ name = alias_name i)
    /\ files w' = files w.
Proof.
  destruct (gen_type_aliases_spec count w)
    as ([aliases names] & w' & E & Hnames & [Hreg Hkeys] & Hf).
  simpl in Hnames, Hreg. subst names. exists aliases, w'.
  split; [exact E|]. split.
  { rewrite <- (length_range_max count). unfold len.
    apply Forall2_length in Hreg. rewrite Hreg. reflexivity. }
  split; [exact Hreg|]. split; [|exact Hf].
  intros name Hname. destruct (Hkeys name Hname) as (i & Hi & ->).
  exists i. split; [apply in_range_iff; assumption | reflexivity].
Qed.

(** X13: after [gen_type_aliases], [value_for_type] on the name of every
    alias returns, in every state that has this registry, a literal of the
    type the alias stands for: one of the names of its set in quotes, or a
    number within the bounds of its range. *)
Theorem alias_values (count : Z) (w : world G) :
  exists (aliases names : list string) (w1 : world G),
    gen_type_aliases count w = Return ((aliases, names), w1)
    /\ forall name, In name names ->
         exists d, alias_descriptor d
                   /\ alias_registry w1 !! name = Some (render d)
                   /\ forall (fuel : nat) (w2 : world G),
                        alias_registry w2 = alias_registry w1 ->
                        exists (lit : string) (w3 : world G) (v : value),
                          value_for_type (S (S fuel)) name w2 = Return (lit, w3)
                          /\ literal v = lit /\ in_domain d v = true.
Proof.
  destruct (gen_type_aliases_spec count w)
    as ([aliases names] & w1 & E & Hnames & [Hreg Hkeys] & Hf).
  simpl in Hnames, Hreg. subst names. exists aliases, (map alias_name (range count)), w1.
  split; [exact E|]. intros name Hname.
  apply in_map_iff in Hname as (i & <- & Hi). pose proof Hi as Hrange.
  apply in_range_iff in Hrange.
  assert (Hd : exists d, alias_descriptor d
                         /\ alias_registry w1 !! alias_name i = Some (render d)).
  { clear -Hreg Hi. induction Hreg as [|j line js ls (d & Hd & _ & Hget) _ IH];
      [destruct Hi|].
    destruct Hi as [->|Hi]; [exists d; auto | apply IH; assumption]. }
  destruct Hd as (d & Hd & Hget). exists d. split; [assumption|]. split; [assumption|].
  intros fuel w2 Hw2.
  destruct (synth_alias_name i d fuel w2 ltac:(lia) Hd ltac:(rewrite Hw2; exact Hget))
    as (lit & w3 & Ev & _ & v & Hv & Hdom).
  exists lit, w3, v. auto.
Qed.

End Aliases.

End Aliases.

(** ** What a statement sequence leaves as it is *)
Module Frames.
Import Py GenerateCorpus Tape GenerateCorpusFacts Returns.
Local Open Scope py_scope.

Section Frames.

Context {G : Type} `{RandomSource G}.

(** A relation between the state before and the state after that every
    draw keeps. *)
Variable I : world G -> world G -> Prop.
Hypothesis I_refl : forall w, I w w.
Hypothesis I_trans : forall w1 w2 w3, I w1 w2 -> I w2 w3 -> I w1 w3.
Hypothesis I_draw : forall w g, I w (World g (alias_registry w) (files w)).

(** Whenever [m] returns, the state it leaves is related to the state it
    started from. *)
Definition keeps {A} (m : M G A) : Prop :=
  forall w a w', m w = Return (a, w') -> I w w'.

Lemma keeps_ret {A} (a : A) : keeps (ret a).
Proof. intros w a' w' [= _ <-]. apply I_refl. Qed.

Lemma keeps_raise {A} (e : exn) : keeps (raise e : M G A).
Proof. intros w a w' E. discriminate E. Qed.

Lemma keeps_bind {A B} (m : M G A) (k : A -> M G B) :
  keeps m -> (forall a, keeps (k a)) -> keeps (bindM m k).
Proof.
  intros Hm Hk w b w' E. unfold bindM in E.
  destruct (m w) as [[a w1]|e] eqn:Em; [|discriminate].
  eapply I_trans; [eapply Hm; eassumption | eapply Hk; eassumption].
Qed.

Lemma keeps_draw {A} (f : G -> A * G) : keeps (draw f).
Proof.
  intros w a w' E. unfold draw in E. destruct (f (rng w)) as [a0 g].
  injection E as _ <-. apply I_draw.
Qed.

Lemma keeps_lift {A} (r : result A) : keeps (lift r).
Proof. intros w a w' E. destruct r; [injection E as _ <-; apply I_refl | discriminate]. Qed.

Lemma keeps_get_alias_registry : keeps get_alias_registry.
Proof. intros w a w' [= _ <-]. apply I_refl. Qed.

Lemma keeps_for_each {A B} (xs : list A) (body : A -> M G B) :
  (forall x, keeps (body x)) -> keeps (for_each xs body).
Proof.
  intros Hbody. induction xs as [|x xs IH]; simpl.
  - apply keeps_ret.
  - apply keeps_bind; [apply Hbody|]. intros y.
    apply keeps_bind; [apply IH|]. intros ys. apply keeps_ret.
Qed.

Lemma keeps_fold_M {A S} (xs : list A) (body : A -> S -> M G S) (s : S) :
  (forall x s, keeps (body x s)) -> keeps (fold_M xs body s).
Proof.
  intros Hbody. revert s. induction xs as [|x xs IH]; intros s; simpl.
  - apply keeps_ret.
  - apply keeps_bind; [apply Hbody|]. intros s'. apply IH.
Qed.

(** A run that returns also keeps what [m] keeps. *)
Lemma succeeds_keeps {A} (m : M G A) (w : world G) (P : A -> world G -> Prop) :
  keeps m -> succeeds m w P -> succeeds m w (fun a w' => P a w' /\ I w w').
Proof.
  intros Hk (a & w' & E & HP). exists a, w'. split; [exact E|].
  split; [exact HP | eapply Hk; exact E].
Qed.

(** *** The generators that only draw *)

Create HintDb keeps discriminated.

Ltac keeps_step :=
  first
    [ simple apply keeps_ret
    | simple apply keeps_raise
    | simple apply keeps_draw
    | simple apply keeps_lift
    | simple apply keeps_get_alias_registry
    | solve [auto with keeps]
    | simple apply keeps_bind; [|intros ?]
    | simple apply keeps_for_each; intros ?
    | simple apply keeps_fold_M; intros ? ?
    | progress cbv zeta
    | match goal with
      | |- keeps (if ?c then _ else _) => destruct c
      | |- keeps (match ?x with _ => _ end) => destruct x
      end ].

Ltac keeps_all := repeat keeps_step.

Lemma keeps_randint (a b : Z) : keeps (randint a b).
Proof. unfold randint. keeps_all. Qed.

Lemma keeps_choice {A} (seq : list A) : keeps (choice seq).
Proof. unfold choice. keeps_all. Qed.

Lemma keeps_sample {A} (population : list A) (k : Z) : keeps (sample population k).
Proof. unfold sample. keeps_all. Qed.

Lemma keeps_choices {A} (population : list A) (k : Z) : keeps (choices population k).
Proof. unfold choices. keeps_all. Qed.

Lemma keeps_random_below (p : Q) : keeps (random_below p).
Proof. unfold random_below. keeps_all. Qed.

#[local] Hint Resolve keeps_randint keeps_choice keeps_sample keeps_choices
  keeps_random_below : keeps.

Lemma keeps_simple_type : keeps simple_type.
Proof. unfold simple_type. keeps_all. Qed.

#[local] Hint Resolve keeps_simple_type : keeps.

Lemma keeps_oneof_type (base : string) : keeps (oneof_type base).
Proof. unfold oneof_type. keeps_all. Qed.

Lemma keeps_range_type : keeps range_type.
Proof. unfold range_type. keeps_all. Qed.

Lemma keeps_random_type_plain (depth : Z) : keeps (random_type_plain depth).
Proof. unfold random_type_plain. keeps_all. Qed.

#[local] Hint Resolve keeps_oneof_type keeps_range_type keeps_random_type_plain : keeps.

Lemma keeps_collection_type (depth : Z) : keeps (collection_type depth).
Proof. unfold collection_type. keeps_all. Qed.

Lemma keeps_modifier_type (depth : Z) : keeps (modifier_type depth).
Proof. unfold modifier_type. keeps_all. Qed.

#[local] Hint Resolve keeps_collection_type keeps_modifier_type : keeps.

Lemma keeps_random_type (depth : Z) (allow_complex : bool) :
  keeps (random_type depth allow_complex).
Proof. unfold random_type. keeps_all. Qed.

Lemma keeps_random_letters (k : Z) : keeps (random_letters k).
Proof. unfold random_letters. keeps_all. Qed.

#[local] Hint Resolve keeps_random_type keeps_random_letters : keeps.

Lemma keeps_value_for_type (fuel : nat) (type_str : string) :
  keeps (value_for_type fuel type_str).
Proof.
  revert type_str. induction fuel as [|fuel IH]; intros type_str; cbn [value_for_type];
    keeps_all.
Qed.

#[local] Hint Resolve keeps_value_for_type : keeps.

Lemma keeps_gen_extendables (req_count prov_count : Z) :
  keeps (gen_extendables req_count prov_count).
Proof. unfold gen_extendables. keeps_all. Qed.

Lemma keeps_gen_extends (req_ext_names prov_ext_names : list string) :
  keeps (gen_extends req_ext_names prov_ext_names).
Proof. unfold gen_extends. keeps_all. Qed.

Lemma keeps_gen_num_req (complexity : string) : keeps (gen_num_req complexity).
Proof. unfold gen_num_req. keeps_all. Qed.

Lemma keeps_gen_req_field (name : string) (alias_names : list string) (complexity : string)
    (i : Z) :
  keeps (gen_req_field name alias_names complexity i).
Proof. unfold gen_req_field. keeps_all. Qed.

#[local] Hint Resolve keeps_gen_extendables keeps_gen_extends keeps_gen_num_req
  keeps_gen_req_field : keeps.

Lemma keeps_build_blueprint_item (name : string)
    (req_ext_names prov_ext_names alias_names : list string) (complexity : string) :
  keeps (build_blueprint_item name req_ext_names prov_ext_names alias_names complexity).
Proof. unfold build_blueprint_item. keeps_all. Qed.

#[local] Hint Resolve keeps_build_blueprint_item : keeps.

Lemma keeps_gen_blueprint_item (name : string)
    (req_ext_names prov_ext_names alias_names : list string) (complexity : string) :
  keeps (gen_blueprint_item name req_ext_names prov_ext_names alias_names complexity).
Proof. unfold gen_blueprint_item. keeps_all. Qed.

Lemma keeps_parse_req_ext (extendables : list string) (i : Z)
    (req_ext_fields : gmap string (list (string * string))) :
  keeps (parse_req_ext extendables i req_ext_fields).
Proof. unfold parse_req_ext. keeps_all. Qed.

#[local] Hint Resolve keeps_gen_blueprint_item keeps_parse_req_ext : keeps.

Lemma keeps_gen_expectation (fuel : nat) (blueprint_name : string)
    (fields : list (string * string)) (team_name : string) (i : Z) :
  keeps (gen_expectation fuel blueprint_name fields team_name i).
Proof. unfold gen_expectation. keeps_all. Qed.

#[local] Hint Resolve keeps_gen_expectation : keeps.

Lemma keeps_gen_expectations (fuel : nat) (blueprint_name : string)
    (fields : list (string * string)) (count : Z) (team_name : string) :
  keeps (gen_expectations fuel blueprint_name fields count team_name).
Proof. unfold gen_expectations. keeps_all. Qed.

Lemma keeps_gen_team_expectations (fuel : nat)
    (bp_fields : gmap string (list (string * string))) (exp_per : Z)
    (team_name : string) (bps_for_team : list string) :
  keeps (gen_team_expectations fuel bp_fields exp_per team_name bps_for_team).
Proof.
  unfold gen_team_expectations. pose proof keeps_gen_expectations. keeps_all.
Qed.

End Frames.

Section Stores.

Context {G : Type} `{RandomSource G}.

Lemma same_store_draw (w : world G) (g : G) :
  same_store w (World g (alias_registry w) (files w)).
Proof. split; reflexivity. Qed.

(** The generators of types, values, blueprints and expectations move the
    random source only. *)
Definition keeps_store {A} (m : M G A) : Prop := keeps same_store m.

Lemma succeeds_store {A} (m : M G A) (w : world G) (P : A -> world G -> Prop) :
  keeps_store m -> succeeds m w P -> succeeds m w (fun a w' => P a w' /\ same_store w w').
Proof. apply succeeds_keeps. Qed.

End Stores.

(** [keeps_store] for a generator, from its lemma above. *)
Ltac store_of lemma :=
  unfold keeps_store; apply lemma;
  solve [apply same_store_refl | exact same_store_trans | apply same_store_draw].

End Frames.

(** ** Extendables: their text, and the fields read back from it *)
Module Extendables.
Import Py GenerateCorpus Tape StringFacts GenerateCorpusFacts Returns Types Grammar
       Numerals Loops Frames.
Local Open Scope py_scope.

(** *** The pattern of a field *)

(** A text that a run of word characters stops at. *)
Definition ends_word (tail : string) : Prop :=
  match tail with
  | "" => True
  | String c _ => is_word c = false
  end.

Lemma span_word (word tail : string) :
  all_chars is_word word = true -> ends_word tail ->
  span is_word (word +:+ tail) = (word, tail).
Proof.
  intros Hw Ht. rewrite span_app by assumption.
  destruct tail as [|c tail]; simpl in *; [rewrite append_nil_r; reflexivity|].
  rewrite Ht. simpl. rewrite append_nil_r. reflexivity.
Qed.

Lemma length_append (a b : string) :
  String.length (a +:+ b) = (String.length a + String.length b)%nat.
Proof. induction a as [|x a IH]; simpl; [reflexivity | now rewrite IH]. Qed.

Lemma findall_fields_from_drop (a b : string) :
  findall_fields_from (String.length a) (a +:+ b) = findall_fields_from 0 b.
Proof.
  induction a as [|x a IH]; simpl; [destruct b; reflexivity | exact IH].
Qed.

Lemma findall_skip_char (c : ascii) (s : string) :
  is_word c = false -> findall_fields_from 0 (String c s) = findall_fields_from 0 s.
Proof.
  intros Hc. simpl. unfold field_match_here. simpl. rewrite Hc. reflexivity.
Qed.

(** At a field the pattern finds its name and its type, and the scan goes on
    after the type. *)
Lemma findall_field (name type tail : string) :
  all_chars is_word name = true -> name <> "" ->
  all_chars is_word type = true -> type <> "" -> ends_word tail ->
  findall_fields_from 0 (name +:+ ": " +:+ type +:+ tail)
  = (name, type) :: findall_fields_from 0 tail.
Proof.
  intros Hn Hne Ht Hte Htail.
  assert (Hmatch : field_match_here (name +:+ ": " +:+ type +:+ tail)
                   = Some (name, type, (String.length name + 2 + String.length type)%nat)).
  { unfold field_match_here. rewrite (span_word name) by (assumption || reflexivity).
    destruct name as [|c name]; [congruence|].
    change (": " +:+ type +:+ tail) with (String ":" (String " " (type +:+ tail))).
    cbv iota beta. simpl andb. cbv iota.
    rewrite (span_word type tail) by assumption.
    destruct type; [congruence | reflexivity]. }
  destruct name as [|c name]; [congruence|].
  change (String c name +:+ ": " +:+ type +:+ tail)
    with (String c (name +:+ ": " +:+ type +:+ tail)) in *.
  cbn [findall_fields_from]. rewrite Hmatch. f_equal.
  replace (String.length (String c name) + 2 + String.length type - 1)%nat
    with (String.length (name +:+ ": " +:+ type)).
  - rewrite <- (findall_fields_from_drop (name +:+ ": " +:+ type) tail).
    rewrite !append_assoc. reflexivity.
  - rewrite !length_append. simpl. lia.
Qed.

(** A field as it is written in a block: a word, a colon, a word. *)
Definition field_ok (f : string * string) : Prop :=
  all_chars is_word (fst f) = true /\ fst f <> ""
  /\ all_chars is_word (snd f) = true /\ snd f <> "".

Definition show_field (f : string * string) : string := fst f +:+ ": " +:+ snd f.

(** The fields of a block are read back as they were written. *)
Lemma findall_block (fields : list (string * string)) :
  Forall field_ok fields ->
  findall_fields (" " +:+ join ", " (map show_field fields) +:+ " }") = fields.
Proof.
  intros Hall. unfold findall_fields.
  change (" " +:+ join ", " (map show_field fields) +:+ " }")
    with (String " " (join ", " (map show_field fields) +:+ " }")).
  rewrite findall_skip_char by reflexivity.
  induction Hall as [|[name type] rest (Hn & Hne & Ht & Hte) _ IH]; [reflexivity|].
  simpl in Hn, Hne, Ht, Hte. destruct rest as [|g rest].
  - simpl join. unfold show_field. simpl fst. simpl snd.
    rewrite !append_assoc. rewrite findall_field by (assumption || reflexivity).
    reflexivity.
  - change (map show_field ((name, type) :: g :: rest))
      with (show_field (name, type) :: map show_field (g :: rest)).
    rewrite join_cons by discriminate. unfold show_field at 1. simpl fst. simpl snd.
    rewrite !append_assoc. rewrite findall_field by (assumption || reflexivity).
    f_equal.
    change (", " +:+ join ", " (map show_field (g :: rest)) +:+ " }")
      with (String "," (String " " (join ", " (map show_field (g :: rest)) +:+ " }"))).
    rewrite !findall_skip_char by reflexivity. exact IH.
Qed.

(** *** The text of an extendable *)

Lemma substring_all (s : string) (m : nat) :
  (String.length s <= m)%nat -> substring 0 m s = s.
Proof.
  revert m. induction s as [|c s IH]; intros m Hm; [destruct m; reflexivity|].
  destruct m as [|m]; simpl in *; [lia|]. rewrite IH by lia. reflexivity.
Qed.

(** [split("{", 1)] cuts at the first brace. *)
Lemma split_once_brace (a b : string) :
  has_char "{" a = false -> split_once "{" (a +:+ String "{" b) = a :: b :: nil.
Proof.
  assert (Hempty : forall s, String.prefix "" s = true) by (intros [|c s]; reflexivity).
  induction a as [|x a IH]; intros Ha.
  - simpl. rewrite Hempty, substring_all by lia. reflexivity.
  - simpl in Ha. apply orb_false_elim in Ha as [Hx Ha].
    cbn [String.append split_once String.prefix].
    destruct (ascii_dec "{" x) as [<-|_]; [discriminate Hx|].
    rewrite (IH Ha). reflexivity.
Qed.

Definition req_name (i : Z) : string := "_req_" +:+ str_Z i.
Definition prov_name (i : Z) : string := "_prov_" +:+ str_Z i.

(** The fields of the Requires extendable of index [i] whose types are
    [kinds]. *)
Definition req_fields (i : Z) (kinds : list kind) : list (string * string) :=
  map (fun jk => ("req_" +:+ str_Z i +:+ "_field_" +:+ str_Z (fst jk), kind_name (snd jk)))
      (combine (range (len kinds)) kinds).

Definition requires_text (i : Z) (kinds : list kind) : string :=
  req_name i +:+ " (Requires): { " +:+ join ", " (map show_field (req_fields i kinds)) +:+ " }".

Definition provides_text (i : Z) : string :=
  prov_name i +:+ " (Provides): { vendor: " +:+ quoted "datadog" +:+ " }".

Lemma kind_name_word (k : kind) :
  all_chars is_word (kind_name k) = true /\ kind_name k <> "".
Proof. destruct k; split; (reflexivity || discriminate). Qed.

Lemma digits_word (i : Z) : 0 <= i -> all_chars is_word (str_Z i) = true.
Proof.
  intros Hi. destruct (str_Z_digits i Hi) as [Hd _].
  eapply all_chars_weaken; [|exact Hd]. apply digit_is_word.
Qed.

Lemma req_fields_ok (i : Z) (kinds : list kind) :
  0 <= i -> Forall field_ok (req_fields i kinds).
Proof.
  intros Hi. unfold req_fields. apply List.Forall_forall. intros f Hf.
  apply in_map_iff in Hf as ([j k] & <- & Hjk). apply in_combine_l in Hjk.
  apply in_range_iff in Hjk. unfold field_ok. cbn [fst snd].
  destruct (kind_name_word k) as [Hk Hkn].
  split; [|split; [discriminate|split; assumption]].
  rewrite !all_chars_app, (digits_word i Hi), (digits_word j) by lia. reflexivity.
Qed.

Lemma digits_no_brace (i : Z) : 0 <= i -> has_char "{" (str_Z i) = false.
Proof.
  intros Hi. destruct (str_Z_digits i Hi) as [Hd _].
  eapply all_chars_has_char; [exact Hd | reflexivity].
Qed.

Lemma requires_text_parsed (i : Z) (kinds : list kind) :
  0 <= i ->
  exists body,
    second_item (split_once "{" (requires_text i kinds)) = Return body
    /\ findall_fields body = req_fields i kinds.
Proof.
  intros Hi. exists (" " +:+ join ", " (map show_field (req_fields i kinds)) +:+ " }").
  split; [|apply findall_block, req_fields_ok; assumption].
  unfold requires_text, req_name.
  replace (("_req_" +:+ str_Z i) +:+ " (Requires): { "
           +:+ join ", " (map show_field (req_fields i kinds)) +:+ " }")
    with (("_req_" +:+ str_Z i +:+ " (Requires): ")
          +:+ String "{" (" " +:+ join ", " (map show_field (req_fields i kinds)) +:+ " }"))
    by (rewrite !append_assoc; reflexivity).
  rewrite split_once_brace; [reflexivity|].
  rewrite !has_char_app, (digits_no_brace i Hi). reflexivity.
Qed.

(** X14: the round trip of lines 387 and 388. What [split("{", 1)[1]] and the
    pattern [(\w+): (\w+)] read back from the text of a Requires extendable
    are the names and the types of its fields, in order. *)
Theorem requires_fields_round_trip (i : Z) (kinds : list kind) :
  0 <= i ->
  exists body,
    second_item (split_once "{" (requires_text i kinds)) = Return body
    /\ findall_fields body = req_fields i kinds.
Proof. apply requires_text_parsed. Qed.

(** *** The generator of extendables *)

Definition requires_texts (n : Z) (kindss : list (list kind)) : list string :=
  map (fun ik => requires_text (fst ik) (snd ik)) (combine (range n) kindss).

(** A list of results that each come from some choice is the image of the
    list of the choices. *)
Lemma collect_choices {A B C} (g : A -> C -> B) (P : C -> Prop) (xs : list A) (ys : list B) :
  Forall2 (fun x y => exists c, y = g x c /\ P c) xs ys ->
  exists cs, List.length cs = List.length xs
             /\ ys = map (fun xc => g (fst xc) (snd xc)) (combine xs cs)
             /\ Forall P cs.
Proof.
  induction 1 as [|x y xs ys (c & -> & Hc) _ (cs & Hl & -> & Hcs)].
  - exists nil. repeat split. constructor.
  - exists (c :: cs). simpl. rewrite Hl. repeat split. constructor; assumption.
Qed.

Section Generator.

Context {G : Type} `{RandomSource G}.

Lemma gen_extendables_spec (req_count prov_count : Z) (w : world G) :
  succeeds (gen_extendables req_count prov_count) w
    (fun r w' =>
       exists kindss : list (list kind),
         List.length kindss = List.length (range req_count)
         /\ Forall (fun kinds => 1 <= len kinds <= 3) kindss
         /\ r = (requires_texts req_count kindss ++ map provides_text (range prov_count),
                 map req_name (range req_count), map prov_name (range prov_count))
         /\ same_store w w').
Proof.
  unfold gen_extendables. apply succeeds_bind.
  eapply succeeds_weaken.
  { apply (succeeds_for_each (range req_count) _ (same_store w)
             (fun i text => exists kinds, text = requires_text i kinds
                                          /\ 1 <= len kinds <= 3));
      [apply same_store_refl|].
    intros i w1 Hi Hs1. cbv zeta.
    apply succeeds_bind, succeeds_randint; [lia|]. intros n w2 Hn Hs2.
    apply succeeds_bind. eapply succeeds_weaken.
    { apply (succeeds_for_each (range n) _ (same_store w2)
               (fun j f => exists k, f = show_field ("req_" +:+ str_Z i +:+ "_field_"
                                                     +:+ str_Z j, kind_name k) /\ True));
        [apply same_store_refl|].
      intros j w3 Hj Hs3. apply succeeds_bind.
      eapply succeeds_weaken;
        [apply succeeds_store; [store_of @keeps_simple_type | apply simple_type_kind]|].
      intros ftype w4 [(k & ->) Hs4]. apply succeeds_ret.
      split; [exists k; split; [reflexivity | exact I]|].
      eapply same_store_trans; eassumption. }
    intros fields w3 [HF Hs3]. apply succeeds_ret.
    destruct (collect_choices
                (fun j k => show_field ("req_" +:+ str_Z i +:+ "_field_" +:+ str_Z j,
                                        kind_name k))
                (fun _ => True) _ _ HF) as (kinds & Hl & -> & _).
    assert (Hlen : len kinds = n).
    { unfold len. rewrite Hl. pose proof (length_range_max n) as Hr. unfold len in Hr. lia. }
    split.
    - exists kinds. split; [|lia]. unfold requires_text, req_fields, req_name.
      rewrite Hlen, map_map. reflexivity.
    - eapply same_store_trans; [exact Hs1|]. eapply same_store_trans; eassumption. }
  intros requires w1 [HF Hs1]. apply succeeds_ret.
  destruct (collect_choices (fun i kinds => requires_text i kinds)
              (fun kinds => 1 <= len kinds <= 3) _ _ HF) as (kindss & Hl & -> & Hk).
  exists kindss. repeat split; assumption || apply Hs1.
Qed.

(** X15: [gen_extendables(req_count, prov_count)] returns from every state,
    with [req_count] Requires extendables followed by [prov_count] Provides
    extendables (none for a count below one) and their names [_req_i] and
    [_prov_i]: a Requires extendable has one to three fields
    [req_i_field_j] of a primitive type, a Provides extendable is
    [{ vendor: "datadog" }]. The registry and the files stay as they are. *)
Theorem gen_extendables_shape (req_count prov_count : Z) (w : world G) :
  exists (kindss : list (list kind)) (w' : world G),
    gen_extendables req_count prov_count w
    = Return ((requires_texts req_count kindss ++ map provides_text (range prov_count),
               map req_name (range req_count), map prov_name (range prov_count)), w')
    /\ len kindss = Z.max 0 req_count
    /\ Forall (fun kinds => 1 <= len kinds <= 3) kindss
    /\ len (requires_texts req_count kindss ++ map provides_text (range prov_count))
       = Z.max 0 req_count + Z.max 0 prov_count
    /\ alias_registry w' = alias_registry w /\ files w' = files w.
Proof.
  destruct (gen_extendables_spec req_count prov_count w)
    as (r & w' & E & kindss & Hl & Hk & -> & Hr & Hf).
  exists kindss, w'. split; [exact E|].
  pose proof (length_range_max req_count) as Hreq.
  pose proof (length_range_max prov_count) as Hprov. unfold len in *.
  split; [lia|]. split; [assumption|]. split; [|split; assumption].
  unfold requires_texts. rewrite length_app, !length_map, length_combine. lia.
Qed.

(** *** Finding an extendable by its name *)

Lemma digits_prefix (a b rest : string) :
  all_chars is_digit a = true -> all_chars is_digit b = true ->
  String.prefix (a +:+ " ") (b +:+ " " +:+ rest) = true -> a = b.
Proof.
  revert b. induction a as [|x a IH]; intros [|y b] Ha Hb;
    cbn [String.append String.prefix]; intros Hp.
  - reflexivity.
  - simpl in Hb. apply andb_prop in Hb as [Hy _].
    destruct (ascii_dec " " y) as [<-|_]; [vm_compute in Hy; discriminate Hy | discriminate Hp].
  - simpl in Ha. apply andb_prop in Ha as [Hx _].
    destruct (ascii_dec x " ") as [->|_]; [vm_compute in Hx; discriminate Hx | discriminate Hp].
  - simpl in Ha, Hb. apply andb_prop in Ha as [_ Ha]. apply andb_prop in Hb as [_ Hb].
    destruct (ascii_dec x y) as [->|_]; [|discriminate Hp].
    f_equal. apply IH; assumption.
Qed.

Lemma req_prefix_self (i : Z) (kinds : list kind) :
  startswith (req_name i +:+ " ") (requires_text i kinds) = true.
Proof.
  unfold startswith, requires_text.
  replace (req_name i +:+ " (Requires): { "
           +:+ join ", " (map show_field (req_fields i kinds)) +:+ " }")
    with ((req_name i +:+ " ")
          +:+ "(Requires): { " +:+ join ", " (map show_field (req_fields i kinds)) +:+ " }")
    by (rewrite !append_assoc; reflexivity).
  apply prefix_app.
Qed.

Lemma req_prefix_other (i j : Z) (kinds : list kind) :
  0 <= i -> 0 <= j ->
  startswith (req_name i +:+ " ") (requires_text j kinds) = true -> i = j.
Proof.
  intros Hi Hj Hp. unfold startswith, requires_text, req_name in Hp.
  rewrite !append_assoc in Hp. cbn [String.append String.prefix] in Hp.
  repeat match type of Hp with
         | (if ?d then _ else _) = true => destruct d as [_|Hne]; [|congruence]
         end.
  change (str_Z j +:+ String " " ?r) with (str_Z j +:+ " " +:+ r) in Hp.
  apply digits_prefix in Hp; [apply str_Z_inj; assumption | |];
    apply str_Z_digits; assumption.
Qed.

Lemma req_prefix_provides (i j : Z) :
  startswith (req_name i +:+ " ") (provides_text j) = false.
Proof. reflexivity. Qed.

Lemma filter_provides (i : Z) (js : list Z) :
  filter (fun e => startswith (req_name i +:+ " ") e = true) (map provides_text js) = nil.
Proof.
  induction js as [|j js IH]; [reflexivity|]. simpl map.
  rewrite filter_cons_False; [exact IH|].
  rewrite req_prefix_provides. discriminate.
Qed.

Lemma filter_requires_none (i : Z) (l : list (Z * list kind)) :
  0 <= i -> Forall (fun jk => 0 <= fst jk /\ fst jk <> i) l ->
  filter (fun e => startswith (req_name i +:+ " ") e = true) (map (fun ik => requires_text (fst ik) (snd ik)) l) = nil.
Proof.
  intros Hi. induction 1 as [|[j kinds] l [Hj Hne] _ IH]; [reflexivity|]. simpl map.
  rewrite filter_cons_False; [exact IH|]. intros Hp. simpl in Hj, Hne.
  apply req_prefix_other in Hp; try assumption. congruence.
Qed.

Lemma filter_requires (i : Z) (kinds : list kind) (l : list (Z * list kind)) :
  0 <= i -> Forall (fun jk => 0 <= fst jk) l -> List.NoDup (map fst l) -> In (i, kinds) l ->
  filter (fun e => startswith (req_name i +:+ " ") e = true) (map (fun ik => requires_text (fst ik) (snd ik)) l)
  = requires_text i kinds :: nil.
Proof.
  intros Hi Hpos. induction Hpos as [|[j ks] l Hj Hpos IH]; intros Hnd Hin; [destruct Hin|].
  simpl in Hnd. apply List.NoDup_cons_iff in Hnd as [Hfresh Hnd]. simpl map.
  destruct Hin as [[= -> ->]|Hin].
  - rewrite filter_cons_True by apply req_prefix_self.
    rewrite filter_requires_none; [reflexivity | assumption |].
    apply List.Forall_forall. intros [j' ks'] Hin'. simpl. split.
    + rewrite List.Forall_forall in Hpos. apply (Hpos (j', ks') Hin').
    + intros ->. apply Hfresh. apply (in_map fst) in Hin'. exact Hin'.
  - rewrite filter_cons_False; [apply IH; assumption|].
    cbn [fst snd]. intros Hp. simpl in Hj. apply req_prefix_other in Hp; try assumption.
    subst j. apply Hfresh. apply (in_map fst) in Hin. exact Hin.
Qed.

Lemma combine_keys {A B} (xs : list A) (ys : list B) :
  List.NoDup xs -> List.NoDup (map fst (combine xs ys)).
Proof.
  intros Hnd. revert ys. induction Hnd as [|x xs Hx Hnd IH]; intros [|y ys]; simpl;
    try constructor; [|apply IH].
  intros Hin. apply Hx. apply in_map_iff in Hin as ([x' y'] & <- & Hin).
  apply in_combine_l in Hin. exact Hin.
Qed.

Lemma combine_total {A B} (xs : list A) (ys : list B) (x : A) :
  List.length ys = List.length xs -> In x xs -> exists y, In (x, y) (combine xs ys).
Proof.
  revert ys. induction xs as [|x0 xs IH]; intros [|y ys] Hl Hin; simpl in *;
    try discriminate; [destruct Hin|].
  destruct Hin as [->|Hin]; [eauto|]. destruct (IH ys ltac:(lia) Hin) as [y' Hy']. eauto.
Qed.

Lemma combine_unique {A B} (xs : list A) (ys : list B) (x : A) (y y' : B) :
  List.NoDup xs -> In (x, y) (combine xs ys) -> In (x, y') (combine xs ys) -> y = y'.
Proof.
  intros Hnd. revert ys. induction Hnd as [|x0 xs Hx Hnd IH]; intros [|y0 ys]; simpl;
    try tauto.
  intros [E1|H1] [E2|H2].
  - congruence.
  - injection E1 as -> ->. apply in_combine_l in H2. contradiction.
  - injection E2 as -> ->. apply in_combine_l in H1. contradiction.
  - exact (IH ys H1 H2).
Qed.

Lemma req_name_inj (i j : Z) : 0 <= i -> 0 <= j -> req_name i = req_name j -> i = j.
Proof.
  unfold req_name. intros Hi Hj E. apply String.app_inj in E.
  apply str_Z_inj; assumption.
Qed.

(** The fields the blueprint file keeps for the Requires extendables: for
    each name the fields read back from its text. *)
Definition parsed (n : Z) (kindss : list (list kind)) (done : list Z)
    (m : gmap string (list (string * string))) : Prop :=
  forall name fs,
    m !! name = Some fs
    <-> exists i kinds, In i done /\ In (i, kinds) (combine (range n) kindss)
                        /\ name = req_name i /\ fs = req_fields i kinds.

Lemma parse_req_exts_spec (n : Z) (kindss : list (list kind)) (provs : list Z)
    (w : world G) :
  List.length kindss = List.length (range n) ->
  succeeds (fold_M (range n)
              (parse_req_ext (requires_texts n kindss ++ map provides_text provs)) ∅) w
           (fun m w' => parsed n kindss (range n) m /\ same_store w w').
Proof.
  intros Hl.
  apply (succeeds_fold_M (range n) _ ∅
           (fun done m w1 => parsed n kindss done m /\ same_store w w1)).
  - split; [|apply same_store_refl]. intros name fs. rewrite lookup_empty. split.
    + discriminate.
    + intros (i & kinds & [] & _).
  - intros done m i rest w1 Hxs [Hm Hs1].
    pose proof (not_in_done _ _ _ _ (range_distinct n) Hxs) as Hnew.
    apply in_done in Hxs as Hi. pose proof Hi as Hrange. apply in_range_iff in Hrange.
    destruct (combine_total (range n) kindss i Hl Hi) as [kinds Hkinds].
    unfold parse_req_ext. cbv zeta. fold (req_name i).
    apply succeeds_bind, succeeds_randint; [lia|]. intros k w2 _ Hs2.
    rewrite filter_app, filter_provides, app_nil_r. unfold requires_texts.
    rewrite (filter_requires i kinds); [|lia | | apply combine_keys, range_distinct | assumption].
    2:{ apply List.Forall_forall. intros [j ks] Hin. apply in_combine_l in Hin.
        apply in_range_iff in Hin. simpl. lia. }
    destruct (requires_text_parsed i kinds ltac:(lia)) as (body & Hbody & Hfields).
    rewrite Hbody. apply succeeds_bind, succeeds_lift, succeeds_ret. rewrite Hfields.
    split; [|eapply same_store_trans; eassumption].
    intros name fs. destruct (String.eqb_spec (req_name i) name) as [<-|Hne].
    + rewrite lookup_insert_eq. split.
      * intros [= <-]. exists i, kinds.
        split; [apply in_or_app; right; left; reflexivity|]. auto.
      * intros (j & ks & _ & Hin & E & ->).
        apply req_name_inj in E; [|lia|apply in_combine_l, in_range_iff in Hin; lia].
        subst j. rewrite (combine_unique _ _ _ _ _ (range_distinct n) Hin Hkinds).
        reflexivity.
    + rewrite lookup_insert_ne by assumption. rewrite (Hm name fs). split.
      * intros (j & ks & Hj & H1). exists j, ks.
        split; [apply in_or_app; left; assumption | exact H1].
      * intros (j & ks & Hj & Hin & -> & ->). exists j, ks.
        apply in_app_or in Hj as [Hj|[<-|[]]]; [auto | congruence].
Qed.

End Generator.

(** The Requires extendable of index 3 with a String and a Float field. *)
Lemma requires_fields_round_trip_witness :
  exists body,
    second_item (split_once "{" (requires_text 3 (KString :: KFloat :: nil))) = Return body
    /\ findall_fields body = req_fields 3 (KString :: KFloat :: nil).
Proof. apply (requires_fields_round_trip 3 (KString :: KFloat :: nil)). lia. Defined.

End Extendables.

(** ** The blueprint file *)
Module BlueprintFile.
Import Py GenerateCorpus Tape StringFacts GenerateCorpusFacts BlueprintFacts Returns Types
       Synthesis Refinements Grammar RefinementTypes Numerals Loops Aliases Frames
       Extendables.
Local Open Scope py_scope.

(** *** Names *)

Lemma prefix_either (x y u v : string) :
  x +:+ u = y +:+ v -> String.prefix x y = true \/ String.prefix y x = true.
Proof.
  revert y. induction x as [|a x IH]; intros [|b y] E; cbn [String.prefix]; auto.
  cbn [String.append] in E. injection E as -> E.
  destruct (ascii_dec b b) as [_|Hne]; [apply IH; assumption | congruence].
Qed.

Definition service (a : Z) : string := item SERVICES a.

Lemma services_prefix_free :
  forallb (fun a => forallb (fun b => (a =? b) || negb (String.prefix (service a) (service b)))
                            (range (len SERVICES)))
          (range (len SERVICES)) = true.
Proof. vm_compute. reflexivity. Qed.

Lemma service_prefix (a b : Z) :
  0 <= a < len SERVICES -> 0 <= b < len SERVICES ->
  String.prefix (service a) (service b) = true -> a = b.
Proof.
  intros Ha Hb Hp. pose proof services_prefix_free as Hall.
  rewrite forallb_forall in Hall. specialize (Hall a (proj2 (in_range_iff a _) Ha)).
  rewrite forallb_forall in Hall. specialize (Hall b (proj2 (in_range_iff b _) Hb)).
  rewrite Hp in Hall. simpl in Hall. rewrite orb_false_r in Hall.
  apply Z.eqb_eq. assumption.
Qed.

Lemma blueprint_name_inj (i j : Z) :
  0 <= i -> 0 <= j -> blueprint_name i = blueprint_name j -> i = j.
Proof.
  intros Hi Hj E. unfold blueprint_name in E. cbv zeta in E.
  fold (service (i mod len SERVICES)) in E. fold (service (j mod len SERVICES)) in E.
  assert (Hlen : len SERVICES = 51) by reflexivity. rewrite Hlen in *.
  assert (Ha : 0 <= i mod 51 < 51) by (apply Z.mod_pos_bound; lia).
  assert (Hb : 0 <= j mod 51 < 51) by (apply Z.mod_pos_bound; lia).
  assert (Hsame : i mod 51 = j mod 51).
  { destruct (prefix_either _ _ _ _ E) as [Hp|Hp].
    - apply service_prefix; rewrite ?Hlen; assumption.
    - symmetry. apply service_prefix; rewrite ?Hlen; assumption. }
  rewrite Hsame in E. apply String.app_inj in E.
  pose proof (Z.div_mod i 51 ltac:(lia)) as Di. pose proof (Z.div_mod j 51 ltac:(lia)) as Dj.
  destruct (Z.leb_spec 51 i), (Z.leb_spec 51 j).
  - cbn [String.append] in E. injection E as E.
    apply str_Z_inj in E; [lia | apply Z.div_pos; lia ..].
  - discriminate E.
  - discriminate E.
  - rewrite Z.mod_small in Hsame by lia. rewrite Z.mod_small in Hsame by lia. exact Hsame.
Qed.

Lemma blueprint_names_NoDup (num_blueprints : Z) :
  List.NoDup (map blueprint_name (range num_blueprints)).
Proof.
  pose proof (range_distinct num_blueprints) as Hnd.
  assert (Hpos : Forall (fun i => 0 <= i) (range num_blueprints)).
  { apply List.Forall_forall. intros i Hin. apply in_range_iff in Hin. lia. }
  induction Hnd as [|i l Hi Hnd IH]; simpl; constructor.
  - intros Hin. apply in_map_iff in Hin as (j & E & Hj). apply Hi.
    rewrite List.Forall_forall in Hpos.
    apply blueprint_name_inj in E; [subst; assumption | |];
      apply Hpos; [right | left]; auto.
  - apply IH. inversion Hpos; assumption.
Qed.

(** X16: the blueprints of a file have different names: [blueprint_name]
    gives the service of index [i mod 51] with the suffix [_slo], followed
    from index 51 on by the number of the round, and no two indices give
    the same name. *)
Theorem blueprint_names_distinct (num_blueprints : Z) :
  List.NoDup (map blueprint_name (range num_blueprints))
  /\ forall i j, 0 <= i -> 0 <= j -> blueprint_name i = blueprint_name j -> i = j.
Proof. split; [apply blueprint_names_NoDup | apply blueprint_name_inj]. Qed.

(** *** Field types *)

(** The types a field of a blueprint can have: the text of a generated
    descriptor, or the name of a registered alias. *)
Definition field_type_ok (registry : gmap string string) (ftype : string) : Prop :=
  (exists d, generated d /\ ftype = render d)
  \/ (exists i d, 0 <= i /\ ftype = alias_name i /\ alias_descriptor d
                  /\ registry !! alias_name i = Some (render d)).

Definition fields_ok (registry : gmap string string) (fields : list (string * string))
    : Prop :=
  Forall (fun f => field_type_ok registry (snd f)) fields.

(** The registry holds every alias of [alias_names]. *)
Definition aliases_registered (registry : gmap string string) (alias_names : list string)
    : Prop :=
  forall name, In name alias_names ->
    exists i d, 0 <= i /\ name = alias_name i /\ alias_descriptor d
                /\ registry !! alias_name i = Some (render d).

Lemma req_fields_types (registry : gmap string string) (i : Z) (kinds : list kind) :
  fields_ok registry (req_fields i kinds).
Proof.
  unfold fields_ok, req_fields. apply List.Forall_forall. intros f Hf.
  apply in_map_iff in Hf as ([j k] & <- & _). simpl. left.
  exists (Primitive k). split; [constructor | reflexivity].
Qed.

Section Blueprints.

Context {G : Type} `{RandomSource G}.

(** On the type of a field the synthesizer returns, and only the random
    source moves. *)
Lemma synth_field_type (ftype : string) (fuel : nat) (w : world G) :
  field_type_ok (alias_registry w) ftype ->
  succeeds (value_for_type (S (S fuel)) ftype) w (fun _ w' => same_store w w').
Proof.
  intros [(d & Hd & ->)|(i & d & Hi & -> & Hd & Hget)].
  - eapply succeeds_weaken; [apply synthesis_sound; assumption|].
    intros lit w' [Hs _]. exact Hs.
  - eapply succeeds_weaken; [apply synth_alias_name; eassumption|].
    intros lit w' [Hs _]. exact Hs.
Qed.

Lemma gen_extends_returns (req_ext_names prov_ext_names : list string) (w : world G) :
  succeeds (gen_extends req_ext_names prov_ext_names) w (fun _ _ => True).
Proof.
  unfold gen_extends. apply succeeds_bind.
  assert (Hprov : succeeds
            match prov_ext_names with
            | nil => ret nil
            | _ :: _ =>
                take <- random_below (float_literal 6 1) ;;
                (if take : bool
                 then k <- randint 1 2 ;;
                      sample prov_ext_names (Z.min k (len prov_ext_names))
                 else ret nil)
            end w
            (fun provided w1 =>
               succeeds (required <- match req_ext_names with
                                     | nil => ret nil
                                     | _ :: _ =>
                                         take <- random_below (1 # 2) ;;
                                         (if take : bool
                                          then k <- randint 1 1 ;;
                                               sample req_ext_names
                                                      (Z.min k (len req_ext_names))
                                          else ret nil)
                                     end ;;
                         ret (provided ++ required)) w1 (fun _ _ => True))).
  { assert (Hreq : forall provided w1,
               succeeds (required <- match req_ext_names with
                                     | nil => ret nil
                                     | _ :: _ =>
                                         take <- random_below (1 # 2) ;;
                                         (if take : bool
                                          then k <- randint 1 1 ;;
                                               sample req_ext_names
                                                      (Z.min k (len req_ext_names))
                                          else ret nil)
                                     end ;;
                         ret (provided ++ required)) w1 (fun _ _ => True)).
    { intros provided w1. apply succeeds_bind.
      destruct req_ext_names as [|r rs] eqn:Er; [apply succeeds_ret, succeeds_ret; exact I|].
      apply succeeds_bind, succeeds_random_below. intros [|] w2 _.
      - apply succeeds_bind, succeeds_randint; [lia|]. intros k w3 Hk _.
        apply succeeds_sample; [unfold len; simpl; lia|].
        intros xs w4 _ _ _. apply succeeds_ret. exact I.
      - apply succeeds_ret, succeeds_ret. exact I. }
    destruct prov_ext_names as [|p ps] eqn:Ep; [apply succeeds_ret, Hreq|].
    apply succeeds_bind, succeeds_random_below. intros [|] w1 _.
    - apply succeeds_bind, succeeds_randint; [lia|]. intros k w2 Hk _.
      apply succeeds_sample; [unfold len; simpl; lia|].
      intros xs w3 _ _ _. apply Hreq.
    - apply succeeds_ret, Hreq. }
  exact Hprov.
Qed.

Lemma gen_num_req_returns (complexity : string) (w : world G) :
  succeeds (gen_num_req complexity) w (fun n _ => 1 <= n).
Proof.
  unfold gen_num_req.
  repeat match goal with
         | |- succeeds (if ?c then _ else _) _ _ => destruct c
         end;
    (apply succeeds_randint; [lia|]; intros n w' Hn _; lia).
Qed.

Lemma gen_req_field_returns (name : string) (alias_names : list string)
    (complexity : string) (i : Z) (w : world G) :
  aliases_registered (alias_registry w) alias_names ->
  succeeds (gen_req_field name alias_names complexity i) w
           (fun f _ => fst f = param name i /\ field_type_ok (alias_registry w) (snd f)).
Proof.
  intros Hreg. unfold gen_req_field. cbv zeta. apply succeeds_bind.
  assert (Hrandom : forall allow w1,
             succeeds (random_type 0 allow) w1
               (fun ftype w2 =>
                  succeeds (ret (name +:+ "_param_" +:+ str_Z i, ftype)) w2
                    (fun f _ => fst f = param name i
                                /\ field_type_ok (alias_registry w) (snd f)))).
  { intros allow w1. eapply succeeds_weaken; [apply random_type_describes|].
    intros ftype w2 Hd. apply succeeds_ret. split; [reflexivity | left; exact Hd]. }
  destruct (i <? 2).
  { apply succeeds_ret, succeeds_ret. split; [reflexivity|]. left.
    exists (Primitive KString). split; [constructor | reflexivity]. }
  apply succeeds_bind.
  destruct alias_names as [|a rest] eqn:Ea.
  - apply succeeds_ret.
    destruct (String.eqb complexity "large" || String.eqb complexity "huge");
      apply Hrandom.
  - apply succeeds_random_below. intros [|] w1 _.
    + apply succeeds_choice; [discriminate|]. intros ftype w2 Hin _.
      apply succeeds_ret. split; [reflexivity|]. right. apply Hreg, Hin.
    + destruct (String.eqb complexity "large" || String.eqb complexity "huge");
        apply Hrandom.
Qed.

Lemma build_blueprint_item_returns (name : string)
    (req_ext_names prov_ext_names alias_names : list string) (complexity : string)
    (w : world G) :
  aliases_registered (alias_registry w) alias_names ->
  succeeds (build_blueprint_item name req_ext_names prov_ext_names alias_names complexity) w
    (fun b w' => fields_ok (alias_registry w) (item_fields b)
                 /\ map fst (item_fields b)
                    = map (param name) (range (len (item_fields b)))
                 /\ item_fields b <> nil
                 /\ same_store w w').
Proof.
  intros Hreg. unfold build_blueprint_item. apply succeeds_bind.
  eapply succeeds_weaken;
    [apply succeeds_store; [store_of @keeps_gen_extends | apply gen_extends_returns]|].
  intros extends w1 [_ Hs1]. cbv zeta. apply succeeds_bind.
  eapply succeeds_weaken;
    [apply succeeds_store; [store_of @keeps_gen_num_req | apply gen_num_req_returns]|].
  intros n w2 [Hn Hs2]. apply succeeds_bind.
  assert (Hs12 : same_store w w2) by (eapply same_store_trans; eassumption).
  eapply succeeds_weaken.
  { apply (succeeds_for_each (range n) _ (same_store w)
             (fun i f => fst f = param name i
                         /\ field_type_ok (alias_registry w) (snd f))); [exact Hs12|].
    intros i w3 _ Hs3.
    eapply succeeds_weaken;
      [apply succeeds_store; [store_of @keeps_gen_req_field | apply gen_req_field_returns]|].
    - destruct Hs3 as [-> _]. exact Hreg.
    - intros f w4 [[Hf Hok] Hs4]. destruct Hs3 as [Hr3 Hf3]. rewrite Hr3 in Hok.
      split; [auto|]. eapply same_store_trans; [|exact Hs4]. split; assumption. }
  intros fields w3 [HF Hs3].
  apply succeeds_bind, succeeds_choice; [discriminate|]. intros metric w4 _ Hs4.
  apply succeeds_bind, succeeds_get_alias_registry.
  destruct (select_params _ fields None None) as [env svc].
  apply succeeds_ret. cbn [item_fields].
  assert (Hlen : len fields = n).
  { unfold len. rewrite <- (Forall2_length _ _ _ HF).
    pose proof (length_range_max n) as Hr. unfold len in Hr. lia. }
  split; [|split; [|split]].
  - clear -HF. induction HF as [|i f ids fs [_ Hok] _ IH]; constructor; assumption.
  - rewrite Hlen. clear -HF. induction HF as [|i f ids fs [Hf _] _ IH]; [reflexivity|].
    simpl. rewrite Hf, IH. reflexivity.
  - intros ->. unfold len in Hlen. simpl in Hlen. lia.
  - eapply same_store_trans; eassumption.
Qed.

Lemma gen_blueprint_item_returns (name : string)
    (req_ext_names prov_ext_names alias_names : list string) (complexity : string)
    (w : world G) :
  aliases_registered (alias_registry w) alias_names ->
  succeeds (gen_blueprint_item name req_ext_names prov_ext_names alias_names complexity) w
    (fun r w' => fields_ok (alias_registry w) (snd r)
                 /\ map fst (snd r) = map (param name) (range (len (snd r)))
                 /\ snd r <> nil
                 /\ same_store w w').
Proof.
  intros Hreg. unfold gen_blueprint_item. apply succeeds_bind.
  eapply succeeds_weaken; [apply build_blueprint_item_returns; exact Hreg|].
  intros b w' Hb. apply succeeds_ret. exact Hb.
Qed.

Lemma registered_aliases (count : Z) (lines : list string) (w : world G) :
  registered (range count) lines w ->
  aliases_registered (alias_registry w) (map alias_name (range count)).
Proof.
  intros [Hall _] name Hname. apply in_map_iff in Hname as (i & <- & Hi).
  assert (Hpos : 0 <= i) by (apply in_range_iff in Hi; lia).
  revert Hi. induction Hall as [|j line done lines (d & Hd & _ & Hr) _ IH]; [intros []|].
  intros [->|Hi]; [|auto]. exists i, d. auto.
Qed.

Lemma inherited_fields_types (registry : gmap string string) (n : Z)
    (kindss : list (list kind)) (req_ext_names : list string)
    (req_ext_fields : gmap string (list (string * string))) (item_str : string) :
  parsed n kindss (range n) req_ext_fields ->
  fields_ok registry (inherited_fields req_ext_names req_ext_fields item_str).
Proof.
  intros Hparsed. unfold fields_ok, inherited_fields. apply List.Forall_forall.
  intros f Hf. apply in_flat_map in Hf as (ext_name & _ & Hf).
  destruct (contains "extends [" item_str && contains ext_name item_str); [|destruct Hf].
  destruct (req_ext_fields !! ext_name) as [fields|] eqn:E; [|destruct Hf].
  apply Hparsed in E as (i & kinds & _ & _ & _ & ->).
  pose proof (req_fields_types registry i kinds) as Hok.
  unfold fields_ok in Hok. rewrite List.Forall_forall in Hok. apply Hok, Hf.
Qed.

(** What [gen_blueprints_file] gives: the names in order, a list of fields
    for exactly these names, each list with a parameter of the blueprint's
    own first, every field type one that [value_for_type] reads; the
    registry holds the aliases and the files are as before. *)
Lemma gen_blueprints_file_spec (num_blueprints : Z) (complexity : string)
    (num_aliases num_req_ext num_prov_ext : Z) (w : world G) :
  succeeds (gen_blueprints_file num_blueprints complexity num_aliases num_req_ext
                                num_prov_ext) w
    (fun r w' =>
       snd (fst r) = map blueprint_name (range num_blueprints)
       /\ (forall name, snd r !! name <> None <-> In name (snd (fst r)))
       /\ (forall name fields,
              snd r !! name = Some fields ->
              fields_ok (alias_registry w') fields
              /\ exists ftype rest, fields = (param name 0, ftype) :: rest)
       /\ (forall name, alias_registry w' !! name <> None
                        <-> In name (map alias_name (range num_aliases)))
       /\ files w' = files w).
Proof.
  unfold gen_blueprints_file. apply succeeds_bind.
  eapply succeeds_weaken; [apply gen_type_aliases_spec|].
  intros [aliases alias_names] w1 (Hnames & Hregd & Hfiles1). cbn [fst snd] in *. subst alias_names.
  pose proof (registered_aliases _ _ _ Hregd) as Hreg.
  cbv zeta. apply succeeds_bind.
  eapply succeeds_weaken; [apply gen_extendables_spec|].
  intros [[extendables req_ext_names] prov_ext_names] w2 (kindss & Hl & _ & Hr & Hs2).
  injection Hr as -> -> ->. apply succeeds_bind.
  eapply succeeds_weaken; [apply parse_req_exts_spec; exact Hl|].
  intros req_ext_fields w3 [Hparsed Hs3]. apply succeeds_bind.
  assert (Hs13 : same_store w1 w3) by (eapply same_store_trans; eassumption).
  eapply succeeds_weaken.
  { apply (succeeds_fold_M (range num_blueprints) _ _
             (fun done s w4 =>
                same_store w1 w4
                /\ (forall name, snd s !! name <> None <-> In name (map blueprint_name done))
                /\ (forall name fields,
                       snd s !! name = Some fields ->
                       fields_ok (alias_registry w1) fields
                       /\ exists ftype rest, fields = (param name 0, ftype) :: rest))).
    - split; [exact Hs13|]. cbn [snd]. split.
      + intros name. rewrite lookup_empty. simpl. tauto.
      + intros name fields. rewrite lookup_empty. discriminate.
    - intros done [bp_lines blueprint_fields] i rest w4 _ (Hs4 & Hdom & Hok).
      cbn [snd] in *. cbv zeta. apply succeeds_bind.
      eapply succeeds_weaken.
      { apply gen_blueprint_item_returns. destruct Hs4 as [-> _]. exact Hreg. }
      intros [item_str field_info] w5 (Hfields & Hparams & Hne & Hs5). cbn [snd] in *.
      apply succeeds_ret. cbn [snd].
      split; [eapply same_store_trans; eassumption|]. split.
      + intros name. rewrite map_app, in_app_iff. simpl.
        destruct (string_dec (blueprint_name i) name) as [<-|Hn].
        * rewrite lookup_insert_eq. split; [auto | discriminate].
        * rewrite lookup_insert_ne by assumption. rewrite Hdom. tauto.
      + intros name fields.
        destruct (string_dec (blueprint_name i) name) as [<-|Hn].
        * rewrite lookup_insert_eq. intros [= <-]. split.
          -- apply Forall_app. split.
             ++ destruct Hs4 as [Hr4 _]. rewrite Hr4 in Hfields. exact Hfields.
             ++ eapply inherited_fields_types. exact Hparsed.
          -- destruct field_info as [|[fname ftype] more]; [congruence|].
             assert (Hlen : exists tl, range (len ((fname, ftype) :: more)) = 0 :: tl).
             { unfold range, len. rewrite Nat2Z.id. cbn [List.length seq map].
               eexists. reflexivity. }
             destruct Hlen as [tl Hlen].
             rewrite Hlen in Hparams. cbn [map fst] in Hparams.
             injection Hparams as -> _. exists ftype, (more ++ inherited_fields
               (map req_name (range num_req_ext)) req_ext_fields item_str). reflexivity.
        * rewrite lookup_insert_ne by assumption. apply Hok. }
  intros [bp_lines blueprint_fields] w4 (Hs4 & Hdom & Hok). cbn [snd] in *.
  apply succeeds_ret. cbn [fst snd]. destruct Hs4 as [Hr4 Hf4].
  split; [reflexivity|]. split; [exact Hdom|]. split; [|split].
  - rewrite Hr4. exact Hok.
  - intros name. rewrite Hr4. destruct Hregd as [Hall Hkeys]. split.
    + intros Hn. destruct (Hkeys name Hn) as (i & Hi & ->). apply in_map, Hi.
    + intros Hn. destruct (Hreg name Hn) as (i & d & _ & -> & _ & E). congruence.
  - congruence.
Qed.

(** X17: [gen_blueprints_file] returns for all its arguments from every
    state, with the names of the blueprints in order and the fields of
    exactly these names. The fields of a blueprint start with its own first
    parameter, and the type of every field, its own or taken from a Requires
    extendable, is one [value_for_type] returns a literal for in any state
    with the registry the call leaves. That registry holds the aliases
    [_type_0], ... of the call and no other name; no file is touched. *)
Theorem blueprints_file_fields (num_blueprints : Z) (complexity : string)
    (num_aliases num_req_ext num_prov_ext : Z) (w : world G) :
  exists (content : string) (blueprint_fields : gmap string (list (string * string)))
         (w' : world G),
    gen_blueprints_file num_blueprints complexity num_aliases num_req_ext num_prov_ext w
    = Return ((content, map blueprint_name (range num_blueprints), blueprint_fields), w')
    /\ (forall name, blueprint_fields !! name <> None
                     <-> In name (map blueprint_name (range num_blueprints)))
    /\ (forall name fields,
           blueprint_fields !! name = Some fields ->
           (exists ftype rest, fields = (param name 0, ftype) :: rest)
           /\ forall fname ftype (fuel : nat) (w2 : world G),
                In (fname, ftype) fields ->
                alias_registry w2 = alias_registry w' ->
                exists literal w3,
                  value_for_type (S (S fuel)) ftype w2 = Return (literal, w3))
    /\ (forall name, alias_registry w' !! name <> None
                     <-> In name (map alias_name (range num_aliases)))
    /\ files w' = files w.
Proof.
  destruct (gen_blueprints_file_spec num_blueprints complexity num_aliases num_req_ext
                                     num_prov_ext w)
    as ([[content names] blueprint_fields] & w' & E & Hnames & Hdom & Hok & Hreg & Hfiles).
  cbn [fst snd] in *. subst names. exists content, blueprint_fields, w'.
  split; [exact E|]. split; [exact Hdom|]. split; [|split; assumption].
  intros name fields Hget. destruct (Hok name fields Hget) as [Hfields Hfirst].
  split; [exact Hfirst|]. intros fname ftype fuel w2 Hin Hr2.
  unfold fields_ok in Hfields. rewrite List.Forall_forall in Hfields.
  specialize (Hfields _ Hin). cbn [snd] in Hfields. rewrite <- Hr2 in Hfields.
  destruct (synth_field_type ftype fuel w2 Hfields) as (literal & w3 & E3 & _).
  exists literal, w3. exact E3.
Qed.

End Blueprints.

End BlueprintFile.

(** ** The shape of a blueprint *)
Module BlueprintItem.
Import Py GenerateCorpus Tape StringFacts GenerateCorpusFacts BlueprintFacts Returns Types.
Import Grammar RefinementTypes Numerals Loops Aliases Frames Extendables BlueprintFile.
Local Open Scope py_scope.

(** The least and the greatest number of own fields, lines 286 to 293: a
    complexity that is none of "small", "medium" and "large" counts as
    "huge". *)
Definition field_bounds (complexity : string) : Z * Z :=
  if String.eqb complexity "small" then (1, 2)
  else if String.eqb complexity "medium" then (2, 5)
  else if String.eqb complexity "large" then (4, 8)
  else (6, 12).

(** What [extends] can hold: up to two Provides extendables, then up to one
    Requires extendable. *)
Definition extends_ok (req_ext_names prov_ext_names extends : list string) : Prop :=
  exists provided required,
    extends = provided ++ required
    /\ len provided <= 2 /\ len required <= 1
    /\ Forall (fun e => In e prov_ext_names) provided
    /\ Forall (fun e => In e req_ext_names) required
    /\ (List.NoDup prov_ext_names -> List.NoDup provided).

(** The shape of the blueprint [name] built from the given names at
    [complexity]. *)
Definition item_shape (name : string) (req_ext_names prov_ext_names : list string)
    (complexity : string) (b : blueprint_item) : Prop :=
  extends_ok req_ext_names prov_ext_names (item_extends b)
  /\ item_header b
     = "  * " +:+ quoted name
       +:+ match item_extends b with
           | nil => ""
           | _ => " extends [" +:+ join ", " (item_extends b) +:+ "]"
           end +:+ ":"
  /\ fst (field_bounds complexity) <= len (item_fields b) <= snd (field_bounds complexity)
  /\ map fst (item_fields b) = map (param name) (range (len (item_fields b)))
  /\ In (item_metric b) METRICS.

(** The sections of a blueprint file, lines 367 to 419: the aliases and the
    extendables when there are some, and the blueprints. *)
Definition sections (aliases extendables items : list string) : list string :=
  match aliases with nil => nil | _ => join newline aliases :: nil end
  ++ match extendables with nil => nil | _ => join newline extendables :: nil end
  ++ join newline (("Blueprints for " +:+ quoted "SLO") :: items) :: nil.

Section Item.

Context {G : Type} `{RandomSource G}.

Lemma succeeds_sample_names {A} (population : list A) (k : Z) (w : world G)
    (P : list A -> world G -> Prop) :
  0 <= k <= len population ->
  (forall xs w', len xs = k -> Forall (fun x => In x population) xs ->
                 (List.NoDup population -> List.NoDup xs) ->
                 same_store w w' -> P xs w') ->
  succeeds (sample population k) w P.
Proof.
  intros Hk HP. unfold sample, len in *.
  destruct (Z.ltb_spec k 0); [lia|].
  destruct (Z.ltb_spec (Z.of_nat (List.length population)) k); [lia|].
  simpl. apply succeeds_bind, succeeds_draw. intros w' _ Hs.
  destruct (sample_indices_spec (List.length population) (Z.to_nat k) (rng w) ltac:(lia))
    as (Hlen & Hdistinct & Hlt).
  destruct (pick_spec population _ Hlt) as [Hl Hf].
  apply succeeds_ret, HP; [lia | assumption | | assumption].
  intros Hnd. apply pick_distinct; assumption.
Qed.

(** The names taken from a list of extendables with probability [p]: none,
    or between one and [most] of them. *)
Lemma taken_spec (names : list string) (p : Q) (most : Z) (w : world G) :
  1 <= most ->
  succeeds match names with
           | nil => ret nil
           | _ :: _ =>
               take <- random_below p ;;
               (if take : bool
                then k <- randint 1 most ;; sample names (Z.min k (len names))
                else ret nil)
           end w
    (fun taken w' =>
       len taken <= most
       /\ Forall (fun e => In e names) taken
       /\ (List.NoDup names -> List.NoDup taken)
       /\ same_store w w').
Proof.
  intros Hmost. destruct names as [|first rest] eqn:E.
  - apply succeeds_ret. unfold len. simpl.
    split; [lia|]. split; [constructor|]. split; [constructor | apply same_store_refl].
  - rewrite <- E. assert (Hlen : 1 <= len names) by (subst; unfold len; simpl; lia).
    clear E. apply succeeds_bind, succeeds_random_below. intros [|] w1 Hs1.
    + apply succeeds_bind, succeeds_randint; [lia|]. intros k w2 Hk Hs2.
      apply succeeds_sample_names; [unfold len in *; lia|].
      intros taken w3 Hl Hall Hnd Hs3.
      split; [unfold len in *; lia|]. split; [assumption|]. split; [assumption|].
      eapply same_store_trans; [|exact Hs3]. eapply same_store_trans; eassumption.
    + apply succeeds_ret. unfold len. simpl.
      split; [lia|]. split; [constructor|]. split; [constructor | exact Hs1].
Qed.

Lemma gen_extends_spec (req_ext_names prov_ext_names : list string) (w : world G) :
  succeeds (gen_extends req_ext_names prov_ext_names) w
    (fun extends w' => extends_ok req_ext_names prov_ext_names extends /\ same_store w w').
Proof.
  unfold gen_extends. apply succeeds_bind.
  eapply succeeds_weaken; [apply (taken_spec prov_ext_names _ 2); lia|].
  intros provided w1 (Hl1 & Hall1 & Hnd1 & Hs1). apply succeeds_bind.
  eapply succeeds_weaken; [apply (taken_spec req_ext_names _ 1); lia|].
  intros required w2 (Hl2 & Hall2 & _ & Hs2). apply succeeds_ret.
  split; [|eapply same_store_trans; eassumption].
  exists provided, required. repeat split; assumption.
Qed.

Lemma gen_num_req_bounds (complexity : string) (w : world G) :
  succeeds (gen_num_req complexity) w
    (fun n w' => fst (field_bounds complexity) <= n <= snd (field_bounds complexity)
                 /\ same_store w w').
Proof.
  unfold gen_num_req, field_bounds.
  repeat match goal with
         | |- succeeds (if ?c then _ else _) _ _ => destruct c
         end;
    (apply succeeds_randint; [lia|]; intros n w' Hn Hs; split; [exact Hn | exact Hs]).
Qed.

Lemma gen_req_field_total (name : string) (alias_names : list string)
    (complexity : string) (i : Z) (w : world G) :
  succeeds (gen_req_field name alias_names complexity i) w
           (fun f _ => fst f = param name i).
Proof.
  unfold gen_req_field. cbv zeta. apply succeeds_bind.
  assert (Hrandom : forall allow w1,
             succeeds (random_type 0 allow) w1
               (fun ftype w2 =>
                  succeeds (ret (name +:+ "_param_" +:+ str_Z i, ftype)) w2
                    (fun f _ => fst f = param name i))).
  { intros allow w1. eapply succeeds_weaken; [apply random_type_describes|].
    intros ftype w2 _. apply succeeds_ret. reflexivity. }
  destruct (i <? 2); [apply succeeds_ret, succeeds_ret; reflexivity|].
  apply succeeds_bind.
  destruct alias_names as [|a rest] eqn:Ea.
  - apply succeeds_ret.
    destruct (String.eqb complexity "large" || String.eqb complexity "huge");
      apply Hrandom.
  - apply succeeds_random_below. intros [|] w1 _.
    + apply succeeds_choice; [discriminate|]. intros ftype w2 _ _.
      apply succeeds_ret. reflexivity.
    + destruct (String.eqb complexity "large" || String.eqb complexity "huge");
        apply Hrandom.
Qed.

Lemma build_blueprint_item_shape (name : string)
    (req_ext_names prov_ext_names alias_names : list string) (complexity : string)
    (w : world G) :
  succeeds (build_blueprint_item name req_ext_names prov_ext_names alias_names complexity) w
    (fun b w' => item_shape name req_ext_names prov_ext_names complexity b
                 /\ same_store w w').
Proof.
  unfold build_blueprint_item. apply succeeds_bind.
  eapply succeeds_weaken; [apply gen_extends_spec|].
  intros extends w1 [Hext Hs1]. cbv zeta. apply succeeds_bind.
  eapply succeeds_weaken; [apply gen_num_req_bounds|].
  intros n w2 [Hn Hs2]. apply succeeds_bind.
  assert (Hs12 : same_store w w2) by (eapply same_store_trans; eassumption).
  eapply succeeds_weaken.
  { apply (succeeds_for_each (range n) _ (same_store w)
             (fun i f => fst f = param name i)); [exact Hs12|].
    intros i w3 _ Hs3.
    eapply succeeds_weaken;
      [apply succeeds_store; [store_of @keeps_gen_req_field | apply gen_req_field_total]|].
    intros f w4 [Hf Hs4]. split; [exact Hf | eapply same_store_trans; eassumption]. }
  intros fields w3 [HF Hs3].
  apply succeeds_bind, succeeds_choice; [discriminate|]. intros metric w4 Hmetric Hs4.
  apply succeeds_bind, succeeds_get_alias_registry.
  destruct (select_params _ fields None None) as [env svc].
  apply succeeds_ret. unfold item_shape.
  cbn [item_extends item_header item_fields item_metric].
  assert (Hlen : len fields = n).
  { unfold len. rewrite <- (Forall2_length _ _ _ HF).
    pose proof (length_range_max n) as Hr. unfold len in Hr.
    unfold field_bounds in Hn.
    repeat match type of Hn with
           | context [if ?c then _ else _] => destruct c
           end; simpl in Hn; lia. }
  split; [|eapply same_store_trans; eassumption].
  split; [exact Hext|]. split; [destruct extends; reflexivity|].
  split; [rewrite Hlen; exact Hn|]. split; [|exact Hmetric].
  rewrite Hlen. clear -HF. induction HF as [|i f ids fs Hf _ IH]; [reflexivity|].
  simpl. rewrite Hf, IH. reflexivity.
Qed.


(** The text of the blueprint file. *)
Lemma gen_blueprints_file_text (num_blueprints : Z) (complexity : string)
    (num_aliases num_req_ext num_prov_ext : Z) (w : world G) :
  succeeds (gen_blueprints_file num_blueprints complexity num_aliases num_req_ext
                                num_prov_ext) w
    (fun r _ =>
       exists (aliases : list string) (kindss : list (list kind)) (items : list string),
         fst (fst r)
         = join (newline +:+ newline)
                (sections aliases
                          (requires_texts num_req_ext kindss
                           ++ map provides_text (range num_prov_ext))
                          items) +:+ newline
         /\ Forall2 (fun i line =>
                       exists d, alias_descriptor d
                                 /\ line = alias_name i +:+ " (Type): " +:+ render d)
                    (range num_aliases) aliases
         /\ List.length kindss = List.length (range num_req_ext)
         /\ Forall (fun kinds => 1 <= len kinds <= 3) kindss
         /\ Forall2 (fun i item =>
                       exists b,
                         item = join newline (item_lines b)
                         /\ item_shape (blueprint_name i) (map req_name (range num_req_ext))
                                       (map prov_name (range num_prov_ext)) complexity b)
                    (range num_blueprints) items).
Proof.
  unfold gen_blueprints_file. apply succeeds_bind.
  eapply succeeds_weaken; [apply gen_type_aliases_spec|].
  intros [aliases alias_names] w1 (_ & [Hregd _] & _). cbn [fst snd] in *.
  cbv zeta. apply succeeds_bind.
  eapply succeeds_weaken; [apply gen_extendables_spec|].
  intros [[extendables req_ext_names] prov_ext_names] w2 (kindss & Hl & Hk & Hr & _).
  injection Hr as -> -> ->. apply succeeds_bind.
  eapply succeeds_weaken; [apply parse_req_exts_spec; exact Hl|].
  intros req_ext_fields w3 _. apply succeeds_bind.
  eapply succeeds_weaken.
  { apply (succeeds_fold_M (range num_blueprints) _ _
             (fun done s _ =>
                exists items,
                  fst s = ("Blueprints for " +:+ quoted "SLO") :: items
                  /\ Forall2 (fun i item =>
                                exists b,
                                  item = join newline (item_lines b)
                                  /\ item_shape (blueprint_name i)
                                                (map req_name (range num_req_ext))
                                                (map prov_name (range num_prov_ext))
                                                complexity b)
                             done items)).
    - exists nil. split; [reflexivity | constructor].
    - intros done [bp_lines blueprint_fields] i rest w4 _ (items & Hlines & Hitems).
      cbn [fst] in *. cbv zeta. apply succeeds_bind. unfold gen_blueprint_item.
      apply succeeds_bind. eapply succeeds_weaken; [apply build_blueprint_item_shape|].
      intros b w5 [Hb _]. apply succeeds_ret, succeeds_ret. cbn [fst].
      exists (items ++ join newline (item_lines b) :: nil). split.
      + rewrite Hlines. reflexivity.
      + apply Forall2_app; [exact Hitems|]. constructor; [|constructor].
        exists b. split; [reflexivity | exact Hb]. }
  intros [bp_lines blueprint_fields] w4 (items & Hlines & Hitems). cbn [fst] in *.
  apply succeeds_ret. cbn [fst]. exists aliases, kindss, items.
  split; [|split; [|split; [exact Hl|split; [exact Hk | exact Hitems]]]].
  - unfold sections. rewrite Hlines.
    destruct aliases, (requires_texts num_req_ext kindss
                       ++ map provides_text (range num_prov_ext)); reflexivity.
  - eapply Forall2_impl; [exact Hregd|]. intros i line (d & Hd & Hline & _). eauto.
Qed.

(** X19: the text of a blueprint file. What [gen_blueprints_file] returns
    as content is its sections joined by an empty line and ended by a line
    end: the definitions of the aliases, one by line, when there is one;
    the extendables, the Requires ones before the Provides ones, when there
    is one; and the line [Blueprints for "SLO"] followed by the blueprints
    in the order of their names, each with the header and the shape of
    [gen_blueprint_item]. *)
Theorem blueprints_file_text (num_blueprints : Z) (complexity : string)
    (num_aliases num_req_ext num_prov_ext : Z) (w : world G) :
  exists (aliases : list string) (kindss : list (list kind)) (items : list string)
         (blueprint_fields : gmap string (list (string * string))) (w' : world G),
    gen_blueprints_file num_blueprints complexity num_aliases num_req_ext num_prov_ext w
    = Return ((join (newline +:+ newline)
                    (sections aliases
                              (requires_texts num_req_ext kindss
                               ++ map provides_text (range num_prov_ext))
                              items) +:+ newline,
               map blueprint_name (range num_blueprints), blueprint_fields), w')
    /\ Forall2 (fun i line =>
                  exists d, alias_descriptor d
                            /\ line = alias_name i +:+ " (Type): " +:+ render d)
               (range num_aliases) aliases
    /\ len kindss = Z.max 0 num_req_ext
    /\ Forall (fun kinds => 1 <= len kinds <= 3) kindss
    /\ Forall2 (fun i item =>
                  exists b,
                    item = join newline (item_lines b)
                    /\ item_header b
                       = "  * " +:+ quoted (blueprint_name i)
                         +:+ match item_extends b with
                             | nil => ""
                             | _ => " extends [" +:+ join ", " (item_extends b) +:+ "]"
                             end +:+ ":"
                    /\ extends_ok (map req_name (range num_req_ext))
                                  (map prov_name (range num_prov_ext)) (item_extends b)
                    /\ fst (field_bounds complexity) <= len (item_fields b)
                       <= snd (field_bounds complexity))
               (range num_blueprints) items.
Proof.
  destruct (gen_blueprints_file_text num_blueprints complexity num_aliases num_req_ext
                                     num_prov_ext w)
    as ([[content names] blueprint_fields] & w' & E & aliases & kindss & items
        & Hcontent & Haliases & Hl & Hk & Hitems).
  cbn [fst] in Hcontent. subst content.
  destruct (gen_blueprints_file_spec num_blueprints complexity num_aliases num_req_ext
                                     num_prov_ext w)
    as (r' & w'' & E' & Hnames & _).
  rewrite E in E'. injection E' as <- <-. cbn [fst snd] in Hnames. subst names.
  exists aliases, kindss, items, blueprint_fields, w'. split; [exact E|].
  split; [exact Haliases|]. split.
  { unfold len. rewrite Hl. apply length_range_max. }
  split; [exact Hk|].
  eapply Forall2_impl; [exact Hitems|].
  intros i item (b & Hitem & Hext & Hhead & Hn & _). exists b. auto.
Qed.

End Item.

End BlueprintItem.

(** ** The blueprints of a team *)
Module Teams.
Import Py GenerateCorpus StringFacts RefinementTypes.
Local Open Scope py_scope.

Lemma In_dedupe (x : string) (names seen : list string) :
  In x (dedupe names seen) <-> In x names /\ ~ In x seen.
Proof.
  revert seen. induction names as [|n names IH]; intros seen; simpl; [tauto|].
  destruct (mem n seen) eqn:E.
  - apply mem_In in E. rewrite IH. split; [tauto|].
    intros [[->|Hx] Hs]; [contradiction | tauto].
  - assert (Hn : ~ In n seen) by (rewrite <- mem_In; congruence).
    simpl. rewrite IH. simpl. destruct (string_dec n x) as [->|Hne]; [tauto|].
    split; [tauto|]. intros [[?|?] ?]; [contradiction | tauto].
Qed.

Lemma dedupe_distinct (names seen : list string) : List.NoDup (dedupe names seen).
Proof.
  revert seen. induction names as [|n names IH]; intros seen; simpl; [constructor|].
  destruct (mem n seen); [apply IH|]. constructor; [|apply IH].
  rewrite In_dedupe. simpl. tauto.
Qed.

(** Names that do not repeat are all kept, in order. *)
Lemma dedupe_id (names seen : list string) :
  List.NoDup names -> (forall x, In x names -> ~ In x seen) -> dedupe names seen = names.
Proof.
  intros Hnd. revert seen. induction Hnd as [|n names Hn Hnd IH]; intros seen Hs; [reflexivity|].
  simpl. destruct (mem n seen) eqn:E.
  - apply mem_In in E. exfalso. apply (Hs n); [left; reflexivity | assumption].
  - f_equal. apply IH. intros x Hx [<-|Hin]; [contradiction|].
    apply (Hs x); [right|]; assumption.
Qed.

Lemma item_In (l : list string) (k : Z) : 0 <= k < len l -> In (item l k) l.
Proof. unfold item, len. intros Hk. apply nth_In. lia. Qed.

Lemma item_inj (l : list string) (j k : Z) :
  List.NoDup l -> 0 <= j < len l -> 0 <= k < len l -> item l j = item l k -> j = k.
Proof.
  unfold item, len. intros Hnd Hj Hk E.
  assert (Z.to_nat j = Z.to_nat k); [|lia].
  apply (proj1 (List.NoDup_nth l "") Hnd); [lia | lia | assumption].
Qed.

Lemma In_range_from (j a b : Z) : In j (range_from a b) <-> a <= j < b.
Proof.
  unfold range_from. rewrite in_map_iff. split.
  - intros (i & <- & Hi). apply in_seq in Hi. lia.
  - intros Hj. exists (Z.to_nat (j - a)). split; [lia|]. apply in_seq. lia.
Qed.

Lemma length_range_from (a b : Z) : len (range_from a b) = Z.max 0 (b - a).
Proof. unfold len, range_from. rewrite length_map, length_seq. lia. Qed.

Lemma map_distinct {A B} (f : A -> B) (l : list A) :
  (forall x y, In x l -> In y l -> f x = f y -> x = y) ->
  List.NoDup l -> List.NoDup (map f l).
Proof.
  intros Hinj. induction 1 as [|x l Hx Hnd IH]; simpl; constructor.
  - intros Hin. apply in_map_iff in Hin as (y & E & Hy).
    assert (y = x) by (apply Hinj; simpl; auto). subst. contradiction.
  - apply IH. intros a b Ha Hb. apply Hinj; simpl; auto.
Qed.

(** A window no longer than the list meets no position twice. *)
Lemma window_mod_inj (n a c j k : Z) :
  0 < n -> c <= n -> a <= j < a + c -> a <= k < a + c -> j mod n = k mod n -> j = k.
Proof.
  intros Hn Hc Hj Hk E.
  pose proof (Z.div_mod j n ltac:(lia)) as Dj. pose proof (Z.div_mod k n ltac:(lia)) as Dk.
  rewrite E in Dj.
  assert (Hq : n * (j / n - k / n) = j - k) by lia.
  assert (j / n - k / n = 0); [|lia]. nia.
Qed.

(** The number of blueprints a team takes, line 553. *)
Definition team_count (bp_names : list string) (num_orgs teams_per_org : Z) : Z :=
  Z.min (len bp_names) (Z.max 1 (len bp_names / (num_orgs * teams_per_org) + 1)).

Lemma blueprints_for_team_spec (bp_names : list string)
    (num_orgs teams_per_org org_i team_i : Z) :
  let bps := blueprints_for_team bp_names num_orgs teams_per_org org_i team_i in
  let count := team_count bp_names num_orgs teams_per_org in
  List.NoDup bps
  /\ (forall name, In name bps -> In name bp_names)
  /\ (bp_names <> nil -> bps <> nil)
  /\ len bps <= count
  /\ (List.NoDup bp_names ->
      bps = map (fun j => item bp_names (j mod len bp_names))
                (range_from ((org_i * teams_per_org + team_i) * count)
                            ((org_i * teams_per_org + team_i) * count + count))
      /\ len bps = count).
Proof.
  cbv zeta. unfold blueprints_for_team. fold (team_count bp_names num_orgs teams_per_org).
  set (count := team_count bp_names num_orgs teams_per_org).
  set (offset := (org_i * teams_per_org + team_i) * count).
  assert (Hc : 0 <= count <= len bp_names) by (unfold count, team_count, len; lia).
  assert (Hpos : bp_names <> nil -> 0 < count).
  { intros Hne. unfold count, team_count, len. destruct bp_names; [congruence | simpl; lia]. }
  split; [apply dedupe_distinct|]. split; [|split; [|split]].
  - intros name Hin. apply In_dedupe in Hin as [Hin _].
    apply in_map_iff in Hin as (j & <- & Hj). apply In_range_from in Hj.
    apply item_In, Z.mod_pos_bound. lia.
  - intros Hne Hnil. specialize (Hpos Hne).
    assert (Hin : In (item bp_names (offset mod len bp_names))
                     (dedupe (map (fun j => item bp_names (j mod len bp_names))
                                  (range_from offset (offset + count))) nil)).
    { apply In_dedupe. split; [|intros []].
      apply in_map_iff. exists offset. split; [reflexivity|]. apply In_range_from. lia. }
    rewrite Hnil in Hin. destruct Hin.
  - assert (Hle : forall names seen, len (dedupe names seen) <= len names).
    { unfold len. induction names as [|n names IH]; intros seen; simpl; [lia|].
      pose proof (IH seen). pose proof (IH (n :: seen)).
      destruct (mem n seen); simpl; lia. }
    etransitivity; [apply Hle|]. unfold len at 1.
    rewrite length_map. fold (len (range_from offset (offset + count))).
    rewrite length_range_from. lia.
  - intros Hnd.
    assert (E : dedupe (map (fun j => item bp_names (j mod len bp_names))
                            (range_from offset (offset + count))) nil
                = map (fun j => item bp_names (j mod len bp_names))
                      (range_from offset (offset + count))).
    { apply dedupe_id; [|intros x _ []].
      apply map_distinct; [|apply range_from_distinct].
      intros j k Hj Hk Ejk. apply In_range_from in Hj, Hk.
      assert (Hn : 0 < len bp_names) by lia.
      apply (window_mod_inj (len bp_names) offset count); try lia.
      apply (item_inj bp_names); [assumption | | | assumption];
        apply Z.mod_pos_bound; assumption. }
    split; [exact E|]. rewrite E. unfold len at 1. rewrite length_map.
    fold (len (range_from offset (offset + count))). rewrite length_range_from. lia.
Qed.

(** X20: with at least one team (the division of line 553 is by the number
    of teams), the blueprints of a team are blueprint names, none twice; a
    team has a blueprint as soon as there is one; and when the names of the
    blueprints are distinct, the team has exactly the window of
    min(len, max(1, len // (orgs * teams) + 1)) names that starts at its
    offset and wraps around the end of the list. *)
Theorem blueprints_for_team_window (bp_names : list string)
    (num_orgs teams_per_org org_i team_i : Z) :
  num_orgs * teams_per_org <> 0 ->
  let bps := blueprints_for_team bp_names num_orgs teams_per_org org_i team_i in
  let count := team_count bp_names num_orgs teams_per_org in
  List.NoDup bps
  /\ (forall name, In name bps -> In name bp_names)
  /\ (bp_names <> nil -> bps <> nil)
  /\ len bps <= count
  /\ (List.NoDup bp_names ->
      bps = map (fun j => item bp_names (j mod len bp_names))
                (range_from ((org_i * teams_per_org + team_i) * count)
                            ((org_i * teams_per_org + team_i) * count + count))
      /\ len bps = count).
Proof. intros _. apply blueprints_for_team_spec. Qed.

(** Five blueprints and the second team of the second of two organizations
    of two teams: two names from position 6, that is 1 and 2. *)
Definition five_names : list string := "a" :: "b" :: "c" :: "d" :: "e" :: nil.

Lemma blueprints_for_team_window_witness :
  List.NoDup (blueprints_for_team five_names 2 2 1 1)
  /\ (forall name, In name (blueprints_for_team five_names 2 2 1 1) -> In name five_names)
  /\ (five_names <> nil -> blueprints_for_team five_names 2 2 1 1 <> nil)
  /\ len (blueprints_for_team five_names 2 2 1 1) <= team_count five_names 2 2
  /\ (List.NoDup five_names ->
      blueprints_for_team five_names 2 2 1 1
      = map (fun j => item five_names (j mod len five_names))
            (range_from ((1 * 2 + 1) * team_count five_names 2 2)
                        ((1 * 2 + 1) * team_count five_names 2 2 + team_count five_names 2 2))
      /\ len (blueprints_for_team five_names 2 2 1 1) = team_count five_names 2 2).
Proof. apply (blueprints_for_team_window five_names 2 2 1 1). lia. Defined.

End Teams.

(** ** A generation pass, for every profile *)
Module Scale.
Import Py GenerateCorpus Tape StringFacts GenerateCorpusFacts BlueprintFacts Returns Types.
Import Synthesis Grammar RefinementTypes Numerals Loops Aliases Frames Extendables.
Import BlueprintFile Teams.
Local Open Scope py_scope.

(** The path of the file of a team, lines 546 to 549 and 567. *)
Definition team_path (exp_dir : string) (team : Z * Z) : string :=
  path_join (path_join (path_join exp_dir (item ORGS (fst team mod len ORGS)))
                       (item TEAMS (snd team mod len TEAMS)))
            "slos.caffeine".

(** What is written to the file of a team, line 569. *)
Definition team_text (parts : list (string * list expectation)) : string :=
  join newline (map (fun '(bp_name, es) => expectation_file_text bp_name es) parts).

(** The teams in the order of the two loops of lines 545 and 547. *)
Definition team_indices (cfg : config) : list (Z * Z) :=
  flat_map (fun org_i => map (fun team_i => (org_i, team_i)) (range (teams_per_org cfg)))
           (range (num_orgs cfg)).

(** The expectations of one blueprint in a team file: one for each index
    below [exp_per], named after the team, the blueprint and the index, with
    a value for each field of the blueprint, in order. *)
Definition expectations_ok (bp_fields : gmap string (list (string * string)))
    (exp_per : Z) (team_name : string) (bp_name : string)
    (part : string * list expectation) : Prop :=
  fst part = bp_name
  /\ exists fields,
       bp_fields !! bp_name = Some fields
       /\ Forall2 (fun i e =>
                     exp_name e = team_name +:+ "_" +:+ bp_name +:+ "_" +:+ str_Z i
                     /\ map fst (exp_values e) = map fst fields)
                  (range exp_per) (snd part).

(** Every blueprint has its fields, of types the synthesizer reads. *)
Definition fields_known (registry : gmap string string) (bp_names : list string)
    (bp_fields : gmap string (list (string * string))) : Prop :=
  forall name, In name bp_names ->
    exists fields, bp_fields !! name = Some fields /\ fields_ok registry fields.

(** A plain name, one component of a relative path: not empty, not [.] or
    [..], with no separator and no NUL, and of 255 characters at most, the
    longest name a file system takes. For such a [b], [os.path.join(a, b)]
    is [path_join a b], a path below [a]; for an absolute [b] it would be [b]
    itself, and [..] would name the directory above [a]. *)
Definition plain_name (name : string) : bool :=
  negb (String.eqb name "") && negb (String.eqb name ".") && negb (String.eqb name "..")
  && negb (has_char "/" name) && negb (has_char "000" name)
  && Nat.leb (String.length name) 255.

(** The path of a directory, relative or from the root: plain names joined
    by single separators, 512 characters at most. [CORPUS_DIR], the
    directory [corpus] next to the script, is such a path. *)
Definition plain_path (dir : string) : bool :=
  Nat.leb (String.length dir) 512
  && match split_char "/" dir with
     | first :: rest =>
         forallb plain_name rest
         && (plain_name first || (String.eqb first "" && negb (Nat.eqb (List.length rest) 0)))
     | nil => false
     end.

(** No regular file stands at the directory [dir] or at a directory above
    it; where one does, [shutil.rmtree] and [os.makedirs] raise
    ([NotADirectoryError], [FileExistsError]). *)
Definition no_file_above (dir : string) (fs : gmap string string) : Prop :=
  forall path, startswith (path +:+ "/") (dir +:+ "/") = true -> fs !! path = None.

(** The disk after the files of the teams [ts] are written, in order. *)
Definition written (exp_dir : string) (fs : gmap string string)
    (ts : list ((Z * Z) * list (string * list expectation))) : gmap string string :=
  fold_left (fun fs t => <[team_path exp_dir (fst t) := team_text (snd t)]> fs) ts fs.

Lemma written_app (exp_dir : string) (fs : gmap string string)
    (ts1 ts2 : list ((Z * Z) * list (string * list expectation))) :
  written exp_dir fs (ts1 ++ ts2) = written exp_dir (written exp_dir fs ts1) ts2.
Proof. apply fold_left_app. Qed.

Lemma combine_snoc {A B} (xs : list A) (ys : list B) (x : A) (y : B) :
  List.length xs = List.length ys ->
  combine (xs ++ x :: nil) (ys ++ y :: nil) = combine xs ys ++ (x, y) :: nil.
Proof.
  revert ys. induction xs as [|a xs IH]; intros [|b ys] E; simpl in *; try discriminate.
  - reflexivity.
  - rewrite IH by congruence. reflexivity.
Qed.

Section Scale.

Context {G : Type} `{RandomSource G}.

Lemma gen_expectation_returns (fuel : nat) (bp : string) (fields : list (string * string))
    (team : string) (i : Z) (w : world G) :
  fields_ok (alias_registry w) fields ->
  succeeds (gen_expectation (S (S fuel)) bp fields team i) w
    (fun e w' => (exp_name e = team +:+ "_" +:+ bp +:+ "_" +:+ str_Z i
                  /\ map fst (exp_values e) = map fst fields)
                 /\ same_store w w').
Proof.
  intros Hfields. unfold gen_expectation. apply succeeds_bind.
  eapply succeeds_weaken.
  { apply (succeeds_for_each fields _ (same_store w) (fun f fv => fst fv = fst f));
      [apply same_store_refl|].
    intros [fname ftype] w1 Hin Hs1. unfold fields_ok in Hfields.
    rewrite List.Forall_forall in Hfields. specialize (Hfields _ Hin). simpl in Hfields.
    apply succeeds_bind. eapply succeeds_weaken.
    { apply synth_field_type. destruct Hs1 as [-> _]. exact Hfields. }
    intros val w2 Hs2. apply succeeds_ret.
    split; [reflexivity | eapply same_store_trans; eassumption]. }
  intros values w1 [HF Hs1].
  apply succeeds_bind, succeeds_draw. intros w2 _ Hs2.
  apply succeeds_bind, succeeds_choice; [discriminate|]. intros window w3 _ Hs3.
  apply succeeds_ret. split; [split; [reflexivity|]|].
  - simpl. clear -HF. induction HF as [|f fv fs fvs E _ IH]; [reflexivity|].
    simpl. rewrite E, IH. reflexivity.
  - eapply same_store_trans; [|exact Hs3]. eapply same_store_trans; eassumption.
Qed.

Lemma gen_expectations_returns (fuel : nat) (bp : string)
    (fields : list (string * string)) (count : Z) (team : string) (w : world G) :
  fields_ok (alias_registry w) fields ->
  succeeds (gen_expectations (S (S fuel)) bp fields count team) w
    (fun es w' =>
       Forall2 (fun i e => exp_name e = team +:+ "_" +:+ bp +:+ "_" +:+ str_Z i
                           /\ map fst (exp_values e) = map fst fields)
               (range count) es
       /\ same_store w w').
Proof.
  intros Hfields. unfold gen_expectations.
  apply (succeeds_for_each (range count) _ (same_store w)); [apply same_store_refl|].
  intros i w1 _ Hs1. eapply succeeds_weaken.
  { apply gen_expectation_returns. destruct Hs1 as [-> _]. exact Hfields. }
  intros e w2 [He Hs2]. split; [exact He | eapply same_store_trans; eassumption].
Qed.

Lemma gen_team_expectations_returns (fuel : nat)
    (bp_fields : gmap string (list (string * string))) (exp_per : Z)
    (team_name : string) (bps_for_team : list string) (w : world G) :
  fields_known (alias_registry w) bps_for_team bp_fields ->
  succeeds (gen_team_expectations (S (S fuel)) bp_fields exp_per team_name bps_for_team) w
    (fun parts w' =>
       Forall2 (expectations_ok bp_fields exp_per team_name) bps_for_team parts
       /\ same_store w w').
Proof.
  intros Hknown. unfold gen_team_expectations.
  apply (succeeds_for_each bps_for_team _ (same_store w)); [apply same_store_refl|].
  intros bp_name w1 Hin Hs1. destruct (Hknown bp_name Hin) as (fields & Hget & Hok).
  apply succeeds_bind. rewrite Hget. apply succeeds_lift.
  apply succeeds_bind. eapply succeeds_weaken.
  { apply gen_expectations_returns. destruct Hs1 as [-> _]. exact Hok. }
  intros es w2 [Hes Hs2]. apply succeeds_ret. split.
  - split; [reflexivity|]. exists fields. split; assumption.
  - eapply same_store_trans; eassumption.
Qed.

Lemma gen_team_returns (fuel : nat) (exp_dir : string) (bp_names : list string)
    (bp_fields : gmap string (list (string * string))) (cfg : config) (team : Z * Z)
    (w : world G) :
  fields_known (alias_registry w) bp_names bp_fields ->
  succeeds (gen_team (S (S fuel)) exp_dir bp_names bp_fields cfg (fst team) (snd team)) w
    (fun parts w' =>
       Forall2 (expectations_ok bp_fields (expectations_per_team_blueprint cfg)
                                (item TEAMS (snd team mod len TEAMS)))
               (blueprints_for_team bp_names (num_orgs cfg) (teams_per_org cfg)
                                    (fst team) (snd team))
               parts
       /\ alias_registry w' = alias_registry w
       /\ files w' = <[team_path exp_dir team := team_text parts]> (files w)).
Proof.
  intros Hknown. unfold gen_team. cbv zeta. apply succeeds_bind.
  eapply succeeds_weaken.
  { apply gen_team_expectations_returns. intros name Hin. apply Hknown.
    apply (blueprints_for_team_spec bp_names (num_orgs cfg) (teams_per_org cfg)
                                    (fst team) (snd team)), Hin. }
  intros parts w1 [Hparts [Hr1 Hf1]]. apply succeeds_bind.
  eexists tt, _. split; [reflexivity|]. apply succeeds_ret. cbn [alias_registry files].
  split; [exact Hparts|]. split; [exact Hr1|]. rewrite Hf1. reflexivity.
Qed.

(** The directory [CORPUS_DIR], next to the script. *)
Variable CORPUS_DIR : string.

Definition scale_dir (scale_name : string) : string := path_join CORPUS_DIR scale_name.
Definition bp_file (scale_name : string) : string :=
  path_join (scale_dir scale_name) "blueprints.caffeine".
Definition exp_dir (scale_name : string) : string :=
  path_join (scale_dir scale_name) "expectations".

(** The disk once the directory of the scale is removed. *)
Definition cleared (scale_name : string) (fs : gmap string string) : gmap string string :=
  filter (fun kv => under (scale_dir scale_name) (fst kv) = false) fs.

Lemma team_path_not_bp_file (scale_name : string) (team : Z * Z) :
  team_path (exp_dir scale_name) team <> bp_file scale_name.
Proof.
  unfold team_path, exp_dir, bp_file, path_join. rewrite !append_assoc. intros E.
  apply (String.app_inj (scale_dir scale_name)) in E. discriminate E.
Qed.

Lemma written_other (dir : string) (fs : gmap string string)
    (ts : list ((Z * Z) * list (string * list expectation))) (path : string) :
  (forall t, In t ts -> team_path dir (fst t) <> path) ->
  written dir fs ts !! path = fs !! path.
Proof.
  revert fs. induction ts as [|t ts IH]; intros fs Hp; [reflexivity|].
  unfold written in *. simpl. rewrite IH by (intros t' Ht'; apply Hp; right; assumption).
  apply lookup_insert_ne, Hp. left. reflexivity.
Qed.

(** What a pass gives: the expectations of each team, the disk, the registry
    and the statistics. *)
Definition scale_outcome (scale_name : string) (cfg : config) (w : world G)
    (r : stats * list (list (string * list expectation))) (w' : world G) : Prop :=
  exists (content : string) (bp_fields : gmap string (list (string * string))),
    (forall name, bp_fields !! name <> None
                  <-> In name (map blueprint_name (range (num_blueprints cfg))))
    /\ (forall name fields,
           bp_fields !! name = Some fields ->
           fields_ok (alias_registry w') fields
           /\ exists ftype rest, fields = (param name 0, ftype) :: rest)
    /\ Forall2 (fun team parts =>
                  Forall2 (expectations_ok bp_fields (expectations_per_team_blueprint cfg)
                                           (item TEAMS (snd team mod len TEAMS)))
                          (blueprints_for_team
                             (map blueprint_name (range (num_blueprints cfg)))
                             (num_orgs cfg) (teams_per_org cfg) (fst team) (snd team))
                          parts)
               (team_indices cfg) (snd r)
    /\ files w' = written (exp_dir scale_name)
                          (<[bp_file scale_name := content]> (cleared scale_name (files w)))
                          (combine (team_indices cfg) (snd r))
    /\ (forall name, alias_registry w' !! name <> None
                     <-> In name (map alias_name (range (num_aliases cfg))))
    /\ fst r
       = {| scale := scale_name;
            blueprints := num_blueprints cfg;
            blueprint_file_size := Z.of_nat (String.length content);
            expectations_total :=
              fold_left (fun total parts =>
                           total + expectations_per_team_blueprint cfg * len parts)
                        (snd r) 0;
            expectation_files := Z.of_nat (size (walk (exp_dir scale_name) (files w')));
            expectations_dir_size :=
              map_fold (fun _ content total => Z.of_nat (String.length content) + total)
                       0 (walk (exp_dir scale_name) (files w'));
            total_size :=
              Z.of_nat (String.length content)
              + map_fold (fun _ content total => Z.of_nat (String.length content) + total)
                         0 (walk (exp_dir scale_name) (files w')) |}.

Lemma generate_scale_spec (fuel : nat) (scale_name : string) (cfg : config) (w : world G) :
  succeeds (generate_scale CORPUS_DIR (S (S fuel)) scale_name cfg) w
           (scale_outcome scale_name cfg w).
Proof.
  unfold generate_scale. cbv zeta.
  fold (scale_dir scale_name). fold (bp_file scale_name). fold (exp_dir scale_name).
  apply succeeds_bind. eexists tt, _. split; [reflexivity|].
  apply succeeds_bind. eapply succeeds_weaken; [apply gen_blueprints_file_spec|].
  intros [[content names] bp_fields] w1 (Hnames & Hdom & Hok & Hreg & Hf1).
  cbn [fst snd files] in *. subst names.
  apply succeeds_bind. eexists tt, _. split; [reflexivity|].
  apply succeeds_bind.
  fold (team_indices cfg).
  set (w2 := World (rng w1) (alias_registry w1) (<[bp_file scale_name := content]> (files w1))).
  assert (Hknown : fields_known (alias_registry w1)
                     (map blueprint_name (range (num_blueprints cfg))) bp_fields).
  { intros name Hin. apply Hdom in Hin.
    destruct (bp_fields !! name) as [fields|] eqn:E; [|congruence].
    exists fields. split; [reflexivity|]. apply (Hok name fields E). }
  eapply succeeds_weaken.
  { apply (succeeds_for_each_acc (team_indices cfg) _
             (fun done results w3 =>
                Forall2 (fun team parts =>
                  Forall2 (expectations_ok bp_fields (expectations_per_team_blueprint cfg)
                                           (item TEAMS (snd team mod len TEAMS)))
                          (blueprints_for_team
                             (map blueprint_name (range (num_blueprints cfg)))
                             (num_orgs cfg) (teams_per_org cfg) (fst team) (snd team))
                          parts) done results
                /\ alias_registry w3 = alias_registry w1
                /\ files w3 = written (exp_dir scale_name) (files w2) (combine done results))).
    - split; [constructor|]. split; reflexivity.
    - intros done results [org_i team_i] rest w3 _ (Hdone & Hr3 & Hf3).
      eapply succeeds_weaken.
      { apply (gen_team_returns fuel (exp_dir scale_name) _ bp_fields cfg (org_i, team_i)).
        rewrite Hr3. exact Hknown. }
      intros parts w4 (Hparts & Hr4 & Hf4). split; [|split].
      + apply Forall2_app; [assumption|]. constructor; [exact Hparts | constructor].
      + congruence.
      + rewrite combine_snoc by (eapply Forall2_length; eassumption).
        rewrite written_app, <- Hf3. exact Hf4. }
  intros teams w3 (Hteams & Hr3 & Hf3).
  assert (Hbp : files w3 !! bp_file scale_name = Some content).
  { rewrite Hf3, written_other.
    - apply lookup_insert_eq.
    - intros t _. apply team_path_not_bp_file. }
  apply succeeds_bind. eexists _, _. split; [unfold getsize; rewrite Hbp; reflexivity|].
  apply succeeds_bind. eexists _, _. split; [reflexivity|].
  apply succeeds_bind. eexists _, _. split; [reflexivity|].
  apply succeeds_ret. exists content, bp_fields. cbn [fst snd].
  split; [exact Hdom|]. split; [rewrite Hr3; exact Hok|]. split; [exact Hteams|].
  split; [rewrite Hf3; unfold w2; cbn [files]; rewrite Hf1; reflexivity|].
  split; [rewrite Hr3; exact Hreg | reflexivity].
Qed.

(** The expectations a pass generated, over all teams and blueprints. *)
Definition generated_expectations (teams : list (list (string * list expectation)))
    : list expectation :=
  flat_map (fun parts => flat_map snd parts) teams.

Lemma length_team_indices (cfg : config) :
  len (team_indices cfg) = Z.max 0 (num_orgs cfg) * Z.max 0 (teams_per_org cfg).
Proof.
  unfold team_indices, len.
  rewrite (flat_map_constant_length (c := List.length (range (teams_per_org cfg)))).
  - pose proof (length_range_max (num_orgs cfg)) as Ho.
    pose proof (length_range_max (teams_per_org cfg)) as Ht. unfold len in *. lia.
  - intros org_i _. apply length_map.
Qed.

Lemma total_of_parts (exp_per : Z) (teams : list (list (string * list expectation)))
    (start : Z) :
  fold_left (fun total parts => total + exp_per * len parts) teams start
  = start + exp_per * len (concat teams).
Proof.
  revert start. induction teams as [|parts teams IH]; intros start; simpl.
  - unfold len. simpl. lia.
  - rewrite IH. unfold len. rewrite length_app. lia.
Qed.

Lemma expectations_of_part (bp_fields : gmap string (list (string * string)))
    (exp_per : Z) (team_name bp_name : string) (part : string * list expectation) :
  expectations_ok bp_fields exp_per team_name bp_name part ->
  len (snd part) = Z.max 0 exp_per.
Proof.
  intros (_ & fields & _ & Hes). unfold len. rewrite <- (Forall2_length _ _ _ Hes).
  apply length_range_max.
Qed.

(** X21: the reported total is the number of expectations generated.
    For a corpus directory and a scale name that are plain and a disk with
    no regular file at the scale directory or above it, [generate_scale]
    returns for every profile, from every state of the random source and
    the registry and whatever else the disk holds: no blueprint name is
    missing from the fields ([KeyError]) and no field type is beyond the
    synthesizer. Each team takes the blueprints
    of [blueprints_for_team], each of them gets [range(exp_per)]
    expectations, and [expectations_total] adds [exp_per] for each of them;
    so with a number of expectations per blueprint that is not negative it
    counts the expectations generated. *)
Theorem generate_scale_counts (fuel : nat) (scale_name : string) (cfg : config)
    (w : world G) :
  plain_path CORPUS_DIR = true ->
  plain_name scale_name = true ->
  no_file_above (scale_dir scale_name) (files w) ->
  exists (st : stats) (teams : list (list (string * list expectation))) (w' : world G),
    generate_scale CORPUS_DIR (S (S fuel)) scale_name cfg w = Return ((st, teams), w')
    /\ scale st = scale_name
    /\ blueprints st = num_blueprints cfg
    /\ expectations_total st = expectations_per_team_blueprint cfg * len (concat teams)
    /\ (0 <= expectations_per_team_blueprint cfg ->
        expectations_total st = len (generated_expectations teams))
    /\ total_size st = blueprint_file_size st + expectations_dir_size st
    /\ Forall2 (fun team parts =>
                  map fst parts
                  = blueprints_for_team (map blueprint_name (range (num_blueprints cfg)))
                                        (num_orgs cfg) (teams_per_org cfg)
                                        (fst team) (snd team)
                  /\ Forall (fun part =>
                               len (snd part)
                               = Z.max 0 (expectations_per_team_blueprint cfg))
                            parts)
               (team_indices cfg) teams.
Proof.
  intros _ _ _.
  destruct (generate_scale_spec fuel scale_name cfg w)
    as ([st teams] & w' & E & content & bp_fields & _ & _ & Hteams & _ & _ & Hst).
  cbn [fst snd] in *. exists st, teams, w'. split; [exact E|]. subst st.
  cbn [scale blueprints expectations_total total_size blueprint_file_size
       expectations_dir_size].
  split; [reflexivity|]. split; [reflexivity|].
  assert (Hparts : Forall (Forall (fun part =>
            len (snd part) = Z.max 0 (expectations_per_team_blueprint cfg))) teams).
  { clear -Hteams. induction Hteams as [|team parts ts ps Hp _ IH]; constructor; [|exact IH].
    clear -Hp. induction Hp as [|name part ns ps Hpart _ IH]; constructor; [|exact IH].
    apply (expectations_of_part _ _ _ _ _ Hpart). }
  split; [rewrite total_of_parts; lia|].
  split; [|split; [reflexivity|]].
  - intros Hper. rewrite total_of_parts. unfold generated_expectations. clear -Hparts Hper.
    induction Hparts as [|parts teams Hp _ IH]; [unfold len; simpl; lia|].
    simpl. unfold len in *. rewrite !length_app, !Nat2Z.inj_add.
    assert (Hl : Z.of_nat (List.length (flat_map snd parts))
                 = expectations_per_team_blueprint cfg * Z.of_nat (List.length parts)).
    { clear -Hp Hper. induction Hp as [|part parts Hpart _ IH]; simpl; [lia|].
      rewrite length_app. lia. }
    lia.
  - clear -Hteams Hparts. induction Hteams as [|team parts ts ps Hp _ IH]; constructor.
    + split; [|inversion Hparts; assumption].
      clear -Hp. induction Hp as [|name part ns ps [Hn _] _ IH]; [reflexivity|].
      simpl. rewrite Hn, IH. reflexivity.
    + apply IH. inversion Hparts; assumption.
Qed.

(** The number of blueprints of each team of a profile, line 553. *)
Definition blueprints_per_team (cfg : config) : Z :=
  let n := Z.max 0 (num_blueprints cfg) in
  Z.min n (Z.max 1 (n / (num_orgs cfg * teams_per_org cfg) + 1)).

Lemma total_formula (scale_name : string) (cfg : config) (w : world G)
    (r : stats * list (list (string * list expectation))) (w' : world G) :
  scale_outcome scale_name cfg w r w' ->
  expectations_total (fst r)
  = Z.max 0 (num_orgs cfg) * Z.max 0 (teams_per_org cfg)
    * blueprints_per_team cfg * expectations_per_team_blueprint cfg.
Proof.
  intros (content & bp_fields & _ & _ & Hteams & _ & _ & ->).
  cbn [expectations_total]. rewrite total_of_parts, <- length_team_indices.
  assert (Hl : len (concat (snd r)) = len (team_indices cfg) * blueprints_per_team cfg);
    [|rewrite Hl; lia].
  induction Hteams as [|team parts ts ps Hp _ IH]; [reflexivity|].
  simpl. unfold len in *. rewrite length_app. cbn [List.length].
  rewrite Nat2Z.inj_add, Nat2Z.inj_succ, IH.
  assert (Hparts : Z.of_nat (List.length parts) = blueprints_per_team cfg); [|lia].
  rewrite <- (Forall2_length _ _ _ Hp).
  destruct (blueprints_for_team_spec (map blueprint_name (range (num_blueprints cfg)))
              (num_orgs cfg) (teams_per_org cfg) (fst team) (snd team))
    as (_ & _ & _ & _ & Hcount).
  destruct (Hcount (blueprint_names_NoDup (num_blueprints cfg))) as [_ Hlen].
  unfold len in Hlen. rewrite Hlen. unfold team_count, blueprints_per_team, len.
  rewrite length_map. fold (len (range (num_blueprints cfg))).
  rewrite length_range_max. reflexivity.
Qed.

(** X22: the total of expectations of a profile is the product of the number
    of organizations, of teams by organization, of blueprints by team and of
    expectations by blueprint, where a team takes
    min(n, max(1, n // (orgs * teams) + 1)) of the n blueprints: the names of
    the blueprints are distinct, so no team loses one to the deduplication. *)
Theorem expectations_total_formula (fuel : nat) (scale_name : string) (cfg : config)
    (w : world G) :
  exists (st : stats) (teams : list (list (string * list expectation))) (w' : world G),
    generate_scale CORPUS_DIR (S (S fuel)) scale_name cfg w = Return ((st, teams), w')
    /\ len teams = Z.max 0 (num_orgs cfg) * Z.max 0 (teams_per_org cfg)
    /\ Forall (fun parts => len parts = blueprints_per_team cfg) teams
    /\ expectations_total st
       = Z.max 0 (num_orgs cfg) * Z.max 0 (teams_per_org cfg)
         * blueprints_per_team cfg * expectations_per_team_blueprint cfg.
Proof.
  destruct (generate_scale_spec fuel scale_name cfg w) as ([st teams] & w' & E & Hout).
  exists st, teams, w'. split; [exact E|].
  pose proof (total_formula _ _ _ _ _ Hout) as Htotal.
  destruct Hout as (content & bp_fields & _ & _ & Hteams & _). cbn [fst snd] in *.
  split; [|split; [|exact Htotal]].
  - rewrite <- length_team_indices. unfold len.
    rewrite (Forall2_length _ _ _ Hteams). reflexivity.
  - clear -Hteams. induction Hteams as [|team parts ts ps Hp _ IH]; constructor; [|exact IH].
    unfold len. rewrite <- (Forall2_length _ _ _ Hp).
    destruct (blueprints_for_team_spec (map blueprint_name (range (num_blueprints cfg)))
                (num_orgs cfg) (teams_per_org cfg) (fst team) (snd team))
      as (_ & _ & _ & _ & Hcount).
    destruct (Hcount (blueprint_names_NoDup (num_blueprints cfg))) as [_ Hlen].
    unfold len in Hlen. rewrite Hlen. unfold team_count, blueprints_per_team, len.
    rewrite length_map. fold (len (range (num_blueprints cfg))).
    rewrite length_range_max. reflexivity.
Qed.

End Scale.

(** The profile "medium" from a short tape. *)
Definition medium : config := Build_config 5 "medium" 2 1 1 2 2 3.

Lemma generate_scale_counts_witness :
  exists (st : stats) (teams : list (list (string * list expectation)))
         (w' : world Tape.tape),
    generate_scale "corpus" 2 "medium" medium (Tape.start (3 :: 1 :: 4 :: nil))
    = Return ((st, teams), w')
    /\ scale st = "medium"
    /\ blueprints st = num_blueprints medium
    /\ expectations_total st = expectations_per_team_blueprint medium * len (concat teams)
    /\ (0 <= expectations_per_team_blueprint medium ->
        expectations_total st = len (generated_expectations teams))
    /\ total_size st = blueprint_file_size st + expectations_dir_size st
    /\ Forall2 (fun team parts =>
                  map fst parts
                  = blueprints_for_team (map blueprint_name (range (num_blueprints medium)))
                                        (num_orgs medium) (teams_per_org medium)
                                        (fst team) (snd team)
                  /\ Forall (fun part =>
                               len (snd part)
                               = Z.max 0 (expectations_per_team_blueprint medium))
                            parts)
               (team_indices medium) teams.
Proof.
  apply (generate_scale_counts "corpus" 0 "medium" medium (Tape.start (3 :: 1 :: 4 :: nil))).
  - reflexivity.
  - reflexivity.
  - intros path _. reflexivity.
Defined.

End Scale.

(** ** The disk after a generation pass *)
Module Disk.
Import Py GenerateCorpus Tape StringFacts GenerateCorpusFacts Returns.
Import Loops Extendables BlueprintFile Teams Determinism Scale.
Local Open Scope py_scope.

Lemma prefix_cancel (a b c : string) : String.prefix (a +:+ b) (a +:+ c) = String.prefix b c.
Proof.
  induction a as [|x a IH]; [reflexivity|]. cbn [String.append String.prefix].
  destruct (ascii_dec x x) as [_|Hne]; [exact IH | congruence].
Qed.

(** The path of a team below the directory of the expectations. *)
Definition team_file (team : Z * Z) : string :=
  item ORGS (fst team mod len ORGS) +:+ "/" +:+ item TEAMS (snd team mod len TEAMS)
  +:+ "/" +:+ "slos.caffeine".

Lemma team_path_file (dir : string) (team : Z * Z) :
  team_path dir team = dir +:+ "/" +:+ team_file team.
Proof. unfold team_path, team_file, path_join. rewrite !append_assoc. reflexivity. Qed.

(** The teams whose organization and team have a name of their own. *)
Definition named_teams (orgs teams : Z) : list (Z * Z) :=
  flat_map (fun org_i => map (fun team_i => (org_i, team_i))
                             (range (Z.min (len TEAMS) teams)))
           (range (Z.min (len ORGS) orgs)).

Definition same_team (a b : Z * Z) : bool := (fst a =? fst b) && (snd a =? snd b).

Lemma team_files_distinct :
  forallb (fun a => forallb (fun b => same_team a b
                                      || negb (String.eqb (team_file a) (team_file b)))
                            (named_teams (len ORGS) (len TEAMS)))
          (named_teams (len ORGS) (len TEAMS)) = true.
Proof. vm_compute. reflexivity. Qed.

Lemma In_named_teams (orgs teams : Z) (team : Z * Z) :
  In team (named_teams orgs teams)
  <-> 0 <= fst team < Z.min (len ORGS) orgs /\ 0 <= snd team < Z.min (len TEAMS) teams.
Proof.
  unfold named_teams. rewrite in_flat_map. split.
  - intros (o & Ho & Ht). apply in_map_iff in Ht as (t & <- & Ht).
    apply in_range_iff in Ho, Ht. simpl. lia.
  - intros [Ho Ht]. exists (fst team). split; [apply in_range_iff; lia|].
    apply in_map_iff. exists (snd team). split; [destruct team; reflexivity|].
    apply in_range_iff. lia.
Qed.

Lemma team_file_inj (a b : Z * Z) :
  0 <= fst a < len ORGS -> 0 <= snd a < len TEAMS ->
  0 <= fst b < len ORGS -> 0 <= snd b < len TEAMS ->
  team_file a = team_file b -> a = b.
Proof.
  intros Ha1 Ha2 Hb1 Hb2 E. pose proof team_files_distinct as Hall.
  rewrite forallb_forall in Hall.
  assert (Hina : In a (named_teams (len ORGS) (len TEAMS))) by (apply In_named_teams; lia).
  assert (Hinb : In b (named_teams (len ORGS) (len TEAMS))) by (apply In_named_teams; lia).
  specialize (Hall a Hina). rewrite forallb_forall in Hall. specialize (Hall b Hinb).
  rewrite E, String.eqb_refl, orb_false_r in Hall. unfold same_team in Hall.
  apply andb_prop in Hall as [H1 H2]. apply Z.eqb_eq in H1, H2.
  destruct a, b. simpl in *. congruence.
Qed.

Lemma team_file_mod (team : Z * Z) :
  team_file (fst team mod len ORGS, snd team mod len TEAMS) = team_file team.
Proof.
  unfold team_file. cbn [fst snd]. rewrite !Z.mod_mod by discriminate. reflexivity.
Qed.

(** The files of the teams of a profile are those of its named teams. *)
Lemma team_files_named (orgs teams : Z) (file : string) :
  (exists team, In team (flat_map (fun org_i => map (fun team_i => (org_i, team_i))
                                                    (range teams)) (range orgs))
                /\ team_file team = file)
  <-> In file (map team_file (named_teams orgs teams)).
Proof.
  rewrite in_map_iff. split.
  - intros ([o t] & Hin & <-). apply in_flat_map in Hin as (o' & Ho & Ht).
    apply in_map_iff in Ht as (t' & [= -> ->] & Ht). apply in_range_iff in Ho, Ht.
    exists (o mod len ORGS, t mod len TEAMS). split; [apply (team_file_mod (o, t))|].
    apply In_named_teams. cbn [fst snd].
    pose proof (Z.mod_pos_bound o (len ORGS) eq_refl).
    pose proof (Z.mod_pos_bound t (len TEAMS) eq_refl).
    destruct (Z.lt_ge_cases o (len ORGS)); destruct (Z.lt_ge_cases t (len TEAMS));
      rewrite ?(Z.mod_small o), ?(Z.mod_small t) by lia; lia.
  - intros (team & <- & Hin). apply In_named_teams in Hin. exists team. split; [|reflexivity].
    apply in_flat_map. exists (fst team). split; [apply in_range_iff; lia|].
    apply in_map_iff. exists (snd team). split; [destruct team; reflexivity|].
    apply in_range_iff. lia.
Qed.

Lemma named_teams_distinct (orgs teams : Z) :
  List.NoDup (map team_file (named_teams orgs teams)).
Proof.
  apply map_distinct.
  - intros a b Ha Hb. apply In_named_teams in Ha, Hb. apply team_file_inj; lia.
  - unfold named_teams. generalize (Z.min (len TEAMS) teams) as m.
    generalize (Z.min (len ORGS) orgs) as n. intros n m.
    pose proof (range_distinct n) as Hn.
    induction Hn as [|o os Ho Hn IH]; simpl; [constructor|].
    apply List.NoDup_app; [| exact IH |].
    + apply map_distinct; [intros a b _ _ [= ->]; reflexivity | apply range_distinct].
    + intros [o' t'] Hin Hin'. apply in_map_iff in Hin as (t & [= <- <-] & _).
      apply in_flat_map in Hin' as (o'' & Ho'' & Hin'').
      apply in_map_iff in Hin'' as (t'' & [= <- <-] & _). contradiction.
Qed.

Lemma length_named_teams (orgs teams : Z) :
  len (named_teams orgs teams)
  = Z.max 0 (Z.min (len ORGS) orgs) * Z.max 0 (Z.min (len TEAMS) teams).
Proof.
  unfold named_teams, len.
  rewrite (flat_map_constant_length
             (c := List.length (range (Z.min (Z.of_nat (List.length TEAMS)) teams)))).
  - pose proof (length_range_max (Z.min (Z.of_nat (List.length ORGS)) orgs)) as Ho.
    pose proof (length_range_max (Z.min (Z.of_nat (List.length TEAMS)) teams)) as Ht.
    unfold len in *. lia.
  - intros org_i _. apply length_map.
Qed.

Lemma written_lookup (dir : string) (fs : gmap string string)
    (ts : list ((Z * Z) * list (string * list expectation))) (path : string) :
  written dir fs ts !! path <> None
  <-> fs !! path <> None \/ exists t, In t ts /\ team_path dir (fst t) = path.
Proof.
  revert fs. induction ts as [|t ts IH]; intros fs.
  - simpl. split; [auto | intros [?|(t & [] & _)]; assumption].
  - unfold written in *. simpl. rewrite IH.
    destruct (string_dec (team_path dir (fst t)) path) as [E|Hne].
    + rewrite E, lookup_insert_eq. split; [|left; discriminate].
      intros _. right. exists t. auto.
    + rewrite lookup_insert_ne by assumption. split.
      * intros [?|(t' & Hin & E)]; [auto|]. right. exists t'. auto.
      * intros [?|(t' & [<-|Hin] & E)]; [auto | contradiction |]. right. exists t'. auto.
Qed.

Section Disk.

Context {G : Type} `{RandomSource G}.

Variable CORPUS_DIR : string.

Lemma bp_file_under (scale_name : string) :
  under (scale_dir CORPUS_DIR scale_name) (bp_file CORPUS_DIR scale_name) = true.
Proof. apply under_path_join. Qed.

Lemma bp_file_not_expectation (scale_name : string) :
  under (exp_dir CORPUS_DIR scale_name) (bp_file CORPUS_DIR scale_name) = false.
Proof.
  unfold under, exp_dir, bp_file, path_join, startswith. rewrite !append_assoc.
  rewrite prefix_cancel. reflexivity.
Qed.

Lemma team_path_under (scale_name : string) (team : Z * Z) :
  under (exp_dir CORPUS_DIR scale_name) (team_path (exp_dir CORPUS_DIR scale_name) team)
  = true.
Proof. unfold team_path. do 2 eapply under_below. apply under_path_join. Qed.

Lemma expectation_under_scale (scale_name path : string) :
  under (exp_dir CORPUS_DIR scale_name) path = true ->
  under (scale_dir CORPUS_DIR scale_name) path = true.
Proof. unfold exp_dir. apply under_below. Qed.

Lemma cleared_lookup (scale_name : string) (fs : gmap string string) (path : string) :
  cleared CORPUS_DIR scale_name fs !! path
  = if under (scale_dir CORPUS_DIR scale_name) path then None else fs !! path.
Proof.
  unfold cleared. rewrite map_lookup_filter.
  destruct (fs !! path) as [content|]; simpl;
    [|destruct (under (scale_dir CORPUS_DIR scale_name) path); reflexivity].
  case_guard as Hu; simpl in Hu.
  - rewrite Hu. reflexivity.
  - destruct (under (scale_dir CORPUS_DIR scale_name) path); [reflexivity | congruence].
Qed.

(** The files of the disk after a pass. *)
Lemma outcome_files (scale_name : string) (cfg : config) (w : world G)
    (r : stats * list (list (string * list expectation))) (w' : world G) :
  scale_outcome CORPUS_DIR scale_name cfg w r w' ->
  (forall path, under (scale_dir CORPUS_DIR scale_name) path = false ->
                files w' !! path = files w !! path)
  /\ (forall path, under (scale_dir CORPUS_DIR scale_name) path = true ->
        (files w' !! path <> None
         <-> path = bp_file CORPUS_DIR scale_name
             \/ exists team, In team (team_indices cfg)
                             /\ path = team_path (exp_dir CORPUS_DIR scale_name) team))
  /\ (exists content, files w' !! bp_file CORPUS_DIR scale_name = Some content
                      /\ blueprint_file_size (fst r) = Z.of_nat (String.length content)).
Proof.
  intros (content & bp_fields & _ & _ & Hteams & Hfiles & _ & Hst).
  assert (Hlen : List.length (snd r) = List.length (team_indices cfg))
    by (symmetry; eapply Forall2_length; eassumption).
  split; [|split].
  - intros path Hu. rewrite Hfiles, written_other.
    + rewrite lookup_insert_ne, cleared_lookup, Hu; [reflexivity|].
      intros <-. rewrite bp_file_under in Hu. discriminate.
    + intros t _ <-.
      rewrite (expectation_under_scale _ _ (team_path_under scale_name (fst t))) in Hu.
      discriminate.
  - intros path Hu. rewrite Hfiles, written_lookup.
    destruct (string_dec (bp_file CORPUS_DIR scale_name) path) as [<-|Hne].
    + rewrite lookup_insert_eq. split; [auto | left; discriminate].
    + rewrite lookup_insert_ne, cleared_lookup, Hu by assumption. split.
      * intros [?|([team parts] & Hin & <-)]; [congruence|]. right. exists team.
        split; [eapply in_combine_l; eassumption | reflexivity].
      * intros [?|(team & Hin & ->)]; [congruence|]. right.
        destruct (combine_total (team_indices cfg) (snd r) team Hlen Hin) as [parts Hp].
        exists (team, parts). split; [assumption | reflexivity].
  - exists content. split; [|rewrite Hst; reflexivity].
    rewrite Hfiles, written_other; [apply lookup_insert_eq|].
    intros t _. apply team_path_not_bp_file.
Qed.

(** X23: a pass touches its own directory only. For a corpus directory and
    a scale name that are plain and a disk with no regular file at the scale
    directory or above it, every file outside the directory of the scale is
    as before; below it the disk holds the blueprint file, whose size is the
    [blueprint_file_size] reported, and the files of the teams, and nothing
    else: what was there before is removed. *)
Theorem generate_scale_disk (fuel : nat) (scale_name : string) (cfg : config)
    (w : world G) :
  plain_path CORPUS_DIR = true ->
  plain_name scale_name = true ->
  no_file_above (scale_dir CORPUS_DIR scale_name) (files w) ->
  exists (st : stats) (teams : list (list (string * list expectation))) (w' : world G),
    generate_scale CORPUS_DIR (S (S fuel)) scale_name cfg w = Return ((st, teams), w')
    /\ (forall path, under (scale_dir CORPUS_DIR scale_name) path = false ->
                     files w' !! path = files w !! path)
    /\ (forall path, under (scale_dir CORPUS_DIR scale_name) path = true ->
          (files w' !! path <> None
           <-> path = bp_file CORPUS_DIR scale_name
               \/ exists team, In team (team_indices cfg)
                               /\ path = team_path (exp_dir CORPUS_DIR scale_name) team))
    /\ (exists content, files w' !! bp_file CORPUS_DIR scale_name = Some content
                        /\ blueprint_file_size st = Z.of_nat (String.length content)).
Proof.
  intros _ _ _.
  destruct (generate_scale_spec CORPUS_DIR fuel scale_name cfg w)
    as ([st teams] & w' & E & Hout).
  exists st, teams, w'. split; [exact E|]. apply (outcome_files _ _ _ _ _ Hout).
Qed.

(** The number of team files a profile leaves: the organizations and the
    teams beyond the names of [ORGS] and [TEAMS] take the names, and so the
    files, of the first ones. *)
Definition team_files (cfg : config) : Z :=
  Z.max 0 (Z.min (len ORGS) (num_orgs cfg)) * Z.max 0 (Z.min (len TEAMS) (teams_per_org cfg)).

Lemma outcome_expectation_files (scale_name : string) (cfg : config) (w : world G)
    (r : stats * list (list (string * list expectation))) (w' : world G) :
  scale_outcome CORPUS_DIR scale_name cfg w r w' ->
  expectation_files (fst r) = team_files cfg.
Proof.
  intros Hout. destruct (outcome_files _ _ _ _ _ Hout) as (_ & Hunder & _).
  destruct Hout as (content & bp_fields & _ & _ & _ & _ & _ & ->).
  cbn [expectation_files]. unfold team_files.
  rewrite <- length_named_teams. unfold len. f_equal.
  set (dir := exp_dir CORPUS_DIR scale_name) in *.
  set (paths := map (fun f => dir +:+ "/" +:+ f)
                    (map team_file (named_teams (num_orgs cfg) (teams_per_org cfg)))).
  assert (Hdom : dom (walk dir (files w')) = (list_to_set paths : gset string)).
  { apply set_eq. intros path.
    rewrite elem_of_dom, <- not_eq_None_Some, elem_of_list_to_set, list_elem_of_In.
    rewrite (walk_lookup dir). unfold paths. rewrite in_map_iff.
    destruct (under dir path) eqn:Hu.
    - rewrite (Hunder path (expectation_under_scale _ _ Hu)). split.
      + intros [->|(team & Hin & ->)].
        * unfold dir in Hu. rewrite bp_file_not_expectation in Hu. discriminate.
        * exists (team_file team). split; [symmetry; apply team_path_file|].
          apply team_files_named. exists team. auto.
      + intros (f & <- & Hf). apply team_files_named in Hf as (team & Hin & <-).
        right. exists team. split; [exact Hin | symmetry; apply team_path_file].
    - split; [congruence|]. intros (f & <- & _).
      unfold under, startswith in Hu. rewrite <- append_assoc, prefix_append in Hu.
      discriminate. }
  rewrite <- size_dom, Hdom, size_list_to_set.
  - unfold paths. rewrite !length_map. reflexivity.
  - apply NoDup_ListNoDup. unfold paths. apply map_distinct; [|apply named_teams_distinct].
    intros a b _ _ E. apply (String.app_inj dir) in E. apply (String.app_inj "/") in E.
    exact E.
Qed.

(** X24: [expectation_files] is the number of team files on the disk after
    the pass, min(orgs, 8) * min(teams, 20): up to the eight names of [ORGS]
    and the twenty of [TEAMS] every team has a file of its own, and beyond
    them a team writes over the file of the team whose names it takes, while
    [expectations_total] goes on counting its expectations. *)
Theorem expectation_files_count (fuel : nat) (scale_name : string) (cfg : config)
    (w : world G) :
  exists (st : stats) (teams : list (list (string * list expectation))) (w' : world G),
    generate_scale CORPUS_DIR (S (S fuel)) scale_name cfg w = Return ((st, teams), w')
    /\ expectation_files st
       = Z.max 0 (Z.min 8 (num_orgs cfg)) * Z.max 0 (Z.min 20 (teams_per_org cfg))
    /\ len teams = Z.max 0 (num_orgs cfg) * Z.max 0 (teams_per_org cfg)
    /\ (forall team,
           team_path (exp_dir CORPUS_DIR scale_name)
                     (fst team + len ORGS, snd team + len TEAMS)
           = team_path (exp_dir CORPUS_DIR scale_name) team).
Proof.
  destruct (generate_scale_spec CORPUS_DIR fuel scale_name cfg w)
    as ([st teams] & w' & E & Hout).
  exists st, teams, w'. split; [exact E|].
  split; [apply (outcome_expectation_files _ _ _ _ _ Hout)|]. split.
  - destruct Hout as (content & bp_fields & _ & _ & Hteams & _). cbn [snd] in Hteams.
    rewrite <- length_team_indices. unfold len.
    rewrite (Forall2_length _ _ _ Hteams). reflexivity.
  - intros team. unfold team_path. cbn [fst snd].
    rewrite <- (Z.mul_1_l (len ORGS)) at 1. rewrite <- (Z.mul_1_l (len TEAMS)) at 1.
    rewrite !Z.mod_add by discriminate. reflexivity.
Qed.

(** X25: the counts of the six profiles of [SCALES], the same from every
    state of the random source and of the disk: the blueprints, the
    expectations in total and the expectation files that [main] prints for
    small, medium, large, huge, insane and absurd. *)
Theorem scales_statistics :
  Forall2 (fun profile counts =>
             forall (fuel : nat) (w : world G),
             exists (st : stats) (teams : list (list (string * list expectation)))
                    (w' : world G),
               generate_scale CORPUS_DIR (S (S fuel)) (fst profile) (snd profile) w
               = Return ((st, teams), w')
               /\ (blueprints st, expectations_total st, expectation_files st) = counts)
          SCALES
          ((2, 4, 1) :: (5, 24, 4) :: (20, 120, 12) :: (50, 600, 25)
           :: (50, 1200, 80) :: (50, 4000, 160) :: nil).
Proof.
  assert (Hall : forall scale_name cfg (fuel : nat) (w : world G),
             exists st teams w',
               generate_scale CORPUS_DIR (S (S fuel)) scale_name cfg w
               = Return ((st, teams), w')
               /\ (blueprints st, expectations_total st, expectation_files st)
                  = (num_blueprints cfg,
                     Z.max 0 (num_orgs cfg) * Z.max 0 (teams_per_org cfg)
                     * blueprints_per_team cfg * expectations_per_team_blueprint cfg,
                     team_files cfg)).
  { intros scale_name cfg fuel w.
    destruct (generate_scale_spec CORPUS_DIR fuel scale_name cfg w)
      as ([st teams] & w' & E & Hout).
    exists st, teams, w'. split; [exact E|].
    pose proof (total_formula _ _ _ _ _ _ Hout) as Ht.
    pose proof (outcome_expectation_files _ _ _ _ _ Hout) as Hf.
    destruct Hout as (content & bp_fields & _ & _ & _ & _ & _ & Hst).
    cbn [fst] in *. rewrite Ht, Hf, Hst. reflexivity. }
  unfold SCALES. repeat constructor; intros fuel w; apply Hall.
Qed.

End Disk.

Lemma generate_scale_disk_witness :
  exists (st : stats) (teams : list (list (string * list expectation)))
         (w' : world Tape.tape),
    generate_scale "corpus" 2 "medium" medium (Tape.start (3 :: 1 :: 4 :: nil))
    = Return ((st, teams), w')
    /\ (forall path, under (scale_dir "corpus" "medium") path = false ->
                     files w' !! path = files (Tape.start (3 :: 1 :: 4 :: nil)) !! path)
    /\ (forall path, under (scale_dir "corpus" "medium") path = true ->
          (files w' !! path <> None
           <-> path = bp_file "corpus" "medium"
               \/ exists team, In team (team_indices medium)
                               /\ path = team_path (exp_dir "corpus" "medium") team))
    /\ (exists content, files w' !! bp_file "corpus" "medium" = Some content
                        /\ blueprint_file_size st = Z.of_nat (String.length content)).
Proof.
  apply (generate_scale_disk "corpus" 0 "medium" medium (Tape.start (3 :: 1 :: 4 :: nil))).
  - reflexivity.
  - reflexivity.
  - intros path _. reflexivity.
Defined.

End Disk.

(** ** Expectation scaling *)
Module Scaling.
Import Py GenerateCorpus Tape StringFacts GenerateCorpusFacts Returns.
Import Loops Aliases Frames Extendables BlueprintFile Teams Determinism Scale Disk.
Local Open Scope py_scope.

Lemma team_path_below (dir : string) (team : Z * Z) : under dir (team_path dir team) = true.
Proof. unfold team_path. do 2 eapply under_below. apply under_path_join. Qed.

Lemma fields_known_subset (registry : gmap string string) (names chosen : list string)
    (bp_fields : gmap string (list (string * string))) :
  fields_known registry names bp_fields ->
  Forall (fun name => In name names) chosen ->
  fields_known registry chosen bp_fields.
Proof.
  intros Hknown Hall name Hin. rewrite List.Forall_forall in Hall. apply Hknown, Hall, Hin.
Qed.

Section Scaling.

Context {G : Type} `{RandomSource G}.

Lemma scaling_parts_spec (fuel : nat) (bp_fields : gmap string (list (string * string)))
    (target_count : Z) (team_label : string) (chosen_bps : list string) (total : Z)
    (w : world G) :
  fields_known (alias_registry w) chosen_bps bp_fields ->
  succeeds (scaling_parts (S (S fuel)) bp_fields target_count team_label chosen_bps total) w
    (fun r w' =>
       snd r - total = len (flat_map snd (fst r))
       /\ (total <= target_count -> snd r <= target_count)
       /\ (chosen_bps <> nil -> total < target_count -> fst r <> nil /\ total < snd r)
       /\ same_store w w').
Proof.
  revert total w. induction chosen_bps as [|bp_name rest IH]; intros total w Hknown.
  - apply succeeds_ret. cbn [fst snd flat_map]. unfold len. simpl.
    split; [lia|]. split; [auto|]. split; [congruence | apply same_store_refl].
  - cbn [scaling_parts]. cbv zeta. destruct (Z.leb_spec (target_count - total) 0) as [Hle|Hlt].
    + apply succeeds_ret. cbn [fst snd flat_map]. unfold len. simpl.
      split; [lia|]. split; [auto|]. split; [lia | apply same_store_refl].
    + apply succeeds_bind, succeeds_randint; [lia|]. intros n w1 Hn Hs1.
      destruct (Hknown bp_name ltac:(left; reflexivity)) as (fields & Hget & Hok).
      apply succeeds_bind. rewrite Hget. apply succeeds_lift.
      apply succeeds_bind. eapply succeeds_weaken.
      { apply gen_expectations_returns. destruct Hs1 as [-> _]. exact Hok. }
      intros es w2 [Hes Hs2]. apply succeeds_bind.
      assert (Hs12 : same_store w w2) by (eapply same_store_trans; eassumption).
      eapply succeeds_weaken.
      { apply IH. destruct Hs12 as [-> _]. intros name Hin. apply Hknown. right. exact Hin. }
      intros [file_parts total'] w3 (Hsum & Hmax & _ & Hs3). cbn [fst snd] in *.
      apply succeeds_ret. cbn [fst snd flat_map].
      assert (Hlen : len es = Z.min n (target_count - total)).
      { unfold len. rewrite <- (Forall2_length _ _ _ Hes).
        pose proof (length_range_max (Z.min n (target_count - total))) as Hr.
        unfold len in Hr. lia. }
      unfold len in *. rewrite length_app.
      split; [lia|]. split; [intros _; apply Hmax; lia|].
      split; [|eapply same_store_trans; eassumption].
      intros _ _. split; [discriminate | lia].
Qed.

Lemma scaling_round_spec (fuel : nat) (exp_dir : string) (bp_names : list string)
    (bp_fields : gmap string (list (string * string))) (target_count total org_i team_i : Z)
    (w : world G) :
  bp_names <> nil ->
  fields_known (alias_registry w) bp_names bp_fields ->
  total < target_count ->
  succeeds (scaling_round (S (S fuel)) exp_dir bp_names bp_fields target_count total
                          org_i team_i) w
    (fun r w' =>
       snd r - total = len (flat_map snd (fst r))
       /\ total < snd r <= target_count
       /\ alias_registry w' = alias_registry w
       /\ (forall path, path <> team_path exp_dir (org_i, team_i) ->
                        files w' !! path = files w !! path)
       /\ files w' !! team_path exp_dir (org_i, team_i) <> None).
Proof.
  intros Hne Hknown Hlt. unfold scaling_round. cbv zeta.
  change (team_path exp_dir (org_i, team_i))
    with (path_join (path_join (path_join exp_dir (item ORGS (org_i mod len ORGS)))
                               (item TEAMS (team_i mod len TEAMS))) "slos.caffeine").
  set (exp_file := path_join _ "slos.caffeine").
  assert (Hlen : 1 <= len bp_names).
  { unfold len. destruct bp_names; [congruence | simpl; lia]. }
  apply succeeds_bind, succeeds_randint; [lia|]. intros n w1 Hn Hs1.
  apply succeeds_bind, succeeds_sample; [unfold len in *; lia|].
  intros chosen_bps w2 Hk Hall Hs2.
  assert (Hs12 : same_store w w2) by (eapply same_store_trans; eassumption).
  apply succeeds_bind. eapply succeeds_weaken.
  { apply scaling_parts_spec. destruct Hs12 as [-> _].
    eapply fields_known_subset; eassumption. }
  intros [file_parts total'] w3 (Hsum & Hmax & Hgrow & Hs3). cbn [fst snd] in *.
  destruct Hgrow as [Hparts Htotal]; [|assumption|].
  { intros ->. unfold len in *. simpl in Hk. lia. }
  assert (Hs13 : same_store w w3) by (eapply same_store_trans; eassumption).
  destruct Hs13 as [Hr3 Hf3].
  destruct file_parts as [|part file_parts]; [congruence|].
  apply succeeds_bind, succeeds_bind.
  eexists _, _. split; [reflexivity|].
  destruct (files w3 !! exp_file) eqn:Eold.
  - eexists tt, _. split; [reflexivity|]. apply succeeds_ret. cbn [fst snd alias_registry files].
    split; [exact Hsum|]. split; [lia|]. split; [exact Hr3|]. split.
    + intros path Hp. rewrite lookup_insert_ne by congruence. rewrite Hf3. reflexivity.
    + rewrite lookup_insert_eq. discriminate.
  - eexists tt, _. split; [reflexivity|]. apply succeeds_ret. cbn [fst snd alias_registry files].
    split; [exact Hsum|]. split; [lia|]. split; [exact Hr3|]. split.
    + intros path Hp. rewrite lookup_insert_ne by congruence. rewrite Hf3. reflexivity.
    + rewrite lookup_insert_eq. discriminate.
Qed.

Lemma scaling_rounds_spec (fuel : nat) (exp_dir : string) (bp_names : list string)
    (bp_fields : gmap string (list (string * string))) (target_count : Z) (rounds : nat) :
  forall (total org_i team_i : Z) (w : world G),
    bp_names <> nil ->
    fields_known (alias_registry w) bp_names bp_fields ->
    (Z.to_nat (target_count - total) <= rounds)%nat ->
    succeeds (scaling_rounds rounds (S (S fuel)) exp_dir bp_names bp_fields target_count
                             total org_i team_i) w
      (fun r w' =>
         exists parts,
           r = Some (Z.max total target_count, parts)
           /\ Z.max total target_count - total = len (generated_expectations parts)
           /\ alias_registry w' = alias_registry w
           /\ (forall path, under exp_dir path = false -> files w' !! path = files w !! path)).
Proof.
  induction rounds as [|rounds IH]; intros total org_i team_i w Hne Hknown Hfuel.
  - cbn [scaling_rounds]. destruct (Z.ltb_spec total target_count); [lia|].
    apply succeeds_ret. exists nil. rewrite Z.max_l by lia.
    split; [reflexivity|]. split; [unfold len; simpl; lia|]. split; reflexivity.
  - cbn [scaling_rounds]. destruct (Z.ltb_spec total target_count) as [Hlt|Hge].
    + apply succeeds_bind. eapply succeeds_weaken;
        [apply scaling_round_spec; assumption|].
      intros [file_parts total'] w1 (Hsum & Htotal & Hr1 & Hf1 & _). cbn [fst snd] in *.
      cbv zeta.
      assert (Hnext : forall org_i' team_i',
                 succeeds
                   (rest <- scaling_rounds rounds (S (S fuel)) exp_dir bp_names bp_fields
                                           target_count total' org_i' team_i' ;;
                    ret (match rest with
                         | Some (final, parts) => Some (final, file_parts :: parts)
                         | None => None
                         end)) w1
                   (fun r w' =>
                      exists parts,
                        r = Some (Z.max total target_count, parts)
                        /\ Z.max total target_count - total
                           = len (generated_expectations parts)
                        /\ alias_registry w' = alias_registry w
                        /\ (forall path, under exp_dir path = false ->
                                         files w' !! path = files w !! path))).
      { intros org_i' team_i'. apply succeeds_bind. eapply succeeds_weaken.
        { apply IH; [assumption | rewrite Hr1; assumption | lia]. }
        intros r w2 (parts & -> & Hparts & Hr2 & Hf2). apply succeeds_ret.
        exists (file_parts :: parts). rewrite !Z.max_r in * by lia.
        split; [reflexivity|]. split; [|split; [congruence|]].
        - unfold generated_expectations, len in *. cbn [flat_map].
          rewrite length_app. lia.
        - intros path Hu. rewrite Hf2 by assumption. apply Hf1. intros ->.
          rewrite team_path_below in Hu. discriminate. }
      destruct (len TEAMS <=? team_i + 1); apply Hnext.
    + apply succeeds_ret. exists nil. rewrite Z.max_l by lia.
      split; [reflexivity|]. split; [unfold len; simpl; lia|]. split; reflexivity.
Qed.

Variable CORPUS_DIR : string.

(** The name of the directory of a target. *)
Definition target_name (target_count : Z) : string := "exp_scale_" +:+ str_Z target_count.

(** What the pass for one target gives. *)
Definition target_outcome (bp_content : string) (target_count : Z)
    (entry : scaling_result * list (list (string * list expectation))) : Prop :=
  target (fst entry) = target_count
  /\ actual_expectations (fst entry) = Z.max 0 target_count
  /\ len (generated_expectations (snd entry)) = Z.max 0 target_count
  /\ blueprint_size (fst entry) = Z.of_nat (String.length bp_content)
  /\ corpus_size (fst entry) = blueprint_size (fst entry) + expectations_size (fst entry).

Lemma scale_expectations_spec (rounds fuel : nat) (bp_content : string)
    (bp_names : list string) (bp_fields : gmap string (list (string * string)))
    (target_count : Z) (w : world G) :
  bp_names <> nil ->
  fields_known (alias_registry w) bp_names bp_fields ->
  (Z.to_nat target_count <= rounds)%nat ->
  succeeds (scale_expectations CORPUS_DIR rounds (S (S fuel)) bp_content bp_names bp_fields
                               target_count) w
    (fun r w' =>
       exists entry,
         r = Some entry
         /\ target_outcome bp_content target_count entry
         /\ alias_registry w' = alias_registry w
         /\ (forall path, under (scale_dir CORPUS_DIR (target_name target_count)) path = false ->
                          files w' !! path = files w !! path)
         /\ files w' !! bp_file CORPUS_DIR (target_name target_count) = Some bp_content).
Proof.
  intros Hne Hknown Hrounds. unfold scale_expectations. cbv zeta.
  fold (target_name target_count). fold (scale_dir CORPUS_DIR (target_name target_count)).
  fold (bp_file CORPUS_DIR (target_name target_count)).
  fold (exp_dir CORPUS_DIR (target_name target_count)).
  set (name := target_name target_count).
  apply succeeds_bind. eexists tt, _. split; [reflexivity|].
  apply succeeds_bind. eexists tt, _. split; [reflexivity|].
  apply succeeds_bind. eapply succeeds_weaken.
  { apply scaling_rounds_spec; [assumption | exact Hknown | lia]. }
  intros r w1 (parts & -> & Hparts & Hr1 & Hf1). cbn [alias_registry files] in *.
  assert (Hbp : files w1 !! bp_file CORPUS_DIR name = Some bp_content).
  { rewrite Hf1 by apply bp_file_not_expectation. apply lookup_insert_eq. }
  apply succeeds_bind. eexists _, _. split; [unfold getsize; rewrite Hbp; reflexivity|].
  apply succeeds_bind. eexists _, _. split; [reflexivity|].
  apply succeeds_bind. eexists _, _. split; [reflexivity|].
  apply succeeds_ret. eexists. split; [reflexivity|].
  split; [|split; [exact Hr1|split; [|exact Hbp]]].
  - unfold target_outcome. cbn [fst snd target actual_expectations blueprint_size
                                corpus_size expectations_size].
    rewrite Z.sub_0_r in Hparts. repeat split; auto.
  - intros path Hu. rewrite Hf1.
    + pose proof (cleared_lookup CORPUS_DIR name (files w) path) as Hc.
      unfold cleared in Hc. rewrite lookup_insert_ne, Hc, Hu; [reflexivity|].
      intros <-. rewrite bp_file_under in Hu. discriminate.
    + destruct (under (exp_dir CORPUS_DIR name) path) eqn:Hue; [|reflexivity].
      apply expectation_under_scale in Hue. congruence.
Qed.

(** The blueprint file of a target is not below the directory of another. *)
Definition apart (targets : list Z) : Prop :=
  forall t t', In t targets -> In t' targets -> t <> t' ->
    under (scale_dir CORPUS_DIR (target_name t')) (bp_file CORPUS_DIR (target_name t)) = false.

Lemma scale_each_spec (rounds fuel : nat) (bp_content : string) (bp_names : list string)
    (bp_fields : gmap string (list (string * string))) (targets : list Z) :
  forall w : world G,
    bp_names <> nil ->
    fields_known (alias_registry w) bp_names bp_fields ->
    Forall (fun t => (Z.to_nat t <= rounds)%nat) targets ->
    List.NoDup targets -> apart targets ->
    succeeds (scale_each CORPUS_DIR rounds (S (S fuel)) bp_content bp_names bp_fields
                         targets) w
      (fun r w' =>
         exists entries,
           r = Some entries
           /\ Forall2 (target_outcome bp_content) targets entries
           /\ alias_registry w' = alias_registry w
           /\ (forall path,
                  (forall t, In t targets ->
                             under (scale_dir CORPUS_DIR (target_name t)) path = false) ->
                  files w' !! path = files w !! path)
           /\ (forall t, In t targets ->
                         files w' !! bp_file CORPUS_DIR (target_name t) = Some bp_content)).
Proof.
  induction targets as [|t rest IH]; intros w Hne Hknown Hrounds Hnd Hapart.
  - apply succeeds_ret. exists nil. split; [reflexivity|]. split; [constructor|].
    split; [reflexivity|]. split; [reflexivity | intros t []].
  - cbn [scale_each]. inversion Hrounds as [|? ? Ht Hrest]; subst.
    inversion Hnd as [|? ? Hnew Hnd']; subst.
    apply succeeds_bind. eapply succeeds_weaken;
      [apply scale_expectations_spec; assumption|].
    intros r w1 (entry & -> & Hentry & Hr1 & Hf1 & Hbp1).
    apply succeeds_bind. eapply succeeds_weaken.
    { apply IH; [assumption | rewrite Hr1; assumption | assumption | assumption |].
      intros a b Ha Hb. apply Hapart; right; assumption. }
    intros r w2 (entries & -> & Hentries & Hr2 & Hf2 & Hbp2). apply succeeds_ret.
    exists (entry :: entries). split; [reflexivity|].
    split; [constructor; assumption|]. split; [congruence|]. split.
    + intros path Hout. rewrite Hf2 by (intros t' Ht'; apply Hout; right; assumption).
      apply Hf1, Hout. left. reflexivity.
    + intros t' [<-|Ht']; [|apply Hbp2, Ht'].
      rewrite Hf2; [exact Hbp1|]. intros t' Ht'.
      apply Hapart; [left; reflexivity | right; assumption |].
      intros <-. contradiction.
Qed.

Lemma scales_apart : apart EXPECTATION_SCALES.
Proof.
  intros t t' Ht Ht' Hne.
  unfold under, bp_file, scale_dir, path_join, startswith.
  rewrite !append_assoc, prefix_cancel.
  unfold EXPECTATION_SCALES in Ht, Ht'. simpl in Ht, Ht'.
  repeat (destruct Ht as [<-|Ht]; [|]); try destruct Ht;
    repeat (destruct Ht' as [<-|Ht']; [|]); try destruct Ht';
    try congruence; vm_compute; reflexivity.
Qed.

(** What [generate_expectation_scaling] gives and leaves. *)
Lemma generate_expectation_scaling_spec (rounds fuel : nat) (w : world G) :
  (Z.to_nat 5000 <= rounds)%nat ->
  succeeds (generate_expectation_scaling CORPUS_DIR rounds (S (S fuel))) w
    (fun r w' =>
       exists entries bp_content,
         r = Some entries
         /\ Forall2 (target_outcome bp_content) EXPECTATION_SCALES entries
         /\ (forall path,
                (forall t, In t EXPECTATION_SCALES ->
                           under (scale_dir CORPUS_DIR (target_name t)) path = false) ->
                files w' !! path = files w !! path)
         /\ (forall t, In t EXPECTATION_SCALES ->
                       files w' !! bp_file CORPUS_DIR (target_name t) = Some bp_content)).
Proof.
  intros Hrounds. unfold generate_expectation_scaling.
  apply succeeds_bind.
  change (scale_config "large") with (Return (Build_config 20 "large" 5 3 3 3 4 5)).
  apply succeeds_lift. cbn [num_blueprints complexity num_aliases num_req_ext num_prov_ext].
  apply succeeds_bind. eapply succeeds_weaken; [apply gen_blueprints_file_spec|].
  intros [[bp_content bp_names] bp_fields] w1 (Hnames & Hdom & Hok & _ & Hfiles1).
  cbn [fst snd] in *. subst bp_names.
  eapply succeeds_weaken.
  { apply (scale_each_spec rounds fuel bp_content _ bp_fields EXPECTATION_SCALES w1).
    - discriminate.
    - intros name Hin. apply Hdom in Hin.
      destruct (bp_fields !! name) as [fields|] eqn:E; [|congruence].
      exists fields. split; [reflexivity|]. apply (Hok name fields E).
    - unfold EXPECTATION_SCALES. repeat constructor; lia.
    - unfold EXPECTATION_SCALES.
      repeat (constructor; [simpl; intros Hin; repeat destruct Hin as [Hin|Hin]; lia|]).
      constructor.
    - apply scales_apart. }
  intros r w2 (entries & -> & Hentries & _ & Hf2 & Hbp2).
  exists entries, bp_content. split; [reflexivity|]. split; [exact Hentries|].
  split; [|exact Hbp2]. intros path Hout. rewrite Hf2 by assumption. congruence.
Qed.

(** X26: expectation scaling hits every target exactly. Given rounds for
    the longest loop, [generate_expectation_scaling] returns from every
    state one result for each target of [EXPECTATION_SCALES], in order; its
    [actual_expectations] is the target, and so is the number of
    expectations generated for it: the last part of a turn is cut to what
    remains. All results report the size of the one blueprint file, and
    each total size is the sum of the two sizes. *)
Theorem expectation_scaling_targets (rounds fuel : nat) (w : world G) :
  (Z.to_nat 5000 <= rounds)%nat ->
  exists (entries : list (scaling_result * list (list (string * list expectation))))
         (w' : world G) (bp_content : string),
    generate_expectation_scaling CORPUS_DIR rounds (S (S fuel)) w = Return (Some entries, w')
    /\ Forall2 (fun t entry =>
                  target (fst entry) = t
                  /\ actual_expectations (fst entry) = t
                  /\ len (generated_expectations (snd entry)) = t
                  /\ blueprint_size (fst entry) = Z.of_nat (String.length bp_content)
                  /\ corpus_size (fst entry)
                     = blueprint_size (fst entry) + expectations_size (fst entry))
               EXPECTATION_SCALES entries.
Proof.
  intros Hrounds.
  destruct (generate_expectation_scaling_spec rounds fuel w Hrounds)
    as (r & w' & E & entries & bp_content & -> & Hentries & _).
  exists entries, w', bp_content. split; [exact E|]. clear E.
  assert (Hpos : Forall (fun t => 0 <= t) EXPECTATION_SCALES)
    by (unfold EXPECTATION_SCALES; repeat constructor; lia).
  induction Hentries as [|t entry ts es (Ht & Ha & Hg & Hb & Hc) _ IH];
    [constructor|].
  inversion Hpos; subst. constructor; [|apply IH; assumption].
  rewrite Ha, Hg, Z.max_r by assumption. auto.
Qed.

(** X27: the seven corpora differ in their expectations only. After
    [generate_expectation_scaling] every directory [exp_scale_<target>]
    holds the same blueprint file, and every file outside these seven
    directories is as before. *)
Theorem expectation_scaling_disk (rounds fuel : nat) (w : world G) :
  (Z.to_nat 5000 <= rounds)%nat ->
  exists (entries : list (scaling_result * list (list (string * list expectation))))
         (w' : world G) (bp_content : string),
    generate_expectation_scaling CORPUS_DIR rounds (S (S fuel)) w = Return (Some entries, w')
    /\ (forall t, In t EXPECTATION_SCALES ->
          files w' !! path_join (path_join CORPUS_DIR ("exp_scale_" +:+ str_Z t))
                                "blueprints.caffeine"
          = Some bp_content)
    /\ (forall path,
           (forall t, In t EXPECTATION_SCALES ->
                      under (path_join CORPUS_DIR ("exp_scale_" +:+ str_Z t)) path = false) ->
           files w' !! path = files w !! path).
Proof.
  intros Hrounds.
  destruct (generate_expectation_scaling_spec rounds fuel w Hrounds)
    as (r & w' & E & entries & bp_content & -> & _ & Hframe & Hbp).
  exists entries, w', bp_content. split; [exact E|]. split; [exact Hbp | exact Hframe].
Qed.

(** X28: without a blueprint the loop of a target never ends. With no
    blueprint name a turn chooses no blueprint, writes nothing and leaves
    the total as it is, so that as long as the target is above the total
    the loop has not ended within any number of rounds. *)
Theorem scaling_without_blueprints (rounds fuel : nat) (exp_dir : string)
    (bp_fields : gmap string (list (string * string)))
    (target_count total org_i team_i : Z) (w : world G) :
  total < target_count ->
  exists w' : world G,
    scaling_rounds rounds fuel exp_dir nil bp_fields target_count total org_i team_i w
    = Return (None, w')
    /\ same_store w w'.
Proof.
  intros Hlt.
  enough (Hall : forall org_i team_i (w : world G),
             succeeds (scaling_rounds rounds fuel exp_dir nil bp_fields target_count total
                                      org_i team_i) w
                      (fun r w' => r = None /\ same_store w w')).
  { destruct (Hall org_i team_i w) as (r & w' & E & -> & Hs). exists w'. auto. }
  clear org_i team_i w. induction rounds as [|rounds IH]; intros org_i team_i w.
  - cbn [scaling_rounds]. destruct (Z.ltb_spec total target_count); [|lia].
    apply succeeds_ret. split; [reflexivity | apply same_store_refl].
  - cbn [scaling_rounds]. destruct (Z.ltb_spec total target_count); [|lia].
    apply succeeds_bind. unfold scaling_round. cbv zeta.
    apply succeeds_bind, succeeds_randint; [lia|]. intros n w1 Hn Hs1.
    apply succeeds_bind, succeeds_sample; [unfold len; simpl; lia|].
    intros chosen_bps w2 Hk _ Hs2.
    assert (chosen_bps = nil) as ->.
    { destruct chosen_bps; [reflexivity|]. unfold len in Hk. simpl in Hk. lia. }
    cbn [scaling_parts]. apply succeeds_bind, succeeds_ret, succeeds_bind, succeeds_ret,
      succeeds_ret.
    assert (Hnext : forall org_i' team_i',
               succeeds
                 (rest <- scaling_rounds rounds fuel exp_dir nil bp_fields target_count
                                         total org_i' team_i' ;;
                  ret (match rest with
                       | Some (final, parts) =>
                           Some (final, (nil : list (string * list expectation)) :: parts)
                       | None => None
                       end)) w2
                 (fun r w' => r = None /\ same_store w w')).
    { intros org_i' team_i'. apply succeeds_bind. eapply succeeds_weaken; [apply IH|].
      intros r w3 [-> Hs3]. apply succeeds_ret. split; [reflexivity|].
      eapply same_store_trans; [|exact Hs3]. eapply same_store_trans; eassumption. }
    cbv zeta. destruct (len TEAMS <=? team_i + 1); apply Hnext.
Qed.

End Scaling.

(** A pass over a short tape, with rounds for the longest loop. *)
Definition scaling_start : world Tape.tape := Tape.start (2 :: 7 :: 1 :: 8 :: nil).

Lemma expectation_scaling_targets_witness :
  exists (entries : list (scaling_result * list (list (string * list expectation))))
         (w' : world Tape.tape) (bp_content : string),
    generate_expectation_scaling "corpus" (Z.to_nat 5000) 2 scaling_start
    = Return (Some entries, w')
    /\ Forall2 (fun t entry =>
                  target (fst entry) = t
                  /\ actual_expectations (fst entry) = t
                  /\ len (generated_expectations (snd entry)) = t
                  /\ blueprint_size (fst entry) = Z.of_nat (String.length bp_content)
                  /\ corpus_size (fst entry)
                     = blueprint_size (fst entry) + expectations_size (fst entry))
               EXPECTATION_SCALES entries.
Proof. apply (expectation_scaling_targets "corpus" (Z.to_nat 5000) 0 scaling_start). lia. Defined.

Lemma expectation_scaling_disk_witness :
  exists (entries : list (scaling_result * list (list (string * list expectation))))
         (w' : world Tape.tape) (bp_content : string),
    generate_expectation_scaling "corpus" (Z.to_nat 5000) 2 scaling_start
    = Return (Some entries, w')
    /\ (forall t, In t EXPECTATION_SCALES ->
          files w' !! path_join (path_join "corpus" ("exp_scale_" +:+ str_Z t))
                                "blueprints.caffeine"
          = Some bp_content)
    /\ (forall path,
           (forall t, In t EXPECTATION_SCALES ->
                      under (path_join "corpus" ("exp_scale_" +:+ str_Z t)) path = false) ->
           files w' !! path = files scaling_start !! path).
Proof. apply (expectation_scaling_disk "corpus" (Z.to_nat 5000) 0 scaling_start). lia. Defined.

(** Three rounds for a target of ten, with no blueprint. *)
Lemma scaling_without_blueprints_witness :
  exists w' : world Tape.tape,
    scaling_rounds 3 2 "corpus/exp_scale_10/expectations" nil ∅ 10 0 0 0 scaling_start
    = Return (None, w')
    /\ same_store scaling_start w'.
Proof.
  apply (scaling_without_blueprints 3 2 "corpus/exp_scale_10/expectations" ∅ 10 0 0 0
                                    scaling_start).
  lia.
Defined.

End Scaling.

(** ** The program of the corpus generator *)
Module Program.
Import Py GenerateCorpus Tape StringFacts GenerateCorpusFacts Returns.
Import Loops BlueprintFile Teams Determinism Scale Disk Scaling.
Local Open Scope py_scope.

(** The line of a profile up to its size, with the counts of the profile. *)
Definition scale_line_start (scale_name : string) (cfg : config) : string :=
  "  " +:+ format_s 8 scale_name +:+ ": " +:+ format_d 3 (num_blueprints cfg)
  +:+ " blueprints, "
  +:+ format_d 5 (Z.max 0 (num_orgs cfg) * Z.max 0 (teams_per_org cfg)
                  * blueprints_per_team cfg * expectations_per_team_blueprint cfg)
  +:+ " expectations across " +:+ format_d 3 (team_files cfg) +:+ " files, total ".

(** The line of a target up to the number of its files. *)
Definition target_line_start (target_count : Z) : string :=
  "  target " +:+ format_d 5 target_count +:+ ": actual "
  +:+ format_d 5 (Z.max 0 target_count) +:+ " expectations, ".

Definition SCALE_LINES : list string :=
  "  small   :   2 blueprints,     4 expectations across   1 files, total "
  :: "  medium  :   5 blueprints,    24 expectations across   4 files, total "
  :: "  large   :  20 blueprints,   120 expectations across  12 files, total "
  :: "  huge    :  50 blueprints,   600 expectations across  25 files, total "
  :: "  insane  :  50 blueprints,  1200 expectations across  80 files, total "
  :: "  absurd  :  50 blueprints,  4000 expectations across 160 files, total " :: nil.

Definition TARGET_LINES : list string :=
  "  target    10: actual    10 expectations, "
  :: "  target    50: actual    50 expectations, "
  :: "  target   100: actual   100 expectations, "
  :: "  target   500: actual   500 expectations, "
  :: "  target  1000: actual  1000 expectations, "
  :: "  target  2500: actual  2500 expectations, "
  :: "  target  5000: actual  5000 expectations, " :: nil.

Lemma scale_line_starts :
  map (fun sc => scale_line_start (fst sc) (snd sc)) SCALES = SCALE_LINES.
Proof. vm_compute. reflexivity. Qed.

Lemma target_line_starts : map target_line_start EXPECTATION_SCALES = TARGET_LINES.
Proof. vm_compute. reflexivity. Qed.

Lemma Forall2_map_left {A B C} (f : A -> C) (R : C -> B -> Prop) (xs : list A) (ys : list B) :
  Forall2 (fun x y => R (f x) y) xs ys -> Forall2 R (map f xs) ys.
Proof. induction 1; simpl; constructor; assumption. Qed.

Lemma Forall2_map_right {A B C} (f : B -> C) (R : A -> C -> Prop) (xs : list A) (ys : list B) :
  Forall2 (fun x y => R x (f y)) xs ys -> Forall2 R xs (map f ys).
Proof. induction 1; simpl; constructor; assumption. Qed.

(** A path is below one of the directories, or below none. *)
Lemma below_some (dirs : list string) (path : string) :
  (forall d, In d dirs -> under d path = false)
  \/ (exists d, In d dirs /\ under d path = true).
Proof.
  induction dirs as [|d dirs [IH|(d' & Hin & Hu)]].
  - left. intros d [].
  - destruct (under d path) eqn:Hu.
    + right. exists d. split; [left; reflexivity | assumption].
    + left. intros d' [<-|Hin]; auto.
  - right. exists d'. split; [right|]; assumption.
Qed.

Lemma rmtree_lookup (dir : string) (fs : gmap string string) (path : string) :
  filter (fun kv : string * string => under dir (fst kv) = false) fs !! path
  = if under dir path then None else fs !! path.
Proof.
  rewrite map_lookup_filter.
  destruct (fs !! path) as [content|]; simpl; [|destruct (under dir path); reflexivity].
  case_guard as Hu; simpl in Hu.
  - rewrite Hu. reflexivity.
  - destruct (under dir path); [reflexivity | congruence].
Qed.

Section Program.

Context {G : Type} `{RandomSource G}.

Variable CORPUS_DIR : string.

(** The directories of the corpus: one for each profile and one for each
    target. *)
Definition corpus_dirs : list string :=
  map (fun sc => scale_dir CORPUS_DIR (fst sc)) SCALES
  ++ map (fun t => scale_dir CORPUS_DIR (target_name t)) EXPECTATION_SCALES.

Lemma scale_line_of_outcome (scale_name : string) (cfg : config) (w : world G)
    (r : stats * list (list (string * list expectation))) (w' : world G) :
  scale_outcome CORPUS_DIR scale_name cfg w r w' ->
  scale_line scale_name (fst r)
  = scale_line_start scale_name cfg +:+ format_grouped (total_size (fst r)) +:+ " bytes".
Proof.
  intros Hout. pose proof (total_formula _ _ _ _ _ _ Hout) as Ht.
  pose proof (outcome_expectation_files _ _ _ _ _ _ Hout) as Hf.
  destruct Hout as (content & bp_fields & _ & _ & _ & _ & _ & Hst).
  assert (Hb : blueprints (fst r) = num_blueprints cfg) by (rewrite Hst; reflexivity).
  unfold scale_line, scale_line_start. rewrite Ht, Hf, Hb, !append_assoc. reflexivity.
Qed.

Lemma target_line_of_outcome (bp_content : string) (target_count : Z)
    (entry : scaling_result * list (list (string * list expectation))) :
  target_outcome bp_content target_count entry ->
  target_line (fst entry)
  = target_line_start target_count +:+ format_d 3 (expectation_file_count (fst entry))
    +:+ " files, total " +:+ format_grouped (corpus_size (fst entry)) +:+ " bytes".
Proof.
  intros (Ht & Ha & _). unfold target_line, target_line_start.
  rewrite Ht, Ha, !append_assoc. reflexivity.
Qed.

(** What [main] prints and leaves. *)
Lemma main_spec (rounds fuel : nat) (w : world G) :
  (Z.to_nat 5000 <= rounds)%nat ->
  succeeds (main CORPUS_DIR rounds (S (S fuel))) w
    (fun r w' =>
       exists scale_lines target_lines,
         r = (("=== Generating Caffeine Benchmark Corpus ===" +:+ newline)
              :: "--- Complexity Scaling ---"
              :: scale_lines
              ++ (newline +:+ "--- Expectation Count Scaling (fixed 'large' blueprint) ---")
              :: target_lines
              ++ (newline +:+ "Corpus generated in: " +:+ CORPUS_DIR) :: "Done!" :: nil,
              true)
         /\ Forall2 (fun start line =>
                       exists size, line = start +:+ format_grouped size +:+ " bytes")
                    SCALE_LINES scale_lines
         /\ Forall2 (fun start line =>
                       exists count size,
                         line = start +:+ format_d 3 count +:+ " files, total "
                                +:+ format_grouped size +:+ " bytes")
                    TARGET_LINES target_lines
         /\ (forall path,
                (forall d, In d corpus_dirs -> under d path = false) ->
                files w' !! path = if under CORPUS_DIR path then None else files w !! path)).
Proof.
  intros Hrounds. unfold main.
  apply succeeds_bind. eexists tt, _. split; [reflexivity|].
  set (w0 := World (rng w) (alias_registry w) _).
  apply succeeds_bind. eapply succeeds_weaken.
  { apply (succeeds_for_each SCALES _
             (fun w1 => forall path,
                (forall sc, In sc SCALES -> under (scale_dir CORPUS_DIR (fst sc)) path = false) ->
                files w1 !! path = files w0 !! path)
             (fun sc line =>
                exists size,
                  line = scale_line_start (fst sc) (snd sc) +:+ format_grouped size
                         +:+ " bytes")).
    - intros path _. reflexivity.
    - intros [scale_name cfg] w1 Hin Hframe. apply succeeds_bind.
      eapply succeeds_weaken; [apply (generate_scale_spec CORPUS_DIR)|].
      intros r w2 Hout. apply succeeds_ret. split.
      + exists (total_size (fst r)). apply (scale_line_of_outcome _ _ _ _ _ Hout).
      + intros path Hout'. destruct (outcome_files _ _ _ _ _ _ Hout) as (Hf & _).
        rewrite Hf by apply (Hout' _ Hin). apply Hframe, Hout'. }
  intros scale_lines w1 [Hlines Hframe1]. cbv zeta.
  apply succeeds_bind. eapply succeeds_weaken;
    [apply (generate_expectation_scaling_spec CORPUS_DIR); exact Hrounds|].
  intros r w2 (entries & bp_content & -> & Hentries & Hframe2 & _).
  apply succeeds_ret.
  exists scale_lines, (map (fun entry => target_line (fst entry)) entries).
  split; [|split; [|split]].
  - f_equal. cbn [app]. do 2 f_equal. rewrite <- app_assoc. reflexivity.
  - rewrite <- scale_line_starts. apply Forall2_map_left. exact Hlines.
  - rewrite <- target_line_starts. apply Forall2_map_left, Forall2_map_right.
    eapply Forall2_impl; [exact Hentries|]. intros t entry Hentry.
    exists (expectation_file_count (fst entry)), (corpus_size (fst entry)).
    apply (target_line_of_outcome _ _ _ Hentry).
  - intros path Hout. unfold corpus_dirs in Hout.
    rewrite Hframe2, Hframe1.
    + unfold w0. cbn [files]. apply rmtree_lookup.
    + intros sc Hsc. apply Hout, in_or_app. left.
      apply (in_map (fun sc => scale_dir CORPUS_DIR (fst sc))), Hsc.
    + intros t Ht. apply Hout, in_or_app. right.
      apply (in_map (fun t => scale_dir CORPUS_DIR (target_name t))), Ht.
Qed.

(** X29: what the program prints. Given rounds for the longest loop, [main]
    ends from every state and prints the title, the heading of the
    profiles, one line for each profile of [SCALES] with its name, its
    number of blueprints, of expectations and of expectation files, which
    are the same for every seed, followed by its size; then the heading of
    the targets, one line for each target of [EXPECTATION_SCALES] with the
    target as the actual number of expectations, and the two closing
    lines. *)
Theorem main_prints (rounds fuel : nat) (w : world G) :
  (Z.to_nat 5000 <= rounds)%nat ->
  exists (scale_lines target_lines : list string) (w' : world G),
    main CORPUS_DIR rounds (S (S fuel)) w
    = Return ((("=== Generating Caffeine Benchmark Corpus ===" +:+ newline)
               :: "--- Complexity Scaling ---"
               :: scale_lines
               ++ (newline +:+ "--- Expectation Count Scaling (fixed 'large' blueprint) ---")
               :: target_lines
               ++ (newline +:+ "Corpus generated in: " +:+ CORPUS_DIR) :: "Done!" :: nil,
               true), w')
    /\ Forall2 (fun start line =>
                  exists size, line = start +:+ format_grouped size +:+ " bytes")
               ("  small   :   2 blueprints,     4 expectations across   1 files, total "
                :: "  medium  :   5 blueprints,    24 expectations across   4 files, total "
                :: "  large   :  20 blueprints,   120 expectations across  12 files, total "
                :: "  huge    :  50 blueprints,   600 expectations across  25 files, total "
                :: "  insane  :  50 blueprints,  1200 expectations across  80 files, total "
                :: "  absurd  :  50 blueprints,  4000 expectations across 160 files, total "
                :: nil)
               scale_lines
    /\ Forall2 (fun start line =>
                  exists count size,
                    line = start +:+ format_d 3 count +:+ " files, total "
                           +:+ format_grouped size +:+ " bytes")
               ("  target    10: actual    10 expectations, "
                :: "  target    50: actual    50 expectations, "
                :: "  target   100: actual   100 expectations, "
                :: "  target   500: actual   500 expectations, "
                :: "  target  1000: actual  1000 expectations, "
                :: "  target  2500: actual  2500 expectations, "
                :: "  target  5000: actual  5000 expectations, " :: nil)
               target_lines.
Proof.
  intros Hrounds.
  destruct (main_spec rounds fuel w Hrounds)
    as (r & w' & E & scale_lines & target_lines & -> & Hscales & Htargets & _).
  exists scale_lines, target_lines, w'. split; [exact E|]. split; assumption.
Qed.

(** X30: the program replaces the corpus and touches nothing else. After
    [main] every file outside [CORPUS_DIR] is as before, and every file
    below [CORPUS_DIR] is below the directory of a profile or of a target:
    what an earlier run left elsewhere in the corpus is removed. *)
Theorem main_disk (rounds fuel : nat) (w : world G) :
  (Z.to_nat 5000 <= rounds)%nat ->
  exists (printed : list string) (w' : world G),
    main CORPUS_DIR rounds (S (S fuel)) w = Return ((printed, true), w')
    /\ (forall path, under CORPUS_DIR path = false -> files w' !! path = files w !! path)
    /\ (forall path,
           under CORPUS_DIR path = true -> files w' !! path <> None ->
           (exists scale_name, In scale_name (map fst SCALES)
                               /\ under (path_join CORPUS_DIR scale_name) path = true)
           \/ (exists t, In t EXPECTATION_SCALES
                         /\ under (path_join CORPUS_DIR ("exp_scale_" +:+ str_Z t)) path
                            = true)).
Proof.
  intros Hrounds.
  destruct (main_spec rounds fuel w Hrounds)
    as (r & w' & E & scale_lines & target_lines & -> & _ & _ & Hframe).
  eexists _, w'. split; [exact E|]. split.
  - intros path Hu. rewrite Hframe, Hu; [reflexivity|].
    intros d Hd. destruct (under d path) eqn:Hd'; [|reflexivity].
    unfold corpus_dirs in Hd. apply in_app_or in Hd as [Hd|Hd];
      apply in_map_iff in Hd as (x & <- & _); apply under_below in Hd'; congruence.
  - intros path Hu Hsome. destruct (below_some corpus_dirs path) as [Hnone|(d & Hd & Hd')].
    + rewrite (Hframe path Hnone), Hu in Hsome. congruence.
    + unfold corpus_dirs in Hd. apply in_app_or in Hd as [Hd|Hd];
        apply in_map_iff in Hd as (x & <- & Hx).
      * left. exists (fst x). split; [apply in_map, Hx | exact Hd'].
      * right. exists x. split; [exact Hx | exact Hd'].
Qed.

End Program.

(** A run over a short tape, on a disk with a file of an earlier corpus and
    a file of another directory. *)
Definition program_start : world Tape.tape :=
  World (1 :: 6 :: 1 :: 8 :: nil) ∅
        (<["corpus/old/blueprints.caffeine" := "stale"]>
           (<["notes/readme.txt" := "kept"]> ∅)).

Lemma main_prints_witness :
  exists (scale_lines target_lines : list string) (w' : world Tape.tape),
    main "corpus" (Z.to_nat 5000) 2 program_start
    = Return ((("=== Generating Caffeine Benchmark Corpus ===" +:+ newline)
               :: "--- Complexity Scaling ---"
               :: scale_lines
               ++ (newline +:+ "--- Expectation Count Scaling (fixed 'large' blueprint) ---")
               :: target_lines
               ++ (newline +:+ "Corpus generated in: " +:+ "corpus") :: "Done!" :: nil,
               true), w')
    /\ Forall2 (fun start line =>
                  exists size, line = start +:+ format_grouped size +:+ " bytes")
               ("  small   :   2 blueprints,     4 expectations across   1 files, total "
                :: "  medium  :   5 blueprints,    24 expectations across   4 files, total "
                :: "  large   :  20 blueprints,   120 expectations across  12 files, total "
                :: "  huge    :  50 blueprints,   600 expectations across  25 files, total "
                :: "  insane  :  50 blueprints,  1200 expectations across  80 files, total "
                :: "  absurd  :  50 blueprints,  4000 expectations across 160 files, total "
                :: nil)
               scale_lines
    /\ Forall2 (fun start line =>
                  exists count size,
                    line = start +:+ format_d 3 count +:+ " files, total "
                           +:+ format_grouped size +:+ " bytes")
               ("  target    10: actual    10 expectations, "
                :: "  target    50: actual    50 expectations, "
                :: "  target   100: actual   100 expectations, "
                :: "  target   500: actual   500 expectations, "
                :: "  target  1000: actual  1000 expectations, "
                :: "  target  2500: actual  2500 expectations, "
                :: "  target  5000: actual  5000 expectations, " :: nil)
               target_lines.
Proof. apply (main_prints "corpus" (Z.to_nat 5000) 0 program_start). lia. Defined.

Lemma main_disk_witness :
  exists (printed : list string) (w' : world Tape.tape),
    main "corpus" (Z.to_nat 5000) 2 program_start = Return ((printed, true), w')
    /\ (forall path, under "corpus" path = false ->
                     files w' !! path = files program_start !! path)
    /\ (forall path,
           under "corpus" path = true -> files w' !! path <> None ->
           (exists scale_name, In scale_name (map fst SCALES)
                               /\ under (path_join "corpus" scale_name) path = true)
           \/ (exists t, In t EXPECTATION_SCALES
                         /\ under (path_join "corpus" ("exp_scale_" +:+ str_Z t)) path
                            = true)).
Proof. apply (main_disk "corpus" (Z.to_nat 5000) 0 program_start). lia. Defined.

End Program.
